(** * Nexus Dashboard pre-upgrade validation worker: a shallow embedding

    The worker script [worker_functions.py] is embedded as Rocq functions.
    The Python 3 code paths are the ones modelled ([sys.version_info[0] >= 3]):
    dictionaries keep insertion order, and [SystemExit] passes through an
    [except Exception] clause but is caught by a bare [except:]. *)

From Stdlib Require Import String Ascii List Bool Arith ZArith Lia.
From Stdlib Require Import DecimalString DecimalNat Permutation.
Import ListNotations.
Open Scope string_scope.
Open Scope list_scope.

(** ** Python strings and POSIX path helpers *)

Module PyStr.

(** [sub in s] *)
Fixpoint contains (sub s : string) : bool :=
  String.prefix sub s ||
  match s with
  | EmptyString => false
  | String _ s' => contains sub s'
  end.

Definition startswith (s p : string) : bool := String.prefix p s.

Definition is_space (c : ascii) : bool :=
  let n := nat_of_ascii c in
  (Nat.eqb n 32 || (Nat.leb 9 n && Nat.leb n 13)
   || (Nat.leb 28 n && Nat.leb n 31))%bool.

Fixpoint lstrip (s : string) : string :=
  match s with
  | EmptyString => EmptyString
  | String c s' => if is_space c then lstrip s' else s
  end.

Fixpoint rstrip (s : string) : string :=
  match s with
  | EmptyString => EmptyString
  | String c s' =>
      match rstrip s' with
      | EmptyString => if is_space c then EmptyString else String c EmptyString
      | r => String c r
      end
  end.

(** [s.strip()] *)
Definition strip (s : string) : string := rstrip (lstrip s).

(** [s.split(sep)] for a one-character separator. *)
Fixpoint split (sep : ascii) (s : string) : list string :=
  match s with
  | EmptyString => [EmptyString]
  | String c s' =>
      if Ascii.eqb c sep then EmptyString :: split sep s'
      else match split sep s' with
           | [] => [String c EmptyString]
           | w :: ws => String c w :: ws
           end
  end.

Definition nonempty (s : string) : bool :=
  match s with EmptyString => false | _ => true end.

(** [sep.join(l)] *)
Fixpoint join (sep : string) (l : list string) : string :=
  match l with
  | [] => EmptyString
  | [x] => x
  | x :: rest => x ++ sep ++ join sep rest
  end.

Fixpoint last_char (s : string) : option ascii :=
  match s with
  | EmptyString => None
  | String c EmptyString => Some c
  | String _ s' => last_char s'
  end.

Definition slash : ascii := "/"%char.

(** [posixpath.join(a, b)] *)
Definition os_path_join (a b : string) : string :=
  if startswith b "/" then b
  else match last_char a with
       | None => b
       | Some c => if Ascii.eqb c slash then a ++ b else a ++ "/" ++ b
       end.

Fixpoint drop_common (xs ys : list string) : list string * list string :=
  match xs, ys with
  | x :: xs', y :: ys' =>
      if String.eqb x y then drop_common xs' ys' else (xs, ys)
  | _, _ => (xs, ys)
  end.

(** [posixpath.relpath(path, start)] for absolute, normalised arguments
    (the worker only passes paths below [/tmp/ndpreupgradecheck]). *)
Definition os_path_relpath (path start : string) : string :=
  let start_list := filter nonempty (split slash start) in
  let path_list := filter nonempty (split slash path) in
  let '(s_rest, p_rest) := drop_common start_list path_list in
  let rel_list := map (fun _ => "..") s_rest ++ p_rest in
  match rel_list with
  | [] => "."
  | _ => join "/" rel_list
  end.

(** *** [fnmatch.fnmatch] on POSIX: shell-style wildcards, case sensitive *)

Inductive glob_item : Type :=
| GChar (c : ascii)
| GRange (lo hi : ascii).

Inductive glob_tok : Type :=
| TStar
| TAny
| TLit (c : ascii)
| TClass (negated : bool) (items : list glob_item).

Fixpoint class_items (cs : list ascii) : list glob_item :=
  match cs with
  | [] => []
  | lo :: rest =>
      match rest with
      | dash :: hi :: rest' =>
          if Ascii.eqb dash "-"%char then GRange lo hi :: class_items rest'
          else GChar lo :: class_items rest
      | _ => GChar lo :: class_items rest
      end
  end.

(** Position of the bracket that closes a class whose body starts [cs];
    a bracket in first position is a literal member. *)
Fixpoint find_close (cs : list ascii) (first : bool) : option nat :=
  match cs with
  | [] => None
  | c :: rest =>
      if Ascii.eqb c "]"%char && negb first then Some 0
      else option_map S (find_close rest false)
  end.

Fixpoint translate (fuel : nat) (cs : list ascii) : list glob_tok :=
  match fuel with
  | O => []
  | S fuel' =>
      match cs with
      | [] => []
      | c :: rest =>
          if Ascii.eqb c "*"%char then TStar :: translate fuel' rest
          else if Ascii.eqb c "?"%char then TAny :: translate fuel' rest
          else if Ascii.eqb c "["%char then
            let '(neg, body) :=
              match rest with
              | b :: rest' =>
                  if Ascii.eqb b "!"%char then (true, rest') else (false, rest)
              | [] => (false, rest)
              end in
            match find_close body true with
            | None => TLit c :: translate fuel' rest
            | Some j =>
                TClass neg (class_items (firstn j body))
                  :: translate fuel' (skipn (S j) body)
            end
          else TLit c :: translate fuel' rest
      end
  end.

Definition item_matches (c : ascii) (it : glob_item) : bool :=
  match it with
  | GChar d => Ascii.eqb c d
  | GRange lo hi =>
      Nat.leb (nat_of_ascii lo) (nat_of_ascii c) && Nat.leb (nat_of_ascii c) (nat_of_ascii hi)
  end.

Fixpoint glob_match (p : list glob_tok) (s : list ascii) {struct p} : bool :=
  match p with
  | [] => match s with [] => true | _ => false end
  | TStar :: p' =>
      (fix star (s : list ascii) : bool :=
         glob_match p' s ||
         match s with
         | [] => false
         | _ :: s' => star s'
         end) s
  | TAny :: p' =>
      match s with
      | [] => false
      | _ :: s' => glob_match p' s'
      end
  | TLit c :: p' =>
      match s with
      | [] => false
      | d :: s' => Ascii.eqb c d && glob_match p' s'
      end
  | TClass neg items :: p' =>
      match s with
      | [] => false
      | d :: s' => xorb neg (existsb (item_matches d) items) && glob_match p' s'
      end
  end.

Definition fnmatch (name pat : string) : bool :=
  let cs := list_ascii_of_string pat in
  glob_match (translate (List.length cs) cs) (list_ascii_of_string name).

End PyStr.

(** ** Insertion-ordered dictionaries (Python 3 [dict]) *)

Module Dict.

Definition t (V : Type) : Type := list (string * V).

Fixpoint get {V} (k : string) (d : t V) : option V :=
  match d with
  | [] => None
  | (k', v) :: rest => if String.eqb k k' then Some v else get k rest
  end.

Definition mem {V} (k : string) (d : t V) : bool :=
  match get k d with Some _ => true | None => false end.

(** [d[k] = v]: an existing key keeps its position, a new key goes last. *)
Fixpoint set {V} (k : string) (v : V) (d : t V) : t V :=
  match d with
  | [] => [(k, v)]
  | (k', v') :: rest =>
      if String.eqb k k' then (k', v) :: rest else (k', v') :: set k v rest
  end.

Definition keys {V} (d : t V) : list string := map fst d.

End Dict.

(** ** [class FileCache]: one directory scan, then lookups from memory *)

Module FileCache.

(** What [os.walk(base_dir)] yields: [(root, dirs, files)] per directory,
    top-down. *)
Definition walk_entry : Type := string * list string * list string.

(** The directory tree as the scan observes it. *)
Record DirView : Type := mkDirView {
  dir_exists : bool;               (* os.path.exists(base_dir) *)
  os_walk : list walk_entry
}.

Record t : Type := mkCache {
  base_dir : string;
  file_cache : Dict.t (list string);   (* filename -> full paths *)
  path_cache : Dict.t string           (* relative path -> full path *)
}.

(** Body of the inner loop of [_scan_once] for one file of one directory. *)
Definition scan_file (root : string) (self : t) (file : string) : t :=
  let full_path := PyStr.os_path_join root file in
  let rel_path := PyStr.os_path_relpath full_path (base_dir self) in
  let known :=
    match Dict.get file (file_cache self) with
    | None => []                   (* self.file_cache[file] = [] *)
    | Some paths => paths
    end in
  mkCache (base_dir self)
          (Dict.set file (known ++ [full_path]) (file_cache self))
          (Dict.set rel_path full_path (path_cache self)).

Definition scan_dir (self : t) (e : walk_entry) : t :=
  let '(root, _, files) := e in
  fold_left (scan_file root) files self.

Definition _scan_once (fs : DirView) (self : t) : t :=
  if negb (dir_exists fs) then self
  else fold_left scan_dir (os_walk fs) self.

(** [FileCache(base_dir)] *)
Definition init (base : string) (fs : DirView) : t :=
  _scan_once fs (mkCache base [] []).

Definition mem_str (x : string) (l : list string) : bool :=
  existsb (String.eqb x) l.

(** The wildcard pass over [self.file_cache.items()]. *)
Definition name_matches (self : t) (pattern : string) : list string :=
  flat_map (fun kv : string * list string =>
              if PyStr.fnmatch (fst kv) pattern then snd kv else [])
           (file_cache self).

(** One iteration of the pass over [self.path_cache.items()]. *)
Definition path_step (pattern : string) (matches : list string)
           (kv : string * string) : list string :=
  let '(rel_path, full_path) := kv in
  if PyStr.fnmatch rel_path pattern || PyStr.contains pattern rel_path then
    if mem_str full_path matches then matches else matches ++ [full_path]
  else matches.

Definition find_files (self : t) (pattern : string) : list string :=
  match Dict.get pattern (file_cache self) with
  | Some paths => paths                       (* exact filename *)
  | None =>
      fold_left (path_step pattern) (path_cache self)
                (name_matches self pattern)
  end.

Definition refresh (fs : DirView) (self : t) : t :=
  _scan_once fs (mkCache (base_dir self) [] []).

(** A client session on one cache object. *)
Inductive op : Type :=
| Find (pattern : string)
| Refresh.

Fixpoint run_ops (fs : DirView) (self : t) (ops : list op)
  : list (string * list string) :=
  match ops with
  | [] => []
  | Find p :: rest => (p, find_files self p) :: run_ops fs self rest
  | Refresh :: rest => run_ops fs (refresh fs self) rest
  end.

(** *** Reference descriptions used by the statements *)

(** Full paths of the files called [name], in scan order. *)
Definition recorded (fs : DirView) (name : string) : list string :=
  if negb (dir_exists fs) then []
  else flat_map (fun e : walk_entry =>
                   let '(root, _, files) := e in
                   map (PyStr.os_path_join root)
                       (filter (String.eqb name) files))
                (os_walk fs).

(** All full paths the walk lists. *)
Definition walk_paths (fs : DirView) : list string :=
  flat_map (fun e : walk_entry =>
              let '(root, _, files) := e in
              map (PyStr.os_path_join root) files)
           (os_walk fs).

(** Full paths whose relative path matches by wildcard or by substring. *)
Definition path_matches (self : t) (pattern : string) : list string :=
  map snd
      (filter (fun kv : string * string =>
                 PyStr.fnmatch (fst kv) pattern
                 || PyStr.contains pattern (fst kv))
              (path_cache self)).

(** Keep the first occurrence of what is not yet in [seen]. *)
Fixpoint first_seen (seen l : list string) : list string :=
  match l with
  | [] => []
  | x :: rest =>
      if mem_str x seen then first_seen seen rest
      else x :: first_seen (seen ++ [x]) rest
  end.

(** The files the walk lists, as (directory, file name), in scan order;
    nothing when the base directory does not exist. *)
Definition walk_files (fs : DirView) : list (string * string) :=
  if negb (dir_exists fs) then []
  else flat_map (fun e : walk_entry =>
                   let '(root, _, files) := e in map (pair root) files)
                (os_walk fs).

(** The distinct file names of the tree, in order of first listing. *)
Definition listed_names (fs : DirView) : list string :=
  first_seen [] (map snd (walk_files fs)).

(** What the filename stage is to find: for every listed name that the
    pattern matches as a wildcard, the paths recorded under it. *)
Definition by_name (fs : DirView) (pattern : string) : list string :=
  flat_map (recorded fs)
           (filter (fun name => PyStr.fnmatch name pattern) (listed_names fs)).

(** Relative and full path of every listed file, in scan order. *)
Definition walk_rel (base : string) (fs : DirView) : list (string * string) :=
  map (fun rf : string * string =>
         let full := PyStr.os_path_join (fst rf) (snd rf) in
         (PyStr.os_path_relpath full base, full))
      (walk_files fs).

(** The full path listed last under a relative path. *)
Fixpoint last_under (rel : string) (l : list (string * string))
  : option string :=
  match l with
  | [] => None
  | (r, full) :: rest =>
      match last_under rel rest with
      | Some x => Some x
      | None => if String.eqb rel r then Some full else None
      end
  end.

(** What the path stage is to find: for every distinct relative path, in
    order of first listing, that the pattern matches as a wildcard or is
    a substring of, the full path listed under it. *)
Definition by_path (base : string) (fs : DirView) (pattern : string)
  : list string :=
  flat_map (fun rel =>
              match last_under rel (walk_rel base fs) with
              | Some full => [full]
              | None => []
              end)
           (filter (fun rel => PyStr.fnmatch rel pattern
                               || PyStr.contains pattern rel)
                   (first_seen [] (map fst (walk_rel base fs)))).

(** The scan as one pass over the listed files. *)
Definition scan_pair (self : t) (rf : string * string) : t :=
  scan_file (fst rf) self (snd rf).

(** The lookup as the specification words it: three stages, each tried
    only when the one before found nothing. *)
Definition spec_find (self : t) (pattern : string) : list string :=
  match Dict.get pattern (file_cache self) with
  | Some paths => paths
  | None =>
      match name_matches self pattern with
      | [] => first_seen [] (path_matches self pattern)
      | by_name => first_seen [] by_name
      end
  end.

(** All the paths a cache holds by name. *)
Definition held (self : t) : list string := concat (map snd (file_cache self)).

Definition as_opt (l : list string) : option (list string) :=
  match l with [] => None | _ => Some l end.

(** Patterns looked up during a session, in order. *)
Fixpoint finds (ops : list op) : list string :=
  match ops with
  | [] => []
  | Find p :: rest => p :: finds rest
  | Refresh :: rest => finds rest
  end.

End FileCache.

(** ** [process_large_file_streaming] *)

Module Streaming.

(** What opening and iterating the file can do. [ReadError ls] delivers
    the lines [ls] and then raises. *)
Inductive file_view : Type :=
| Missing                               (* os.path.exists is False *)
| OpenError
| Lines (ls : list string)
| ReadError (ls : list string).

Record match_record : Type := mkMatch {
  line_number : nat;
  content : string;
  pattern : string
}.

(** The [for pattern in search_patterns] loop on one line; the flag tells
    that [return matches] was reached. *)
Fixpoint scan_patterns (max_matches : Z) (num : nat) (line : string)
         (pats : list string) (matches : list match_record)
  : list match_record * bool :=
  match pats with
  | [] => (matches, false)
  | p :: rest =>
      if PyStr.contains p line then
        let matches' := matches ++ [mkMatch (num + 1) line p] in
        if (Z.of_nat (List.length matches') >=? max_matches)%Z
        then (matches', true)
        else scan_patterns max_matches num line rest matches'
      else scan_patterns max_matches num line rest matches
  end.

(** The [for line_num, line in enumerate(f)] loop. *)
Fixpoint scan_lines (max_matches : Z) (pats : list string) (num : nat)
         (ls : list string) (matches : list match_record)
  : list match_record * bool :=
  match ls with
  | [] => (matches, false)
  | raw :: rest =>
      let line := PyStr.strip raw in
      let '(matches', stop) := scan_patterns max_matches num line pats matches in
      if stop then (matches', true)
      else scan_lines max_matches pats (S num) rest matches'
  end.

Definition process_large_file_streaming
           (file : file_view) (search_patterns : list string)
           (max_matches : Z) : list match_record :=
  match file with
  | Missing => []
  | OpenError => []                     (* except: warning, return matches *)
  | Lines ls => fst (scan_lines max_matches search_patterns 0 ls [])
  | ReadError ls =>
      (* the lines before the fault are processed as usual; the handler
         keeps what was collected *)
      fst (scan_lines max_matches search_patterns 0 ls [])
  end.

(** Every match of the file, with no limit. *)
Definition line_matches (num : nat) (raw : string) (pats : list string)
  : list match_record :=
  map (mkMatch (num + 1) (PyStr.strip raw))
      (filter (fun p => PyStr.contains p (PyStr.strip raw)) pats).

Fixpoint all_matches (num : nat) (ls : list string) (pats : list string)
  : list match_record :=
  match ls with
  | [] => []
  | raw :: rest => line_matches num raw pats ++ all_matches (S num) rest pats
  end.

End Streaming.

(** ** The worker's global state and its effects *)

Module Worker.

Definition BASE_DIR : string := "/tmp/ndpreupgradecheck".

(** One entry of [results["checks"]]: the two mandatory keys and the
    optional ones ([explanation], [recommendation], [reference]). *)
Record CheckResult : Type := mkCR {
  status : string;
  details : list string;
  extra : Dict.t string
}.

Definition fresh : CheckResult := mkCR "PASS" [] [].

(** [results["checks"]] as the module initialises it. *)
Definition initial_checks : Dict.t CheckResult :=
  [ ("version_check", fresh); ("subnet_check", fresh);
    ("node_status", fresh); ("ping_check", fresh);
    ("disk_space", fresh); ("pod_status", fresh);
    ("system_health", fresh); ("techsupport", fresh);
    ("certificate_check", fresh); ("iso_check", fresh);
    ("lvm_pvs_check", fresh); ("persistent_ip_check", fresh);
    ("atom0_nvme_check", fresh); ("atom0_vg_check", fresh);
    ("nxos_discovery_service", fresh) ].

Definition registered : list string := Dict.keys initial_checks.

(** The content of the status (heartbeat) file. *)
Record Heartbeat : Type := mkHB {
  hb_status : string;
  hb_operation : string;
  hb_progress : Z
}.

Record St : Type := mkSt {
  checks : Dict.t CheckResult;             (* results["checks"] *)
  version : option string;                 (* results["version"] *)
  status_file : list Heartbeat;            (* every content written, oldest first *)
  results_file : list (Dict.t CheckResult);(* every content saved, oldest first *)
  status_writable : bool;                  (* open(STATUS_FILE, 'w') succeeds *)
  results_writable : bool;                 (* open(RESULTS_FILE, 'w') succeeds *)
  commands : list string;                  (* extraction commands run, oldest first *)
  file_cache : option FileCache.t;         (* _file_cache *)
  sigint : option nat;                     (* steps left before SIGINT arrives *)
  cleanups : list string                   (* commands run by cleanup_processes *)
}.

Definition initial_state (status_ok results_ok : bool) (intr : option nat) : St :=
  mkSt initial_checks None [] [] status_ok results_ok [] None intr [].

Definition with_checks (c : Dict.t CheckResult) (s : St) : St :=
  mkSt c (version s) (status_file s) (results_file s) (status_writable s)
       (results_writable s) (commands s) (file_cache s) (sigint s) (cleanups s).

Definition with_sigint (i : option nat) (s : St) : St :=
  mkSt (checks s) (version s) (status_file s) (results_file s)
       (status_writable s) (results_writable s) (commands s) (file_cache s)
       i (cleanups s).

Definition with_cleanups (l : list string) (s : St) : St :=
  mkSt (checks s) (version s) (status_file s) (results_file s)
       (status_writable s) (results_writable s) (commands s) (file_cache s)
       (sigint s) l.

(** How a piece of code ends: normally, with an [Exception] carrying
    [str(e)], or with [SystemExit]. *)
Inductive res (A : Type) : Type :=
| Ok (a : A)
| Exc (msg : string)
| Exit (code : Z).
Arguments Ok {A} a.
Arguments Exc {A} msg.
Arguments Exit {A} code.

Definition M (A : Type) : Type := St -> res A * St.

Definition ret {A} (a : A) : M A := fun s => (Ok a, s).

Definition bind {A B} (m : M A) (k : A -> M B) : M B :=
  fun s =>
    match m s with
    | (Ok a, s') => k a s'
    | (Exc msg, s') => (Exc msg, s')
    | (Exit c, s') => (Exit c, s')
    end.

Definition raise {A} (msg : string) : M A := fun s => (Exc msg, s).

(** [try: m except Exception as e: h(str(e))]; [SystemExit] is not an
    [Exception] and passes through. *)
Definition try_except {A} (m : M A) (h : string -> M A) : M A :=
  fun s =>
    match m s with
    | (Exc msg, s') => h msg s'
    | r => r
    end.

(** [try: m except: pass]: the bare clause also catches [SystemExit]. *)
Definition try_bare (m : M unit) : M unit :=
  fun s =>
    match m s with
    | (Ok a, s') => (Ok a, s')
    | (Exc _, s') => (Ok tt, s')
    | (Exit _, s') => (Ok tt, s')
    end.

(** [try: m finally: f]: what leaves [f] replaces the outcome of [m]. *)
Definition finally {A} (m : M A) (f : M unit) : M A :=
  fun s =>
    let '(r, s') := m s in
    match f s' with
    | (Ok _, s'') => (r, s'')
    | (Exc msg, s'') => (Exc msg, s'')
    | (Exit c, s'') => (Exit c, s'')
    end.

Definition ignore {A} (m : M A) : M unit :=
  bind m (fun _ => ret tt).

Declare Scope worker_scope.
Delimit Scope worker_scope with worker.
Notation "x <- m ;; k" := (bind m (fun x => k))
  (at level 61, m at next level, right associativity) : worker_scope.
Notation "m ;; k" := (bind m (fun _ => k))
  (at level 61, right associativity) : worker_scope.
Open Scope worker_scope.

(** *** Writing the two output files *)

(** [update_status]: a failed write is caught and only printed. *)
Definition write_status (hb : Heartbeat) (s : St) : St :=
  if status_writable s then
    mkSt (checks s) (version s) (status_file s ++ [hb]) (results_file s)
         (status_writable s) (results_writable s) (commands s)
         (file_cache s) (sigint s) (cleanups s)
  else s.

(** [save_results]: a failed write is caught and only printed. *)
Definition write_results (s : St) : St :=
  if results_writable s then
    mkSt (checks s) (version s) (status_file s)
         (results_file s ++ [checks s])
         (status_writable s) (results_writable s) (commands s)
         (file_cache s) (sigint s) (cleanups s)
  else s.

(** [signal_handler]: the default [progress=0] of [update_status] applies. *)
Definition signal_handler {A} : M A :=
  fun s =>
    let s1 := write_status (mkHB "interrupted" "Script interrupted by user" 0) s in
    let s2 := write_results s1 in
    (Exit 130%Z, s2).

(** Executed before every write to the shared state and before every
    command or sleep of [cleanup_processes]: the pending SIGINT, if it is
    due, runs the handler here. *)
Definition tick : M unit :=
  fun s =>
    match sigint s with
    | None => (Ok tt, s)
    | Some O => signal_handler (with_sigint None s)
    | Some (S n) => (Ok tt, with_sigint (Some n) s)
    end.

Definition update_status (status_value operation : string) (progress : Z)
  : M unit :=
  tick ;; fun s => (Ok tt, write_status (mkHB status_value operation progress) s).

Definition save_results : M unit :=
  tick ;; fun s => (Ok tt, write_results s).

(** *** Reading and writing [results] *)

Definition key_error (k : string) : string := "'" ++ k ++ "'".

(** [results["checks"][name]] *)
Definition entry (name : string) : M CheckResult :=
  fun s =>
    match Dict.get name (checks s) with
    | Some cr => (Ok cr, s)
    | None => (Exc (key_error name), s)
    end.

Definition put_entry (name : string) (cr : CheckResult) : M unit :=
  fun s => (Ok tt, with_checks (Dict.set name cr (checks s)) s).

(** [results["checks"][name]["status"] = v] *)
Definition set_status (name v : string) : M unit :=
  tick ;; cr <- entry name ;;
  put_entry name (mkCR v (details cr) (extra cr)).

(** [results["checks"][name]["details"] = l] *)
Definition set_details (name : string) (l : list string) : M unit :=
  tick ;; cr <- entry name ;;
  put_entry name (mkCR (status cr) l (extra cr)).

(** [results["checks"][name]["details"].append(d)] *)
Definition append_detail (name d : string) : M unit :=
  tick ;; cr <- entry name ;;
  put_entry name (mkCR (status cr) (details cr ++ [d]) (extra cr)).

(** [results["checks"][name][key] = v] for one of the optional keys *)
Definition set_extra (name key v : string) : M unit :=
  tick ;; cr <- entry name ;;
  put_entry name (mkCR (status cr) (details cr) (Dict.set key v (extra cr))).

(** [results["checks"][name] = {...}] *)
Definition replace_entry (name : string) (cr : CheckResult) : M unit :=
  tick ;; put_entry name cr.

Definition get_status (name : string) : M string :=
  cr <- entry name ;; ret (status cr).

(** [results["version"] = v] *)
Definition set_version (v : string) : M unit :=
  tick ;;
  fun s => (Ok tt,
            mkSt (checks s) (Some v) (status_file s) (results_file s)
                 (status_writable s) (results_writable s) (commands s)
                 (file_cache s) (sigint s) (cleanups s)).

Fixpoint for_each {A} (l : list A) (body : A -> M unit) : M unit :=
  match l with
  | [] => ret tt
  | x :: rest => body x ;; for_each rest body
  end.

Definition when (b : bool) (m : M unit) : M unit :=
  if b then m else ret tt.

(** *** [robust_check] and the per-check boundary of [main] *)

Definition check_failed (msg : string) : list string :=
  [("Check failed: " ++ msg)%string].

Definition has_entry (name : string) : M bool :=
  fun s => (Ok (Dict.mem name (checks s)), s).

(** The decorator: any [Exception] of the body marks the check's own
    entry, if it exists, and the wrapper returns [False]. *)
Definition robust_check (check_name : string) (func : M bool) : M bool :=
  try_except func
    (fun msg =>
       present <- has_entry check_name ;;
       when present
            (set_status check_name "FAIL" ;;
             set_details check_name (check_failed msg)) ;;
       ret false).

(** The undecorated bodies of the thirteen check functions. *)
Record Bodies : Type := mkBodies {
  b_subnet_isolation : M unit;
  b_ping_reachability : M unit;
  b_node_status : M unit;
  b_disk_space : M unit;
  b_pods : M bool;
  b_system_health : M bool;
  b_nxos_discovery_service : M bool;
  b_CA_CSCwm35992 : M bool;
  b_ISOs_CSCwn94394 : M bool;
  b_lvm_pvs : M bool;
  b_persistent_ip_config : M bool;
  b_atom0_nvme : M bool;
  b_atom0_vg : M bool
}.

(** One [try: check(...) except Exception as e: ...] block of [main]:
    the entry it marks, the callable it invokes and what its handler
    writes. *)
Record guarded : Type := mkGuarded {
  g_name : string;
  g_call : M unit;
  g_status : string;
  g_details : string -> list string
}.

Definition run_guarded (g : guarded) : M unit :=
  try_except (g_call g)
    (fun msg =>
       set_status (g_name g) (g_status g) ;;
       set_details (g_name g) (g_details g msg)).

(** The blocks of [main] in source order; [@robust_check] is applied
    where the source applies it. *)
Definition main_checks (b : Bodies) : list guarded :=
  [ mkGuarded "subnet_check" (b_subnet_isolation b) "FAIL" check_failed;
    mkGuarded "ping_check" (b_ping_reachability b) "FAIL" check_failed;
    mkGuarded "node_status" (b_node_status b) "FAIL" check_failed;
    mkGuarded "disk_space" (b_disk_space b) "FAIL" check_failed;
    mkGuarded "pod_status"
              (ignore (robust_check "pod_status" (b_pods b)))
              "FAIL" check_failed;
    mkGuarded "system_health" (ignore (b_system_health b)) "FAIL" check_failed;
    mkGuarded "nxos_discovery_service"
              (ignore (b_nxos_discovery_service b)) "FAIL" check_failed;
    mkGuarded "certificate_check"
              (ignore (robust_check "certificate_check" (b_CA_CSCwm35992 b)))
              "FAIL" check_failed;
    mkGuarded "iso_check"
              (ignore (robust_check "iso_check" (b_ISOs_CSCwn94394 b)))
              "FAIL" check_failed;
    mkGuarded "lvm_pvs_check"
              (ignore (robust_check "lvm_pvs_check" (b_lvm_pvs b)))
              "FAIL" (fun _ => ["No empty Elasticsearch PVs found"]);
    mkGuarded "persistent_ip_check"
              (ignore (robust_check "persistent_ip_check"
                                    (b_persistent_ip_config b)))
              "FAIL" check_failed;
    mkGuarded "atom0_nvme_check"
              (ignore (robust_check "atom0_nvme_check" (b_atom0_nvme b)))
              "WARNING" (fun _ => ["Unable to verify NVME drive health"]);
    mkGuarded "atom0_vg_check"
              (ignore (robust_check "atom0_vg_check" (b_atom0_vg b)))
              "WARNING"
              (fun _ => ["Unable to verify if atom0 vg has >50G free space"]) ].

Definition run_checks (b : Bodies) : M unit :=
  for_each (main_checks b) run_guarded.

(** The loop of the two handlers of [main] that mark what has no details
    yet. *)
Definition mark_not_run (prefix msg : string) : M unit :=
  names <- (fun s => (Ok (Dict.keys (checks s)), s)) ;;
  for_each names
    (fun check =>
       cr <- entry check ;;
       match details cr with
       | [] =>
           set_status check "FAIL" ;;
           set_details check [(prefix ++ msg)%string]
       | _ => ret tt
       end).

(** *** The host the worker runs on *)

(** Shell command lists as the worker composes them. *)
Inductive sh : Type :=
| Cmd (c : string)
| AndThen (a b : sh)          (* a && b *)
| OrElse (a b : sh)           (* a || b *)
| Pipe (a b : sh).            (* a | b *)

Fixpoint sh_show (c : sh) : string :=
  match c with
  | Cmd x => x
  | AndThen a b => (sh_show a ++ " && " ++ sh_show b)%string
  | OrElse a b => (sh_show a ++ " || " ++ sh_show b)%string
  | Pipe a b => (sh_show a ++ " | " ++ sh_show b)%string
  end.

(** The simple commands a list runs, in order, and whether its exit
    status is zero. *)
Fixpoint sh_run (ok : string -> bool) (c : sh) : list string * bool :=
  match c with
  | Cmd x => ([x], ok x)
  | AndThen a b =>
      let '(la, ra) := sh_run ok a in
      if ra then let '(lb, rb) := sh_run ok b in (la ++ lb, rb)
      else (la, false)
  | OrElse a b =>
      let '(la, ra) := sh_run ok a in
      if ra then (la, true)
      else let '(lb, rb) := sh_run ok b in (la ++ lb, rb)
  | Pipe a b =>
      let '(la, _) := sh_run ok a in
      let '(lb, rb) := sh_run ok b in
      (la ++ lb, rb)
  end.

(** Outcome of [subprocess.run] for the collection command. *)
Inductive run_result : Type :=
| Ran (stdout stderr : string) (returncode : Z)
| RunRaised (msg : string).

Record Host : Type := mkHost {
  NODE_NAME : string;                        (* socket.gethostname() *)
  argv : list string;                        (* sys.argv[1:] *)
  path_exists : string -> bool;              (* os.path.exists *)
  makedirs_error : string -> option string;  (* os.makedirs raising *)
  glob_techsupport : list (string * option Z);
    (* glob of /techsupport/*NODE.tgz with os.path.getmtime of each
       ([None]: getmtime raises) *)
  sh_ok : string -> bool;                    (* exit status 0 of a simple command *)
  sh_stderr : string -> string;              (* stderr of a command line *)
  size_check_error : option string;          (* getsize / df parsing raising *)
  tech_size_human : string;                  (* format_size(os.path.getsize(..)) *)
  extracted_dirs : list string;              (* next(os.walk(node_dir))[1] *)
  isdir : string -> bool;                    (* os.path.isdir *)
  node_dir_view : FileCache.DirView;         (* the extracted tree *)
  run_collect : string -> run_result;        (* the tech support command *)
  poll_elapsed : list Z;                     (* elapsed seconds at each poll *)
  new_tech_file : option string;             (* a new archive that exists *)
  run_command : string -> string;            (* stdout, or empty on failure *)
  read_file : string -> (list string) + string;
    (* the lines of a file, or the message of the exception *)
  getpid : nat;                              (* os.getpid() *)
  ps_output : string;                        (* stdout of the ps of cleanup_processes *)
  py_minor : nat                             (* sys.version_info[1] *)
}.

Definition node_dir (h : Host) : string :=
  (BASE_DIR ++ "/" ++ NODE_NAME h)%string.

(** [os.path.basename] *)
Definition basename (path : string) : string :=
  last (PyStr.split PyStr.slash path) EmptyString.

Definition show_nat (n : nat) : string :=
  NilEmpty.string_of_uint (Nat.to_uint n).

Definition show_Z (z : Z) : string :=
  NilEmpty.string_of_int (Z.to_int z).

Definition run_extraction_command (h : Host) (cmd : sh) : M bool :=
  fun s =>
    let '(ran, ok) := sh_run (sh_ok h) cmd in
    (Ok ok,
     mkSt (checks s) (version s) (status_file s) (results_file s)
          (status_writable s) (results_writable s) (commands s ++ ran)
          (file_cache s) (sigint s) (cleanups s)).

(** [run_command_unified] on an extraction command line:
    [(stderr, returncode == 0)]. *)
Definition run_command_unified (h : Host) (cmd : sh) : M (string * bool) :=
  ok <- run_extraction_command h cmd ;;
  ret (sh_stderr h (sh_show cmd), ok).

(** *** Selecting an archive *)

(** [l.sort(key=..., reverse=True)]: stable, largest key first. *)
Fixpoint insert_desc (x : string * Z) (l : list (string * Z))
  : list (string * Z) :=
  match l with
  | [] => [x]
  | y :: rest =>
      if (snd y >? snd x)%Z then y :: insert_desc x rest
      else x :: y :: rest
  end.

Definition sort_newest_first (l : list (string * Z)) : list (string * Z) :=
  fold_right insert_desc [] l.

(** The keys of the sort, computed for every element before sorting. *)
Fixpoint with_mtimes (l : list (string * option Z))
  : (list (string * Z)) + string :=
  match l with
  | [] => inl []
  | (f, None) :: _ =>
      inr ("[Errno 2] No such file or directory: '" ++ f ++ "'")%string
  | (f, Some t) :: rest =>
      match with_mtimes rest with
      | inl r => inl ((f, t) :: r)
      | inr e => inr e
      end
  end.

Definition truthy (o : option string) : option string :=
  match o with
  | Some EmptyString => None
  | x => x
  end.

(** The part of [select_techsupport] after the explicit file was
    rejected or not given. *)
Definition select_newest (h : Host) : M (option string) :=
  match glob_techsupport h with
  | [] =>
      set_status "techsupport" "FAIL" ;;
      append_detail "techsupport" "No tech support files found" ;;
      update_status "error" "No tech support files found" 10 ;;
      ret None
  | tech_files =>
      match with_mtimes tech_files with
      | inr e => raise e
      | inl keyed =>
          match sort_newest_first keyed with
          | [] => ret None
          | (newest, _) :: _ =>
              update_status "running"
                ("Selected tech support file: " ++ basename newest)%string 20 ;;
              ret (Some newest)
          end
      end
  end.

Definition select_techsupport (h : Host) (specific_file : option string)
  : M (option string) :=
  update_status "running" "Selecting tech support file" 10 ;;
  match truthy specific_file with
  | Some f =>
      if path_exists h f then
        update_status "running"
          ("Selected tech support file: " ++ basename f)%string 20 ;;
        ret (Some f)
      else select_newest h
  | None => select_newest h
  end.

(** *** Extracting an archive *)

Definition techsupport_fail (detail : string) (op : string) (progress : Z)
  : M unit :=
  set_status "techsupport" "FAIL" ;;
  append_detail "techsupport" detail ;;
  update_status "error" op progress.

Definition cd (dir : string) : sh := Cmd ("cd " ++ dir)%string.

(** [extract_techsupport(node_dir, file_name)], the extraction [main]
    calls. *)
Definition extract_techsupport (h : Host) (dir file_name : string) : M unit :=
  try_except
    (let file_path := (dir ++ "/" ++ file_name)%string in
     update_status "running" "Extracting tech support archive" 50 ;;
     if negb (path_exists h file_path) then
       techsupport_fail
         ("Tech support file " ++ file_path ++ " not found")%string
         "Tech support file not found for extraction" 50
     else
       match size_check_error h with
       | Some e => raise e
       | None => ret tt
       end ;;
       success <- run_extraction_command h
                    (AndThen (cd dir) (Cmd ("tar -xzf " ++ file_path)%string)) ;;
       success <- (if success then ret true
                   else run_extraction_command h
                          (AndThen (cd dir)
                                   (Cmd ("tar -xf " ++ file_path)%string))) ;;
       if negb success then
         techsupport_fail "Failed to extract tech support"
                          "Failed to extract tech support" 60
       else
         (if path_exists h (dir ++ "/logs.tgz")%string then
            ok <- run_extraction_command h
                    (AndThen (cd dir) (Cmd "tar -xzf logs.tgz")) ;;
            if ok then ret tt
            else ignore (run_extraction_command h
                           (AndThen (cd dir) (Cmd "tar -xf logs.tgz")))
          else ret tt) ;;
         match extracted_dirs h with
         | [] =>
             techsupport_fail "No directories found after extraction"
                              "No directories found after extraction" 60
         | _ =>
             set_details "techsupport"
               [if String.eqb (nth 0 (argv h) "select") "generate"
                then "Tech support generated and extracted successfully"
                else "Tech support extracted successfully"] ;;
             update_status "running" "Tech support extraction complete" 90
         end)
    (fun e =>
       techsupport_fail
         ("Error extracting tech support file: " ++ e)%string
         ("Error extracting tech support file: " ++ e)%string 70).

(** [extract_techsupport_optimized(tech_file, node_dir)] before the
    decorator is applied. The function has no [return]: it hands back
    [None], which the model keeps as its truth value. *)
Definition extract_techsupport_optimized_body (h : Host)
           (tech_file dir : string) : M bool :=
  update_status "running" "Optimized tech support extraction" 40 ;;
  (if negb (path_exists h tech_file)
   then raise ("Tech support file " ++ tech_file ++ " not found")%string
   else ret tt) ;;
  match size_check_error h with
  | Some e => raise e            (* os.path.getsize *)
  | None => ret tt
  end ;;
  r <- run_command_unified h
         (OrElse (AndThen (cd dir)
                          (Cmd ("tar -xzf " ++ tech_file ++ " 2>/dev/null")%string))
                 (Cmd ("tar -xf " ++ tech_file)%string)) ;;
  (if snd r then ret tt
   else
     r' <- run_command_unified h
             (AndThen (cd dir)
                      (Pipe (Cmd ("gzip -dc " ++ tech_file)%string)
                            (Cmd "tar -xf -"))) ;;
     if snd r' then ret tt
     else raise ("All extraction methods failed: " ++ fst r')%string) ;;
  (if path_exists h (dir ++ "/logs.tgz")%string then
     ignore (run_command_unified h
               (OrElse (AndThen (cd dir) (Cmd "tar -xzf logs.tgz 2>/dev/null"))
                       (Cmd "tar -xf logs.tgz")))
   else ret tt) ;;
  let cache := FileCache.init dir (node_dir_view h) in
  match FileCache.find_files cache "*" with
  | [] =>
      append_detail "techsupport" "Extraction completed with empty result" ;;
      ret false
  | extracted_items =>
      let dir_count := List.length (filter (isdir h) extracted_items) in
      let file_count := List.length extracted_items - dir_count in
      set_status "techsupport" "PASS" ;;
      append_detail "techsupport"
        ("Optimized extraction: " ++ show_nat dir_count ++ " dirs, "
         ++ show_nat file_count ++ " files, saved " ++ tech_size_human h)%string ;;
      update_status "running" "Optimized extraction completed" 50 ;;
      ret false
  end.

Definition extract_techsupport_optimized (h : Host) (tech_file dir : string)
  : M bool :=
  robust_check "techsupport" (extract_techsupport_optimized_body h tech_file dir).

Definition extract_techsupport_direct := extract_techsupport_optimized.

Definition process_techsupport (h : Host) (tech_file : option string) : M unit :=
  update_status "running" "Processing tech support file" 30 ;;
  match truthy tech_file with
  | Some f =>
      if path_exists h f then
        match makedirs_error h (node_dir h) with
        | Some e =>
            techsupport_fail
              ("Failed to create directory " ++ node_dir h)%string
              ("Failed to create directory: " ++ e)%string 30
        | None => ignore (extract_techsupport_direct h f (node_dir h))
        end
      else techsupport_fail "Tech support file not found"
                            "Tech support file not found" 30
  | None => techsupport_fail "Tech support file not found"
                             "Tech support file not found" 30
  end.

(** *** Generating an archive *)

Definition digit_of (c : ascii) : option Z :=
  let n := nat_of_ascii c in
  if (Nat.leb 48 n && Nat.leb n 57)%bool then Some (Z.of_nat (n - 48)) else None.

(** The digits of a decimal literal; a single underscore may stand
    between two digits. [after_digit] tells that the last character read
    was a digit. *)
Fixpoint digits (acc : Z) (after_digit : bool) (s : string) : option Z :=
  match s with
  | EmptyString => if after_digit then Some acc else None
  | String c s' =>
      match digit_of c with
      | Some d => digits (acc * 10 + d)%Z true s'
      | None =>
          if Ascii.eqb c "_"%char && after_digit then digits acc false s'
          else None
      end
  end.

(** [int(s)] for a string of ASCII characters; [None] stands for
    [ValueError]. *)
Definition py_int (s : string) : option Z :=
  match PyStr.strip s with
  | EmptyString => None
  | String c rest as t =>
      if Ascii.eqb c "-"%char then option_map Z.opp (digits 0 false rest)
      else if Ascii.eqb c "+"%char then digits 0 false rest
      else digits 0 false t
  end.

Definition get_techsupport_command (nd_version : option string) : string :=
  match truthy nd_version with
  | None => "acs techsupport collect -s system"
  | Some v =>
      match PyStr.split "."%char v with
      | [] => "acs techsupport collect -s system"
      | major :: _ =>
          match py_int major with
          | Some m =>
              if (m >=? 4)%Z then "acs techsupport collect"
              else "acs techsupport collect -s system"
          | None => "acs techsupport collect -s system"
          end
      end
  end.

Definition generate_techsupport (h : Host) (nd_version : option string)
  : M (option string) :=
  update_status "running" "Generating tech support" 10 ;;
  let cmd := get_techsupport_command nd_version in
  try_except
    (match run_collect h cmd with
     | RunRaised e => raise e
     | Ran output stderr returncode =>
         if negb (returncode =? 0)%Z then
           if PyStr.contains "unrecognized arguments" stderr
              || PyStr.contains "error: unrecognized arguments" output then
             techsupport_fail "Tech support command failed: Invalid arguments"
               "Tech support command failed: Invalid arguments" 70 ;;
             ret None
           else if PyStr.contains "usage:" stderr
                   || PyStr.contains "usage:" output then
             techsupport_fail "Tech support command failed: Command usage error"
               "Tech support command failed: Command usage error" 70 ;;
             ret None
           else
             techsupport_fail
               ("Tech support command failed: " ++ PyStr.strip stderr)%string
               "Tech support command failed" 70 ;;
             ret None
         else if PyStr.contains "Started: TS collection" output
                 || PyStr.contains "TS collection" output then
           update_status "running" "Waiting for tech support file generation" 15 ;;
           for_each (poll_elapsed h)
             (fun elapsed =>
                when (elapsed <? 1200)%Z
                     (update_status "running"
                        "Waiting for tech support generation"
                        (15 + Z.quot (55 * elapsed) 1200)%Z)) ;;
           update_status "running" "Tech support file generated" 70 ;;
           match new_tech_file h with
           | Some f => ret (Some f)
           | None =>
               update_status "warning" "No new tech support found" 70 ;;
               match glob_techsupport h with
               | [] =>
                   techsupport_fail
                     "Failed to generate or find tech support files"
                     "Failed to find tech support files" 70 ;;
                   ret None
               | candidates =>
                   match with_mtimes candidates with
                   | inr e => raise e
                   | inl keyed =>
                       match sort_newest_first keyed with
                       | [] => ret None
                       | (newest, _) :: _ => ret (Some newest)
                       end
                   end
               end
           end
         else
           set_status "techsupport" "WARNING" ;;
           append_detail "techsupport"
             ("Unexpected output from tech support command: "
              ++ PyStr.strip output)%string ;;
           update_status "warning"
             "Unexpected output from tech support command" 70 ;;
           ret None
     end)
    (fun e =>
       techsupport_fail ("Error generating tech support: " ++ e)%string
                        ("Error generating tech support: " ++ e)%string 70 ;;
       ret None).

(** *** [cleanup_processes] *)

Definition newline : ascii := ascii_of_nat 10.

Definition lines_of (text : string) : list string := PyStr.split newline text.

(** [s.split()] *)
Fixpoint split_ws (s : string) : list string :=
  match s with
  | EmptyString => []
  | String c s' =>
      if PyStr.is_space c then split_ws s'
      else match s' with
           | EmptyString => [String c EmptyString]
           | String d _ =>
               if PyStr.is_space d then String c EmptyString :: split_ws s'
               else match split_ws s' with
                    | w :: ws => String c w :: ws
                    | [] => [String c EmptyString]
                    end
           end
  end.

(** One [subprocess.run] of the cleanup; the process waits for the
    command, so a SIGINT can be handled here. *)
Definition cleanup_run (cmd : string) : M unit :=
  tick ;; fun s => (Ok tt, with_cleanups (cleanups s ++ [cmd]) s).

(** [time.sleep(1)] *)
Definition sleep : M unit := tick.

(** The children the [ps] listing names: the first column of the lines
    whose second column is this process. *)
Definition child_pids (h : Host) : list string :=
  let our_pid := show_nat (getpid h) in
  flat_map
    (fun line =>
       if PyStr.contains our_pid line && negb (PyStr.contains "grep" line) then
         match split_ws line with
         | pid :: ppid :: _ => if String.eqb ppid our_pid then [pid] else []
         | _ => []
         end
       else [])
    (lines_of (PyStr.strip (ps_output h))).

(** The two kill loops and the two [pkill] are inside [except: pass];
    the [ps] and the [sleep] are only inside [except Exception]. *)
Definition cleanup_processes (h : Host) : M unit :=
  try_except
    (try_except
       (cleanup_run ("ps -eo pid,ppid,stat,cmd | grep " ++ show_nat (getpid h))%string ;;
        let children := child_pids h in
        for_each children
          (fun pid => try_bare (cleanup_run ("kill -TERM " ++ pid)%string)) ;;
        match children with
        | [] => ret tt
        | _ =>
            sleep ;;
            for_each children
              (fun pid =>
                 try_bare
                   (if path_exists h ("/proc/" ++ pid)%string
                    then cleanup_run ("kill -9 " ++ pid)%string
                    else ret tt))
        end)
       (fun _ => ret tt) ;;
     try_bare (cleanup_run "pkill -9 -f 'tar -x[z]f' || true" ;;
               cleanup_run "pkill -9 -f gzip || true"))
    (fun _ => ret tt).

(** *** [main] *)

Definition makedirs (h : Host) (dir : string) : M unit :=
  match makedirs_error h dir with
  | Some e => raise e
  | None => ret tt
  end.

(** The [try] block of [main] with its [except Exception] clause.
    [check_tmp_space] and the [cp] of the archive only print. *)
Definition main_body (h : Host) (bodies : string -> Bodies) : M Z :=
    (try_except
       (makedirs h BASE_DIR ;;
        let operation := nth 0 (argv h) "select" in
        let tech_support_path := nth_error (argv h) 1 in
        let nd_version := nth_error (argv h) 2 in
        tech_file <- (if String.eqb operation "generate"
                      then generate_techsupport h nd_version
                      else select_techsupport h tech_support_path) ;;
        match truthy tech_file with
        | None =>
            update_status "error" "Failed to obtain tech support file" 0 ;;
            set_status "techsupport" "FAIL" ;;
            set_details "techsupport" ["Failed to obtain tech support file"] ;;
            save_results ;;
            ret 1%Z
        | Some tech_file =>
            makedirs h (node_dir h) ;;
            let file_name := basename tech_file in
            let dest_path := (node_dir h ++ "/" ++ file_name)%string in
            extract_techsupport h (node_dir h) file_name ;;
            try_except (run_checks (bodies dest_path))
                       (mark_not_run "Check did not run: ") ;;
            update_status "complete" "All operations completed" 100 ;;
            save_results ;;
            ret 0%Z
        end)
       (fun e =>
          mark_not_run "Check did not run due to script error: " e ;;
          update_status "error" ("Error: " ++ e)%string 0 ;;
          save_results ;;
          ret 1%Z)).

(** The value [main] returns is the exit status of the process
    ([sys.exit(main())]); the [finally] clause runs on every way out of
    the [try] block. *)
Definition main (h : Host) (bodies : string -> Bodies) : M Z :=
  finally (main_body h bodies) (cleanup_processes h).

(** The exit status of the process for an outcome of [main]; an
    exception that escapes ends the interpreter with status 1. *)
Definition exit_code (r : res Z) : Z :=
  match r with
  | Ok n => n
  | Exit c => c
  | Exc _ => 1%Z
  end.

(** ** The check functions

    The text processing inside a check (table parsing, regular
    expressions, subnet arithmetic, float comparison) is taken from the
    [Probe]; every branch that reads or writes [results] or the
    heartbeat is modelled as written. *)

Inductive net_relation : Type :=
| Overlaps                        (* data_network.overlaps(mgmt_network) *)
| Contained                       (* an address lies in the other network *)
| Isolated
| NetError (msg : string).        (* the ipaddress module raised *)

Record cluster_row : Type := mkRow {
  row_name : string;
  row_version : string;
  row_status : string;
  row_is_current : bool
}.

Record acs_parse : Type := mkAcsParse {
  ap_error : option string;       (* an exception while reading the file *)
  ap_undesired : list string;
  ap_crashloop : list string;
  ap_problem : nat;
  ap_completed : nat
}.

Inductive kubectl_result : Type :=
| KRaised (msg : string)
| KRan (completed problem : nat) (returncode : Z) (stderr : string).

Inductive pip_parse : Type :=
| PipRaised (msg : string)
| PipParsed (data_external_ips : nat) (configs : list (string * list string)).

Inductive vg_parse : Type :=
| VgRaised (msg : string)
| VgNotFound                      (* no atom0 line *)
| VgUnparsed                      (* atom0 found, VFree not understood *)
| VgFree (below_50 : bool).

Record Probe : Type := mkProbe {
  p_subnet_nodes : string -> list (string * string * string);
    (* nodes_data parsed from the node table: name, data, mgmt *)
  p_net_relation : string -> string -> net_relation;
  p_ping_targets : string -> list (string * string * string);
    (* node_ips parsed from the node table: name, ip, kind *)
  p_ping_ok : string -> bool;
  p_version_match : string -> option string;
  p_cluster_rows : string -> list cluster_row;
  p_extract : string -> list string;       (* extract_from_techsupport *)
  p_df_high_usage : list string -> list string;
  p_live_df : list string * nat;
  p_acs_health : string -> acs_parse;
  p_kubectl : kubectl_result;
  p_iso_list : string -> list string;
  p_pip_parse : list string -> pip_parse;
  p_vgs_parse : list string -> vg_parse
}.

Fixpoint fold_m {A B} (l : list A) (acc : B) (body : B -> A -> M B) : M B :=
  match l with
  | [] => ret acc
  | x :: rest => acc' <- body acc x ;; fold_m rest acc' body
  end.

Definition get_file_cache (h : Host) : M FileCache.t :=
  fun s =>
    let build :=
      let c := FileCache.init (node_dir h) (node_dir_view h) in
      (Ok c,
       mkSt (checks s) (version s) (status_file s) (results_file s)
            (status_writable s) (results_writable s) (commands s)
            (Some c) (sigint s) (cleanups s)) in
    match file_cache s with
    | Some c =>
        if String.eqb (FileCache.base_dir c) (node_dir h) then (Ok c, s)
        else build
    | None => build
    end.

(** *** [check_subnet_isolation] *)

Definition with_mask (net : string) : option string :=
  if PyStr.nonempty net && negb (String.eqb net "::/0") then
    Some (if PyStr.contains "/" net then net else (net ++ "/32")%string)
  else None.

Definition subnet_node (p : Probe) (all_pass : bool)
           (node : string * string * string) : M bool :=
  let '(name, data_network, mgmt_network) := node in
  match with_mask data_network, with_mask mgmt_network with
  | Some data_ip, Some mgmt_ip =>
      match p_net_relation p data_ip mgmt_ip with
      | Overlaps =>
          set_status "subnet_check" "FAIL" ;;
          append_detail "subnet_check"
            ("Node " ++ name ++ " has data network " ++ data_ip
             ++ " and management network " ++ mgmt_ip
             ++ " in the same subnet")%string ;;
          ret false
      | Contained =>
          set_status "subnet_check" "FAIL" ;;
          append_detail "subnet_check"
            ("Node " ++ name
             ++ " has overlapping data and management networks: "
             ++ data_ip ++ ", " ++ mgmt_ip)%string ;;
          ret false
      | Isolated => ret all_pass
      | NetError e =>
          set_status "subnet_check" "WARNING" ;;
          append_detail "subnet_check"
            ("Error checking subnet isolation for " ++ name ++ ": " ++ e)%string ;;
          ret false
      end
  | _, _ =>
      set_status "subnet_check" "WARNING" ;;
      append_detail "subnet_check"
        ("Missing network information for node " ++ name)%string ;;
      ret false
  end.

Definition nl (t : string) : string := (String newline EmptyString ++ t)%string.

Definition check_subnet_isolation (h : Host) (p : Probe) : M unit :=
  update_status "running" "Checking subnet isolation" 93 ;;
  let output := run_command h "acs show nodes" in
  if negb (PyStr.nonempty output) then
    set_status "subnet_check" "WARNING" ;;
    append_detail "subnet_check" "Could not retrieve node information"
  else
    match p_subnet_nodes p output with
    | [] =>
        set_status "subnet_check" "WARNING" ;;
        append_detail "subnet_check" "Could not parse node network information"
    | nodes_data =>
        all_pass <- fold_m nodes_data true (subnet_node p) ;;
        if all_pass then
          set_details "subnet_check"
            ["Mgmt and Data interfaces are in different subnets"]
        else
          st <- get_status "subnet_check" ;;
          when (String.eqb st "FAIL")
            (append_detail "subnet_check"
               (nl ("  Explanation:" ++ nl "  The Management network and Data network must be on different subnets.")%string) ;;
             append_detail "subnet_check"
               (nl ("  Recommendation:" ++ nl "  Change the subnet schema of the Management network or Data network so there is" ++ nl "  no overlap.")%string))
    end.

(** *** [check_ping_reachability] *)

Definition check_ping_reachability (h : Host) (p : Probe) : M unit :=
  update_status "running" "Checking node reachability" 92 ;;
  let output := run_command h "acs show nodes" in
  if negb (PyStr.nonempty output) then
    set_status "ping_check" "WARNING" ;;
    append_detail "ping_check" "Could not retrieve node information"
  else
    let failed_pings :=
      map (fun t : string * string * string =>
             let '(name, ip, kind) := t in
             ("Cannot ping " ++ name ++ " (" ++ kind ++ "): " ++ ip)%string)
          (filter (fun t : string * string * string =>
                     negb (p_ping_ok p (snd (fst t))))
                  (p_ping_targets p output)) in
    match failed_pings with
    | [] =>
        set_details "ping_check"
          ["Node can ping all mgmt and data ips in the cluster"]
    | _ =>
        set_status "ping_check" "FAIL" ;;
        set_details "ping_check" failed_pings ;;
        append_detail "ping_check"
          (nl ("  Explanation:" ++ nl "  Network reachability must be in place between Nexus Dashboard nodes to ensure a successful upgrade.")%string) ;;
        append_detail "ping_check"
          (nl ("  Recommendation:" ++ nl "  Debug connectivity issues between any affected nodes and contact Cisco TAC for" ++ nl "  assistance if needed.")%string)
    end.

(** *** [check_node_status] *)

Record node_scan : Type := mkScan {
  cluster_versions : list string;       (* keys of the dict, in order *)
  non_active_nodes : list string;
  found_current_node : bool
}.

Definition node_row (acc : node_scan) (r : cluster_row) : M node_scan :=
  let versions :=
    if PyStr.nonempty (row_version r)
       && negb (FileCache.mem_str (row_version r) (cluster_versions acc))
    then cluster_versions acc ++ [row_version r]
    else cluster_versions acc in
  let active := PyStr.contains "Active" (row_status r) in
  let non_active :=
    if active then non_active_nodes acc
    else non_active_nodes acc
           ++ [(row_name r ++ ": " ++ row_status r)%string] in
  if row_is_current r then
    when (negb active)
      (set_status "node_status" "FAIL" ;;
       append_detail "node_status"
         ("Current node status is not Active: " ++ row_status r)%string) ;;
    ret (mkScan versions non_active true)
  else ret (mkScan versions non_active (found_current_node acc)).

Definition check_node_status (h : Host) (p : Probe) : M unit :=
  update_status "running" "Checking node status" 92 ;;
  let output := run_command h "acs version" in
  v <- (if PyStr.nonempty output then
     match p_version_match p output with
     | Some v =>
         set_details "version_check" ["Version returned correctly"] ;;
         ret (Some v)
     | None =>
         set_details "version_check" ["Version information found"] ;;
         ret (Some (PyStr.strip output))
     end
   else
     set_status "version_check" "WARNING" ;;
     append_detail "version_check" "Could not determine version" ;;
     ret None) ;;
  match truthy v with
  | Some v' => set_version v'
  | None => ret tt
  end ;;
  let mgmt_ip := PyStr.strip (run_command h "hostname -I | awk '{print $1}'") in
  when (negb (PyStr.nonempty mgmt_ip))
    (set_status "node_status" "WARNING" ;;
     append_detail "node_status" "Could not determine IP address") ;;
  let output := run_command h "acs show nodes" in
  if PyStr.nonempty output then
    scan <- fold_m (p_cluster_rows p output) (mkScan [] [] false) node_row ;;
    match cluster_versions scan with
    | _ :: _ :: _ =>
        set_status "version_check" "FAIL" ;;
        set_details "version_check"
          ["Cluster has inconsistent versions across nodes"] ;;
        set_extra "version_check" "explanation"
          "All nodes in the cluster must be on the same ND version for upgrade." ;;
        set_extra "version_check" "recommendation"
          "Ensure all nodes are upgraded to the same version before proceeding."
    | [v] =>
        st <- get_status "version_check" ;;
        when (String.eqb st "PASS")
          (set_details "version_check"
             [("All cluster nodes are on the same version: " ++ v)%string])
    | [] =>
        set_status "version_check" "WARNING" ;;
        set_details "version_check" ["Could not determine version consistency"]
    end ;;
    match non_active_nodes scan with
    | [] =>
        set_details "node_status"
          ["All nodes in the cluster are in Active state"]
    | nodes =>
        set_status "node_status" "FAIL" ;;
        for_each nodes
          (fun n => append_detail "node_status"
                      ("Node not Active: " ++ n)%string)
    end ;;
    when (negb (found_current_node scan))
      (set_status "node_status" "WARNING" ;;
       append_detail "node_status"
         "Could not find this node in cluster information")
  else
    set_status "node_status" "WARNING" ;;
    append_detail "node_status" "Could not get node status information".

(** *** More string helpers *)

Definition text_of (lines : list string) : string :=
  PyStr.join (String newline EmptyString) lines.

Definition lower_char (c : ascii) : ascii :=
  let n := nat_of_ascii c in
  if (Nat.leb 65 n && Nat.leb n 90)%bool then ascii_of_nat (n + 32) else c.

Fixpoint lower (s : string) : string :=
  match s with
  | EmptyString => EmptyString
  | String c s' => String (lower_char c) (lower s')
  end.

(** [s.split(sep)] for a non-empty separator string. *)
Fixpoint split_on (sep : string) (skip : nat) (s : string) : list string :=
  match s with
  | EmptyString => [EmptyString]
  | String c s' =>
      match skip with
      | S k => split_on sep k s'
      | O =>
          if String.prefix sep s
          then EmptyString :: split_on sep (String.length sep - 1) s'
          else match split_on sep 0 s' with
               | w :: ws => String c w :: ws
               | [] => [String c EmptyString]
               end
      end
  end.

(** [s.split(c, 1)] *)
Fixpoint split_once (sep : ascii) (s : string) : string * option string :=
  match s with
  | EmptyString => (EmptyString, None)
  | String c s' =>
      if Ascii.eqb c sep then (EmptyString, Some s')
      else let '(a, b) := split_once sep s' in (String c a, b)
  end.

Definition is_digit (c : ascii) : bool :=
  match digit_of c with Some _ => true | None => false end.

Fixpoint keep_digits (s : string) : string :=
  match s with
  | EmptyString => EmptyString
  | String c s' =>
      if is_digit c then String c (keep_digits s') else keep_digits s'
  end.

(** The version named by the content of [acs_version]. *)
Definition nd_version_of (version_line : string) : string :=
  if PyStr.contains "Nexus Dashboard" version_line
  then PyStr.strip (nth 1 (split_on "Nexus Dashboard" 0 version_line) EmptyString)
  else version_line.

(** [major, minor, patch] when the version has three parts and they
    parse; [inr tt] stands for the [ValueError]. *)
Definition parse_three (nd_version : string) : option ((Z * Z * Z) + unit) :=
  match PyStr.split "."%char nd_version with
  | a :: b :: c :: _ =>
      match py_int a, py_int b with
      | Some major, Some minor =>
          match c with
          | EmptyString => Some (inl (major, minor, 0%Z))
          | _ =>
              match py_int (keep_digits c) with
              | Some patch => Some (inl (major, minor, patch))
              | None => Some (inr tt)
              end
          end
      | _, _ => Some (inr tt)
      end
  | _ => None
  end.

Definition first_some {A} (l : list (list A)) : list A :=
  match filter (fun x : list A => match x with [] => false | _ => true end) l with
  | [] => []
  | x :: _ => x
  end.

(** *** [check_disk_space] *)

Definition disk_fail (high_usage_dirs : list string) : M unit :=
  set_status "disk_space" "FAIL" ;;
  set_details "disk_space" high_usage_dirs ;;
  set_extra "disk_space" "explanation"
    "Directories with high usage can potentially cause upgrade issues or failures." ;;
  set_extra "disk_space" "recommendation"
    ("Contact Cisco TAC for assistance to reduce disk space utilization before proceeding"
     ++ nl "  with the upgrade.")%string.

Definition check_disk_space (h : Host) (p : Probe) (tech_file : string)
  : M unit :=
  update_status "running" "Checking disk space" 94 ;;
  match first_some [p_extract p "*/k8-diag/df-m";
                    p_extract p "*/storage-diag/df-m"] with
  | file_path_used :: _ =>
      match read_file h file_path_used with
      | inr e => raise e               (* open / iteration, not guarded *)
      | inl file_lines =>
          match p_df_high_usage p (tl file_lines) with
          | [] =>
              set_details "disk_space" ["All directories are under 70% usage"]
          | high => disk_fail high
          end
      end
  | [] =>
      let '(high, under_threshold_count) := p_live_df p in
      match high with
      | [] =>
          if Nat.ltb 0 under_threshold_count then
            set_details "disk_space" ["All directories are under 70% usage"]
          else
            set_status "disk_space" "WARNING" ;;
            append_detail "disk_space"
              "No filesystem usage data could be parsed"
      | _ => disk_fail high
      end
  end.

(** *** [check_pods] *)

(** [str(e)] of the [UnboundLocalError] for the local [v]; the wording
    changed with Python 3.11. *)
Definition unbound_local (h : Host) (v : string) : string :=
  if Nat.leb 11 (py_minor h)
  then ("cannot access local variable '" ++ v
        ++ "' where it is not associated with a value")%string
  else ("local variable '" ++ v ++ "' referenced before assignment")%string.

Record pod_scan : Type := mkPods {
  pod_info_extracted : bool;
  has_problems : bool;
  problem_details : list string;
  completed_pod_count : nat;
  problem_pod_count : nat
}.

Definition pods_from_archive (p : Probe) : pod_scan :=
  match first_some [p_extract p "*/acs-checks/acs_health_debug*";
                    p_extract p "*/acs_health_debug*"] with
  | acs_health_file :: _ =>
      let ap := p_acs_health p acs_health_file in
      match ap_error ap with
      | Some _ => mkPods false false [] (ap_completed ap) (ap_problem ap)
      | None =>
          let d1 :=
            match ap_undesired ap with
            | [] => []
            | l => [("Service(s) with pods in undesired state: "
                     ++ PyStr.join ", " l)%string]
            end in
          let d2 :=
            match ap_crashloop ap with
            | [] => []
            | l => [("Service(s) with pods in CrashLoopBackOff state: "
                     ++ PyStr.join ", " l)%string]
            end in
          mkPods true
                 (match d1 ++ d2 with [] => false | _ => true end)
                 (d1 ++ d2) (ap_completed ap) (ap_problem ap)
      end
  | [] => mkPods false false [] 0 0
  end.

Definition pods_final (sc : pod_scan) : M bool :=
  hp <- (if Nat.eqb (problem_pod_count sc) 0 then
     set_details "pod_status" ["All Pods and Services are in a healthy state"] ;;
     ret (has_problems sc, problem_details sc)
   else
     ret (true,
          match problem_details sc with
          | [] => [("Found " ++ show_nat (problem_pod_count sc)
                    ++ " pods in non-Running/non-Completed state")%string]
          | l => l
          end)) ;;
  when (fst hp)
    (set_status "pod_status" "FAIL" ;;
     set_details "pod_status" (snd hp) ;;
     set_extra "pod_status" "explanation"
       "Pods which are not in a healthy state can cause upgrade issues or failures." ;;
     set_extra "pod_status" "recommendation"
       "Contact Cisco TAC for assistance in remediating the affected pods.") ;;
  ret true.

Definition pods_live (p : Probe) (sc : pod_scan) : M bool :=
  let warn (msg : string) : M bool :=
    set_status "pod_status" "WARNING" ;;
    append_detail "pod_status" ("Error checking pod status: " ++ msg)%string ;;
    ret false in
  match p_kubectl p with
  | KRaised e => warn e
  | KRan completed problem returncode stderr =>
      if negb (returncode =? 0)%Z && PyStr.nonempty stderr then warn stderr
      else
        pods_final (mkPods (pod_info_extracted sc) (has_problems sc)
                           (problem_details sc)
                           (completed_pod_count sc + completed)
                           (problem_pod_count sc + problem))
  end.

Definition check_pods (h : Host) (p : Probe) (tech_file : option string)
  : M bool :=
  update_status "running" "Optimized kubernetes pod checking" 96 ;;
  match tech_file with
  | None => pods_live p (mkPods false false [] 0 0)
  | Some f =>
      if PyStr.nonempty f && path_exists h f then
        let sc := pods_from_archive p in
        if pod_info_extracted sc then pods_final sc else pods_live p sc
      else
        (* pod_info_extracted was never assigned *)
        raise (unbound_local h "pod_info_extracted")
  end.

(** *** [check_system_health] *)

Definition read_text (h : Host) (path : string) : option string :=
  match read_file h path with
  | inl ls => Some (text_of ls)
  | inr _ => None                    (* the handler only prints *)
  end.

Definition health_from_archive (h : Host) : option string :=
  let candidates :=
    filter (path_exists h)
           [(node_dir h ++ "/acs-checks/acs_health")%string;
            (node_dir h ++ "/acs_health")%string] in
  match candidates with
  | f :: _ => read_text h f
  | [] =>
      let find_cmd :=
        ("find " ++ node_dir h ++ " -name 'acs_health' -type f -print")%string in
      match filter PyStr.nonempty
                   (lines_of (PyStr.strip (run_command h find_cmd))) with
      | f :: _ => read_text h f
      | [] => None
      end
  end.

Definition check_system_health (h : Host) (tech_file : option string)
  : M bool :=
  update_status "running" "Checking system health" 98 ;;
  let from_tech :=
    match truthy tech_file with
    | Some f => if path_exists h f then health_from_archive h else None
    | None => None
    end in
  let health_info :=
    match truthy from_tech with
    | Some t => t
    | None => run_command h "acs health"
    end in
  (if PyStr.contains "All components are healthy" health_info then
     set_details "system_health" ["acs health indicates Node is healthy"]
   else if PyStr.nonempty health_info then
     let health_lines :=
       filter PyStr.nonempty
              (map PyStr.strip (lines_of (PyStr.strip health_info))) in
     let filtered_lines :=
       filter (fun l => negb (PyStr.contains "===" l || String.eqb l "Status"))
              health_lines in
     match filtered_lines with
     | first :: others =>
         set_status "system_health" "FAIL" ;;
         set_details "system_health" [first] ;;
         for_each others (append_detail "system_health")
     | [] =>
         set_status "system_health" "FAIL" ;;
         set_details "system_health" ["System health check failed"]
     end
   else
     set_status "system_health" "WARNING" ;;
     set_details "system_health" ["Could not determine system health"]) ;;
  st <- get_status "system_health" ;;
  when (negb (String.eqb st "PASS"))
    (set_extra "system_health" "explanation"
       "The system is not in a healthy state. Services might be failing or resource usage might be high." ;;
     set_extra "system_health" "recommendation"
       "Contact Cisco TAC for assistance in remediation of system health.") ;;
  ret true.

(** *** [check_nxos_discovery_service] *)

Definition nxos_reference : string :=
  "https://bst.cisco.com/bugsearch/bug/CSCwm97680".

Definition nxos_unable : M bool :=
  set_status "nxos_discovery_service" "WARNING" ;;
  set_details "nxos_discovery_service"
    ["Unable to verify NXOS Discovery Service status"] ;;
  set_extra "nxos_discovery_service" "recommendation"
    "Contact Cisco TAC for further verification." ;;
  set_extra "nxos_discovery_service" "reference" nxos_reference ;;
  ret false.

Definition below_3_1_1 (nd_version : string) : bool :=
  match parse_three nd_version with
  | Some (inl (major, minor, patch)) =>
      ((major <? 3) || ((major =? 3) && (minor <? 1))
       || ((major =? 3) && (minor =? 1) && (patch <? 1)))%Z
  | _ => false
  end.

(** The first line that names the deployment mode and has a colon. *)
Fixpoint deployment_mode_of (ls : list string) : option string :=
  match ls with
  | [] => None
  | line :: rest =>
      if PyStr.contains "desiredDeploymentMode" line then
        match split_once ":"%char line with
        | (_, Some v) => Some (PyStr.strip v)
        | (_, None) => deployment_mode_of rest
        end
      else deployment_mode_of rest
  end.

(** The loop over the lines of [k8-app]: [None] when the loop returned
    from the function, else whether a cisco-ndfc line was seen. *)
Fixpoint k8_app_scan (ls : list string) (found : bool) : M (option bool) :=
  match ls with
  | [] => ret (Some found)
  | line :: rest =>
      let line_stripped := PyStr.strip line in
      if negb (PyStr.nonempty line_stripped)
         || PyStr.startswith line_stripped "NAME" then k8_app_scan rest found
      else if PyStr.contains "command not found" line_stripped
              || PyStr.contains "Error" line_stripped then
        nxos_unable ;; ret None
      else if PyStr.contains "cisco-ndfc" (lower line_stripped) then
        match split_ws line_stripped with
        | _ :: admin_state :: _ :: _ :: operstate :: _ =>
            if String.eqb (lower admin_state) "disable"
               && String.eqb (lower operstate) "processing" then
              set_status "nxos_discovery_service" "FAIL" ;;
              set_details "nxos_discovery_service"
                ["NXOS Discovery Service in Disable/Processing state"] ;;
              set_extra "nxos_discovery_service" "explanation"
                ("During upgrade to 3.1.1 and later, NXOS Discovery Service can enter problematic "
                 ++ nl "  state under certain conditions and result in subsequent upgrade failures.")%string ;;
              set_extra "nxos_discovery_service" "recommendation"
                "Contact Cisco TAC for assistance in remediation." ;;
              set_extra "nxos_discovery_service" "reference" nxos_reference ;;
              ret None
            else k8_app_scan rest true
        | _ => k8_app_scan rest true
        end
      else k8_app_scan rest found
  end.

Definition check_nxos_discovery_service (h : Host) (tech_file : string)
  : M bool :=
  update_status "running" "Checking NXOS Discovery Service" 98 ;;
  cache <- get_file_cache h ;;
  match FileCache.find_files cache "acs-checks/acs_version" with
  | [] => nxos_unable
  | version_file :: _ =>
      match read_file h version_file with
      | inr _ => nxos_unable
      | inl version_lines =>
          let nd_version := nd_version_of (PyStr.strip (text_of version_lines)) in
          if PyStr.nonempty nd_version && below_3_1_1 nd_version then
            set_status "nxos_discovery_service" "PASS" ;;
            set_details "nxos_discovery_service"
              ["Version below 3.1.1, check not applicable"] ;;
            ret true
          else
            match FileCache.find_files cache "k8-diag/kubectl/k8-releases.yaml" with
            | [] => nxos_unable
            | k8_releases_file :: _ =>
                match read_file h k8_releases_file with
                | inr _ => nxos_unable
                | inl release_lines =>
                    match truthy (deployment_mode_of release_lines) with
                    | None => nxos_unable
                    | Some deployment_mode =>
                        if negb (String.eqb (lower deployment_mode)
                                            "ndfc-fabric-ndi") then
                          set_status "nxos_discovery_service" "PASS" ;;
                          set_details "nxos_discovery_service"
                            ["Deployment Mode is not ndfc-fabric-ndi"] ;;
                          ret true
                        else
                          match FileCache.find_files cache "k8-diag/kubectl/k8-app" with
                          | [] => nxos_unable
                          | k8_app_file :: _ =>
                              match read_file h k8_app_file with
                              | inr _ => nxos_unable
                              | inl app_lines =>
                                  r <- k8_app_scan app_lines false ;;
                                  match r with
                                  | None => ret false
                                  | Some false => nxos_unable
                                  | Some true =>
                                      set_status "nxos_discovery_service" "PASS" ;;
                                      set_details "nxos_discovery_service"
                                        ["cisco-ndfc k8 App in Enabled state"] ;;
                                      ret true
                                  end
                              end
                          end
                    end
                end
            end
      end
  end.

(** *** [check_CA_CSCwm35992] *)

(** [l = cache.find_files(pattern); l.extend(more)]: on an exact
    filename hit [find_files] hands out the list stored in the cache, so
    the extension lands in the cache as well. *)
Definition find_and_extend (h : Host) (cache : FileCache.t)
           (pattern : string) (more : list string) : M (list string) :=
  let found := FileCache.find_files cache pattern in
  match Dict.get pattern (FileCache.file_cache cache) with
  | Some _ =>
      fun s =>
        (Ok (found ++ more),
         mkSt (checks s) (version s) (status_file s) (results_file s)
              (status_writable s) (results_writable s) (commands s)
              (Some (FileCache.mkCache
                       (FileCache.base_dir cache)
                       (Dict.set pattern (found ++ more)
                                 (FileCache.file_cache cache))
                       (FileCache.path_cache cache)))
              (sigint s) (cleanups s))
  | None => ret (found ++ more)
  end.

Definition indent4 (t : string) : string :=
  PyStr.join (nl "    ") (lines_of (PyStr.strip t)).

Definition common_dirs : list string :=
  ["systeminfo"; "logs"; "k8-diag"; "storage-diag"].

Definition extracted_common (h : Host) : list string :=
  filter (fun d => path_exists h (node_dir h ++ "/" ++ d)%string) common_dirs.

(** "Final results determination"; [files_found = None] is the local
    variable that no branch assigned. *)
Definition ca_final (h : Host) (matches : list string)
           (files_found : option bool) : M bool :=
  match matches with
  | [] =>
      match files_found with
      | None => raise (unbound_local h "files_found")
      | Some false =>
          set_status "certificate_check" "ERROR" ;;
          set_details "certificate_check"
            ["Unable to find SM log files for certificate bug check"] ;;
          ret false
      | Some true =>
          set_status "certificate_check" "PASS" ;;
          set_details "certificate_check"
            ["No certificate issues found in SM logs"] ;;
          ret true
      end
  | first_match :: _ =>
      set_status "certificate_check" "FAIL" ;;
      set_details "certificate_check"
        [("Certificate name validation error detected: "
          ++ nl (nl ("    " ++ indent4 first_match)))%string] ;;
      set_extra "certificate_check" "explanation"
        "Certificate names with spaces are not supported." ;;
      set_extra "certificate_check" "recommendation"
        ("Prior to upgrading, remove this CA certificate and re-add it with a name"
         ++ nl "  without spaces.")%string ;;
      set_extra "certificate_check" "reference"
        "https://bst.cloudapps.cisco.com/bugsearch/bug/CSCwm35992" ;;
      ret true
  end.

Definition ca_warning (detail : string) : M bool :=
  set_status "certificate_check" "WARNING" ;;
  set_details "certificate_check" [detail] ;;
  ret false.

Definition check_CA_CSCwm35992 (h : Host) (tech_file : string) : M bool :=
  update_status "running" "Optimized CA certificate bug check" 95 ;;
  let search_string :=
    "a valid config key must consist of alphanumeric characters" in
  cache <- get_file_cache h ;;
  sm_log_files <- find_and_extend h cache "sm.log*"
                    (FileCache.find_files cache "*/sm/sm.log*") ;;
  match sm_log_files with
  | _ :: _ =>
      let search_cmd :=
        ("zgrep '" ++ search_string ++ "' " ++ node_dir h
         ++ "/logs/k8_infra/sm/sm.log*.gz 2>/dev/null || zgrep '"
         ++ search_string ++ "' " ++ node_dir h
         ++ "/logs/k8_infra/sm/sm.log* 2>/dev/null || echo 'No matches found'")%string in
      let output := run_command h search_cmd in
      let matches :=
        if PyStr.nonempty output
           && negb (PyStr.contains "No matches found" output)
           && PyStr.contains search_string output
        then lines_of (PyStr.strip output) else [] in
      ca_final h matches (Some true)
  | [] =>
      let find_sm_dirs_cmd :=
        ("find " ++ node_dir h ++ " -type d -path '*/sm' -print")%string in
      match filter PyStr.nonempty
                   (lines_of (PyStr.strip (run_command h find_sm_dirs_cmd))) with
      | _ :: _ =>
          ca_warning "Found SM directories but no log files to analyze"
      | [] =>
          if path_exists h (node_dir h ++ "/logs")%string
             || path_exists h (node_dir h ++ "/logs/k8_infra")%string then
            ca_warning "Found logs directory but no SM log files"
          else
            match extracted_common h with
            | _ :: _ =>
                ca_warning "Tech support is missing logs/k8_infra directory"
            | [] => ca_final h [] None
            end
      end
  end.

(** *** [check_ISOs_CSCwn94394] *)

Fixpoint numbered (i : nat) (l : list string) : list string :=
  match l with
  | [] => []
  | x :: rest =>
      ("[" ++ show_nat (i + 1) ++ "] " ++ x)%string :: numbered (S i) rest
  end.

Definition iso_final (h : Host) (p : Probe) (matches : list string)
           (files_examined : bool) : M bool :=
  match matches with
  | [] =>
      if negb files_examined then
        set_status "iso_check" "ERROR" ;;
        set_details "iso_check"
          ["Unable to find boot-hook logs for multiple ISO check"] ;;
        ret false
      else
        set_status "iso_check" "PASS" ;;
        set_details "iso_check" ["No multiple ISO issues found"] ;;
        ret true
  | first_match :: _ =>
      let iso_search_cmd :=
        ("zgrep 'iso list' " ++ node_dir h
         ++ "/conf-diag/boot-hook* 2>/dev/null || zgrep 'iso list' "
         ++ node_dir h ++ "/boot-hook* 2>/dev/null || true")%string in
      let iso_output := run_command h iso_search_cmd in
      let iso_list :=
        if PyStr.nonempty iso_output && PyStr.contains "iso list" iso_output
        then p_iso_list p iso_output else [] in
      set_status "iso_check" "FAIL" ;;
      match iso_list with
      | _ :: _ =>
          set_details "iso_check"
            [("Multiple ISOs in boot-hook detected: "
              ++ nl (nl ("    " ++ indent4 first_match
                         ++ nl (nl ("    Multiple ISOs found:"
                                    ++ nl ("    " ++ PyStr.join (nl "    ")
                                                       (numbered 0 iso_list)))))))%string]
      | [] =>
          set_details "iso_check"
            [("Multiple ISOs in boot-hook detected: "
              ++ nl (nl ("    " ++ indent4 first_match)))%string]
      end ;;
      set_extra "iso_check" "explanation"
        "Only one ISO can be in the firmware directory on the running ND version." ;;
      set_extra "iso_check" "recommendation"
        "Contact TAC for assistance in removing the unneeded ISO images." ;;
      set_extra "iso_check" "reference"
        "https://bst.cloudapps.cisco.com/bugsearch/bug/CSCwn94394" ;;
      ret true
  end.

Definition check_ISOs_CSCwn94394 (h : Host) (p : Probe) (tech_file : string)
  : M bool :=
  update_status "running" "Optimized multiple ISOs check" 95 ;;
  let search_string := "invalid number of ISO" in
  cache <- get_file_cache h ;;
  match FileCache.find_files cache "boot-hook*" with
  | _ :: _ =>
      let search_cmd :=
        ("find " ++ node_dir h
         ++ " -type f -name 'boot-hook*' -print0 | xargs -0 zgrep '"
         ++ search_string ++ "' 2>/dev/null || true")%string in
      let output := run_command h search_cmd in
      let matches :=
        if PyStr.nonempty output
           && negb (PyStr.startswith output "Error:")
           && PyStr.contains search_string output
        then lines_of (PyStr.strip output) else [] in
      iso_final h p matches true
  | [] =>
      if path_exists h (node_dir h ++ "/conf-diag")%string then
        iso_final h p [] true
      else
        match extracted_common h with
        | _ :: _ => iso_final h p [] true
        | [] => iso_final h p [] false
        end
  end.

(** *** [check_lvm_pvs] *)

Record lvm_scan : Type := mkLvm {
  found_header : bool;
  elasticsearch_nir_line : option string;
  elasticsearch_line : option string;
  diagnostic_lines : list string
}.

Definition lvm_line (acc : lvm_scan) (line : string) : lvm_scan :=
  if PyStr.contains "PV             VG" line then
    mkLvm true (elasticsearch_nir_line acc) (elasticsearch_line acc)
          (diagnostic_lines acc ++ [line])
  else if found_header acc then
    if PyStr.contains "/dev/sda1" line
       && PyStr.contains "elasticsearch.nir" line then
      mkLvm true (Some line) (elasticsearch_line acc)
            (diagnostic_lines acc ++ [line])
    else if PyStr.contains "/dev/sdb1" line
            && PyStr.contains "elasticsearch" line
            && negb (PyStr.contains "cisco.nir.main.elasticsearch" line) then
      mkLvm true (elasticsearch_nir_line acc) (Some line)
            (diagnostic_lines acc ++ [line])
    else acc
  else acc.

Definition shows_empty (line : option string) : bool :=
  match line with
  | Some l => PyStr.nonempty l && PyStr.contains "2.18t    2.18t" l
  | None => false
  end.

Definition lvm_pass : CheckResult :=
  mkCR "PASS" ["No empty Elasticsearch PVs found"] [].

Definition check_lvm_pvs (h : Host) (tech_file : string) : M bool :=
  update_status "running" "Optimized LVM PVs check" 95 ;;
  cache <- get_file_cache h ;;
  match FileCache.find_files cache "lvm-pvs" with
  | [] => replace_entry "lvm_pvs_check" lvm_pass ;; ret true
  | lvm_pvs_file :: _ =>
      match read_file h lvm_pvs_file with
      | inr _ => replace_entry "lvm_pvs_check" lvm_pass ;; ret false
      | inl content =>
          let sc := fold_left lvm_line content (mkLvm false None None []) in
          replace_entry "lvm_pvs_check" (mkCR "PASS" [] []) ;;
          match diagnostic_lines sc with
          | [] => ret tt
          | ls =>
              append_detail "lvm_pvs_check" "LVM Physical Volume Details:" ;;
              for_each ls (append_detail "lvm_pvs_check")
          end ;;
          (if shows_empty (elasticsearch_nir_line sc)
              && shows_empty (elasticsearch_line sc) then
             set_status "lvm_pvs_check" "WARNING" ;;
             set_extra "lvm_pvs_check" "explanation"
               ("Due to CSCwe91228, if NDI is deleted before upgrade, enablement of new NDI"
                ++ nl "  post-upgrade can fail.")%string ;;
             set_extra "lvm_pvs_check" "recommendation"
               "Contact TAC to apply the workaround if enablement of NDI fails post-upgrade." ;;
             set_extra "lvm_pvs_check" "reference"
               "https://bst.cloudapps.cisco.com/bugsearch/bug/CSCwe91228"
           else
             set_status "lvm_pvs_check" "PASS" ;;
             append_detail "lvm_pvs_check"
               (match elasticsearch_nir_line sc, elasticsearch_line sc with
                | None, None => nl "No elasticsearch volumes detected."
                | _, _ =>
                    nl "Elasticsearch volumes exist but don't show the problematic empty state condition."
                end) ;;
             set_details "lvm_pvs_check" ["No empty Elasticsearch PVs found"]) ;;
          ret true
      end
  end.

(** *** [check_persistent_ip_config] *)

Definition pip_reference : string :=
  "https://www.cisco.com/c/en/us/td/docs/dcn/nd/4x/deployment/cisco-nexus-dashboard-deployment-guide-41x/nd-prerequisites-41x.html#concept_zkj_3hj_cgc".

Definition pip_extras (explanation recommendation : string) : M unit :=
  set_extra "persistent_ip_check" "explanation" explanation ;;
  set_extra "persistent_ip_check" "recommendation" recommendation ;;
  set_extra "persistent_ip_check" "reference" pip_reference.

(** The body of the [try] once the file content is at hand. *)
Definition pip_analyse (p : Probe) (content : list string) : M bool :=
  if negb (PyStr.contains "items" (text_of content)) then
    set_status "persistent_ip_check" "WARNING" ;;
    set_details "persistent_ip_check"
      ["Persistent IP config could not be validated."] ;;
    pip_extras
      "The Persistent IP configuration file exists but does not contain the expected YAML structure."
      ("Verify that persistent IP addresses are properly configured and generate a new tech support."
       ++ nl "  Check the Nexus Dashboard configuration for external IP settings.")%string ;;
    ret false
  else
    match p_pip_parse p content with
    | PipRaised e => raise e
    | PipParsed data_external_ips configs =>
        (if Nat.eqb data_external_ips 0 then
           set_status "persistent_ip_check" "FAIL" ;;
           set_details "persistent_ip_check"
             ["Found 0 persistent IP addresses in data-external-services configuration"] ;;
           pip_extras
             ("The Nexus Dashboard data-external-services configuration has ZERO Persistent IP addresses."
              ++ nl "  This will likely result in upgrade failure as persistent IPs are required for data services.")%string
             ("Configure at least 5 persistent IP addresses for data-external-services before attempting upgrade."
              ++ nl "  Consult the Nexus Dashboard deployment guide for proper persistent IP configuration.")%string
         else if Nat.ltb data_external_ips 5 then
           set_status "persistent_ip_check" "FAIL" ;;
           set_details "persistent_ip_check"
             [("Found " ++ show_nat data_external_ips
               ++ " persistent IP addresses in data-external-services (less than the required minimum of 5)")%string] ;;
           for_each configs
             (fun config =>
                when (String.eqb (fst config) "data-external-services"
                      && match snd config with [] => false | _ => true end)
                     (append_detail "persistent_ip_check"
                        ("data-external-services IPs: "
                         ++ PyStr.join ", " (snd config))%string)) ;;
           pip_extras
             ("The Nexus Dashboard data-external-services is configured with "
              ++ show_nat data_external_ips ++ " Persistent IP addresses,"
              ++ nl "  which is less than the required minimum of 5. This will likely result in upgrade failure.")%string
             ("Add additional persistent IP addresses to data-external-services configuration to reach"
              ++ nl "  the minimum requirement of 5 IPs before attempting upgrade.")%string
         else
           set_status "persistent_ip_check" "PASS" ;;
           set_details "persistent_ip_check"
             [("Found " ++ show_nat data_external_ips
               ++ " persistent IP addresses (meets minimum requirement of 5)")%string]) ;;
        st <- get_status "persistent_ip_check" ;;
        when (String.eqb st "WARN" || String.eqb st "WARNING")
          (set_extra "persistent_ip_check" "recommendation"
             "Verify that persistent IP addresses are properly configured and generate a new tech support. Check the Nexus Dashboard configuration for external IP settings." ;;
           set_extra "persistent_ip_check" "reference" pip_reference) ;;
        ret true
    end.

Definition check_persistent_ip_config (h : Host) (p : Probe)
           (tech_file : string) : M bool :=
  update_status "running" "Checking persistent IP configuration" 97 ;;
  cache <- get_file_cache h ;;
  let direct :=
    FileCache.find_files cache "k8-diag/kubectl/k8-externalipconfigs.yaml"
    ++ FileCache.find_files cache "falcon-diag/externalipconfigs.yaml" in
  let config_files :=
    match direct with
    | [] =>
        first_some
          (map (FileCache.find_files cache)
               ["*/k8-diag/kubectl/k8-externalipconfigs.yaml";
                "*/falcon-diag/externalipconfigs.yaml";
                "**/externalipconfigs.yaml"])
    | _ => direct
    end in
  match config_files with
  | [] =>
      set_status "persistent_ip_check" "WARNING" ;;
      set_details "persistent_ip_check"
        ["Could not locate externalipconfigs.yaml file in tech support";
         "Checked paths: falcon-diag/externalipconfigs.yaml, k8-diag/kubectl/k8-externalipconfigs.yaml"] ;;
      pip_extras
        ("Unable to determine persistent IP configuration - external IP config file not found."
         ++ nl "  This could indicate no persistent IPs are configured, or the tech support is incomplete.")%string
        "Verify that persistent IP addresses are properly configured before proceeding with upgrade." ;;
      ret false
  | config_file :: _ =>
      try_except
        (match read_file h config_file with
         | inr e => raise e
         | inl content => pip_analyse p content
         end)
        (fun e =>
           set_status "persistent_ip_check" "FAIL" ;;
           set_details "persistent_ip_check"
             [("Failed to parse external IP config file: " ++ e)%string;
              ("File: " ++ basename config_file)%string] ;;
           set_extra "persistent_ip_check" "explanation"
             "Could not determine persistent IP configuration due to parsing error" ;;
           set_extra "persistent_ip_check" "recommendation"
             "Check if the tech support file is complete and valid. Generate a new tech support if needed." ;;
           ret false)
  end.

(** *** [check_atom0_nvme] *)

Definition nvme_warning (detail explanation recommendation : string) : M bool :=
  set_status "atom0_nvme_check" "WARNING" ;;
  set_details "atom0_nvme_check" [detail] ;;
  set_extra "atom0_nvme_check" "explanation" explanation ;;
  set_extra "atom0_nvme_check" "recommendation" recommendation ;;
  ret false.

Definition nvme_no_node_type : M bool :=
  nvme_warning
    "Unable to determine if nodeType is Physical or Virtual to proceed with check."
    "nodeType is required to determine whether atom0_nvme should be present in PVS file or not."
    ("If the ND is Virtual, you can safely ignore this check."
     ++ nl "If the ND is Physical, verify the NVME drive health of all ND nodes via CIMC, or contact Cisco TAC for assistance.")%string.

Definition nvme_no_pvs : M bool :=
  nvme_warning
    "PVS file not found in the tech support to confirm atom0_nvme presence"
    "NVME drive operability needs to be confirmed to ensure successful upgrade."
    "Verify NVME drive health in CIMC or contact Cisco TAC for assistance.".

Fixpoint node_type_of (ls : list string) : option string :=
  match ls with
  | [] => None
  | line :: rest =>
      if PyStr.contains "nodeType:" line then
        match split_once ":"%char line with
        | (_, Some v) => Some (PyStr.strip v)
        | (_, None) => None
        end
      else node_type_of rest
  end.

(** The version read in step 3 only selects what is printed; the file
    to search is chosen by what the cache finds. *)
Definition check_atom0_nvme (h : Host) (tech_file : string) : M bool :=
  update_status "running" "Checking NVME drive health" 97 ;;
  cache <- get_file_cache h ;;
  match FileCache.find_files cache "acs-checks/acs_system_config" with
  | [] => nvme_no_node_type
  | system_config_file :: _ =>
      match read_file h system_config_file with
      | inr _ => nvme_no_node_type
      | inl config_lines =>
          match truthy (node_type_of config_lines) with
          | None => nvme_no_node_type
          | Some node_type =>
              if String.eqb node_type "Virtual" then
                set_status "atom0_nvme_check" "PASS" ;;
                set_details "atom0_nvme_check"
                  ["Virtual ND (check not applicable)"] ;;
                ret true
              else
                match FileCache.find_files cache "acs-checks/acs_version" with
                | [] => nvme_no_pvs
                | _ :: _ =>
                    match FileCache.find_files cache "coreos-diag/storage/pvdisplay"
                          ++ FileCache.find_files cache "storage-diag/pvs" with
                    | [] => nvme_no_pvs
                    | pvs_file_to_check :: _ =>
                        match read_file h pvs_file_to_check with
                        | inr _ => nvme_no_pvs
                        | inl pvs_lines =>
                            if existsb (PyStr.contains "atom0_nvme") pvs_lines then
                              set_status "atom0_nvme_check" "PASS" ;;
                              set_details "atom0_nvme_check"
                                ["NVME drive seen by ND in PVS file"] ;;
                              ret true
                            else
                              set_status "atom0_nvme_check" "FAIL" ;;
                              set_details "atom0_nvme_check"
                                ["atom0_nvme doesn't exist in PVS file"] ;;
                              set_extra "atom0_nvme_check" "explanation"
                                "NVME drive on the node may be inoperable which will result in upgrade failure." ;;
                              set_extra "atom0_nvme_check" "recommendation"
                                "Contact TAC for further investigation and potential disk or appliance replacement prior to upgrade." ;;
                              ret false
                        end
                    end
                end
          end
      end
  end.

(** *** [check_atom0_vg] *)

Definition at_least_4_1_1 (nd_version : string) : bool :=
  match parse_three nd_version with
  | Some (inl (major, minor, patch)) =>
      ((major >? 4) || ((major =? 4) && (minor >? 1))
       || ((major =? 4) && (minor =? 1) && (patch >=? 1)))%Z
  | _ => false
  end.

Definition vg_unable : M unit :=
  set_status "atom0_vg_check" "WARNING" ;;
  set_details "atom0_vg_check"
    ["Unable to verify if atom0 vg has >50G free space"].

Definition vg_bypassed (h : Host) (cache : FileCache.t) : bool :=
  match FileCache.find_files cache "acs-checks/acs_version" with
  | [] => false
  | version_file :: _ =>
      match read_file h version_file with
      | inr _ => false
      | inl ls =>
          let nd_version := nd_version_of (PyStr.strip (text_of ls)) in
          PyStr.nonempty nd_version && at_least_4_1_1 nd_version
      end
  end.

Definition check_atom0_vg (h : Host) (p : Probe) (tech_file : string)
  : M bool :=
  update_status "running" "Checking atom0 VG space" 98 ;;
  cache <- get_file_cache h ;;
  if vg_bypassed h cache then
    set_status "atom0_vg_check" "PASS" ;;
    set_details "atom0_vg_check"
      ["atom0 vg check bypassed for ND nodes on 4.1.1 and later"] ;;
    ret true
  else
    match first_some
            (map (FileCache.find_files cache)
                 ["lvm-vgs"; "storage-diag/vgs"; "*/lvm-vgs";
                  "*/storage-diag/vgs"]) with
    | [] => vg_unable ;; ret false
    | vgs_file :: _ =>
        try_except
          (match read_file h vgs_file with
           | inr e => raise e
           | inl ls =>
               match p_vgs_parse p ls with
               | VgRaised e => raise e
               | VgNotFound => vg_unable
               | VgUnparsed => vg_unable
               | VgFree true =>
                   set_status "atom0_vg_check" "FAIL" ;;
                   set_details "atom0_vg_check"
                     ["atom0 vg has less than 50G free space"] ;;
                   set_extra "atom0_vg_check" "explanation"
                     ("The atom0 virtual group requires 50G free space when performing an upgrade."
                      ++ nl "  Otherwise, upgrade may fail at 'Deploy Kubernetes Stack' stage.")%string ;;
                   set_extra "atom0_vg_check" "recommendation"
                     "Contact Cisco TAC to help resize the atom0 virtual group before upgrade." ;;
                   set_extra "atom0_vg_check" "reference"
                     "https://bst.cisco.com/quickview/bug/CSCwr43515"
               | VgFree false =>
                   set_status "atom0_vg_check" "PASS" ;;
                   set_details "atom0_vg_check"
                     ["atom0 vg has more than 50G free space"]
               end ;;
               ret true
           end)
          (fun _ => vg_unable ;; ret false)
    end.

(** *** The worker as shipped *)

Definition worker_bodies (h : Host) (p : Probe) (dest_path : string) : Bodies :=
  mkBodies
    (check_subnet_isolation h p)
    (check_ping_reachability h p)
    (check_node_status h p)
    (check_disk_space h p dest_path)
    (check_pods h p (Some dest_path))
    (check_system_health h (Some dest_path))
    (check_nxos_discovery_service h dest_path)
    (check_CA_CSCwm35992 h dest_path)
    (check_ISOs_CSCwn94394 h p dest_path)
    (check_lvm_pvs h dest_path)
    (check_persistent_ip_config h p dest_path)
    (check_atom0_nvme h dest_path)
    (check_atom0_vg h p dest_path).

Definition worker_main (h : Host) (p : Probe) : M Z :=
  main h (worker_bodies h p).

(** A whole run of the process. *)
Definition run (h : Host) (p : Probe) (status_ok results_ok : bool)
           (intr : option nat) : res Z * St :=
  worker_main h p (initial_state status_ok results_ok intr).

End Worker.

(** ** Concrete hosts, trees and files used to exercise the model *)

Module Examples.

Import Worker.

(** A tree with a file [ab] at the top and a file [x] in directory [a]. *)
Definition small_tree : FileCache.DirView :=
  FileCache.mkDirView true [("/b", ["a"], ["ab"]); ("/b/a", [], ["x"])].

Definition small_cache : FileCache.t := FileCache.init "/b" small_tree.

(** Two files with the same name at different depths. *)
Definition twin_tree : FileCache.DirView :=
  FileCache.mkDirView true
    [("/b", ["d"], ["pvs"; "df-m"]); ("/b/d", [], ["pvs"])].

(** A host named nd1 that answers every probe with silence. *)
Definition host_with (args : list string) (exists_ : string -> bool)
           (archives : list (string * option Z)) (ok : string -> bool) : Host :=
  mkHost "nd1" args exists_ (fun _ => None) archives ok
         (fun _ => EmptyString) None "1.0 GB" ["logs"] (fun _ => false)
         (FileCache.mkDirView true [])
         (fun _ => RunRaised "not run") [] None
         (fun _ => EmptyString)
         (fun _ => inr "No such file or directory")
         4242 EmptyString 9.

Definition silent_probe : Probe :=
  mkProbe (fun _ => []) (fun _ _ => Isolated) (fun _ => []) (fun _ => true)
          (fun _ => None) (fun _ => []) (fun _ => []) (fun _ => []) ([], 0)
          (fun _ => mkAcsParse None [] [] 0 0) (KRan 0 0 0%Z EmptyString)
          (fun _ => []) (fun _ => PipParsed 0 []) (fun _ => VgNotFound).

Definition two_archives : list (string * option Z) :=
  [("/techsupport/a-nd1.tgz", Some 5%Z); ("/techsupport/b-nd1.tgz", Some 9%Z)].

(** Archives present, every command succeeds. *)
Definition plain_host : Host :=
  host_with [] (fun _ => true) two_archives (fun _ => true).

(** No archive of this node in [/techsupport]. *)
Definition no_archive_host : Host :=
  host_with [] (fun _ => true) [] (fun _ => true).

(** Both [tar] invocations fail on the archive; [gzip -dc | tar -xf -]
    would work. *)
Definition gzip_only_host : Host :=
  host_with [] (fun _ => true) two_archives
            (fun c => String.prefix "cd " c || String.prefix "gzip " c
                      || String.eqb c "tar -xf -").

Definition start : St := initial_state true true None.

End Examples.

(** ** Properties of runs used in the statements *)

Module Props.

Import Worker.

Definition interrupted_hb : Heartbeat :=
  mkHB "interrupted" "Script interrupted by user" 0.

Definition complete_hb : Heartbeat :=
  mkHB "complete" "All operations completed" 100.

(** What code of the worker can do to the state: the two files only get
    longer, the registered check names stay, nothing else changes kind. *)
Record grows (s s' : St) : Prop := mkGrows {
  g_status_w : status_writable s' = status_writable s;
  g_results_w : results_writable s' = results_writable s;
  g_keys : Dict.keys (checks s) = registered ->
           Dict.keys (checks s') = registered;
  g_status_file : exists post, status_file s' = status_file s ++ post;
  g_results_file : exists post, results_file s' = results_file s ++ post;
  g_commands : exists post, commands s' = commands s ++ post
}.

(** The state the interrupt handler leaves behind. *)
Definition halted (s : St) : Prop :=
  sigint s = None
  /\ (status_writable s = true ->
      exists pre, status_file s = pre ++ [interrupted_hb])
  /\ (results_writable s = true ->
      exists pre, results_file s = pre ++ [checks s]).

(** Code that only leaves through [SystemExit] when the interrupt
    handler ran, with status 130. *)
Definition good {A} (m : M A) : Prop :=
  forall s,
    grows s (snd (m s))
    /\ match fst (m s) with
       | Exit c => c = 130%Z /\ sigint s <> None /\ halted (snd (m s))
       | _ => sigint s = None -> sigint (snd (m s)) = None
       end.

(** Code that raises no exception while the registered entries exist. *)
Definition total {A} (m : M A) : Prop :=
  forall s, Dict.keys (checks s) = registered ->
            forall msg, fst (m s) <> Exc msg.

Definition good_bodies (b : Bodies) : Prop :=
  good (b_subnet_isolation b) /\ good (b_ping_reachability b)
  /\ good (b_node_status b) /\ good (b_disk_space b)
  /\ good (b_pods b) /\ good (b_system_health b)
  /\ good (b_nxos_discovery_service b) /\ good (b_CA_CSCwm35992 b)
  /\ good (b_ISOs_CSCwn94394 b) /\ good (b_lvm_pvs b)
  /\ good (b_persistent_ip_config b) /\ good (b_atom0_nvme b)
  /\ good (b_atom0_vg b).

(** The function each block of [main] guards, without its decorator. *)
Definition body_of (b : Bodies) (name : string) : option (M unit) :=
  if String.eqb name "subnet_check" then Some (b_subnet_isolation b)
  else if String.eqb name "ping_check" then Some (b_ping_reachability b)
  else if String.eqb name "node_status" then Some (b_node_status b)
  else if String.eqb name "disk_space" then Some (b_disk_space b)
  else if String.eqb name "pod_status" then Some (ignore (b_pods b))
  else if String.eqb name "system_health" then Some (ignore (b_system_health b))
  else if String.eqb name "nxos_discovery_service"
       then Some (ignore (b_nxos_discovery_service b))
  else if String.eqb name "certificate_check"
       then Some (ignore (b_CA_CSCwm35992 b))
  else if String.eqb name "iso_check" then Some (ignore (b_ISOs_CSCwn94394 b))
  else if String.eqb name "lvm_pvs_check" then Some (ignore (b_lvm_pvs b))
  else if String.eqb name "persistent_ip_check"
       then Some (ignore (b_persistent_ip_config b))
  else if String.eqb name "atom0_nvme_check" then Some (ignore (b_atom0_nvme b))
  else if String.eqb name "atom0_vg_check" then Some (ignore (b_atom0_vg b))
  else None.

(** The explicit archive path, when it is given and exists. *)
Definition usable (h : Host) (specific_file : option string) : option string :=
  match truthy specific_file with
  | Some f => if path_exists h f then Some f else None
  | None => None
  end.

(** The entry of a check in a state. *)
Definition result_of (name : string) (s : St) : option CheckResult :=
  Dict.get name (checks s).

Definition progress_log (s : St) : list Z := map hb_progress (status_file s).

(** The head of a list bounds every modification time in it. *)
Definition newest_first (l : list (string * Z)) : Prop :=
  match l with
  | [] => True
  | (_, t) :: _ => forall g u, In (g, u) l -> (u <= t)%Z
  end.

(** Strategies tried in order until the first one succeeds: the commands
    run and whether one succeeded. *)
Fixpoint fallback (ok : string -> bool) (strategies : list sh)
  : list string * bool :=
  match strategies with
  | [] => ([], false)
  | c :: rest =>
      let '(l, r) := sh_run ok c in
      if r then (l, true)
      else let '(l', r') := fallback ok rest in (l ++ l', r')
  end.

Definition tar_xzf (dir path : string) : sh :=
  AndThen (cd dir) (Cmd ("tar -xzf " ++ path)%string).

Definition tar_xf (dir path : string) : sh :=
  AndThen (cd dir) (Cmd ("tar -xf " ++ path)%string).

Definition gzip_pipe (dir path : string) : sh :=
  AndThen (cd dir) (Pipe (Cmd ("gzip -dc " ++ path)%string) (Cmd "tar -xf -")).

(** The two strategies of [extract_techsupport], for the archive and for
    the nested [logs.tgz]. *)
Definition main_strategies (dir path : string) : list sh :=
  [tar_xzf dir path; tar_xf dir path].

Definition nested_strategies (dir : string) : list sh :=
  [AndThen (cd dir) (Cmd "tar -xzf logs.tgz");
   AndThen (cd dir) (Cmd "tar -xf logs.tgz")].

(** The three strategies of [extract_techsupport_optimized] and the two
    it has for the nested archive. *)
Definition optimized_strategies (dir path : string) : list sh :=
  [AndThen (cd dir) (Cmd ("tar -xzf " ++ path ++ " 2>/dev/null")%string);
   Cmd ("tar -xf " ++ path)%string;
   gzip_pipe dir path].



(** *** Predicates used by the further properties *)

(** Code whose normal endings all satisfy [Q]. *)
Definition ends_with {A} (Q : A -> St -> Prop) (m : M A) : Prop :=
  forall s a s', m s = (Ok a, s') -> Q a s'.

(** Code that, with no interrupt pending, only runs cleanup commands. *)
Definition quiet (m : M unit) : Prop :=
  forall s, sigint s = None ->
            exists l, m s = (Ok tt, with_cleanups (cleanups s ++ l) s).

(** Code that keeps the results and whose only writes to the two files
    are those of the interrupt handler. *)
Definition mild (m : M unit) : Prop :=
  forall s,
    checks (snd (m s)) = checks s
    /\ status_writable (snd (m s)) = status_writable s
    /\ results_writable (snd (m s)) = results_writable s
    /\ (sigint s = None -> sigint (snd (m s)) = None)
    /\ ((status_file (snd (m s)) = status_file s
         /\ results_file (snd (m s)) = results_file s)
        \/ (sigint s <> None /\ halted (snd (m s))))
    /\ (forall c, fst (m s) = Exit c ->
                  c = 130%Z /\ sigint s <> None /\ halted (snd (m s))).

(** The heartbeat that goes with an outcome of [main]. *)
Definition final_heartbeat (r : res Z) (hb : Heartbeat) : Prop :=
  match r with
  | Ok n => (n = 0%Z /\ hb = complete_hb)
            \/ (n = 1%Z /\ hb_status hb = "error" /\ hb_progress hb = 0%Z)
  | Exit c => c = 130%Z /\ hb = interrupted_hb
  | Exc _ => False
  end.

(** The last heartbeat of a run that started with the interrupt [intr]
    pending: the one that goes with the outcome, or the handler's when
    the interrupt was taken inside an [except: pass] of
    [cleanup_processes], which keeps the value [main] returns. *)
Definition last_beat (intr : option nat) (r : res Z) (hb : Heartbeat) : Prop :=
  final_heartbeat r hb
  \/ (intr <> None /\ (r = Ok 0%Z \/ r = Ok 1%Z) /\ hb = interrupted_hb).

(** The results file holds the in-memory results. *)
Definition saved (s : St) : Prop :=
  results_writable s = true -> exists pre, results_file s = pre ++ [checks s].

(** The status file ends with a heartbeat that fits the outcome. *)
Definition announced (r : res Z) (s : St) : Prop :=
  status_writable s = true ->
  exists pre hb, status_file s = pre ++ [hb] /\ final_heartbeat r hb.

(** Two states with the same results and the same two files. *)
Definition same_files (s s' : St) : Prop :=
  checks s' = checks s /\ status_file s' = status_file s
  /\ results_file s' = results_file s
  /\ status_writable s' = status_writable s
  /\ results_writable s' = results_writable s.

(** Code that leaves every entry outside [names] as it was. *)
Definition only_writes {A} (names : list string) (m : M A) : Prop :=
  forall s k, ~ In k names ->
              Dict.get k (checks (snd (m s))) = Dict.get k (checks s).

(** The entries a block of [main] may write. *)
Definition entries_of (name : string) : list string :=
  if String.eqb name "node_status" then ["node_status"; "version_check"]
  else [name].

(** What the two marking loops of [main] make of an entry. *)
Definition not_run (prefix msg : string) (cr : CheckResult) : CheckResult :=
  match details cr with
  | [] => mkCR "FAIL" [(prefix ++ msg)%string] (extra cr)
  | _ => cr
  end.

(** How [main] obtains the archive: generated or selected, by the first
    argument. *)
Definition acquire (h : Host) : M (option string) :=
  if String.eqb (nth 0 (argv h) "select") "generate"
  then generate_techsupport h (nth_error (argv h) 2)
  else select_techsupport h (nth_error (argv h) 1).

(** Two states with the same two files. *)
Definition same_io (s s' : St) : Prop :=
  status_file s' = status_file s /\ results_file s' = results_file s
  /\ status_writable s' = status_writable s
  /\ results_writable s' = results_writable s.

(** The state after some extraction commands were run. *)
Definition log_commands (ran : list string) (s : St) : St :=
  mkSt (checks s) (version s) (status_file s) (results_file s)
       (status_writable s) (results_writable s) (commands s ++ ran)
       (file_cache s) (sigint s) (cleanups s).

(** Code that runs no extraction command. *)
Definition keeps_commands {A} (m : M A) : Prop :=
  forall s, commands (snd (m s)) = commands s.

(** [x] is the first element of [l] with the greatest modification
    time. *)
Definition first_newest (x : string * Z) (l : list (string * Z)) : Prop :=
  exists pre post,
    l = pre ++ x :: post
    /\ (forall y, In y pre -> (snd y < snd x)%Z)
    /\ (forall y, In y post -> (snd y <= snd x)%Z).

(** The status values the results use. *)
Definition vocabulary : list string := ["PASS"; "FAIL"; "WARNING"; "ERROR"].

(** Results with exactly the registered names, in their order, and a
    known status under each. *)
Definition well_formed (c : Dict.t CheckResult) : Prop :=
  Dict.keys c = registered
  /\ Forall (fun kv : string * CheckResult => In (status (snd kv)) vocabulary) c.

(** The results in memory and every content saved so far are well
    formed. *)
Definition schema_ok (s : St) : Prop :=
  well_formed (checks s) /\ Forall well_formed (results_file s).

Definition keeps_schema {A} (m : M A) : Prop :=
  forall s, schema_ok s -> schema_ok (snd (m s)).

(** No interrupt is pending and the entry [name] satisfies [P]. *)
Definition holds (name : string) (P : CheckResult -> Prop) (s : St) : Prop :=
  sigint s = None /\ exists cr, Dict.get name (checks s) = Some cr /\ P cr.

(** Two states that differ at most in the two files and in whether they
    can be written. *)
Definition same_work (s1 s2 : St) : Prop :=
  checks s1 = checks s2 /\ version s1 = version s2
  /\ commands s1 = commands s2 /\ file_cache s1 = file_cache s2
  /\ sigint s1 = sigint s2 /\ cleanups s1 = cleanups s2.

(** Code whose outcome and work do not depend on the two files. *)
Definition oblivious {A} (m : M A) : Prop :=
  forall s1 s2, same_work s1 s2 ->
                fst (m s1) = fst (m s2) /\ same_work (snd (m s1)) (snd (m s2)).

(** The status values of the heartbeat. *)
Definition phases : list string :=
  ["running"; "error"; "warning"; "complete"; "interrupted"].

(** A heartbeat a monitor can display: a known status and a percentage. *)
Definition beat_ok (hb : Heartbeat) : Prop :=
  In (hb_status hb) phases /\ (0 <= hb_progress hb <= 100)%Z.

Definition keeps_beats {A} (m : M A) : Prop :=
  forall s, Forall beat_ok (status_file s) ->
            Forall beat_ok (status_file (snd (m s))).

(** The status one node makes the subnet check record, if any. *)
Definition finding (p : Probe) (node : string * string * string)
  : option string :=
  let '(_, data_network, mgmt_network) := node in
  match with_mask data_network, with_mask mgmt_network with
  | Some data_ip, Some mgmt_ip =>
      match p_net_relation p data_ip mgmt_ip with
      | Overlaps => Some "FAIL"
      | Contained => Some "FAIL"
      | Isolated => None
      | NetError _ => Some "WARNING"
      end
  | _, _ => Some "WARNING"
  end.

(** The status after the nodes were looked at in order: the last finding
    wins. *)
Definition last_finding (p : Probe) (nodes : list (string * string * string))
           (st : string) : string :=
  fold_left (fun st node =>
               match finding p node with Some f => f | None => st end)
            nodes st.

(** Code that writes no heartbeat unless the interrupt handler runs. *)
Definition hushed {A} (m : M A) : Prop :=
  forall s,
    match fst (m s) with
    | Exit _ => True
    | _ => status_file (snd (m s)) = status_file s
           /\ status_writable (snd (m s)) = status_writable s
    end.

(** Code that writes the heartbeat [hb] and no other, unless the
    interrupt handler runs. *)
Definition one_beat {A} (hb : Heartbeat) (m : M A) : Prop :=
  forall s,
    match fst (m s) with
    | Exit _ => True
    | _ => status_file (snd (m s)) = status_file (write_status hb s)
           /\ status_writable (snd (m s)) = status_writable s
    end.

(** The heartbeats of the thirteen checks, in the order [main] runs
    them. *)
Definition check_beats : list Heartbeat :=
  [ mkHB "running" "Checking subnet isolation" 93;
    mkHB "running" "Checking node reachability" 92;
    mkHB "running" "Checking node status" 92;
    mkHB "running" "Checking disk space" 94;
    mkHB "running" "Optimized kubernetes pod checking" 96;
    mkHB "running" "Checking system health" 98;
    mkHB "running" "Checking NXOS Discovery Service" 98;
    mkHB "running" "Optimized CA certificate bug check" 95;
    mkHB "running" "Optimized multiple ISOs check" 95;
    mkHB "running" "Optimized LVM PVs check" 95;
    mkHB "running" "Checking persistent IP configuration" 97;
    mkHB "running" "Checking NVME drive health" 97;
    mkHB "running" "Checking atom0 VG space" 98 ].

Fixpoint nondecreasing (l : list Z) : bool :=
  match l with
  | x :: rest =>
      match rest with
      | y :: _ => (x <=? y)%Z && nondecreasing rest
      | [] => true
      end
  | [] => true
  end.

(** The status file after the heartbeats [l] were written to it. *)
Definition written (l : list Heartbeat) (s : St) : list Heartbeat :=
  if status_writable s then status_file s ++ l else status_file s.






End Props.

(** * Verification *)

(** ** Dictionaries *)

Lemma dict_get_set_same {V} (k : string) (v : V) (d : Dict.t V) :
  Dict.get k (Dict.set k v d) = Some v.
Proof.
  induction d as [|[k' v'] d IH]; simpl.
  - now rewrite String.eqb_refl.
  - destruct (String.eqb k k') eqn:E; simpl; rewrite E; auto.
Qed.

Lemma dict_get_set_other {V} (k k' : string) (v : V) (d : Dict.t V) :
  k <> k' -> Dict.get k (Dict.set k' v d) = Dict.get k d.
Proof.
  intros Hne. induction d as [|[k2 v2] d IH]; simpl.
  - destruct (String.eqb k k') eqn:E; auto.
    apply String.eqb_eq in E. contradiction.
  - destruct (String.eqb k' k2) eqn:E; simpl.
    + apply String.eqb_eq in E. subst k2.
      destruct (String.eqb k k') eqn:E2; auto.
      apply String.eqb_eq in E2. contradiction.
    + now rewrite IH.
Qed.

Lemma dict_keys_set_present {V} (k : string) (v : V) (d : Dict.t V) :
  Dict.mem k d = true -> Dict.keys (Dict.set k v d) = Dict.keys d.
Proof.
  unfold Dict.mem, Dict.keys.
  induction d as [|[k' v'] d IH]; simpl; intros H.
  - discriminate.
  - destruct (String.eqb k k') eqn:E; simpl; auto.
    f_equal. apply IH. exact H.
Qed.

Lemma dict_mem_set {V} (k k' : string) (v : V) (d : Dict.t V) :
  Dict.mem k d = true -> Dict.mem k (Dict.set k' v d) = true.
Proof.
  unfold Dict.mem. intros H.
  destruct (String.eqb k k') eqn:E.
  - apply String.eqb_eq in E. subst. now rewrite dict_get_set_same.
  - apply String.eqb_neq in E. now rewrite dict_get_set_other.
Qed.

Lemma dict_set_set {V} (k : string) (v1 v2 : V) (d : Dict.t V) :
  Dict.set k v2 (Dict.set k v1 d) = Dict.set k v2 d.
Proof.
  induction d as [|[k' v'] d IH]; simpl.
  - now rewrite String.eqb_refl.
  - destruct (String.eqb k k') eqn:E; simpl; rewrite E; auto.
    now rewrite IH.
Qed.

(** ** The file cache *)

Section FileCacheFacts.

Import FileCache.

Lemma mem_str_In (x : string) (l : list string) :
  mem_str x l = true <-> In x l.
Proof.
  unfold mem_str. rewrite existsb_exists. split.
  - intros [y [Hy E]]. apply String.eqb_eq in E. now subst.
  - intros H. exists x. split; auto. apply String.eqb_refl.
Qed.

Lemma mem_str_false (x : string) (l : list string) :
  mem_str x l = false <-> ~ In x l.
Proof.
  rewrite <- mem_str_In. destruct (mem_str x l); split; congruence.
Qed.

(** The pass over the relative paths appends, in scan order, what it
    has not seen yet. *)
Lemma path_pass_first_seen (pattern : string) (pc : Dict.t string)
      (matches : list string) :
  fold_left (path_step pattern) pc matches
  = matches ++ first_seen matches
      (map snd (filter (fun kv : string * string =>
                          PyStr.fnmatch (fst kv) pattern
                          || PyStr.contains pattern (fst kv)) pc)).
Proof.
  revert matches. induction pc as [|[rel full] pc IH]; intros matches; simpl.
  - now rewrite app_nil_r.
  - destruct (PyStr.fnmatch rel pattern || PyStr.contains pattern rel); simpl.
    + destruct (mem_str full matches); rewrite IH; auto.
      now rewrite <- app_assoc.
    + apply IH.
Qed.

Lemma first_seen_spec (l seen : list string) :
  NoDup seen -> NoDup (seen ++ first_seen seen l).
Proof.
  revert seen. induction l as [|x l IH]; intros seen Hnd; simpl.
  - now rewrite app_nil_r.
  - destruct (mem_str x seen) eqn:E.
    + now apply IH.
    + apply mem_str_false in E.
      specialize (IH (seen ++ [x])).
      rewrite <- app_assoc in IH. simpl in IH. apply IH.
      apply NoDup_app; auto.
      * constructor; [intros [] | constructor].
      * intros y Hy [Hx|[]]. now subst.
Qed.

Lemma first_seen_In (l seen : list string) (x : string) :
  In x (first_seen seen l) <-> In x l /\ ~ In x seen.
Proof.
  revert seen. induction l as [|y l IH]; intros seen; simpl.
  - tauto.
  - destruct (mem_str y seen) eqn:E.
    + apply mem_str_In in E. rewrite IH. split.
      * tauto.
      * intros [[->|H] Hn]; [contradiction | tauto].
    + apply mem_str_false in E. simpl. rewrite IH, in_app_iff. simpl.
      split.
      * intros [->|[H Hn]]; [tauto|]. split; [tauto|]. tauto.
      * intros [[->|H] Hn]; [tauto|].
        destruct (string_dec y x) as [->|Hne]; [tauto|].
        right. split; auto. intros [H'|[H'|[]]]; tauto.
Qed.

Lemma held_set_absent (k : string) (v : list string)
      (d : Dict.t (list string)) :
  Dict.get k d = None ->
  concat (map snd (Dict.set k v d)) = concat (map snd d) ++ v.
Proof.
  induction d as [|[k' v'] d IH]; simpl; intros H.
  - now rewrite app_nil_r.
  - destruct (String.eqb k k') eqn:E; [discriminate|].
    simpl. rewrite IH by exact H. now rewrite app_assoc.
Qed.

Lemma held_set_present (k : string) (l : list string) (x : string)
      (d : Dict.t (list string)) :
  Dict.get k d = Some l ->
  Permutation (concat (map snd (Dict.set k (l ++ [x]) d)))
              (x :: concat (map snd d)).
Proof.
  induction d as [|[k' v'] d IH]; simpl; intros H.
  - discriminate.
  - destruct (String.eqb k k') eqn:E.
    + inversion H; subst. simpl.
      rewrite <- app_assoc. simpl.
      apply Permutation_sym, Permutation_middle.
    + simpl. specialize (IH H).
      transitivity (v' ++ x :: concat (map snd d)).
      * now apply Permutation_app_head.
      * apply Permutation_sym, Permutation_middle.
Qed.

Lemma scan_file_held (root : string) (self : t) (file : string) :
  Permutation (held (scan_file root self file))
              (PyStr.os_path_join root file :: held self).
Proof.
  unfold held, scan_file. simpl.
  destruct (Dict.get file (file_cache self)) as [l|] eqn:E.
  - now apply held_set_present.
  - rewrite held_set_absent by exact E. simpl.
    apply Permutation_sym, Permutation_cons_append.
Qed.

Lemma scan_files_held (root : string) (files : list string) (self : t) :
  Permutation (held (fold_left (scan_file root) files self))
              (map (PyStr.os_path_join root) files ++ held self).
Proof.
  revert self. induction files as [|f files IH]; intros self; simpl.
  - reflexivity.
  - rewrite IH. rewrite scan_file_held.
    apply Permutation_sym, Permutation_middle.
Qed.

Lemma scan_dirs_held (walk : list walk_entry) (self : t) :
  Permutation
    (held (fold_left scan_dir walk self))
    (flat_map (fun e : walk_entry =>
                 let '(root, _, files) := e in
                 map (PyStr.os_path_join root) files) walk ++ held self).
Proof.
  revert self. induction walk as [|[[root dirs] files] walk IH];
    intros self; simpl.
  - reflexivity.
  - rewrite IH.
    change (scan_dir self (root, dirs, files))
      with (fold_left (scan_file root) files self).
    rewrite scan_files_held.
    rewrite !app_assoc.
    apply Permutation_app_tail, Permutation_app_comm.
Qed.

(** A scan of a tree that lists no file twice holds no path twice. *)
Lemma init_held_NoDup (base : string) (fs : DirView) :
  NoDup (walk_paths fs) -> NoDup (held (init base fs)).
Proof.
  intros Hnd. unfold init, _scan_once.
  destruct (dir_exists fs); simpl.
  - eapply Permutation_NoDup.
    + apply Permutation_sym, scan_dirs_held.
    + unfold held. simpl. rewrite app_nil_r. exact Hnd.
  - constructor.
Qed.

Lemma NoDup_app_l {A} (l1 l2 : list A) : NoDup (l1 ++ l2) -> NoDup l1.
Proof.
  induction l1 as [|x l1 IH]; simpl; intros H.
  - constructor.
  - inversion H; subst. constructor.
    + intros Hin. apply H2. apply in_or_app. now left.
    + now apply IH.
Qed.

Lemma NoDup_app_r {A} (l1 l2 : list A) : NoDup (l1 ++ l2) -> NoDup l2.
Proof.
  induction l1 as [|x l1 IH]; simpl; intros H; auto.
  inversion H; subst. now apply IH.
Qed.

Lemma NoDup_app_disjoint {A} (l1 l2 : list A) (x : A) :
  NoDup (l1 ++ l2) -> In x l1 -> In x l2 -> False.
Proof.
  induction l1 as [|y l1 IH]; simpl; intros H H1 H2.
  - contradiction.
  - inversion H; subst. destruct H1 as [->|H1].
    + apply H4. apply in_or_app. now right.
    + now apply IH.
Qed.

Lemma selected_NoDup (f : string -> bool) (d : Dict.t (list string)) :
  NoDup (concat (map snd d)) ->
  NoDup (flat_map (fun kv : string * list string =>
                     if f (fst kv) then snd kv else []) d).
Proof.
  induction d as [|[k v] d IH]; simpl; intros H.
  - constructor.
  - pose proof (NoDup_app_l _ _ H) as Hv.
    pose proof (NoDup_app_r _ _ H) as Hd.
    destruct (f k); simpl; [|now apply IH].
    apply NoDup_app; auto.
    intros x Hx Hin. apply in_flat_map in Hin.
    destruct Hin as [[k' v'] [Hkv Hx']].
    apply (NoDup_app_disjoint _ _ x H Hx).
    apply in_concat. exists v'. split.
    + apply in_map_iff. now exists (k', v').
    + simpl in Hx'. destruct (f k'); [exact Hx'|contradiction].
Qed.

Lemma get_NoDup (k : string) (l : list string) (d : Dict.t (list string)) :
  NoDup (concat (map snd d)) -> Dict.get k d = Some l -> NoDup l.
Proof.
  induction d as [|[k' v] d IH]; simpl; intros H E.
  - discriminate.
  - destruct (String.eqb k k').
    + inversion E; subst. eapply NoDup_app_l; eauto.
    + apply IH; auto. eapply NoDup_app_r; eauto.
Qed.

Lemma selected_nil (f : string -> bool) (d : Dict.t (list string)) :
  Forall (fun kv : string * list string => f (fst kv) = false) d ->
  flat_map (fun kv : string * list string =>
              if f (fst kv) then snd kv else []) d = [].
Proof.
  induction 1 as [|[k v] d Hk _ IH]; simpl; auto.
  simpl in Hk. now rewrite Hk.
Qed.

Lemma filter_nil {A} (f : A -> bool) (l : list A) :
  Forall (fun x => f x = false) l -> filter f l = [].
Proof.
  induction 1 as [|x l Hx _ IH]; simpl; auto. now rewrite Hx.
Qed.

End FileCacheFacts.

(** ** Claims about [FileCache] *)

Section FileCacheClaims.

Import FileCache.

Lemma scan_file_get (root name file : string) (self : t) (l0 : list string) :
  Dict.get name (file_cache self) = as_opt l0 ->
  Dict.get name (file_cache (scan_file root self file))
  = as_opt (l0 ++ map (PyStr.os_path_join root)
                      (filter (String.eqb name) [file])).
Proof.
  intros H. unfold scan_file. simpl.
  destruct (String.eqb name file) eqn:E.
  - apply String.eqb_eq in E. subst file.
    rewrite dict_get_set_same. rewrite H.
    destruct l0; simpl; reflexivity.
  - apply String.eqb_neq in E.
    rewrite dict_get_set_other by exact E.
    simpl. now rewrite app_nil_r.
Qed.

Lemma scan_files_get (root name : string) (files : list string)
      (self : t) (l0 : list string) :
  Dict.get name (file_cache self) = as_opt l0 ->
  Dict.get name (file_cache (fold_left (scan_file root) files self))
  = as_opt (l0 ++ map (PyStr.os_path_join root)
                      (filter (String.eqb name) files)).
Proof.
  revert self l0. induction files as [|f files IH]; intros self l0 H; simpl.
  - now rewrite app_nil_r.
  - rewrite (IH _ _ (scan_file_get root name f self l0 H)).
    simpl. f_equal. rewrite <- app_assoc. f_equal.
    destruct (String.eqb name f); reflexivity.
Qed.

Lemma scan_dirs_get (name : string) (walk : list walk_entry)
      (self : t) (l0 : list string) :
  Dict.get name (file_cache self) = as_opt l0 ->
  Dict.get name (file_cache (fold_left scan_dir walk self))
  = as_opt (l0 ++ flat_map
                    (fun e : walk_entry =>
                       let '(root, _, files) := e in
                       map (PyStr.os_path_join root)
                           (filter (String.eqb name) files)) walk).
Proof.
  revert self l0. induction walk as [|[[root dirs] files] walk IH];
    intros self l0 H; simpl.
  - now rewrite app_nil_r.
  - change (scan_dir self (root, dirs, files))
      with (fold_left (scan_file root) files self).
    rewrite (IH _ _ (scan_files_get root name files self l0 H)).
    now rewrite <- app_assoc.
Qed.

(** What the cache holds under a name is what the scan recorded for it. *)
Lemma init_get (base : string) (fs : DirView) (name : string) :
  Dict.get name (file_cache (init base fs)) = as_opt (recorded fs name).
Proof.
  unfold init, _scan_once, recorded.
  destruct (dir_exists fs); simpl; [|reflexivity].
  now rewrite (scan_dirs_get name (os_walk fs) (mkCache base [] []) []).
Qed.

Lemma refresh_is_init (fs : DirView) (self : t) :
  refresh fs self = init (base_dir self) fs.
Proof. reflexivity. Qed.

Lemma scan_files_base_dir (root : string) (files : list string) (c : t) :
  base_dir (fold_left (scan_file root) files c) = base_dir c.
Proof.
  revert c. induction files as [|f files IH]; intros c; simpl; auto.
  now rewrite IH.
Qed.

Lemma scan_base_dir (fs : DirView) (c : t) :
  base_dir (_scan_once fs c) = base_dir c.
Proof.
  unfold _scan_once. destruct (dir_exists fs); simpl; auto.
  generalize (os_walk fs). intros walk. revert c.
  induction walk as [|[[root dirs] files] walk IH]; intros c; simpl; auto.
  rewrite IH.
  change (scan_dir c (root, dirs, files))
    with (fold_left (scan_file root) files c).
  apply scan_files_base_dir.
Qed.

Lemma session_stable (fs : DirView) (base : string) (ops : list op) :
  run_ops fs (init base fs) ops
  = map (fun p => (p, find_files (init base fs) p)) (finds ops).
Proof.
  induction ops as [|[p|] ops IH]; simpl.
  - reflexivity.
  - now rewrite IH.
  - rewrite refresh_is_init.
    change (base_dir (init base fs)) with (base_dir (_scan_once fs (mkCache base [] []))).
    rewrite scan_base_dir. simpl. exact IH.
Qed.

(** C7: an exact filename yields exactly the paths the last build
    recorded for it (in scan order); any sequence of lookups and
    refreshes over an unchanged tree answers every pattern as the first
    lookup did; and [refresh] discards both caches and rebuilds them as
    the constructor does. *)
Theorem find_exact_idempotent_refresh (base : string) (fs : DirView) :
  (forall name : string,
      match recorded fs name with
      | [] => Dict.get name (file_cache (init base fs)) = None
      | paths => find_files (init base fs) name = paths
      end)
  /\ (forall ops : list op,
         run_ops fs (init base fs) ops
         = map (fun p => (p, find_files (init base fs) p)) (finds ops))
  /\ (forall self : t,
         refresh fs self = _scan_once fs (mkCache (base_dir self) [] [])
         /\ refresh fs (init base fs) = init base fs).
Proof.
  split; [|split].
  - intros name. pose proof (init_get base fs name) as H.
    destruct (recorded fs name) as [|x l] eqn:E; simpl in H; auto.
    unfold find_files. now rewrite H.
  - apply session_stable.
  - intros self. split; [reflexivity|].
    rewrite refresh_is_init.
    change (base_dir (init base fs)) with (base_dir (_scan_once fs (mkCache base [] []))).
    now rewrite scan_base_dir.
Qed.

Lemma dict_keys_set {V} (k : string) (v : V) (d : Dict.t V) :
  Dict.keys (Dict.set k v d)
  = Dict.keys d ++ first_seen (Dict.keys d) [k].
Proof.
  unfold Dict.keys. induction d as [|[k' v'] d IH]; simpl.
  - reflexivity.
  - destruct (String.eqb k k') eqn:E; simpl.
    + now rewrite app_nil_r.
    + rewrite IH. simpl. reflexivity.
Qed.

Lemma first_seen_app (seen l1 l2 : list string) :
  first_seen seen (l1 ++ l2)
  = first_seen seen l1 ++ first_seen (seen ++ first_seen seen l1) l2.
Proof.
  revert seen. induction l1 as [|x l1 IH]; intros seen; simpl.
  - now rewrite app_nil_r.
  - destruct (mem_str x seen).
    + apply IH.
    + simpl. rewrite IH. now rewrite <- app_assoc.
Qed.

Lemma scan_dirs_flat (walk : list walk_entry) (self : t) :
  fold_left scan_dir walk self
  = fold_left scan_pair
      (flat_map (fun e : walk_entry =>
                   let '(root, _, files) := e in map (pair root) files) walk)
      self.
Proof.
  revert self. induction walk as [|[[root dirs] files] walk IH];
    intros self; simpl.
  - reflexivity.
  - rewrite fold_left_app, IH. f_equal.
    unfold scan_dir. clear. revert self.
    induction files as [|f files IH]; intros self; simpl; auto.
Qed.

Lemma init_flat (base : string) (fs : DirView) :
  init base fs = fold_left scan_pair (walk_files fs) (mkCache base [] []).
Proof.
  unfold init, _scan_once, walk_files.
  destruct (dir_exists fs); simpl; [apply scan_dirs_flat|reflexivity].
Qed.

Lemma scan_pairs_base_dir (l : list (string * string)) (self : t) :
  base_dir (fold_left scan_pair l self) = base_dir self.
Proof.
  revert self. induction l as [|rf l IH]; intros self; simpl; auto.
  now rewrite IH.
Qed.

Lemma scan_pair_names (self : t) (rf : string * string) :
  Dict.keys (file_cache (scan_pair self rf))
  = Dict.keys (file_cache self)
    ++ first_seen (Dict.keys (file_cache self)) [snd rf].
Proof. unfold scan_pair, scan_file. simpl. apply dict_keys_set. Qed.

Lemma scan_pair_rels (self : t) (rf : string * string) :
  Dict.keys (path_cache (scan_pair self rf))
  = Dict.keys (path_cache self)
    ++ first_seen (Dict.keys (path_cache self))
         [PyStr.os_path_relpath (PyStr.os_path_join (fst rf) (snd rf))
                                (base_dir self)].
Proof. unfold scan_pair, scan_file. simpl. apply dict_keys_set. Qed.

Lemma scan_pair_base_dir (self : t) (rf : string * string) :
  base_dir (scan_pair self rf) = base_dir self.
Proof. reflexivity. Qed.

Lemma scan_pairs_names (l : list (string * string)) (self : t) :
  Dict.keys (file_cache (fold_left scan_pair l self))
  = Dict.keys (file_cache self)
    ++ first_seen (Dict.keys (file_cache self)) (map snd l).
Proof.
  revert self. induction l as [|rf l IH]; intros self.
  - simpl. now rewrite app_nil_r.
  - cbn [fold_left map]. rewrite IH, scan_pair_names.
    change (snd rf :: map snd l) with ([snd rf] ++ map snd l).
    rewrite first_seen_app. now rewrite app_assoc.
Qed.

Lemma scan_pairs_rels (l : list (string * string)) (self : t) :
  Dict.keys (path_cache (fold_left scan_pair l self))
  = Dict.keys (path_cache self)
    ++ first_seen (Dict.keys (path_cache self))
         (map (fun rf : string * string =>
                 PyStr.os_path_relpath (PyStr.os_path_join (fst rf) (snd rf))
                                       (base_dir self)) l).
Proof.
  revert self. induction l as [|rf l IH]; intros self.
  - simpl. now rewrite app_nil_r.
  - cbn [fold_left map]. rewrite IH, scan_pair_rels, scan_pair_base_dir.
    match goal with
    | |- _ = _ ++ first_seen _ (?x :: ?r) =>
        change (x :: r) with ([x] ++ r)
    end.
    rewrite first_seen_app. now rewrite app_assoc.
Qed.

Lemma scan_pairs_get_path (rel : string) (l : list (string * string))
      (self : t) :
  Dict.get rel (path_cache (fold_left scan_pair l self))
  = match last_under rel
            (map (fun rf : string * string =>
                    let full := PyStr.os_path_join (fst rf) (snd rf) in
                    (PyStr.os_path_relpath full (base_dir self), full)) l)
    with
    | Some full => Some full
    | None => Dict.get rel (path_cache self)
    end.
Proof.
  revert self. induction l as [|rf l IH]; intros self.
  - reflexivity.
  - cbn [fold_left map last_under]. rewrite IH, scan_pair_base_dir.
    destruct (last_under rel _) as [x|]; [reflexivity|].
    unfold scan_pair, scan_file. cbn [path_cache].
    destruct (String.eqb rel _) eqn:E.
    + apply String.eqb_eq in E. subst rel. apply dict_get_set_same.
    + apply String.eqb_neq in E. now apply dict_get_set_other.
Qed.

Lemma get_not_key {V} (k : string) (d : Dict.t V) :
  ~ In k (Dict.keys d) -> Dict.get k d = None.
Proof.
  unfold Dict.keys. induction d as [|[k2 v2] d IH]; simpl; intros H; auto.
  destruct (String.eqb k k2) eqn:E.
  - apply String.eqb_eq in E. subst. tauto.
  - apply IH. tauto.
Qed.

Lemma get_key {V} (k : string) (d : Dict.t V) :
  In k (Dict.keys d) -> Dict.get k d <> None.
Proof.
  unfold Dict.keys. induction d as [|[k2 v2] d IH]; simpl; intros H.
  - contradiction.
  - destruct (String.eqb k k2) eqn:E; [discriminate|].
    apply String.eqb_neq in E. apply IH. destruct H; [congruence|assumption].
Qed.

(** A dictionary is its keys, in order, each with its value. *)
Lemma dict_by_keys {V} (d : Dict.t V) (g : string -> option V) :
  NoDup (Dict.keys d) ->
  (forall k, In k (Dict.keys d) -> Dict.get k d = g k) ->
  d = flat_map (fun k => match g k with Some v => [(k, v)] | None => [] end)
               (Dict.keys d).
Proof.
  unfold Dict.keys. induction d as [|[k v] d IH]; simpl; intros Hnd Hg.
  - reflexivity.
  - inversion Hnd as [|x l Hx Hl]; subst.
    pose proof (Hg k (or_introl eq_refl)) as Hk.
    rewrite String.eqb_refl in Hk. rewrite <- Hk. simpl.
    f_equal. apply IH; auto.
    intros k' Hin. rewrite <- (Hg k' (or_intror Hin)).
    destruct (String.eqb k' k) eqn:E; [|reflexivity].
    apply String.eqb_eq in E. subst k'. contradiction.
Qed.

Lemma first_seen_NoDup (l : list string) : NoDup (first_seen [] l).
Proof. exact (first_seen_spec l [] (NoDup_nil _)). Qed.

(** The filename cache of a fresh scan: the listed names in order, each
    with the paths recorded under it. *)
Lemma init_file_cache (base : string) (fs : DirView) :
  file_cache (init base fs)
  = map (fun name => (name, recorded fs name)) (listed_names fs).
Proof.
  assert (K : Dict.keys (file_cache (init base fs)) = listed_names fs).
  { rewrite init_flat, scan_pairs_names. reflexivity. }
  assert (Hnd : NoDup (Dict.keys (file_cache (init base fs))))
    by (rewrite K; apply first_seen_NoDup).
  pose proof (dict_by_keys (file_cache (init base fs))
                (fun name => as_opt (recorded fs name)) Hnd
                (fun k _ => init_get base fs k)) as E.
  assert (H : forall name, In name (listed_names fs) ->
                           as_opt (recorded fs name) = Some (recorded fs name)).
  { intros name Hin. rewrite <- K in Hin. apply get_key in Hin.
    rewrite init_get in Hin. destruct (recorded fs name); [now contradiction Hin|].
    reflexivity. }
  rewrite K in E. rewrite E. clear E K Hnd.
  induction (listed_names fs) as [|n l IH]; simpl; [reflexivity|].
  rewrite (H n (or_introl eq_refl)). simpl. f_equal.
  apply IH. intros name Hin. apply H. now right.
Qed.

Lemma last_under_listed (rel : string) (l : list (string * string)) :
  In rel (map fst l) -> last_under rel l <> None.
Proof.
  induction l as [|[r full] l IH]; simpl; intros H.
  - contradiction.
  - destruct (last_under rel l) as [x|]; [discriminate|].
    destruct H as [->|H]; [now rewrite String.eqb_refl|].
    now contradiction (IH H).
Qed.

(** The path cache of a fresh scan: the distinct relative paths in order
    of first listing, each with the full path listed last under it. *)
Lemma init_path_cache (base : string) (fs : DirView) :
  path_cache (init base fs)
  = flat_map (fun rel =>
                match last_under rel (walk_rel base fs) with
                | Some full => [(rel, full)]
                | None => []
                end)
             (first_seen [] (map fst (walk_rel base fs))).
Proof.
  assert (K : Dict.keys (path_cache (init base fs))
              = first_seen [] (map fst (walk_rel base fs))).
  { rewrite init_flat, scan_pairs_rels. simpl. unfold walk_rel.
    now rewrite map_map. }
  assert (Hnd : NoDup (Dict.keys (path_cache (init base fs))))
    by (rewrite K; apply first_seen_NoDup).
  assert (G : forall rel, Dict.get rel (path_cache (init base fs))
                          = last_under rel (walk_rel base fs)).
  { intros rel. rewrite init_flat, scan_pairs_get_path. simpl.
    unfold walk_rel. now destruct (last_under rel _). }
  pose proof (dict_by_keys (path_cache (init base fs))
                (fun rel => last_under rel (walk_rel base fs)) Hnd
                (fun k _ => G k)) as E.
  rewrite K in E. exact E.
Qed.

Lemma name_matches_by_name (base : string) (fs : DirView) (pattern : string) :
  name_matches (init base fs) pattern = by_name fs pattern.
Proof.
  unfold name_matches, by_name. rewrite init_file_cache.
  induction (listed_names fs) as [|n l IH]; simpl; [reflexivity|].
  rewrite IH. destruct (PyStr.fnmatch n pattern); reflexivity.
Qed.

Lemma path_matches_by_path (base : string) (fs : DirView) (pattern : string) :
  path_matches (init base fs) pattern = by_path base fs pattern.
Proof.
  unfold path_matches, by_path. rewrite init_path_cache.
  induction (first_seen [] (map fst (walk_rel base fs))) as [|r l IH];
    simpl; [reflexivity|].
  rewrite filter_app, map_app, IH.
  destruct (PyStr.fnmatch r pattern || PyStr.contains pattern r) eqn:E; simpl;
    destruct (last_under r (walk_rel base fs)) as [full|]; simpl;
    rewrite ?E; reflexivity.
Qed.

(** The lookup on a fresh cache, read off the walk. *)
Lemma find_files_by_walk (base : string) (fs : DirView) (pattern : string) :
  find_files (init base fs) pattern
  = match recorded fs pattern with
    | [] => by_name fs pattern
            ++ first_seen (by_name fs pattern) (by_path base fs pattern)
    | paths => paths
    end.
Proof.
  unfold find_files. rewrite init_get.
  destruct (recorded fs pattern) as [|x l]; simpl; [|reflexivity].
  rewrite path_pass_first_seen.
  fold (path_matches (init base fs) pattern).
  now rewrite name_matches_by_name, path_matches_by_path.
Qed.

Lemma walk_files_paths (fs : DirView) :
  dir_exists fs = true ->
  map (fun rf : string * string => PyStr.os_path_join (fst rf) (snd rf))
      (walk_files fs)
  = walk_paths fs.
Proof.
  intros H. unfold walk_files, walk_paths. rewrite H. simpl.
  induction (os_walk fs) as [|[[root dirs] files] walk IH]; simpl; auto.
  rewrite map_app, IH, map_map. reflexivity.
Qed.

(** C6, as amended: on a freshly built cache, a pattern that is the name
    of a listed file yields the paths recorded under that name; any other
    pattern yields, first, the paths of every listed file name that the
    pattern matches as a wildcard (names in order of first listing) and
    then, in order of first listing, the paths whose relative path the
    pattern matches as a wildcard or is a substring of and that are not
    in the list yet: both stages always run. The result has no
    duplicates when the walk lists no file twice, and it is empty when no
    listed file matches by name or by relative path. *)
Theorem find_files_staged (base : string) (fs : DirView) (pattern : string) :
  let self := init base fs in
  (recorded fs pattern <> [] -> find_files self pattern = recorded fs pattern)
  /\ (recorded fs pattern = [] ->
      find_files self pattern
      = by_name fs pattern
          ++ first_seen (by_name fs pattern) (by_path base fs pattern))
  /\ (NoDup (walk_paths fs) -> NoDup (find_files self pattern))
  /\ ((forall root file,
         In (root, file) (walk_files fs) ->
         file <> pattern
         /\ PyStr.fnmatch file pattern = false
         /\ (let rel := PyStr.os_path_relpath (PyStr.os_path_join root file)
                                              base in
             PyStr.fnmatch rel pattern = false
             /\ PyStr.contains pattern rel = false)) ->
      find_files self pattern = []).
Proof.
  intros self. subst self.
  pose proof (find_files_by_walk base fs pattern) as E.
  split; [|split; [|split]].
  - intros H. rewrite E. destruct (recorded fs pattern); [now contradiction H|].
    reflexivity.
  - intros H. rewrite E, H. reflexivity.
  - intros Hnd.
    assert (Hheld : NoDup (concat (map snd (file_cache (init base fs)))))
      by (apply (init_held_NoDup base fs Hnd)).
    unfold find_files.
    destruct (Dict.get pattern (file_cache (init base fs))) as [paths|] eqn:Eg.
    + eapply get_NoDup; eauto.
    + rewrite path_pass_first_seen. apply first_seen_spec.
      unfold name_matches.
      apply (selected_NoDup (fun k => PyStr.fnmatch k pattern)). exact Hheld.
  - intros H.
    assert (Hn : forall name, In name (listed_names fs) ->
                              name <> pattern
                              /\ PyStr.fnmatch name pattern = false).
    { intros name Hin. unfold listed_names in Hin.
      apply first_seen_In in Hin. destruct Hin as [Hin _].
      apply in_map_iff in Hin. destruct Hin as [[root file] [<- Hin]].
      destruct (H root file Hin) as (H1 & H2 & _). auto. }
    assert (Hr : forall rel, In rel (map fst (walk_rel base fs)) ->
                             PyStr.fnmatch rel pattern = false
                             /\ PyStr.contains pattern rel = false).
    { intros rel Hin. unfold walk_rel in Hin. rewrite map_map in Hin.
      apply in_map_iff in Hin. destruct Hin as [[root file] [<- Hin]].
      destruct (H root file Hin) as (_ & _ & H3). exact H3. }
    assert (Er : recorded fs pattern = []).
    { pose proof (init_get base fs pattern) as G.
      rewrite init_file_cache in G.
      destruct (recorded fs pattern) as [|x l]; [reflexivity|]. exfalso.
      assert (Hin : In pattern (listed_names fs)).
      { clear - G. induction (listed_names fs) as [|n l0 IH]; simpl in G.
        - discriminate.
        - destruct (String.eqb pattern n) eqn:E.
          + apply String.eqb_eq in E. now left.
          + right. now apply IH. }
      destruct (Hn pattern Hin) as [Hne _]. now apply Hne. }
    rewrite E, Er.
    assert (En : by_name fs pattern = []).
    { unfold by_name. rewrite filter_nil; [reflexivity|].
      apply Forall_forall. intros name Hin. now apply Hn. }
    assert (Ep : by_path base fs pattern = []).
    { unfold by_path. rewrite filter_nil; [reflexivity|].
      apply Forall_forall. intros rel Hin.
      apply first_seen_In in Hin. destruct Hin as [Hin _].
      destruct (Hr rel Hin) as [-> ->]. reflexivity. }
    now rewrite En, Ep.
Qed.

Lemma find_files_staged_witness :
  recorded Examples.twin_tree "*" = []
  /\ by_name Examples.twin_tree "*" = ["/b/pvs"; "/b/d/pvs"; "/b/df-m"]
  /\ by_path "/b" Examples.twin_tree "*" = ["/b/pvs"; "/b/df-m"; "/b/d/pvs"]
  /\ find_files (init "/b" Examples.twin_tree) "*"
     = ["/b/pvs"; "/b/d/pvs"; "/b/df-m"]
  /\ find_files (init "/b" Examples.twin_tree) "d*" = ["/b/df-m"; "/b/d/pvs"]
  /\ NoDup (find_files (init "/b" Examples.twin_tree) "*").
Proof.
  destruct (find_files_staged "/b" Examples.twin_tree "*") as (_ & H2 & H3 & _).
  destruct (find_files_staged "/b" Examples.twin_tree "d*") as (_ & D2 & _).
  split; [reflexivity|]. split; [reflexivity|]. split; [reflexivity|].
  split; [rewrite (H2 eq_refl); reflexivity|].
  split; [rewrite (D2 eq_refl); reflexivity|].
  apply H3. vm_compute. repeat constructor; simpl; intuition discriminate.
Defined.

(** C6, as stated, fails: with a filename and a relative path that both
    match the pattern, the lookup returns both, where the three-stage
    cascade of the specification stops at the filename match. *)
Lemma find_files_not_cascade :
  find_files Examples.small_cache "a*" = ["/b/ab"; "/b/a/x"]
  /\ spec_find Examples.small_cache "a*" = ["/b/ab"]
  /\ find_files Examples.small_cache "a*"
     <> spec_find Examples.small_cache "a*".
Proof.
  split; [reflexivity|]. split; [reflexivity|].
  vm_compute. discriminate.
Qed.

End FileCacheClaims.

(** ** Claims about [process_large_file_streaming] *)

Section StreamingClaims.

Import Streaming.

Variable max_matches : Z.

(** The number of records at which the early return fires. *)
Let limit : nat := Z.to_nat (Z.max 1 max_matches).

Lemma limit_reached (n : nat) :
  n < limit ->
  (Z.of_nat (S n) >=? max_matches)%Z = Nat.leb limit (S n).
Proof.
  unfold limit. intros H.
  destruct (Z.geb_spec (Z.of_nat (S n)) max_matches);
    destruct (Nat.leb_spec (Z.to_nat (Z.max 1 max_matches)) (S n));
    auto; lia.
Qed.

Lemma firstn_snoc {A} (l : list A) (x : A) (rest : list A) :
  firstn (S (List.length l)) (l ++ x :: rest) = l ++ [x].
Proof.
  induction l as [|y l IH]; simpl; [reflexivity|].
  f_equal. exact IH.
Qed.

Lemma scan_patterns_spec (num : nat) (line : string) (pats : list string)
      (matches : list match_record) :
  List.length matches < limit ->
  let found := map (mkMatch (num + 1) line)
                   (filter (fun p => PyStr.contains p line) pats) in
  scan_patterns max_matches num line pats matches
  = (firstn limit (matches ++ found),
     Nat.leb limit (List.length matches + List.length found)).
Proof.
  revert matches. induction pats as [|p pats IH]; intros matches Hlt; simpl.
  - rewrite app_nil_r, firstn_all2 by lia.
    f_equal. symmetry. apply Nat.leb_gt. lia.
  - destruct (PyStr.contains p line) eqn:E; simpl.
    + rewrite length_app. simpl. rewrite Nat.add_1_r.
      rewrite limit_reached by exact Hlt.
      destruct (Nat.leb_spec limit (S (List.length matches))) as [Hge|Hlt'].
      * assert (Hl : limit = S (List.length matches)) by lia.
        f_equal.
        -- rewrite Hl. symmetry. apply firstn_snoc.
        -- symmetry. apply Nat.leb_le. lia.
      * specialize (IH (matches ++ [mkMatch (num + 1) line p])).
        rewrite length_app in IH. simpl in IH.
        rewrite IH by lia.
        rewrite <- app_assoc. simpl. f_equal.
        f_equal. lia.
    + now apply IH.
Qed.

Lemma scan_lines_spec (pats : list string) (ls : list string) (num : nat)
      (matches : list match_record) :
  List.length matches < limit ->
  fst (scan_lines max_matches pats num ls matches)
  = firstn limit (matches ++ all_matches num ls pats).
Proof.
  revert num matches. induction ls as [|raw ls IH]; intros num matches Hlt; simpl.
  - now rewrite app_nil_r, firstn_all2 by lia.
  - pose proof (scan_patterns_spec num (PyStr.strip raw) pats matches Hlt) as Hp.
    cbv zeta in Hp. fold (line_matches num raw pats) in Hp. rewrite Hp.
    destruct (Nat.leb_spec limit
                (List.length matches + List.length (line_matches num raw pats)))
      as [Hge|Hlt']; simpl.
    + symmetry. rewrite (app_assoc matches).
      rewrite (firstn_app limit (matches ++ line_matches num raw pats)).
      rewrite length_app.
      replace (limit - _) with 0 by lia. simpl. now rewrite app_nil_r.
    + rewrite firstn_all2 by (rewrite length_app; lia).
      rewrite IH by (rewrite length_app; lia).
      now rewrite app_assoc.
Qed.

End StreamingClaims.

(** C10, as amended: the function is total; it returns the first
    [max(max_matches, 1)] matches of the file in file order and stops
    there; a missing file or a failing [open] gives the empty list; and a
    read error in the middle of the file gives the matches collected from
    the lines read before it. *)
Theorem streaming_returns_first_matches
        (file : Streaming.file_view) (search_patterns : list string)
        (max_matches : Z) :
  let r := Streaming.process_large_file_streaming file search_patterns
                                                  max_matches in
  match file with
  | Streaming.Missing | Streaming.OpenError => r = []
  | Streaming.Lines ls | Streaming.ReadError ls =>
      r = firstn (Z.to_nat (Z.max 1 max_matches))
                 (Streaming.all_matches 0 ls search_patterns)
  end
  /\ (Z.of_nat (List.length r) <= Z.max 1 max_matches)%Z.
Proof.
  assert (H : forall ls,
             fst (Streaming.scan_lines max_matches search_patterns 0 ls [])
             = firstn (Z.to_nat (Z.max 1 max_matches))
                      (Streaming.all_matches 0 ls search_patterns)).
  { intros ls. rewrite scan_lines_spec; [reflexivity|simpl; lia]. }
  destruct file as [| |ls|ls]; simpl.
  - split; [reflexivity|simpl; lia].
  - split; [reflexivity|simpl; lia].
  - rewrite H. split; [reflexivity|].
    pose proof (firstn_le_length (Z.to_nat (Z.max 1 max_matches))
                  (Streaming.all_matches 0 ls search_patterns)). lia.
  - rewrite H. split; [reflexivity|].
    pose proof (firstn_le_length (Z.to_nat (Z.max 1 max_matches))
                  (Streaming.all_matches 0 ls search_patterns)). lia.
Qed.

(** C10, as stated, fails twice: a read error after a matching line
    returns that match, not the empty list; and with [max_matches = 0] one
    record is returned. *)
Lemma streaming_not_as_claimed :
  Streaming.process_large_file_streaming
    (Streaming.ReadError ["error: disk"]) ["error"] 100
  = [Streaming.mkMatch 1 "error: disk" "error"]
  /\ List.length
       (Streaming.process_large_file_streaming
          (Streaming.Lines ["error: disk"; "error: net"]) ["error"] 0) = 1.
Proof. split; reflexivity. Qed.

(** ** How worker code treats the shared state *)

Section Framework.

Import Worker Props.

Lemma grows_refl (s : St) : grows s s.
Proof.
  constructor; auto; exists []; now rewrite app_nil_r.
Qed.

Lemma grows_trans (s1 s2 s3 : St) : grows s1 s2 -> grows s2 s3 -> grows s1 s3.
Proof.
  intros [a1 b1 c1 [p1 d1] [q1 e1] [r1 f1]] [a2 b2 c2 [p2 d2] [q2 e2] [r2 f2]].
  constructor.
  - congruence.
  - congruence.
  - auto.
  - exists (p1 ++ p2). now rewrite d2, d1, app_assoc.
  - exists (q1 ++ q2). now rewrite e2, e1, app_assoc.
  - exists (r1 ++ r2). now rewrite f2, f1, app_assoc.
Qed.

Lemma grows_write_status (hb : Heartbeat) (s : St) : grows s (write_status hb s).
Proof.
  unfold write_status. destruct (status_writable s) eqn:E.
  - constructor; simpl; auto; try (exists []; now rewrite app_nil_r).
    now exists [hb].
  - apply grows_refl.
Qed.

Lemma grows_write_results (s : St) : grows s (write_results s).
Proof.
  unfold write_results. destruct (results_writable s) eqn:E.
  - constructor; simpl; auto; try (exists []; now rewrite app_nil_r).
    now exists [checks s].
  - apply grows_refl.
Qed.

Lemma grows_with_sigint (i : option nat) (s : St) : grows s (with_sigint i s).
Proof.
  constructor; simpl; auto; exists []; now rewrite app_nil_r.
Qed.

Lemma grows_with_cleanups (l : list string) (s : St) :
  grows s (with_cleanups l s).
Proof.
  constructor; simpl; auto; exists []; now rewrite app_nil_r.
Qed.

Lemma registered_In (name : string) :
  existsb (String.eqb name) registered = true -> In name registered.
Proof.
  rewrite existsb_exists. intros [x [Hx E]].
  apply String.eqb_eq in E. now subst.
Qed.

Lemma keys_mem {V} (name : string) (d : Dict.t V) :
  In name (Dict.keys d) <-> Dict.mem name d = true.
Proof.
  unfold Dict.keys, Dict.mem.
  induction d as [|[k v] d IH]; simpl.
  - split; [contradiction|discriminate].
  - destruct (String.eqb name k) eqn:E.
    + apply String.eqb_eq in E. subst. tauto.
    + apply String.eqb_neq in E. rewrite <- IH. split.
      * intros [H|H]; [congruence|exact H].
      * tauto.
Qed.

Lemma grows_put (name : string) (cr : CheckResult) (s : St) :
  Dict.mem name (checks s) = true \/ In name registered ->
  grows s (with_checks (Dict.set name cr (checks s)) s).
Proof.
  intros H.
  constructor; simpl; auto; try (exists []; now rewrite app_nil_r).
  intros Hk. rewrite dict_keys_set_present; auto.
  destruct H as [H|H]; auto.
  apply keys_mem. now rewrite Hk.
Qed.

Lemma good_ret {A} (a : A) : good (ret a).
Proof. intros s. simpl. split; [apply grows_refl|auto]. Qed.

Lemma good_raise {A} (msg : string) : good (@raise A msg).
Proof. intros s. simpl. split; [apply grows_refl|auto]. Qed.

Lemma good_bind {A B} (m : M A) (k : A -> M B) :
  good m -> (forall a, good (k a)) -> good (bind m k).
Proof.
  intros Hm Hk s. unfold bind.
  specialize (Hm s). destruct (m s) as [[a|msg|c] s1]; simpl in *; auto.
  destruct Hm as [G1 S1].
  specialize (Hk a s1). destruct (k a s1) as [[b|msg|c] s2]; simpl in *;
    destruct Hk as [G2 S2]; (split; [eapply grows_trans; eauto|]); auto.
  destruct S2 as [Hc [Hs Hh]]. repeat split; auto; try apply Hh.
Qed.

Lemma good_try_except {A} (m : M A) (h : string -> M A) :
  good m -> (forall msg, good (h msg)) -> good (try_except m h).
Proof.
  intros Hm Hh s. unfold try_except.
  specialize (Hm s). destruct (m s) as [[a|msg|c] s1]; simpl in *; auto.
  destruct Hm as [G1 S1].
  specialize (Hh msg s1). destruct (h msg s1) as [[b|msg'|c] s2]; simpl in *;
    destruct Hh as [G2 S2]; (split; [eapply grows_trans; eauto|]); auto.
  destruct S2 as [Hc [Hs Hh']]. repeat split; auto; try apply Hh'.
Qed.

Lemma good_ignore {A} (m : M A) : good m -> good (ignore m).
Proof. intros H. apply good_bind; auto. intros a. apply good_ret. Qed.

Lemma good_when (b : bool) (m : M unit) : good m -> good (when b m).
Proof. intros H. destruct b; simpl; auto. apply good_ret. Qed.

Lemma good_for_each {A} (l : list A) (body : A -> M unit) :
  (forall x, good (body x)) -> good (for_each l body).
Proof.
  intros H. induction l as [|x l IH]; simpl.
  - apply good_ret.
  - apply good_bind; auto.
Qed.

Lemma good_fold_m {A B} (l : list A) (acc : B) (body : B -> A -> M B) :
  (forall b x, good (body b x)) -> good (fold_m l acc body).
Proof.
  intros H. revert acc. induction l as [|x l IH]; intros acc; simpl.
  - apply good_ret.
  - apply good_bind; auto.
Qed.

Lemma sigint_write_status (hb : Heartbeat) (s : St) :
  sigint (write_status hb s) = sigint s.
Proof. unfold write_status. now destruct (status_writable s). Qed.

Lemma sigint_write_results (s : St) : sigint (write_results s) = sigint s.
Proof. unfold write_results. now destruct (results_writable s). Qed.

Lemma write_status_file (hb : Heartbeat) (s : St) :
  status_writable s = true ->
  status_file (write_status hb s) = status_file s ++ [hb].
Proof. unfold write_status. intros H. now rewrite H. Qed.

Lemma write_results_file (s : St) :
  results_writable s = true ->
  results_file (write_results s) = results_file s ++ [checks s].
Proof. unfold write_results. intros H. now rewrite H. Qed.

Lemma write_results_keeps (s : St) :
  checks (write_results s) = checks s
  /\ status_file (write_results s) = status_file s
  /\ status_writable (write_results s) = status_writable s
  /\ results_writable (write_results s) = results_writable s.
Proof.
  unfold write_results.
  destruct (results_writable s) eqn:E; simpl; repeat split; auto.
Qed.

Lemma write_status_keeps (hb : Heartbeat) (s : St) :
  checks (write_status hb s) = checks s
  /\ results_file (write_status hb s) = results_file s
  /\ status_writable (write_status hb s) = status_writable s
  /\ results_writable (write_status hb s) = results_writable s.
Proof.
  unfold write_status.
  destruct (status_writable s) eqn:E; simpl; repeat split; auto.
Qed.

(** The handler leaves a halted state. *)
Lemma signal_handler_halts (s : St) :
  sigint s = None ->
  halted (write_results (write_status interrupted_hb s)).
Proof.
  intros Hs.
  destruct (write_results_keeps (write_status interrupted_hb s))
    as [Hc [Hf [Hsw Hrw]]].
  destruct (write_status_keeps interrupted_hb s) as [Hc' [Hf' [Hsw' Hrw']]].
  repeat split.
  - now rewrite sigint_write_results, sigint_write_status.
  - rewrite Hsw, Hsw'. intros Hw. rewrite Hf.
    rewrite write_status_file by exact Hw. eexists; reflexivity.
  - rewrite Hrw. intros Hw. rewrite Hc.
    rewrite write_results_file by exact Hw. eexists; reflexivity.
Qed.

Lemma good_tick : good tick.
Proof.
  intros s. unfold tick. destruct (sigint s) as [[|n]|] eqn:E; simpl.
  - split.
    + eapply grows_trans; [apply grows_with_sigint|].
      eapply grows_trans; [apply grows_write_status|apply grows_write_results].
    + repeat split; try congruence; now apply signal_handler_halts.
  - split; [apply grows_with_sigint|congruence].
  - split; [apply grows_refl|auto].
Qed.

(** A state update that keeps the interrupt countdown, as a step. *)
Lemma good_update (f : St -> St) :
  (forall s, grows s (f s)) -> (forall s, sigint (f s) = sigint s) ->
  good (fun s => (Ok tt, f s)).
Proof.
  intros Hg Hs s. simpl. split; auto. intros H. now rewrite Hs.
Qed.

Lemma good_update_status (st op : string) (pr : Z) :
  good (update_status st op pr).
Proof.
  unfold update_status. apply good_bind; [apply good_tick|intros _].
  apply good_update.
  - intros s. apply grows_write_status.
  - intros s. apply sigint_write_status.
Qed.

Lemma good_save_results : good save_results.
Proof.
  unfold save_results. apply good_bind; [apply good_tick|intros _].
  apply good_update.
  - apply grows_write_results.
  - apply sigint_write_results.
Qed.

Lemma good_entry (name : string) : good (entry name).
Proof.
  intros s. unfold entry.
  destruct (Dict.get name (checks s)); simpl; split; auto using grows_refl.
Qed.

Lemma good_has_entry (name : string) : good (has_entry name).
Proof. intros s. simpl. split; auto using grows_refl. Qed.

(** Writing back an entry that was just read. *)
Lemma good_modify (name : string) (f : CheckResult -> CheckResult) :
  good (bind (entry name) (fun cr => put_entry name (f cr))).
Proof.
  intros s. unfold bind, entry, put_entry.
  destruct (Dict.get name (checks s)) eqn:E; simpl.
  - split; auto. apply grows_put. left. unfold Dict.mem. now rewrite E.
  - split; auto using grows_refl.
Qed.

Lemma good_set_status (name v : string) : good (set_status name v).
Proof.
  unfold set_status. apply good_bind; [apply good_tick|intros _].
  apply (good_modify name (fun cr => mkCR v (details cr) (extra cr))).
Qed.

Lemma good_set_details (name : string) (l : list string) :
  good (set_details name l).
Proof.
  unfold set_details. apply good_bind; [apply good_tick|intros _].
  apply (good_modify name (fun cr => mkCR (status cr) l (extra cr))).
Qed.

Lemma good_append_detail (name d : string) : good (append_detail name d).
Proof.
  unfold append_detail. apply good_bind; [apply good_tick|intros _].
  apply (good_modify name
           (fun cr => mkCR (status cr) (details cr ++ [d]) (extra cr))).
Qed.

Lemma good_set_extra (name key v : string) : good (set_extra name key v).
Proof.
  unfold set_extra. apply good_bind; [apply good_tick|intros _].
  apply (good_modify name
           (fun cr => mkCR (status cr) (details cr)
                           (Dict.set key v (extra cr)))).
Qed.

Lemma good_replace_entry (name : string) (cr : CheckResult) :
  existsb (String.eqb name) registered = true ->
  good (replace_entry name cr).
Proof.
  intros H. unfold replace_entry.
  apply good_bind; [apply good_tick|intros _].
  intros s. unfold put_entry. simpl. split; auto.
  apply grows_put. right. now apply registered_In.
Qed.

Lemma good_get_status (name : string) : good (get_status name).
Proof.
  unfold get_status. apply good_bind; [apply good_entry|intros cr].
  apply good_ret.
Qed.

Lemma good_set_version (v : string) : good (set_version v).
Proof.
  unfold set_version. apply good_bind; [apply good_tick|intros _].
  intros s. simpl. split; auto.
  constructor; simpl; auto; exists []; now rewrite app_nil_r.
Qed.

Lemma good_get_file_cache (h : Host) : good (get_file_cache h).
Proof.
  intros s. unfold get_file_cache.
  assert (G : forall c, grows s
                (mkSt (checks s) (version s) (status_file s) (results_file s)
                      (status_writable s) (results_writable s) (commands s)
                      (Some c) (sigint s) (cleanups s)))
    by (intros c; constructor; simpl; auto; exists []; now rewrite app_nil_r).
  destruct (file_cache s) as [c|]; simpl.
  - destruct (String.eqb (FileCache.base_dir c) (node_dir h)); simpl;
      split; auto using grows_refl.
  - split; auto.
Qed.

Lemma good_find_and_extend (h : Host) (cache : FileCache.t)
      (pattern : string) (more : list string) :
  good (find_and_extend h cache pattern more).
Proof.
  unfold find_and_extend.
  destruct (Dict.get pattern (FileCache.file_cache cache)).
  - intros s. simpl. split; auto.
    constructor; simpl; auto; exists []; now rewrite app_nil_r.
  - apply good_ret.
Qed.

Lemma good_run_extraction_command (h : Host) (cmd : sh) :
  good (run_extraction_command h cmd).
Proof.
  intros s. unfold run_extraction_command.
  destruct (sh_run (sh_ok h) cmd) as [ran ok]. simpl. split; auto.
  constructor; simpl; auto; try (exists []; now rewrite app_nil_r).
  now exists ran.
Qed.

Lemma good_run_command_unified (h : Host) (cmd : sh) :
  good (run_command_unified h cmd).
Proof.
  unfold run_command_unified.
  apply good_bind; [apply good_run_extraction_command|intros ok].
  apply good_ret.
Qed.

Lemma good_try_bare (m : M unit) : good m -> good (try_bare m).
Proof.
  intros H s. unfold try_bare. specialize (H s).
  destruct (m s) as [[a|msg|c] s1]; simpl in *; destruct H as [G S];
    split; auto.
  intros Hn. destruct S as (_ & Hs & _). contradiction.
Qed.

Lemma good_cleanup_run (cmd : string) : good (cleanup_run cmd).
Proof.
  unfold cleanup_run. apply good_bind; [apply good_tick|intros _].
  apply good_update; [intros s; apply grows_with_cleanups|reflexivity].
Qed.

End Framework.

Create HintDb good_db.
#[global] Hint Resolve
  good_ret good_raise good_tick good_update_status good_save_results
  good_entry good_has_entry good_set_status good_set_details
  good_append_detail good_set_extra good_get_status good_set_version
  good_get_file_cache good_find_and_extend good_run_extraction_command
  good_run_command_unified good_cleanup_run : good_db.

(** One step of a structural proof that a piece of worker code is
    [good]: a combinator, a primitive, or a case distinction. *)
Ltac good_step :=
  first
    [ solve [auto with good_db nocore]
    | apply good_replace_entry; reflexivity
    | apply good_bind; [|intro]
    | apply good_try_except; [|intro]
    | apply good_ignore
    | apply good_when
    | apply good_for_each; intro
    | apply good_fold_m; intros
    | apply good_try_bare
    | match goal with
      | |- Props.good (match ?x with _ => _ end) => destruct x
      end
    | progress cbv zeta ].

Ltac good_tac := repeat good_step.

(** ** The cleanup that ends every run *)

Section Cleanup.

Import Worker Props.

Lemma with_cleanups_twice (l1 l2 : list string) (s : St) :
  with_cleanups (cleanups (with_cleanups (cleanups s ++ l1) s) ++ l2)
                (with_cleanups (cleanups s ++ l1) s)
  = with_cleanups (cleanups s ++ l1 ++ l2) s.
Proof. unfold with_cleanups. simpl. now rewrite app_assoc. Qed.

Lemma with_cleanups_same (s : St) : with_cleanups (cleanups s ++ []) s = s.
Proof. unfold with_cleanups. rewrite app_nil_r. now destruct s. Qed.

Lemma quiet_ret : quiet (ret tt).
Proof. intros s _. exists []. unfold ret. now rewrite with_cleanups_same. Qed.

Lemma quiet_bind (m : M unit) (k : unit -> M unit) :
  quiet m -> (forall u, quiet (k u)) -> quiet (bind m k).
Proof.
  intros Hm Hk s Hs. destruct (Hm s Hs) as [l1 E1].
  unfold bind. rewrite E1.
  destruct (Hk tt (with_cleanups (cleanups s ++ l1) s) Hs) as [l2 E2].
  rewrite E2, with_cleanups_twice. eauto.
Qed.

Lemma quiet_try_except (m : M unit) (h : string -> M unit) :
  quiet m -> quiet (try_except m h).
Proof.
  intros Hm s Hs. destruct (Hm s Hs) as [l E].
  unfold try_except. rewrite E. eauto.
Qed.

Lemma quiet_try_bare (m : M unit) : quiet m -> quiet (try_bare m).
Proof.
  intros Hm s Hs. destruct (Hm s Hs) as [l E].
  unfold try_bare. rewrite E. eauto.
Qed.

Lemma quiet_for_each {A} (l : list A) (body : A -> M unit) :
  (forall x, quiet (body x)) -> quiet (for_each l body).
Proof.
  intros H. induction l as [|x l IH]; simpl.
  - apply quiet_ret.
  - apply quiet_bind; auto.
Qed.

Lemma quiet_tick : quiet tick.
Proof.
  intros s Hs. exists []. unfold tick. rewrite Hs.
  now rewrite with_cleanups_same.
Qed.

Lemma quiet_cleanup_run (cmd : string) : quiet (cleanup_run cmd).
Proof.
  intros s Hs. exists [cmd]. unfold cleanup_run, bind, tick.
  now rewrite Hs.
Qed.

Lemma quiet_cleanup (h : Host) : quiet (cleanup_processes h).
Proof.
  unfold cleanup_processes, sleep.
  apply quiet_try_except. apply quiet_bind.
  - apply quiet_try_except. apply quiet_bind; [apply quiet_cleanup_run|].
    intros _. cbv zeta. apply quiet_bind.
    + apply quiet_for_each. intros pid. apply quiet_try_bare, quiet_cleanup_run.
    + intros _. destruct (child_pids h) as [|c cs]; [apply quiet_ret|].
      apply quiet_bind; [apply quiet_tick|intros _].
      apply quiet_for_each. intros pid. apply quiet_try_bare.
      destruct (path_exists h ("/proc/" ++ pid)%string);
        [apply quiet_cleanup_run|apply quiet_ret].
  - intros _. apply quiet_try_bare.
    apply quiet_bind; [apply quiet_cleanup_run|intros _].
    apply quiet_cleanup_run.
Qed.

Lemma halted_kept (s s' : St) :
  halted s -> checks s' = checks s ->
  status_writable s' = status_writable s ->
  results_writable s' = results_writable s ->
  sigint s' = None ->
  status_file s' = status_file s -> results_file s' = results_file s ->
  halted s'.
Proof.
  intros (H1 & H2 & H3) Ec Esw Erw Es Esf Erf. repeat split.
  - exact Es.
  - rewrite Esw, Esf. exact H2.
  - rewrite Erw, Erf, Ec. exact H3.
Qed.

(** The six parts of [mild], each from the hypotheses at hand. *)
Ltac mild_close :=
  do 5 (split; [solve [auto | intros; congruence]|]);
  let c := fresh "c" in let E := fresh "E" in
  intros c E; try discriminate E; auto.

Lemma mild_ret : mild (ret tt).
Proof. intros s. simpl. mild_close. Qed.

(** Sequencing, for [bind] and for the handler of [try_except] alike. *)
Lemma mild_then (s s1 : St) (k : M unit) :
  checks s1 = checks s ->
  status_writable s1 = status_writable s ->
  results_writable s1 = results_writable s ->
  (sigint s = None -> sigint s1 = None) ->
  (status_file s1 = status_file s /\ results_file s1 = results_file s)
  \/ (sigint s <> None /\ halted s1) ->
  mild k ->
  checks (snd (k s1)) = checks s
  /\ status_writable (snd (k s1)) = status_writable s
  /\ results_writable (snd (k s1)) = results_writable s
  /\ (sigint s = None -> sigint (snd (k s1)) = None)
  /\ ((status_file (snd (k s1)) = status_file s
       /\ results_file (snd (k s1)) = results_file s)
      \/ (sigint s <> None /\ halted (snd (k s1))))
  /\ (forall c, fst (k s1) = Exit c ->
                c = 130%Z /\ sigint s <> None /\ halted (snd (k s1))).
Proof.
  intros Ec Esw Erw Es D Hk.
  destruct (Hk s1) as (Kc & Ksw & Krw & Ks & KD & KE).
  assert (N : sigint s1 <> None -> sigint s <> None)
    by (intros H1 H2; apply H1; auto).
  split; [congruence|]. split; [congruence|]. split; [congruence|].
  split; [auto|]. split.
  - destruct D as [[D1 D2]|[D1 D2]].
    + destruct KD as [[K1 K2]|[K1 K2]]; [left; split; congruence|right; auto].
    + right. split; [exact D1|].
      destruct KD as [[K1 K2]|[K1 K2]]; [|exact K2].
      apply (halted_kept s1); auto. apply Ks. apply D2.
  - intros c E. destruct (KE c E) as (Hc & Hn & Hh). auto.
Qed.

Lemma mild_bind (m : M unit) (k : unit -> M unit) :
  mild m -> (forall u, mild (k u)) -> mild (bind m k).
Proof.
  intros Hm Hk s. destruct (Hm s) as (Mc & Msw & Mrw & Ms & MD & ME).
  unfold bind. destruct (m s) as [[a|msg|c] s1]; simpl in *.
  - apply mild_then; auto.
  - mild_close.
  - mild_close.
Qed.

Lemma mild_try_except (m : M unit) (h : string -> M unit) :
  mild m -> (forall e, mild (h e)) -> mild (try_except m h).
Proof.
  intros Hm Hh s. destruct (Hm s) as (Mc & Msw & Mrw & Ms & MD & ME).
  unfold try_except. destruct (m s) as [[a|msg|c] s1]; simpl in *.
  - mild_close.
  - apply mild_then; auto.
  - mild_close.
Qed.

Lemma mild_try_bare (m : M unit) : mild m -> mild (try_bare m).
Proof.
  intros Hm s. destruct (Hm s) as (Mc & Msw & Mrw & Ms & MD & ME).
  unfold try_bare. destruct (m s) as [[a|msg|c] s1]; simpl in *.
  - mild_close.
  - mild_close.
  - destruct (ME c eq_refl) as (_ & Hn & Hh). mild_close.
Qed.

Lemma mild_for_each {A} (l : list A) (body : A -> M unit) :
  (forall x, mild (body x)) -> mild (for_each l body).
Proof.
  intros H. induction l as [|x l IH]; simpl.
  - apply mild_ret.
  - apply mild_bind; auto.
Qed.

Lemma mild_tick : mild tick.
Proof.
  intros s. unfold tick. destruct (sigint s) as [[|n]|] eqn:E; simpl.
  - assert (Hh : halted (write_results
                           (write_status interrupted_hb (with_sigint None s))))
      by now apply signal_handler_halts.
    destruct (write_results_keeps
                (write_status interrupted_hb (with_sigint None s)))
      as (R1 & R2 & R3 & R4).
    destruct (write_status_keeps interrupted_hb (with_sigint None s))
      as (W1 & W2 & W3 & W4).
    fold interrupted_hb.
    split; [now rewrite R1, W1|]. split; [now rewrite R3, W3|].
    split; [now rewrite R4, W4|]. split; [discriminate|].
    split; [right; split; [discriminate|exact Hh]|].
    intros c Ec. inversion Ec. repeat split; try discriminate; apply Hh.
  - mild_close.
  - mild_close.
Qed.

Lemma mild_cleanup_run (cmd : string) : mild (cleanup_run cmd).
Proof.
  intros s. destruct (mild_tick s) as (Mc & Msw & Mrw & Ms & MD & ME).
  unfold cleanup_run, bind. destruct (tick s) as [[a|msg|c] s1]; simpl in *;
    mild_close.
Qed.

Lemma mild_cleanup (h : Host) : mild (cleanup_processes h).
Proof.
  unfold cleanup_processes, sleep.
  apply mild_try_except; [|intros _; apply mild_ret]. apply mild_bind.
  - apply mild_try_except; [|intros _; apply mild_ret].
    apply mild_bind; [apply mild_cleanup_run|].
    intros _. cbv zeta. apply mild_bind.
    + apply mild_for_each. intros pid. apply mild_try_bare, mild_cleanup_run.
    + intros _. destruct (child_pids h) as [|c cs]; [apply mild_ret|].
      apply mild_bind; [apply mild_tick|intros _].
      apply mild_for_each. intros pid. apply mild_try_bare.
      destruct (path_exists h ("/proc/" ++ pid)%string);
        [apply mild_cleanup_run|apply mild_ret].
  - intros _. apply mild_try_bare.
    apply mild_bind; [apply mild_cleanup_run|intros _].
    apply mild_cleanup_run.
Qed.

Lemma good_cleanup (h : Host) : good (cleanup_processes h).
Proof. unfold cleanup_processes, sleep. good_tac. Qed.

(** The handlers of the cleanup only print. *)
Lemma cleanup_never_raises (h : Host) (s : St) (msg : string) :
  fst (cleanup_processes h s) <> Exc msg.
Proof.
  unfold cleanup_processes. unfold try_except at 1.
  match goal with |- context [match ?m s with _ => _ end] =>
    destruct (m s) as [[a|e|c] s1] end; simpl; discriminate.
Qed.

(** With no interrupt pending the cleanup leaves everything but its own
    log as it is. *)
Lemma finally_calm {A} (h : Host) (m : M A) (s s1 : St) (r : res A) :
  m s = (r, s1) -> sigint s1 = None ->
  exists l, finally m (cleanup_processes h) s
            = (r, with_cleanups (cleanups s1 ++ l) s1).
Proof.
  intros E Hs. destruct (quiet_cleanup h s1 Hs) as [l El].
  exists l. unfold finally. now rewrite E, El.
Qed.

Lemma good_finally {A} (h : Host) (m : M A) :
  good m -> good (finally m (cleanup_processes h)).
Proof.
  intros Hm s. unfold finally. specialize (Hm s).
  destruct (m s) as [r s1]. simpl in Hm. destruct Hm as [G S].
  pose proof (good_cleanup h s1) as [G1 S1].
  destruct (mild_cleanup h s1) as (Mc & Msw & Mrw & Ms & MD & ME).
  destruct (cleanup_processes h s1) as [[u|msg|c] s2] eqn:Ec; simpl in *.
  - split; [eapply grows_trans; eauto|].
    destruct r as [a|msg|c]; auto.
    destruct S as (Hc & Hn & Hh). repeat split; auto; try apply Hn.
    + apply Ms, Hh.
    + destruct MD as [[D1 D2]|[D1 D2]]; [|apply D2].
      apply (halted_kept s1 s2 Hh); auto. apply Ms, Hh.
    + destruct MD as [[D1 D2]|[D1 D2]]; [|apply D2].
      apply (halted_kept s1 s2 Hh); auto. apply Ms, Hh.
  - exfalso. apply (cleanup_never_raises h s1 msg). now rewrite Ec.
  - split; [eapply grows_trans; eauto|].
    destruct S1 as (Hc & Hn & Hh). repeat split; auto; try apply Hh.
    intros Hs. apply Hn. destruct r as [a|msg|c']; auto.
    destruct S as (_ & Hn' & _). contradiction.
Qed.

End Cleanup.

(** ** Every function of the worker is [good] *)

Section GoodFunctions.

Import Worker Props.

Variable h : Host.
Variable p : Probe.

Lemma good_techsupport_fail (d op : string) (pr : Z) :
  good (techsupport_fail d op pr).
Proof. unfold techsupport_fail. good_tac. Qed.

Lemma good_select_newest : good (select_newest h).
Proof. unfold select_newest. good_tac. Qed.

Lemma good_select_techsupport (sp : option string) :
  good (select_techsupport h sp).
Proof.
  unfold select_techsupport. pose proof good_select_newest. good_tac.
Qed.

Lemma good_generate_techsupport (v : option string) :
  good (generate_techsupport h v).
Proof.
  unfold generate_techsupport. pose proof good_techsupport_fail. good_tac.
Qed.

Lemma good_extract_techsupport (dir file : string) :
  good (extract_techsupport h dir file).
Proof.
  unfold extract_techsupport. pose proof good_techsupport_fail. good_tac.
Qed.

Lemma good_robust_check (name : string) (func : M bool) :
  good func -> good (robust_check name func).
Proof. intros H. unfold robust_check. good_tac. Qed.

Lemma good_extract_techsupport_optimized (f dir : string) :
  good (extract_techsupport_optimized h f dir).
Proof.
  unfold extract_techsupport_optimized. apply good_robust_check.
  unfold extract_techsupport_optimized_body. good_tac.
Qed.

Lemma good_check_subnet_isolation : good (check_subnet_isolation h p).
Proof.
  unfold check_subnet_isolation.
  assert (forall b x, good (subnet_node p b x))
    by (intros b [[n d] m]; unfold subnet_node; good_tac).
  good_tac.
Qed.

Lemma good_check_ping_reachability : good (check_ping_reachability h p).
Proof. unfold check_ping_reachability. good_tac. Qed.

Lemma good_check_node_status : good (check_node_status h p).
Proof.
  unfold check_node_status.
  assert (forall b x, good (node_row b x))
    by (intros b x; unfold node_row; good_tac).
  good_tac.
Qed.

Lemma good_check_disk_space (f : string) : good (check_disk_space h p f).
Proof.
  unfold check_disk_space.
  assert (forall l, good (disk_fail l)) by (intros l; unfold disk_fail; good_tac).
  good_tac.
Qed.

Lemma good_pods_final (sc : pod_scan) : good (pods_final sc).
Proof. unfold pods_final. good_tac. Qed.

Lemma good_check_pods (f : option string) : good (check_pods h p f).
Proof.
  unfold check_pods, pods_live. pose proof good_pods_final. good_tac.
Qed.

Lemma good_check_system_health (f : option string) :
  good (check_system_health h f).
Proof. unfold check_system_health. good_tac. Qed.

Lemma good_nxos_unable : good nxos_unable.
Proof. unfold nxos_unable. good_tac. Qed.

Lemma good_k8_app_scan (ls : list string) (found : bool) :
  good (k8_app_scan ls found).
Proof.
  pose proof good_nxos_unable.
  revert found. induction ls as [|l ls IH]; intros found; simpl; good_tac.
Qed.

Lemma good_check_nxos_discovery_service (f : string) :
  good (check_nxos_discovery_service h f).
Proof.
  unfold check_nxos_discovery_service.
  pose proof good_nxos_unable. pose proof good_k8_app_scan. good_tac.
Qed.

Lemma good_ca_final (m : list string) (ff : option bool) :
  good (ca_final h m ff).
Proof. unfold ca_final. good_tac. Qed.

Lemma good_check_CA (f : string) : good (check_CA_CSCwm35992 h f).
Proof.
  unfold check_CA_CSCwm35992.
  pose proof good_ca_final.
  assert (forall d, good (ca_warning d)) by (intros d; unfold ca_warning; good_tac).
  good_tac.
Qed.

Lemma good_iso_final (m : list string) (fe : bool) :
  good (iso_final h p m fe).
Proof. unfold iso_final. good_tac. Qed.

Lemma good_check_ISOs (f : string) : good (check_ISOs_CSCwn94394 h p f).
Proof. unfold check_ISOs_CSCwn94394. pose proof good_iso_final. good_tac. Qed.

Lemma good_check_lvm_pvs (f : string) : good (check_lvm_pvs h f).
Proof. unfold check_lvm_pvs. good_tac. Qed.

Lemma good_pip_extras (e r : string) : good (pip_extras e r).
Proof. unfold pip_extras. good_tac. Qed.

Lemma good_pip_analyse (c : list string) : good (pip_analyse p c).
Proof. unfold pip_analyse. pose proof good_pip_extras. good_tac. Qed.

Lemma good_check_persistent_ip_config (f : string) :
  good (check_persistent_ip_config h p f).
Proof.
  unfold check_persistent_ip_config.
  pose proof good_pip_extras. pose proof good_pip_analyse. good_tac.
Qed.

Lemma good_nvme_warning (d e r : string) : good (nvme_warning d e r).
Proof. unfold nvme_warning. good_tac. Qed.

Lemma good_check_atom0_nvme (f : string) : good (check_atom0_nvme h f).
Proof.
  unfold check_atom0_nvme, nvme_no_node_type, nvme_no_pvs.
  pose proof good_nvme_warning. good_tac.
Qed.

Lemma good_vg_unable : good vg_unable.
Proof. unfold vg_unable. good_tac. Qed.

Lemma good_check_atom0_vg (f : string) : good (check_atom0_vg h p f).
Proof. unfold check_atom0_vg. pose proof good_vg_unable. good_tac. Qed.

Lemma good_worker_bodies (dest : string) : good_bodies (worker_bodies h p dest).
Proof.
  unfold good_bodies, worker_bodies. simpl.
  repeat split;
    first [ apply good_check_subnet_isolation
          | apply good_check_ping_reachability
          | apply good_check_node_status
          | apply good_check_disk_space
          | apply good_check_pods
          | apply good_check_system_health
          | apply good_check_nxos_discovery_service
          | apply good_check_CA
          | apply good_check_ISOs
          | apply good_check_lvm_pvs
          | apply good_check_persistent_ip_config
          | apply good_check_atom0_nvme
          | apply good_check_atom0_vg ].
Qed.

Lemma good_run_guarded (g : guarded) : good (g_call g) -> good (run_guarded g).
Proof. intros H. unfold run_guarded. good_tac. Qed.

Lemma good_run_checks (b : Bodies) : good_bodies b -> good (run_checks b).
Proof.
  intros (H1 & H2 & H3 & H4 & H5 & H6 & H7 & H8 & H9 & H10 & H11 & H12 & H13).
  unfold run_checks, main_checks. simpl.
  repeat (apply good_bind; [apply good_run_guarded; simpl;
                            auto using good_ignore, good_robust_check
                           |intros _]).
  apply good_ret.
Qed.

Lemma good_mark_not_run (prefix msg : string) : good (mark_not_run prefix msg).
Proof.
  unfold mark_not_run. apply good_bind.
  - intros s. simpl. split; auto using grows_refl.
  - intros names. good_tac.
Qed.

Lemma good_main_body (bodies : string -> Bodies) :
  (forall dest, good_bodies (bodies dest)) -> good (main_body h bodies).
Proof.
  intros Hb. unfold main_body, makedirs.
  pose proof good_generate_techsupport. pose proof good_select_techsupport.
  pose proof good_extract_techsupport. pose proof good_mark_not_run.
  assert (forall d, good (run_checks (bodies d)))
    by (intros d; apply good_run_checks, Hb).
  good_tac.
Qed.

Lemma good_main (bodies : string -> Bodies) :
  (forall dest, good_bodies (bodies dest)) -> good (main h bodies).
Proof.
  intros Hb. unfold main. apply good_finally. now apply good_main_body.
Qed.

End GoodFunctions.


(** ** Running without a pending interrupt *)

Section Calm.

Import Worker Props.

Lemma tick_calm (s : St) : sigint s = None -> tick s = (Ok tt, s).
Proof. unfold tick. intros H. now rewrite H. Qed.

Lemma update_status_calm (st op : string) (pr : Z) (s : St) :
  sigint s = None ->
  update_status st op pr s = (Ok tt, write_status (mkHB st op pr) s).
Proof. intros H. unfold update_status, bind. now rewrite tick_calm. Qed.

Lemma save_results_calm (s : St) :
  sigint s = None -> save_results s = (Ok tt, write_results s).
Proof. intros H. unfold save_results, bind. now rewrite tick_calm. Qed.

Lemma set_status_calm (name v : string) (s : St) (cr : CheckResult) :
  sigint s = None -> Dict.get name (checks s) = Some cr ->
  set_status name v s
  = (Ok tt, with_checks (Dict.set name (mkCR v (details cr) (extra cr))
                                  (checks s)) s).
Proof.
  intros H E. unfold set_status, bind, entry, put_entry.
  rewrite tick_calm by exact H. now rewrite E.
Qed.

Lemma set_details_calm (name : string) (l : list string) (s : St)
      (cr : CheckResult) :
  sigint s = None -> Dict.get name (checks s) = Some cr ->
  set_details name l s
  = (Ok tt, with_checks (Dict.set name (mkCR (status cr) l (extra cr))
                                  (checks s)) s).
Proof.
  intros H E. unfold set_details, bind, entry, put_entry.
  rewrite tick_calm by exact H. now rewrite E.
Qed.

Lemma append_detail_calm (name d : string) (s : St) (cr : CheckResult) :
  sigint s = None -> Dict.get name (checks s) = Some cr ->
  append_detail name d s
  = (Ok tt, with_checks (Dict.set name
                                  (mkCR (status cr) (details cr ++ [d]) (extra cr))
                                  (checks s)) s).
Proof.
  intros H E. unfold append_detail, bind, entry, put_entry.
  rewrite tick_calm by exact H. now rewrite E.
Qed.

Lemma mem_get {V} (name : string) (d : Dict.t V) :
  Dict.mem name d = true -> exists v, Dict.get name d = Some v.
Proof.
  unfold Dict.mem. destruct (Dict.get name d) as [v|]; [eauto|discriminate].
Qed.

(** What [techsupport_fail] leaves in the entry. *)
Lemma techsupport_fail_calm (d op : string) (pr : Z) (s : St) (cr : CheckResult) :
  sigint s = None -> Dict.get "techsupport" (checks s) = Some cr ->
  techsupport_fail d op pr s
  = (Ok tt,
     write_status (mkHB "error" op pr)
       (with_checks (Dict.set "techsupport"
                              (mkCR "FAIL" (details cr ++ [d]) (extra cr))
                              (checks s)) s)).
Proof.
  intros H E. unfold techsupport_fail, bind.
  rewrite (set_status_calm _ _ _ cr H E).
  rewrite (append_detail_calm "techsupport" d _
             (mkCR "FAIL" (details cr) (extra cr)));
    [|exact H|simpl; apply dict_get_set_same].
  rewrite update_status_calm by exact H.
  simpl. unfold with_checks. simpl.
  now rewrite dict_set_set.
Qed.

End Calm.

(** ** Selecting the archive *)

Section Selection.

Import Worker Props.

Lemma In_insert_desc (x z : string * Z) (l : list (string * Z)) :
  In z (insert_desc x l) <-> z = x \/ In z l.
Proof.
  induction l as [|y l IH]; simpl.
  - intuition.
  - destruct (snd y >? snd x)%Z; simpl; rewrite ?IH; intuition.
Qed.

Lemma In_sort_newest_first (z : string * Z) (l : list (string * Z)) :
  In z (sort_newest_first l) <-> In z l.
Proof.
  induction l as [|y l IH]; simpl.
  - tauto.
  - rewrite In_insert_desc, IH. intuition.
Qed.

Lemma insert_desc_newest_first (x : string * Z) (l : list (string * Z)) :
  newest_first l -> newest_first (insert_desc x l).
Proof.
  destruct l as [|[f t] l]; simpl.
  - intros _. destruct x as [g u]. simpl. intros g' u' [H|[]].
    inversion H. lia.
  - intros H. destruct (Z.gtb_spec t (snd x)).
    + simpl. intros g u [E|Hin].
      * inversion E. lia.
      * apply In_insert_desc in Hin. destruct Hin as [E|Hin].
        -- subst x. simpl in *. lia.
        -- eapply H. right. exact Hin.
    + destruct x as [g0 u0]. simpl in *. intros g u [E|Hin].
      * inversion E. lia.
      * specialize (H g u Hin). lia.
Qed.

Lemma sort_newest_first_ok (l : list (string * Z)) :
  newest_first (sort_newest_first l).
Proof.
  induction l as [|x l IH]; simpl.
  - exact I.
  - now apply insert_desc_newest_first.
Qed.

Lemma with_mtimes_nonempty (l : list (string * option Z)) (keyed : list (string * Z)) :
  l <> [] -> with_mtimes l = inl keyed -> keyed <> [].
Proof.
  destruct l as [|[f [t|]] l]; simpl; intros Hne E.
  - congruence.
  - destruct (with_mtimes l); inversion E. discriminate.
  - discriminate.
Qed.

(** The three outcomes of the selection, with the modification times as
    the sort reads them. *)
Lemma select_techsupport_keyed
        (h : Host) (specific_file : option string) (s : St) (cr : CheckResult) :
  sigint s = None ->
  Dict.get "techsupport" (checks s) = Some cr ->
  let r := fst (select_techsupport h specific_file s) in
  let s' := snd (select_techsupport h specific_file s) in
  (forall f, usable h specific_file = Some f -> r = Ok (Some f))
  /\ (usable h specific_file = None ->
      (glob_techsupport h = [] ->
       r = Ok None
       /\ result_of "techsupport" s'
          = Some (mkCR "FAIL" (details cr ++ ["No tech support files found"])
                       (extra cr)))
      /\ (forall keyed,
             glob_techsupport h <> [] ->
             with_mtimes (glob_techsupport h) = inl keyed ->
             exists newest t,
               r = Ok (Some newest)
               /\ In (newest, t) keyed
               /\ forall f u, In (f, u) keyed -> (u <= t)%Z)).
Proof.
  intros Hs Hcr r s'.
  assert (Hnewest :
            (glob_techsupport h = [] ->
             fst (select_newest h (write_status (mkHB "running" "Selecting tech support file" 10) s)) = Ok None
             /\ result_of "techsupport"
                  (snd (select_newest h (write_status (mkHB "running" "Selecting tech support file" 10) s)))
                = Some (mkCR "FAIL" (details cr ++ ["No tech support files found"])
                             (extra cr)))
            /\ (forall keyed,
                   glob_techsupport h <> [] ->
                   with_mtimes (glob_techsupport h) = inl keyed ->
                   exists newest t,
                     fst (select_newest h (write_status (mkHB "running" "Selecting tech support file" 10) s))
                     = Ok (Some newest)
                     /\ In (newest, t) keyed
                     /\ forall f u, In (f, u) keyed -> (u <= t)%Z)).
  { set (s1 := write_status _ s).
    assert (Hs1 : sigint s1 = None)
      by (unfold s1; now rewrite sigint_write_status).
    assert (Hc1 : Dict.get "techsupport" (checks s1) = Some cr)
      by (unfold s1; now rewrite (proj1 (write_status_keeps _ s))).
    split.
    - intros Hg. unfold select_newest. rewrite Hg. unfold bind.
      rewrite (set_status_calm _ _ _ cr Hs1 Hc1). cbv beta iota.
      rewrite (append_detail_calm "techsupport" _ _
                 (mkCR "FAIL" (details cr) (extra cr)));
        [|exact Hs1|apply dict_get_set_same].
      cbv beta iota.
      rewrite update_status_calm by exact Hs1. cbv beta iota.
      split; [reflexivity|].
      unfold result_of, ret. cbv beta iota. unfold snd.
      rewrite (proj1 (write_status_keeps _ _)).
      unfold with_checks, checks. rewrite dict_set_set.
      apply dict_get_set_same.
    - intros keyed Hne Hk. unfold select_newest.
      destruct (glob_techsupport h) as [|g0 gl] eqn:Eg; [congruence|].
      rewrite Hk.
      pose proof (with_mtimes_nonempty _ _ Hne Hk) as Hkn.
      pose proof (sort_newest_first_ok keyed) as Hmax.
      destruct (sort_newest_first keyed) as [|[newest t] rest] eqn:Es.
      + exfalso. destruct keyed as [|k0 kl]; [congruence|].
        assert (Hin : In k0 (sort_newest_first (k0 :: kl)))
          by (apply In_sort_newest_first; now left).
        rewrite Es in Hin. contradiction.
      + exists newest, t. split; [|split].
        * unfold bind. rewrite update_status_calm by exact Hs1. reflexivity.
        * apply In_sort_newest_first. rewrite Es. now left.
        * intros f u Hin. apply (Hmax f u).
          apply In_sort_newest_first in Hin. now rewrite Es in Hin. }
  unfold r, s', select_techsupport, usable, bind.
  rewrite update_status_calm by exact Hs.
  destruct (truthy specific_file) as [f|] eqn:Et.
  - destruct (path_exists h f) eqn:Ee.
    + split.
      * intros f' E. inversion E; subst f'.
        rewrite update_status_calm by (now rewrite sigint_write_status).
        reflexivity.
      * discriminate.
    + split; [discriminate|]. intros _. exact Hnewest.
  - split; [discriminate|]. intros _. exact Hnewest.
Qed.

End Selection.

(** * Further properties of the worker *)

(** ** The file cache only returns what the walk listed *)

Section FileCacheSound.

Import FileCache.

Lemma in_dict_set {V} (k : string) (v : V) (d : Dict.t V) (kv : string * V) :
  In kv (Dict.set k v d) -> snd kv = v \/ In kv d.
Proof.
  induction d as [|[k' v'] d IH]; simpl.
  - intros [<-|[]]. now left.
  - destruct (String.eqb k k'); simpl.
    + intros [<-|H]; [now left|right; now right].
    + intros [<-|H]; [right; now left|].
      destruct (IH H); [now left|right; now right].
Qed.

(** Every value of the relative-path table is a path the walk listed. *)
Lemma scan_file_paths (root : string) (self : t) (file : string)
      (P : string -> Prop) :
  P (PyStr.os_path_join root file) ->
  (forall kv, In kv (path_cache self) -> P (snd kv)) ->
  forall kv, In kv (path_cache (scan_file root self file)) -> P (snd kv).
Proof.
  intros Hnew Hold kv Hin. unfold scan_file in Hin. simpl in Hin.
  apply in_dict_set in Hin. destruct Hin as [->|Hin]; auto.
Qed.

Lemma scan_files_paths (root : string) (files : list string) (self : t)
      (P : string -> Prop) :
  (forall f, In f files -> P (PyStr.os_path_join root f)) ->
  (forall kv, In kv (path_cache self) -> P (snd kv)) ->
  forall kv, In kv (path_cache (fold_left (scan_file root) files self)) ->
             P (snd kv).
Proof.
  revert self. induction files as [|f files IH]; intros self Hf Hold; simpl.
  - exact Hold.
  - apply IH.
    + intros g Hg. apply Hf. now right.
    + apply scan_file_paths; auto. apply Hf. now left.
Qed.

Lemma scan_dirs_paths (walk : list walk_entry) (self : t) (P : string -> Prop) :
  (forall x, In x (flat_map (fun e : walk_entry =>
                               let '(root, _, files) := e in
                               map (PyStr.os_path_join root) files) walk) ->
             P x) ->
  (forall kv, In kv (path_cache self) -> P (snd kv)) ->
  forall kv, In kv (path_cache (fold_left scan_dir walk self)) -> P (snd kv).
Proof.
  revert self. induction walk as [|[[root dirs] files] walk IH];
    intros self Hw Hold; simpl.
  - exact Hold.
  - apply IH.
    + intros x Hx. apply Hw. simpl. apply in_or_app. now right.
    + change (scan_dir self (root, dirs, files))
        with (fold_left (scan_file root) files self).
      apply scan_files_paths; auto.
      intros f Hf. apply Hw. simpl. apply in_or_app. left.
      now apply in_map.
Qed.

Lemma get_in_held (k : string) (l : list string) (d : Dict.t (list string))
      (x : string) :
  Dict.get k d = Some l -> In x l -> In x (concat (map snd d)).
Proof.
  induction d as [|[k' v] d IH]; simpl; intros E Hx; [discriminate|].
  apply in_or_app. destruct (String.eqb k k').
  - inversion E; subst. now left.
  - right. now apply IH.
Qed.

Lemma selected_in_held (f : string -> bool) (d : Dict.t (list string))
      (x : string) :
  In x (flat_map (fun kv : string * list string =>
                    if f (fst kv) then snd kv else []) d) ->
  In x (concat (map snd d)).
Proof.
  induction d as [|[k v] d IH]; simpl; auto.
  intros H. apply in_app_or in H. apply in_or_app.
  destruct H as [H|H]; [|right; now apply IH].
  destruct (f k); [now left|contradiction].
Qed.

End FileCacheSound.

(** X1: a lookup in a freshly built cache only returns paths of files the
    directory walk listed, whatever the pattern; when the base directory
    does not exist every lookup is empty. *)
Theorem find_files_sound (base : string) (fs : FileCache.DirView)
        (pattern x : string) :
  In x (FileCache.find_files (FileCache.init base fs) pattern) ->
  FileCache.dir_exists fs = true /\ In x (FileCache.walk_paths fs).
Proof.
  unfold FileCache.init, FileCache._scan_once.
  destruct (FileCache.dir_exists fs) eqn:Ed; simpl negb; cbv iota.
  - intros Hin. split; [reflexivity|].
    set (c := fold_left FileCache.scan_dir (FileCache.os_walk fs)
                        (FileCache.mkCache base [] [])) in *.
    assert (Hheld : forall y, In y (FileCache.held c) ->
                              In y (FileCache.walk_paths fs)).
    { intros y Hy. unfold c in Hy.
      eapply Permutation_in in Hy; [|apply scan_dirs_held].
      unfold FileCache.held in Hy. simpl in Hy. rewrite app_nil_r in Hy.
      exact Hy. }
    assert (Hpaths : forall kv, In kv (FileCache.path_cache c) ->
                                In (snd kv) (FileCache.walk_paths fs)).
    { unfold c.
      apply (scan_dirs_paths (FileCache.os_walk fs) _
               (fun y => In y (FileCache.walk_paths fs))); [auto|].
      simpl. intros kv []. }
    unfold FileCache.find_files in Hin.
    destruct (Dict.get pattern (FileCache.file_cache c)) as [paths|] eqn:Eg.
    + apply Hheld. eapply get_in_held; eauto.
    + rewrite path_pass_first_seen in Hin. apply in_app_or in Hin.
      destruct Hin as [Hin|Hin].
      * apply Hheld. unfold FileCache.name_matches in Hin.
        now apply (selected_in_held (fun k => PyStr.fnmatch k pattern)).
      * apply first_seen_In in Hin. destruct Hin as [Hin _].
        apply in_map_iff in Hin. destruct Hin as [kv [<- Hkv]].
        apply filter_In in Hkv. apply Hpaths. apply Hkv.
  - simpl. intros [].
Qed.

Lemma find_files_sound_witness :
  FileCache.dir_exists Examples.small_tree = true
  /\ In "/b/a/x" (FileCache.walk_paths Examples.small_tree).
Proof.
  apply (find_files_sound "/b" Examples.small_tree "a*" "/b/a/x").
  vm_compute. auto.
Defined.

Import Worker Props.

(** ** The collection command *)

Section Decimal.







End Decimal.


(** ** How a run ends *)

Section Endings.

Lemma ends_ret {A} (Q : A -> St -> Prop) (a : A) :
  (forall s, Q a s) -> ends_with Q (ret a).
Proof. intros H s a' s' E. inversion E; subst. apply H. Qed.

Lemma ends_bind {A B} (Q : B -> St -> Prop) (m : M A) (k : A -> M B) :
  (forall a, ends_with Q (k a)) -> ends_with Q (bind m k).
Proof.
  intros Hk s b s' E. unfold bind in E.
  destruct (m s) as [[a|msg|c] s1]; try discriminate.
  eapply Hk; eauto.
Qed.

Lemma ends_try_except {A} (Q : A -> St -> Prop) (m : M A) (h : string -> M A) :
  ends_with Q m -> (forall e, ends_with Q (h e)) -> ends_with Q (try_except m h).
Proof.
  intros Hm Hh s a s' E. unfold try_except in E.
  destruct (m s) as [[a0|msg|c] s1] eqn:Em; try discriminate.
  - inversion E; subst. eapply Hm; eauto.
  - eapply Hh; eauto.
Qed.

Lemma same_files_refl (s : St) : same_files s s.
Proof. repeat split. Qed.

Lemma bind_Ok {A B} (m : M A) (k : A -> M B) (s s' : St) (b : B) :
  bind m k s = (Ok b, s') ->
  exists a s1, m s = (Ok a, s1) /\ k a s1 = (Ok b, s').
Proof.
  unfold bind. destruct (m s) as [[a|msg|c] s1]; try discriminate. eauto.
Qed.

Lemma tick_Ok (s s' : St) (a : unit) : tick s = (Ok a, s') -> same_files s s'.
Proof.
  unfold tick, signal_handler.
  destruct (sigint s) as [[|n]|]; intros E; inversion E; subst;
    repeat split.
Qed.

Lemma update_status_Ok (st op : string) (pr : Z) (s s' : St) (a : unit) :
  update_status st op pr s = (Ok a, s') ->
  exists s1, same_files s s1 /\ s' = write_status (mkHB st op pr) s1.
Proof.
  unfold update_status. intros E.
  apply bind_Ok in E. destruct E as (u & s1 & Et & E).
  inversion E; subst. exists s1. split; [eapply tick_Ok; eauto|reflexivity].
Qed.

Lemma save_results_Ok (s s' : St) (a : unit) :
  save_results s = (Ok a, s') ->
  exists s1, same_files s s1 /\ s' = write_results s1.
Proof.
  unfold save_results. intros E.
  apply bind_Ok in E. destruct E as (u & s1 & Et & E).
  inversion E; subst. exists s1. split; [eapply tick_Ok; eauto|reflexivity].
Qed.

(** Writing an entry leaves both files alone. *)
Lemma modify_Ok (name : string) (f : CheckResult -> CheckResult) (s s' : St)
      (a : unit) :
  bind tick (fun _ => bind (entry name) (fun cr => put_entry name (f cr))) s
  = (Ok a, s') ->
  status_file s' = status_file s /\ results_file s' = results_file s
  /\ status_writable s' = status_writable s
  /\ results_writable s' = results_writable s.
Proof.
  intros E. apply bind_Ok in E. destruct E as (u & s1 & Et & E).
  apply tick_Ok in Et. destruct Et as (_ & F1 & F2 & F3 & F4).
  apply bind_Ok in E. destruct E as (cr & s2 & Ee & E).
  unfold entry in Ee. destruct (Dict.get name (checks s1)); inversion Ee; subst.
  unfold put_entry in E. inversion E; subst. simpl. auto.
Qed.

Lemma saved_write_results (s : St) : saved (write_results s).
Proof.
  intros Hw. destruct (write_results_keeps s) as (Hc & _ & _ & Hrw).
  rewrite Hrw in Hw. rewrite Hc, write_results_file by exact Hw. eauto.
Qed.

Lemma halted_saved (s : St) : halted s -> saved s.
Proof. intros (_ & _ & H). exact H. Qed.

(** The last steps of a run that got its archive, and of the handler of
    [main]. *)
Lemma ends_closing (st op : string) (pr : Z) (n : Z) :
  final_heartbeat (Ok n) (mkHB st op pr) ->
  ends_with (fun a s => a = n /\ saved s /\ announced (Ok n) s)
            (update_status st op pr ;; save_results ;; ret n).
Proof.
  intros Hf s a s' E.
  apply bind_Ok in E. destruct E as (u1 & s1 & E1 & E).
  apply bind_Ok in E. destruct E as (u2 & s2 & E2 & E).
  inversion E; subst. clear E.
  apply update_status_Ok in E1. destruct E1 as (t1 & F1 & ->).
  apply save_results_Ok in E2. destruct E2 as (t2 & F2 & ->).
  split; [reflexivity|]. split; [apply saved_write_results|].
  intros Hw.
  destruct (write_results_keeps t2) as (_ & Hsf & Hsw & _).
  rewrite Hsw in Hw. rewrite Hsf.
  destruct F2 as (_ & G2 & _ & G4 & _). rewrite G2. rewrite G4 in Hw.
  destruct (write_status_keeps (mkHB st op pr) t1) as (_ & _ & Hsw1 & _).
  rewrite Hsw1 in Hw. rewrite write_status_file by exact Hw.
  eauto.
Qed.

(** The last steps of a run that got no archive. *)
Lemma ends_closing_failed (st op : string) (pr : Z) (n : Z) (name v : string)
      (l : list string) :
  final_heartbeat (Ok n) (mkHB st op pr) ->
  ends_with (fun a s => a = n /\ saved s /\ announced (Ok n) s)
            (update_status st op pr ;; set_status name v ;;
             set_details name l ;; save_results ;; ret n).
Proof.
  intros Hf s a s' E.
  apply bind_Ok in E. destruct E as (u1 & s1 & E1 & E).
  apply bind_Ok in E. destruct E as (u2 & s2 & E2 & E).
  apply bind_Ok in E. destruct E as (u3 & s3 & E3 & E).
  apply bind_Ok in E. destruct E as (u4 & s4 & E4 & E).
  inversion E; subst. clear E.
  apply update_status_Ok in E1. destruct E1 as (t1 & F1 & ->).
  apply modify_Ok in E2. destruct E2 as (A1 & A2 & A3 & A4).
  apply modify_Ok in E3. destruct E3 as (B1 & B2 & B3 & B4).
  apply save_results_Ok in E4. destruct E4 as (t4 & F4 & ->).
  split; [reflexivity|]. split; [apply saved_write_results|].
  intros Hw.
  destruct (write_results_keeps t4) as (_ & Hsf & Hsw & _).
  rewrite Hsw in Hw. rewrite Hsf.
  destruct F4 as (_ & G2 & _ & G4 & _). rewrite G2, B1, A1.
  rewrite G4, B3, A3 in Hw.
  destruct (write_status_keeps (mkHB st op pr) t1) as (_ & _ & Hsw1 & _).
  rewrite Hsw1 in Hw. rewrite write_status_file by exact Hw.
  eauto.
Qed.

Lemma ends_main_body (h : Host) (bodies : string -> Bodies) :
  ends_with (fun n s => (n = 0%Z \/ n = 1%Z) /\ saved s /\ announced (Ok n) s)
            (main_body h bodies).
Proof.
  assert (W : forall (n : Z) (m : M Z),
             (n = 0%Z \/ n = 1%Z) ->
             ends_with (fun a s => a = n /\ saved s /\ announced (Ok n) s) m ->
             ends_with (fun a s => (a = 0%Z \/ a = 1%Z)
                                   /\ saved s /\ announced (Ok a) s) m).
  { intros n m Hn Hm s a s' E. destruct (Hm s a s' E) as (-> & H1 & H2).
    auto. }
  unfold main_body. apply ends_try_except.
  - apply ends_bind; intros _. cbv zeta.
    apply ends_bind; intros tech_file.
    destruct (truthy tech_file) as [f|].
    + do 3 (apply ends_bind; intros _).
      apply (W 0%Z); [now left|].
      apply ends_closing. left. split; reflexivity.
    + apply (W 1%Z); [now right|].
      apply ends_closing_failed. right. repeat split.
  - intros e. apply ends_bind; intros _.
    apply (W 1%Z); [now right|].
    apply ends_closing. right. repeat split.
Qed.

End Endings.

Section Totality.

Lemma registered_get (name : string) (d : Dict.t CheckResult) :
  Dict.keys d = registered -> In name registered ->
  exists cr, Dict.get name d = Some cr.
Proof.
  intros Hk Hin. apply mem_get. apply keys_mem. now rewrite Hk.
Qed.

Lemma total_ret {A} (a : A) : total (ret a).
Proof. intros s _ msg. discriminate. Qed.

Lemma total_bind {A B} (m : M A) (k : A -> M B) :
  good m -> total m -> (forall a, total (k a)) -> total (bind m k).
Proof.
  intros G Tm Tk s Hk msg E. unfold bind in E.
  specialize (G s). specialize (Tm s Hk).
  destruct (m s) as [[a|e|c] s1]; simpl in *.
  - apply (Tk a s1 (g_keys _ _ (proj1 G) Hk) msg). exact E.
  - now apply (Tm e).
  - discriminate.
Qed.

Lemma total_try_except {A} (m : M A) (h : string -> M A) :
  good m -> (forall e, total (h e)) -> total (try_except m h).
Proof.
  intros G Th s Hk msg E. unfold try_except in E.
  specialize (G s).
  destruct (m s) as [[a|e|c] s1]; simpl in *; try discriminate.
  apply (Th e s1 (g_keys _ _ (proj1 G) Hk) msg). exact E.
Qed.

Lemma total_finally {A} (h : Host) (m : M A) :
  total m -> total (finally m (cleanup_processes h)).
Proof.
  intros T s Hk msg E. unfold finally in E. specialize (T s Hk msg).
  destruct (m s) as [r s1]. simpl in *.
  pose proof (cleanup_never_raises h s1) as N.
  destruct (cleanup_processes h s1) as [[u|e|c] s2]; simpl in *.
  - contradiction.
  - now apply (N e).
  - discriminate.
Qed.

Lemma total_tick : total tick.
Proof.
  intros s _ msg. unfold tick, signal_handler.
  destruct (sigint s) as [[|n]|]; discriminate.
Qed.

Lemma total_update_status (st op : string) (pr : Z) :
  total (update_status st op pr).
Proof.
  unfold update_status.
  apply total_bind; [apply good_tick|apply total_tick|].
  intros _ s _ msg. discriminate.
Qed.

Lemma total_save_results : total save_results.
Proof.
  unfold save_results.
  apply total_bind; [apply good_tick|apply total_tick|].
  intros _ s _ msg. discriminate.
Qed.

Lemma total_modify (name : string) (f : CheckResult -> CheckResult) :
  In name registered ->
  total (tick ;; cr <- entry name ;; put_entry name (f cr)).
Proof.
  intros Hin.
  apply total_bind; [apply good_tick|apply total_tick|].
  intros _ s Hk msg. unfold bind, entry.
  destruct (registered_get name _ Hk Hin) as [cr ->]. discriminate.
Qed.

Lemma total_set_status (name v : string) :
  In name registered -> total (set_status name v).
Proof.
  intros H. apply (total_modify name (fun cr => mkCR v (details cr) (extra cr)) H).
Qed.

Lemma total_set_details (name : string) (l : list string) :
  In name registered -> total (set_details name l).
Proof.
  intros H. apply (total_modify name (fun cr => mkCR (status cr) l (extra cr)) H).
Qed.

Lemma total_append_detail (name d : string) :
  In name registered -> total (append_detail name d).
Proof.
  intros H.
  apply (total_modify name
           (fun cr => mkCR (status cr) (details cr ++ [d]) (extra cr)) H).
Qed.

Lemma total_for_each {A} (l : list A) (body : A -> M unit) :
  (forall x, In x l -> good (body x) /\ total (body x)) ->
  total (for_each l body).
Proof.
  induction l as [|x l IH]; intros H; simpl.
  - apply total_ret.
  - destruct (H x (or_introl eq_refl)) as [G T].
    apply total_bind; auto. intros _. apply IH. intros y Hy. apply H. now right.
Qed.

Lemma total_techsupport_fail (d op : string) (pr : Z) :
  total (techsupport_fail d op pr).
Proof.
  assert (Hin : In "techsupport" registered) by (apply registered_In; reflexivity).
  unfold techsupport_fail.
  apply total_bind; [apply good_set_status|now apply total_set_status|intros _].
  apply total_bind; [apply good_append_detail|now apply total_append_detail|intros _].
  apply total_update_status.
Qed.

Lemma total_run_guarded (g : guarded) :
  In (g_name g) registered -> good (g_call g) -> total (run_guarded g).
Proof.
  intros Hin G. unfold run_guarded.
  apply total_try_except; [exact G|intros e].
  apply total_bind; [apply good_set_status|now apply total_set_status|intros _].
  now apply total_set_details.
Qed.

Lemma total_run_checks (b : Bodies) : good_bodies b -> total (run_checks b).
Proof.
  intros (H1 & H2 & H3 & H4 & H5 & H6 & H7 & H8 & H9 & H10 & H11 & H12 & H13).
  unfold run_checks. apply total_for_each. intros g Hg.
  assert (In (g_name g) registered /\ good (g_call g)) as [Hn Hc].
  { unfold main_checks in Hg. simpl in Hg.
    repeat (destruct Hg as [<-|Hg];
            [split; [apply registered_In; reflexivity
                    |simpl; auto using good_ignore, good_robust_check]|]).
    contradiction. }
  split; [now apply good_run_guarded|now apply total_run_guarded].
Qed.

Lemma total_mark_not_run (prefix msg : string) : total (mark_not_run prefix msg).
Proof.
  intros s Hk e. unfold mark_not_run, bind at 1. rewrite Hk.
  revert e. apply total_for_each; [|exact Hk].
  intros check Hin. split.
  - good_tac.
  - apply total_bind; [apply good_entry| |].
    + intros s1 Hk1 e. unfold entry.
      destruct (registered_get check _ Hk1 Hin) as [cr ->]. discriminate.
    + intros cr. destruct (details cr).
      * apply total_bind;
          [apply good_set_status|now apply total_set_status|intros _].
        now apply total_set_details.
      * apply total_ret.
Qed.

Lemma total_main_body (h : Host) (bodies : string -> Bodies) :
  (forall dest, good_bodies (bodies dest)) -> total (main_body h bodies).
Proof.
  intros Hb. unfold main_body. apply total_try_except.
  - unfold makedirs.
    pose proof (good_generate_techsupport h).
    pose proof (good_select_techsupport h).
    pose proof (good_extract_techsupport h). pose proof good_mark_not_run.
    assert (forall d, good (run_checks (bodies d)))
      by (intros d; apply good_run_checks, Hb).
    good_tac.
  - intros e.
    apply total_bind; [apply good_mark_not_run|apply total_mark_not_run|intros _].
    apply total_bind;
      [apply good_update_status|apply total_update_status|intros _].
    apply total_bind; [apply good_save_results|apply total_save_results|intros _].
    apply total_ret.
Qed.

Lemma total_main (h : Host) (bodies : string -> Bodies) :
  (forall dest, good_bodies (bodies dest)) -> total (main h bodies).
Proof.
  intros Hb. unfold main. apply total_finally. now apply total_main_body.
Qed.

(** Every way out of [main]: the value the [try] block returned, or 130
    when the interrupt handler ran outside the [except: pass] blocks of
    the cleanup. *)
Lemma main_outcome (h : Host) (bodies : string -> Bodies) (s : St) :
  (forall dest, good_bodies (bodies dest)) ->
  Dict.keys (checks s) = registered ->
  (fst (main h bodies s) = Ok 0%Z \/ fst (main h bodies s) = Ok 1%Z
   \/ fst (main h bodies s) = Exit 130%Z)
  /\ saved (snd (main h bodies s))
  /\ (status_writable (snd (main h bodies s)) = true ->
      exists pre hb,
        status_file (snd (main h bodies s)) = pre ++ [hb]
        /\ last_beat (sigint s) (fst (main h bodies s)) hb).
Proof.
  intros Hb Hk. unfold main, finally.
  pose proof (good_main_body h bodies Hb s) as [Gb Sb].
  pose proof (total_main_body h bodies Hb s Hk) as Tb.
  pose proof (ends_main_body h bodies s) as Eb.
  destruct (main_body h bodies s) as [[n|e|c] s1] eqn:Em; simpl in *.
  - destruct (Eb n s1 eq_refl) as (Hn & Hs & Ha).
    destruct (mild_cleanup h s1) as (Mc & Msw & Mrw & Ms & MD & ME).
    pose proof (cleanup_never_raises h s1) as N.
    destruct (cleanup_processes h s1) as [[u|e|c] s2]; simpl in *.
    + split; [destruct Hn as [-> | ->]; auto|].
      destruct MD as [[D1 D2]|[D1 D2]].
      * split.
        -- intros Hw. rewrite Mrw in Hw. rewrite D2, Mc. now apply Hs.
        -- intros Hw. rewrite Msw in Hw. rewrite D1.
           destruct (Ha Hw) as (pre & hb & E1 & E2).
           exists pre, hb. split; [exact E1|now left].
      * split; [now apply halted_saved|].
        intros Hw. destruct D2 as (_ & D2 & _).
        destruct (D2 Hw) as [pre E1]. exists pre, interrupted_hb.
        split; [exact E1|]. right. split; [|split; [|reflexivity]].
        -- intros Hq. apply D1. auto.
        -- destruct Hn as [-> | ->]; auto.
    + exfalso. now apply (N e).
    + destruct (ME c eq_refl) as (-> & Hq & Hh).
      split; [auto|]. split; [now apply halted_saved|].
      intros Hw. destruct Hh as (_ & Hh & _).
      destruct (Hh Hw) as [pre E1]. exists pre, interrupted_hb.
      split; [exact E1|]. left. split; reflexivity.
  - exfalso. now apply (Tb e).
  - destruct Sb as (-> & Hq & Hh).
    destruct (quiet_cleanup h s1 (proj1 Hh)) as [l El]. rewrite El. simpl.
    split; [auto|]. split; [now apply halted_saved|].
    intros Hw. destruct Hh as (_ & Hh & _).
    destruct (Hh Hw) as [pre E1]. exists pre, interrupted_hb.
    split; [exact E1|]. left. split; reflexivity.
Qed.

End Totality.

(** X3: whatever the host answers and whenever an interrupt arrives, be
    it before a write of the [try] block or during a command or the sleep
    of [cleanup_processes] in the [finally] clause, a run of the worker
    ends with exit status 0, 1 or 130; no exception escapes [main], and
    130 is the status only when an interrupt arrived. *)
Theorem worker_exit_status (h : Host) (p : Probe) (status_ok results_ok : bool)
        (intr : option nat) :
  let r := fst (run h p status_ok results_ok intr) in
  (r = Ok 0%Z \/ r = Ok 1%Z \/ r = Exit 130%Z)
  /\ (intr = None -> r = Ok 0%Z \/ r = Ok 1%Z).
Proof.
  unfold run, worker_main. cbv zeta.
  set (s := initial_state status_ok results_ok intr).
  pose proof (proj1 (main_outcome h (worker_bodies h p) s
                       (good_worker_bodies h p) eq_refl)) as H.
  split; [exact H|]. intros ->.
  pose proof (good_main h (worker_bodies h p) (good_worker_bodies h p) s) as [_ G].
  destruct H as [H|[H|H]]; auto.
  rewrite H in G. destruct G as (_ & G & _). now contradiction G.
Qed.

(** X4: when a run ends, the last content saved to the results file (if
    it can be written) is the final in-memory results, and the last
    heartbeat written to the status file (if it can be written) is the
    one of the outcome: complete/100 for exit status 0, an error heartbeat
    with progress 0 for exit status 1, the interrupted heartbeat for 130.
    The one exception: an interrupt taken inside an [except: pass] block
    of [cleanup_processes] writes the interrupted heartbeat and is then
    swallowed, so the exit status stays 0 or 1. Without an interrupt the
    heartbeat always goes with the exit status. *)
Theorem worker_final_files (h : Host) (p : Probe) (status_ok results_ok : bool)
        (intr : option nat) :
  let r := fst (run h p status_ok results_ok intr) in
  let s' := snd (run h p status_ok results_ok intr) in
  (results_ok = true -> exists pre, results_file s' = pre ++ [checks s'])
  /\ (status_ok = true ->
      exists pre hb, status_file s' = pre ++ [hb] /\ last_beat intr r hb)
  /\ (intr = None -> status_ok = true ->
      exists pre hb, status_file s' = pre ++ [hb] /\ final_heartbeat r hb).
Proof.
  unfold run, worker_main.
  set (s := initial_state status_ok results_ok intr).
  pose proof (good_main h (worker_bodies h p) (good_worker_bodies h p) s) as [Gr _].
  destruct (main_outcome h (worker_bodies h p) s (good_worker_bodies h p) eq_refl)
    as (_ & Hs & Ha).
  assert (Hrw : results_writable (snd (main h (worker_bodies h p) s)) = results_ok)
    by (rewrite (g_results_w _ _ Gr); reflexivity).
  assert (Hsw : status_writable (snd (main h (worker_bodies h p) s)) = status_ok)
    by (rewrite (g_status_w _ _ Gr); reflexivity).
  cbv zeta. split; [|split].
  - intros ->. now apply Hs.
  - intros ->. exact (Ha Hsw).
  - intros -> ->. destruct (Ha Hsw) as (pre & hb & E1 & [E2|(E2 & _)]).
    + exists pre, hb. auto.
    + exfalso. now apply E2.
Qed.

Lemma worker_final_files_witness :
  let r := run Examples.no_archive_host Examples.silent_probe true true
               (Some 9) in
  fst r = Ok 1%Z
  /\ (exists pre hb,
        status_file (snd r) = pre ++ [hb] /\ last_beat (Some 9) (fst r) hb)
  /\ last (status_file (snd r)) complete_hb = interrupted_hb.
Proof.
  intros r. split; [vm_compute; reflexivity|]. split.
  - exact (proj1 (proj2 (worker_final_files Examples.no_archive_host
                           Examples.silent_probe true true (Some 9)))
                 eq_refl).
  - vm_compute. reflexivity.
Defined.

(** X5: with the registered entries in place, the sequence of guarded
    checks in [main] never raises, whatever the host and the probes
    answer: every block handles the failure of its own check, so the
    handler around the sequence that marks checks "did not run" is never
    entered. *)
Theorem run_checks_never_raises
        (h : Host) (p : Probe) (dest_path : string) (s : St) (msg : string) :
  Dict.keys (checks s) = registered ->
  fst (run_checks (worker_bodies h p dest_path) s) <> Exc msg.
Proof.
  intros Hk. apply total_run_checks; [apply good_worker_bodies|exact Hk].
Qed.

Lemma run_checks_never_raises_witness :
  fst (run_checks (worker_bodies Examples.plain_host Examples.silent_probe
                                 "/tmp/a.tgz") Examples.start)
  <> Exc "boom".
Proof.
  exact (run_checks_never_raises Examples.plain_host Examples.silent_probe
           "/tmp/a.tgz" Examples.start "boom" eq_refl).
Defined.

(** ** Each check writes its own entry *)

Section Isolation.

Variable names : list string.

Lemma ow_ret {A} (a : A) : only_writes names (ret a).
Proof. intros s k _. reflexivity. Qed.

Lemma ow_raise {A} (msg : string) : only_writes names (@raise A msg).
Proof. intros s k _. reflexivity. Qed.

Lemma ow_bind {A B} (m : M A) (k : A -> M B) :
  only_writes names m -> (forall a, only_writes names (k a)) ->
  only_writes names (bind m k).
Proof.
  intros Hm Hk s x Hx. unfold bind. specialize (Hm s x Hx).
  destruct (m s) as [[a|msg|c] s1]; simpl in *; auto.
  now rewrite Hk.
Qed.

Lemma ow_try_except {A} (m : M A) (h : string -> M A) :
  only_writes names m -> (forall e, only_writes names (h e)) ->
  only_writes names (try_except m h).
Proof.
  intros Hm Hh s x Hx. unfold try_except. specialize (Hm s x Hx).
  destruct (m s) as [[a|msg|c] s1]; simpl in *; auto.
  now rewrite Hh.
Qed.

Lemma ow_ignore {A} (m : M A) : only_writes names m -> only_writes names (ignore m).
Proof. intros H. apply ow_bind; auto. intros a. apply ow_ret. Qed.

Lemma ow_when (b : bool) (m : M unit) :
  only_writes names m -> only_writes names (when b m).
Proof. intros H. destruct b; simpl; auto. apply ow_ret. Qed.

Lemma ow_for_each {A} (l : list A) (body : A -> M unit) :
  (forall x, only_writes names (body x)) -> only_writes names (for_each l body).
Proof.
  intros H. induction l as [|x l IH]; simpl.
  - apply ow_ret.
  - apply ow_bind; auto.
Qed.

Lemma ow_fold_m {A B} (l : list A) (acc : B) (body : B -> A -> M B) :
  (forall b x, only_writes names (body b x)) ->
  only_writes names (fold_m l acc body).
Proof.
  intros H. revert acc. induction l as [|x l IH]; intros acc; simpl.
  - apply ow_ret.
  - apply ow_bind; auto.
Qed.

Lemma ow_tick : only_writes names tick.
Proof.
  intros s k _. unfold tick, signal_handler.
  destruct (sigint s) as [[|n]|]; simpl; auto.
  rewrite (proj1 (write_results_keeps _)), (proj1 (write_status_keeps _ _)).
  reflexivity.
Qed.

Lemma ow_update_status (st op : string) (pr : Z) :
  only_writes names (update_status st op pr).
Proof.
  unfold update_status. apply ow_bind; [apply ow_tick|intros _].
  intros s k _. simpl. now rewrite (proj1 (write_status_keeps _ _)).
Qed.

Lemma ow_save_results : only_writes names save_results.
Proof.
  unfold save_results. apply ow_bind; [apply ow_tick|intros _].
  intros s k _. simpl. now rewrite (proj1 (write_results_keeps _)).
Qed.

Lemma ow_entry (name : string) : only_writes names (entry name).
Proof.
  intros s k _. unfold entry. now destruct (Dict.get name (checks s)).
Qed.

Lemma ow_has_entry (name : string) : only_writes names (has_entry name).
Proof. intros s k _. reflexivity. Qed.

Lemma ow_put_entry (name : string) (cr : CheckResult) :
  existsb (String.eqb name) names = true ->
  only_writes names (put_entry name cr).
Proof.
  intros Hin s k Hk. unfold put_entry. simpl.
  apply dict_get_set_other. intros ->. apply Hk.
  apply existsb_exists in Hin. destruct Hin as [x [Hx E]].
  apply String.eqb_eq in E. now subst.
Qed.

Lemma ow_modify (name : string) (f : CheckResult -> CheckResult) :
  existsb (String.eqb name) names = true ->
  only_writes names (tick ;; cr <- entry name ;; put_entry name (f cr)).
Proof.
  intros Hin. apply ow_bind; [apply ow_tick|intros _].
  apply ow_bind; [apply ow_entry|intros cr]. now apply ow_put_entry.
Qed.

Lemma ow_set_status (name v : string) :
  existsb (String.eqb name) names = true -> only_writes names (set_status name v).
Proof.
  intros H. apply (ow_modify name (fun cr => mkCR v (details cr) (extra cr)) H).
Qed.

Lemma ow_set_details (name : string) (l : list string) :
  existsb (String.eqb name) names = true -> only_writes names (set_details name l).
Proof.
  intros H. apply (ow_modify name (fun cr => mkCR (status cr) l (extra cr)) H).
Qed.

Lemma ow_append_detail (name d : string) :
  existsb (String.eqb name) names = true ->
  only_writes names (append_detail name d).
Proof.
  intros H.
  apply (ow_modify name
           (fun cr => mkCR (status cr) (details cr ++ [d]) (extra cr)) H).
Qed.

Lemma ow_set_extra (name key v : string) :
  existsb (String.eqb name) names = true ->
  only_writes names (set_extra name key v).
Proof.
  intros H.
  apply (ow_modify name
           (fun cr => mkCR (status cr) (details cr) (Dict.set key v (extra cr)))
           H).
Qed.

Lemma ow_replace_entry (name : string) (cr : CheckResult) :
  existsb (String.eqb name) names = true ->
  only_writes names (replace_entry name cr).
Proof.
  intros H. unfold replace_entry. apply ow_bind; [apply ow_tick|intros _].
  now apply ow_put_entry.
Qed.

Lemma ow_get_status (name : string) : only_writes names (get_status name).
Proof.
  unfold get_status. apply ow_bind; [apply ow_entry|intros cr]. apply ow_ret.
Qed.

Lemma ow_set_version (v : string) : only_writes names (set_version v).
Proof.
  unfold set_version. apply ow_bind; [apply ow_tick|intros _].
  intros s k _. reflexivity.
Qed.

Lemma ow_get_file_cache (h : Host) : only_writes names (get_file_cache h).
Proof.
  intros s k _. unfold get_file_cache.
  destruct (file_cache s) as [c|]; simpl; auto.
  destruct (String.eqb (FileCache.base_dir c) (node_dir h)); reflexivity.
Qed.

Lemma ow_find_and_extend (h : Host) (cache : FileCache.t)
      (pattern : string) (more : list string) :
  only_writes names (find_and_extend h cache pattern more).
Proof.
  intros s k _. unfold find_and_extend.
  destruct (Dict.get pattern (FileCache.file_cache cache)); reflexivity.
Qed.

Lemma ow_run_extraction_command (h : Host) (cmd : sh) :
  only_writes names (run_extraction_command h cmd).
Proof.
  intros s k _. unfold run_extraction_command.
  destruct (sh_run (sh_ok h) cmd) as [ran ok]. reflexivity.
Qed.

Lemma ow_run_command_unified (h : Host) (cmd : sh) :
  only_writes names (run_command_unified h cmd).
Proof.
  unfold run_command_unified.
  apply ow_bind; [apply ow_run_extraction_command|intros ok]. apply ow_ret.
Qed.

End Isolation.

Create HintDb ow_db.
#[global] Hint Resolve
  ow_ret ow_raise ow_tick ow_update_status ow_save_results ow_entry
  ow_has_entry ow_get_status ow_set_version ow_get_file_cache
  ow_find_and_extend ow_run_extraction_command ow_run_command_unified : ow_db.

Ltac ow_step :=
  first
    [ solve [auto with ow_db nocore]
    | apply ow_set_status; reflexivity
    | apply ow_set_details; reflexivity
    | apply ow_append_detail; reflexivity
    | apply ow_set_extra; reflexivity
    | apply ow_replace_entry; reflexivity
    | apply ow_bind; [|intro]
    | apply ow_try_except; [|intro]
    | apply ow_ignore
    | apply ow_when
    | apply ow_for_each; intro
    | apply ow_fold_m; intros
    | match goal with
      | |- only_writes _ (match ?x with _ => _ end) => destruct x
      end
    | progress cbv zeta ].

Ltac ow_tac := repeat ow_step.

Section IsolatedChecks.

Variable h : Host.
Variable p : Probe.

Lemma ow_check_subnet_isolation :
  only_writes ["subnet_check"] (check_subnet_isolation h p).
Proof.
  unfold check_subnet_isolation.
  assert (forall b x, only_writes ["subnet_check"] (subnet_node p b x))
    by (intros b [[n d] m]; unfold subnet_node; ow_tac).
  ow_tac.
Qed.

Lemma ow_check_ping_reachability :
  only_writes ["ping_check"] (check_ping_reachability h p).
Proof. unfold check_ping_reachability. ow_tac. Qed.

Lemma ow_check_node_status :
  only_writes ["node_status"; "version_check"] (check_node_status h p).
Proof.
  unfold check_node_status.
  assert (forall b x, only_writes ["node_status"; "version_check"] (node_row b x))
    by (intros b x; unfold node_row; ow_tac).
  ow_tac.
Qed.

Lemma ow_check_disk_space (f : string) :
  only_writes ["disk_space"] (check_disk_space h p f).
Proof.
  unfold check_disk_space.
  assert (forall l, only_writes ["disk_space"] (disk_fail l))
    by (intros l; unfold disk_fail; ow_tac).
  ow_tac.
Qed.

Lemma ow_pods_final (sc : pod_scan) : only_writes ["pod_status"] (pods_final sc).
Proof. unfold pods_final. ow_tac. Qed.

Lemma ow_check_pods (f : option string) :
  only_writes ["pod_status"] (check_pods h p f).
Proof.
  unfold check_pods, pods_live. pose proof ow_pods_final. ow_tac.
Qed.

Lemma ow_check_system_health (f : option string) :
  only_writes ["system_health"] (check_system_health h f).
Proof. unfold check_system_health. ow_tac. Qed.

Lemma ow_nxos_unable : only_writes ["nxos_discovery_service"] nxos_unable.
Proof. unfold nxos_unable. ow_tac. Qed.

Lemma ow_k8_app_scan (ls : list string) (found : bool) :
  only_writes ["nxos_discovery_service"] (k8_app_scan ls found).
Proof.
  pose proof ow_nxos_unable.
  revert found. induction ls as [|l ls IH]; intros found; simpl; ow_tac.
Qed.

Lemma ow_check_nxos_discovery_service (f : string) :
  only_writes ["nxos_discovery_service"] (check_nxos_discovery_service h f).
Proof.
  unfold check_nxos_discovery_service.
  pose proof ow_nxos_unable. pose proof ow_k8_app_scan. ow_tac.
Qed.

Lemma ow_ca_final (m : list string) (ff : option bool) :
  only_writes ["certificate_check"] (ca_final h m ff).
Proof. unfold ca_final. ow_tac. Qed.

Lemma ow_check_CA (f : string) :
  only_writes ["certificate_check"] (check_CA_CSCwm35992 h f).
Proof.
  unfold check_CA_CSCwm35992.
  pose proof ow_ca_final.
  assert (forall d, only_writes ["certificate_check"] (ca_warning d))
    by (intros d; unfold ca_warning; ow_tac).
  ow_tac.
Qed.

Lemma ow_iso_final (m : list string) (fe : bool) :
  only_writes ["iso_check"] (iso_final h p m fe).
Proof. unfold iso_final. ow_tac. Qed.

Lemma ow_check_ISOs (f : string) :
  only_writes ["iso_check"] (check_ISOs_CSCwn94394 h p f).
Proof. unfold check_ISOs_CSCwn94394. pose proof ow_iso_final. ow_tac. Qed.

Lemma ow_check_lvm_pvs (f : string) :
  only_writes ["lvm_pvs_check"] (check_lvm_pvs h f).
Proof. unfold check_lvm_pvs. ow_tac. Qed.

Lemma ow_pip_extras (e r : string) :
  only_writes ["persistent_ip_check"] (pip_extras e r).
Proof. unfold pip_extras. ow_tac. Qed.

Lemma ow_pip_analyse (c : list string) :
  only_writes ["persistent_ip_check"] (pip_analyse p c).
Proof. unfold pip_analyse. pose proof ow_pip_extras. ow_tac. Qed.

Lemma ow_check_persistent_ip_config (f : string) :
  only_writes ["persistent_ip_check"] (check_persistent_ip_config h p f).
Proof.
  unfold check_persistent_ip_config.
  pose proof ow_pip_extras. pose proof ow_pip_analyse. ow_tac.
Qed.

Lemma ow_nvme_warning (d e r : string) :
  only_writes ["atom0_nvme_check"] (nvme_warning d e r).
Proof. unfold nvme_warning. ow_tac. Qed.

Lemma ow_check_atom0_nvme (f : string) :
  only_writes ["atom0_nvme_check"] (check_atom0_nvme h f).
Proof.
  unfold check_atom0_nvme, nvme_no_node_type, nvme_no_pvs.
  pose proof ow_nvme_warning. ow_tac.
Qed.

Lemma ow_vg_unable : only_writes ["atom0_vg_check"] vg_unable.
Proof. unfold vg_unable. ow_tac. Qed.

Lemma ow_check_atom0_vg (f : string) :
  only_writes ["atom0_vg_check"] (check_atom0_vg h p f).
Proof. unfold check_atom0_vg. pose proof ow_vg_unable. ow_tac. Qed.

Lemma ow_robust_check (names : list string) (name : string) (func : M bool) :
  existsb (String.eqb name) names = true ->
  only_writes names func -> only_writes names (robust_check name func).
Proof.
  intros Hin H. unfold robust_check.
  apply ow_try_except; [exact H|intros e].
  apply ow_bind; [apply ow_has_entry|intros present].
  apply ow_bind; [|intros _; apply ow_ret].
  apply ow_when. apply ow_bind; [now apply ow_set_status|intros _].
  now apply ow_set_details.
Qed.

Lemma ow_run_guarded (g : guarded) :
  only_writes (entries_of (g_name g)) (g_call g) ->
  only_writes (entries_of (g_name g)) (run_guarded g).
Proof.
  intros H. unfold run_guarded.
  assert (Hin : existsb (String.eqb (g_name g)) (entries_of (g_name g)) = true).
  { unfold entries_of. destruct (String.eqb (g_name g) "node_status") eqn:E.
    - apply String.eqb_eq in E. now rewrite E.
    - simpl. now rewrite String.eqb_refl. }
  apply ow_try_except; [exact H|intros e].
  apply ow_bind; [now apply ow_set_status|intros _].
  now apply ow_set_details.
Qed.

End IsolatedChecks.

(** X6: each guarded check of [main], its failure handler included, writes
    only its own entry of the results; the node status check also writes
    the version entry. *)
Theorem checks_write_their_own_entry
        (h : Host) (p : Probe) (dest_path : string) (g : guarded)
        (k : string) (s : St) :
  In g (main_checks (worker_bodies h p dest_path)) ->
  ~ In k (entries_of (g_name g)) ->
  result_of k (snd (run_guarded g s)) = result_of k s.
Proof.
  intros Hg Hk. unfold result_of. revert s k Hk.
  change (only_writes (entries_of (g_name g)) (run_guarded g)).
  apply ow_run_guarded.
  unfold main_checks in Hg. simpl in Hg.
  repeat (destruct Hg as [<-|Hg];
          [simpl;
           first [ apply ow_check_subnet_isolation
                 | apply ow_check_ping_reachability
                 | apply ow_check_node_status
                 | apply ow_check_disk_space
                 | apply ow_ignore;
                   first [ apply ow_check_system_health
                         | apply ow_check_nxos_discovery_service
                         | apply ow_robust_check;
                           [reflexivity
                           |first [ apply ow_check_pods
                                  | apply ow_check_CA
                                  | apply ow_check_ISOs
                                  | apply ow_check_lvm_pvs
                                  | apply ow_check_persistent_ip_config
                                  | apply ow_check_atom0_nvme
                                  | apply ow_check_atom0_vg ]]]]|]).
  contradiction.
Qed.

Lemma checks_write_their_own_entry_witness :
  result_of "techsupport"
    (snd (run_guarded
            (mkGuarded "subnet_check"
               (b_subnet_isolation
                  (worker_bodies Examples.plain_host Examples.silent_probe
                                 "/tmp/a.tgz"))
               "FAIL" check_failed)
            Examples.start))
  = Some fresh.
Proof.
  apply (checks_write_their_own_entry Examples.plain_host Examples.silent_probe
           "/tmp/a.tgz" _ "techsupport" Examples.start).
  - left. reflexivity.
  - simpl. intuition discriminate.
Defined.

(** ** The decorator and the marking loops *)

Section CalmRuns.

Lemma bind_step {A B} (m : M A) (k : A -> M B) (s s1 : St) (a : A)
      (r : res B * St) :
  m s = (Ok a, s1) -> k a s1 = r -> bind m k s = r.
Proof. intros E1 E2. unfold bind. now rewrite E1. Qed.

Lemma calm_run {A} (m : M A) (s : St) :
  good m -> total m -> sigint s = None -> Dict.keys (checks s) = registered ->
  exists a s', m s = (Ok a, s') /\ sigint s' = None
               /\ Dict.keys (checks s') = registered.
Proof.
  intros G T Hs Hk. specialize (G s). specialize (T s Hk).
  destruct (m s) as [[a|e|c] s']; simpl in *.
  - exists a, s'. destruct G as [Gr Gs]. repeat split; auto.
    apply (g_keys _ _ Gr Hk).
  - exfalso. now apply (T e).
  - destruct G as [_ [_ [Hne _]]]. contradiction.
Qed.

Lemma with_checks_twice (c1 c2 : Dict.t CheckResult) (s : St) :
  with_checks c2 (with_checks c1 s) = with_checks c2 s.
Proof. reflexivity. Qed.

End CalmRuns.

Section Decorator.

(** What [robust_check] does with an exception of the function. *)
Lemma robust_check_calm
      (name : string) (func : M bool) (s s1 : St) (msg : string) :
  func s = (Exc msg, s1) -> sigint s1 = None ->
  robust_check name func s
  = (Ok false,
     match Dict.get name (checks s1) with
     | Some cr =>
         with_checks (Dict.set name (mkCR "FAIL" (check_failed msg) (extra cr))
                               (checks s1)) s1
     | None => s1
     end).
Proof.
  intros E Hs. unfold robust_check, try_except. rewrite E.
  unfold bind at 1, has_entry, Dict.mem.
  destruct (Dict.get name (checks s1)) as [cr|] eqn:Eg; simpl when.
  - unfold bind at 1. unfold bind at 1.
    rewrite (set_status_calm name "FAIL" s1 cr Hs Eg).
    rewrite (set_details_calm name (check_failed msg) _
               (mkCR "FAIL" (details cr) (extra cr)));
      [|exact Hs|apply dict_get_set_same].
    simpl. rewrite with_checks_twice. simpl. now rewrite dict_set_set.
  - reflexivity.
Qed.

End Decorator.

(** X7: when the decorated function raises, [robust_check] returns [False];
    if the check has an entry, its status becomes FAIL and its details the
    single line "Check failed: <message>", its optional keys stay; without
    an entry nothing is written. Every other entry is left as it is. *)
Theorem robust_check_catches
        (name : string) (func : M bool) (s s1 : St) (msg : string) :
  func s = (Exc msg, s1) -> sigint s1 = None ->
  let r := robust_check name func s in
  fst r = Ok false
  /\ result_of name (snd r)
     = option_map (fun cr => mkCR "FAIL" (check_failed msg) (extra cr))
                  (result_of name s1)
  /\ (forall k, k <> name -> result_of k (snd r) = result_of k s1).
Proof.
  intros E Hs r. subst r. rewrite (robust_check_calm name func s s1 msg E Hs).
  unfold result_of. simpl fst. simpl snd.
  destruct (Dict.get name (checks s1)) as [cr|] eqn:Eg; simpl.
  - split; [reflexivity|]. split; [apply dict_get_set_same|].
    intros k Hk. now apply dict_get_set_other.
  - rewrite Eg. auto.
Qed.

Lemma robust_check_catches_witness :
  fst (robust_check "pod_status" (raise "boom") Examples.start) = Ok false
  /\ result_of "pod_status"
       (snd (robust_check "pod_status" (raise "boom") Examples.start))
     = Some (mkCR "FAIL" ["Check failed: boom"] []).
Proof.
  destruct (robust_check_catches "pod_status" (raise "boom") Examples.start
              Examples.start "boom" eq_refl eq_refl) as (H1 & H2 & _).
  split; [exact H1|exact H2].
Defined.

Section Marking.

Lemma not_run_twice (prefix msg : string) (cr : CheckResult) :
  not_run prefix msg (not_run prefix msg cr) = not_run prefix msg cr.
Proof. unfold not_run. destruct (details cr) eqn:E; simpl; now rewrite ?E. Qed.

(** One round of the marking loop. *)
Lemma mark_one (prefix msg check : string) (s : St) (cr : CheckResult) :
  sigint s = None -> Dict.get check (checks s) = Some cr ->
  (cr0 <- entry check ;;
   match details cr0 with
   | [] => set_status check "FAIL" ;;
           set_details check [(prefix ++ msg)%string]
   | _ => ret tt
   end) s
  = (Ok tt,
     match details cr with
     | [] => with_checks (Dict.set check (not_run prefix msg cr) (checks s)) s
     | _ => s
     end).
Proof.
  intros Hs Hg. unfold bind at 1, entry. rewrite Hg.
  unfold not_run. destruct (details cr) eqn:Ed; [|reflexivity].
  unfold bind. rewrite (set_status_calm check "FAIL" s cr Hs Hg).
  rewrite (set_details_calm check _ _ (mkCR "FAIL" (details cr) (extra cr)));
    [|exact Hs|apply dict_get_set_same].
  simpl. rewrite with_checks_twice. simpl. now rewrite dict_set_set.
Qed.

Lemma mark_loop (prefix msg : string) (l : list string) (s : St) :
  sigint s = None ->
  (forall x, In x l -> Dict.mem x (checks s) = true) ->
  exists s',
    for_each l
      (fun check =>
         cr <- entry check ;;
         match details cr with
         | [] => set_status check "FAIL" ;;
                 set_details check [(prefix ++ msg)%string]
         | _ => ret tt
         end) s = (Ok tt, s')
    /\ sigint s' = None
    /\ same_io s s'
    /\ forall k,
        Dict.get k (checks s')
        = if existsb (String.eqb k) l
          then option_map (not_run prefix msg) (Dict.get k (checks s))
          else Dict.get k (checks s).
Proof.
  revert s. induction l as [|x l IH]; intros s Hs Hl.
  - exists s. simpl. repeat split; auto.
  - destruct (mem_get x (checks s) (Hl x (or_introl eq_refl))) as [cr Hcr].
    set (s1 := match details cr with
               | [] => with_checks (Dict.set x (not_run prefix msg cr) (checks s)) s
               | _ => s
               end).
    assert (Hs1 : sigint s1 = None) by (unfold s1; now destruct (details cr)).
    assert (Hf1 : same_io s s1)
      by (unfold s1; destruct (details cr); repeat split).
    assert (Hg1 : forall k, Dict.get k (checks s1)
                            = if String.eqb k x
                              then Some (not_run prefix msg cr)
                              else Dict.get k (checks s)).
    { intros k. destruct (String.eqb k x) eqn:E.
      - apply String.eqb_eq in E. subst k. unfold s1, not_run.
        destruct (details cr) eqn:Ed; simpl.
        + apply dict_get_set_same.
        + rewrite Hcr. reflexivity.
      - apply String.eqb_neq in E. unfold s1.
        destruct (details cr); simpl; auto.
        now apply dict_get_set_other. }
    destruct (IH s1 Hs1) as (s' & Er & Hs' & Hf' & Hg').
    { intros y Hy. unfold Dict.mem. rewrite Hg1.
      destruct (String.eqb y x); auto.
      apply (Hl y). now right. }
    exists s'. split; [|split; [exact Hs'|split]].
    + simpl for_each. eapply bind_step; [apply (mark_one _ _ _ _ cr Hs Hcr)|].
      exact Er.
    + destruct Hf1 as (A2 & A3 & A4 & A5).
      destruct Hf' as (B2 & B3 & B4 & B5).
      repeat split; congruence.
    + intros k. rewrite Hg'. rewrite Hg1. simpl existsb.
      destruct (String.eqb k x) eqn:E; simpl.
      * apply String.eqb_eq in E. subst k. rewrite Hcr. simpl.
        destruct (existsb (String.eqb x) l); simpl; auto.
        now rewrite not_run_twice.
      * reflexivity.
Qed.

(** What the marking loop does to the results. *)
Lemma mark_not_run_calm (prefix msg : string) (s : St) :
  sigint s = None ->
  exists s',
    mark_not_run prefix msg s = (Ok tt, s')
    /\ sigint s' = None /\ same_io s s'
    /\ forall k, Dict.get k (checks s')
                 = option_map (not_run prefix msg) (Dict.get k (checks s)).
Proof.
  intros Hs.
  destruct (mark_loop prefix msg (Dict.keys (checks s)) s Hs)
    as (s' & Er & Hs' & Hf & Hg).
  { intros x Hx. now apply keys_mem. }
  exists s'. split; [|split; [exact Hs'|split; [exact Hf|]]].
  - unfold mark_not_run. eapply bind_step; [reflexivity|]. exact Er.
  - intros k. rewrite Hg.
    destruct (existsb (String.eqb k) (Dict.keys (checks s))) eqn:E; auto.
    destruct (Dict.get k (checks s)) as [cr|] eqn:Eg; auto.
    exfalso.
    assert (Hin : In k (Dict.keys (checks s)))
      by (apply keys_mem; unfold Dict.mem; now rewrite Eg).
    assert (existsb (String.eqb k) (Dict.keys (checks s)) = true)
      by (apply existsb_exists; exists k; split; auto; apply String.eqb_refl).
    congruence.
Qed.

End Marking.

(** X8: without an interrupt, the loop that marks checks as not run ends
    normally; afterwards each entry that had no details has status FAIL
    and the single detail made of the prefix and the error text, and each
    entry that had details is as before. No entry is added or removed. *)
Theorem mark_not_run_marks (prefix msg : string) (s : St) :
  sigint s = None ->
  fst (mark_not_run prefix msg s) = Ok tt
  /\ forall k, result_of k (snd (mark_not_run prefix msg s))
                = option_map (not_run prefix msg) (result_of k s).
Proof.
  intros Hs. destruct (mark_not_run_calm prefix msg s Hs) as (s' & E & _ & _ & Hg).
  rewrite E. split; [reflexivity|exact Hg].
Qed.

Lemma mark_not_run_marks_witness :
  fst (mark_not_run "Check did not run: " "boom" Examples.start) = Ok tt
  /\ result_of "iso_check"
       (snd (mark_not_run "Check did not run: " "boom" Examples.start))
     = Some (mkCR "FAIL" ["Check did not run: boom"] []).
Proof.
  destruct (mark_not_run_marks "Check did not run: " "boom" Examples.start
              eq_refl) as [H1 H2].
  split; [exact H1|]. rewrite H2. reflexivity.
Defined.

(** ** The paths through [main] *)

Section MainPaths.

Variable h : Host.

Lemma ow_techsupport_fail (d op : string) (pr : Z) :
  only_writes ["techsupport"] (techsupport_fail d op pr).
Proof. unfold techsupport_fail. ow_tac. Qed.

Lemma ow_acquire : only_writes ["techsupport"] (acquire h).
Proof.
  pose proof ow_techsupport_fail.
  unfold acquire, generate_techsupport, select_techsupport, select_newest.
  ow_tac.
Qed.

Lemma good_acquire : good (acquire h).
Proof.
  unfold acquire.
  destruct (String.eqb (nth 0 (argv h) "select") "generate");
    [apply good_generate_techsupport|apply good_select_techsupport].
Qed.

(** [main] up to the point where the archive is known. *)
Lemma main_from_acquire (bodies : string -> Bodies) (s s1 : St)
      (tf : option string) :
  makedirs_error h BASE_DIR = None ->
  acquire h s = (Ok tf, s1) ->
  main h bodies s
  = finally
      (try_except
         (match truthy tf with
          | None =>
              update_status "error" "Failed to obtain tech support file" 0 ;;
              set_status "techsupport" "FAIL" ;;
              set_details "techsupport" ["Failed to obtain tech support file"] ;;
              save_results ;;
              ret 1%Z
          | Some tech_file =>
              makedirs h (node_dir h) ;;
              let file_name := basename tech_file in
              let dest_path := (node_dir h ++ "/" ++ file_name)%string in
              extract_techsupport h (node_dir h) file_name ;;
              try_except (run_checks (bodies dest_path))
                         (mark_not_run "Check did not run: ") ;;
              update_status "complete" "All operations completed" 100 ;;
              save_results ;;
              ret 0%Z
          end)
         (fun e =>
            mark_not_run "Check did not run due to script error: " e ;;
            update_status "error" ("Error: " ++ e)%string 0 ;;
            save_results ;;
            ret 1%Z))
      (cleanup_processes h) s1.
Proof.
  intros Hmk Ha. unfold main, main_body, finally, try_except.
  unfold bind at 1. unfold makedirs at 1. rewrite Hmk. unfold ret at 1.
  cbv zeta. unfold bind at 1. fold (acquire h). rewrite Ha. reflexivity.
Qed.

Lemma total_extract_techsupport (dir file : string) :
  total (extract_techsupport h dir file).
Proof.
  unfold extract_techsupport. apply total_try_except.
  - pose proof (good_techsupport_fail). good_tac.
  - intros e. apply total_techsupport_fail.
Qed.

End MainPaths.

(** X9: when no archive is obtained (none selected, or generation failed),
    and no interrupt is pending, [main] returns 1 without running any
    check: the techsupport entry is FAIL with the single detail "Failed to
    obtain tech support file", every other entry is exactly as it was
    before the run, the last heartbeat is the error heartbeat with
    progress 0 and the results are saved. *)
Theorem main_without_archive
        (h : Host) (bodies : string -> Bodies) (s s1 : St) (tf : option string) :
  sigint s = None -> Dict.keys (checks s) = registered ->
  makedirs_error h BASE_DIR = None ->
  acquire h s = (Ok tf, s1) -> truthy tf = None ->
  let s' := snd (main h bodies s) in
  fst (main h bodies s) = Ok 1%Z
  /\ (exists x, result_of "techsupport" s'
                = Some (mkCR "FAIL" ["Failed to obtain tech support file"] x))
  /\ (forall k, k <> "techsupport" -> result_of k s' = result_of k s)
  /\ (status_writable s = true ->
      exists pre,
        status_file s'
        = pre ++ [mkHB "error" "Failed to obtain tech support file" 0])
  /\ (results_writable s = true ->
      exists pre, results_file s' = pre ++ [checks s']).
Proof.
  intros Hs Hk Hmk Ha Ht s'. subst s'.
  rewrite (main_from_acquire h bodies s s1 tf Hmk Ha). rewrite Ht.
  pose proof (good_acquire h s) as [Gr Gs]. rewrite Ha in Gr, Gs. simpl in Gr, Gs.
  specialize (Gs Hs).
  pose proof (g_keys _ _ Gr Hk) as Hk1.
  destruct (registered_get "techsupport" (checks s1) Hk1) as [cr Hcr];
    [apply registered_In; reflexivity|].
  set (s2 := write_status (mkHB "error" "Failed to obtain tech support file" 0) s1).
  assert (Hs2 : sigint s2 = None) by (unfold s2; now rewrite sigint_write_status).
  assert (Hc2 : checks s2 = checks s1)
    by (unfold s2; apply (proj1 (write_status_keeps _ _))).
  set (c3 := Dict.set "techsupport"
               (mkCR "FAIL" ["Failed to obtain tech support file"] (extra cr))
               (checks s1)).
  assert (E : (update_status "error" "Failed to obtain tech support file" 0 ;;
               set_status "techsupport" "FAIL" ;;
               set_details "techsupport" ["Failed to obtain tech support file"] ;;
               save_results ;; ret 1%Z) s1
              = (Ok 1%Z, write_results (with_checks c3 s2))).
  { eapply bind_step; [apply update_status_calm; exact Gs|]. fold s2.
    eapply bind_step;
      [apply (set_status_calm _ _ _ cr Hs2); now rewrite Hc2|].
    eapply bind_step;
      [apply (set_details_calm _ _ _ (mkCR "FAIL" (details cr) (extra cr)));
       [exact Hs2|apply dict_get_set_same]|].
    rewrite with_checks_twice. simpl checks. rewrite dict_set_set, Hc2.
    eapply bind_step; [apply save_results_calm; exact Hs2|]. reflexivity. }
  assert (Hs3 : sigint (write_results (with_checks c3 s2)) = None)
    by (rewrite sigint_write_results; exact Hs2).
  match goal with
  | |- context [finally ?m _ s1] =>
      assert (EF : m s1 = (Ok 1%Z, write_results (with_checks c3 s2)))
        by (unfold try_except; rewrite E; reflexivity);
      destruct (finally_calm h m s1 _ _ EF Hs3) as [l El]
  end.
  rewrite El. simpl fst. simpl snd.
  unfold result_of.
  change (checks (with_cleanups
                    (cleanups (write_results (with_checks c3 s2)) ++ l)
                    (write_results (with_checks c3 s2))))
    with (checks (write_results (with_checks c3 s2))).
  rewrite (proj1 (write_results_keeps _)). simpl checks.
  split; [reflexivity|]. split; [|split; [|split]].
  - exists (extra cr). apply dict_get_set_same.
  - intros k Hne. unfold c3. rewrite dict_get_set_other by exact Hne.
    pose proof (ow_acquire h s k) as Ho. rewrite Ha in Ho. simpl in Ho.
    apply Ho. simpl. intros [H|[]]. congruence.
  - intros Hw.
    change (status_file (with_cleanups
                           (cleanups (write_results (with_checks c3 s2)) ++ l)
                           (write_results (with_checks c3 s2))))
      with (status_file (write_results (with_checks c3 s2))).
    destruct (write_results_keeps (with_checks c3 s2)) as (_ & -> & _ & _).
    simpl status_file. unfold s2. rewrite write_status_file.
    + eauto.
    + now rewrite (g_status_w _ _ Gr).
  - intros Hw.
    change (results_file (with_cleanups
                            (cleanups (write_results (with_checks c3 s2)) ++ l)
                            (write_results (with_checks c3 s2))))
      with (results_file (write_results (with_checks c3 s2))).
    rewrite write_results_file.
    + simpl. eauto.
    + simpl. unfold s2.
      destruct (write_status_keeps
                  (mkHB "error" "Failed to obtain tech support file" 0) s1)
        as (_ & _ & _ & ->).
      now rewrite (g_results_w _ _ Gr).
Qed.

Lemma main_without_archive_witness :
  let s' := snd (worker_main Examples.no_archive_host Examples.silent_probe
                             Examples.start) in
  fst (worker_main Examples.no_archive_host Examples.silent_probe Examples.start)
  = Ok 1%Z
  /\ result_of "subnet_check" s' = Some fresh.
Proof.
  destruct (main_without_archive Examples.no_archive_host
              (worker_bodies Examples.no_archive_host Examples.silent_probe)
              Examples.start
              (snd (acquire Examples.no_archive_host Examples.start)) None
              eq_refl eq_refl eq_refl eq_refl eq_refl)
    as (H1 & _ & H3 & _).
  split; [exact H1|].
  unfold worker_main. rewrite H3; [reflexivity|discriminate].
Defined.

(** X10: when the base directory cannot be created and no interrupt is
    pending, [main] returns 1; every entry without details becomes FAIL
    with the detail "Check did not run due to script error: <message>",
    entries with details are kept, the heartbeat is the error heartbeat
    with progress 0, and the results are saved. *)
Theorem main_script_error
        (h : Host) (bodies : string -> Bodies) (s : St) (e : string) :
  sigint s = None -> makedirs_error h BASE_DIR = Some e ->
  let s' := snd (main h bodies s) in
  fst (main h bodies s) = Ok 1%Z
  /\ (forall k, result_of k s'
                = option_map
                    (not_run "Check did not run due to script error: " e)
                    (result_of k s))
  /\ (status_writable s = true ->
      status_file s'
      = status_file s ++ [mkHB "error" ("Error: " ++ e)%string 0])
  /\ (results_writable s = true ->
      results_file s' = results_file s ++ [checks s']).
Proof.
  intros Hs Hmk s'. subst s'.
  destruct (mark_not_run_calm "Check did not run due to script error: " e s Hs)
    as (s1 & Em & Hs1 & (F1 & F2 & F3 & F4) & Hg).
  set (s2 := write_status (mkHB "error" ("Error: " ++ e)%string 0) s1).
  assert (EH : (mark_not_run "Check did not run due to script error: " e ;;
                update_status "error" ("Error: " ++ e)%string 0 ;;
                save_results ;; ret 1%Z) s
               = (Ok 1%Z, write_results s2)).
  { eapply bind_step; [exact Em|].
    eapply bind_step; [apply update_status_calm; exact Hs1|]. fold s2.
    eapply bind_step;
      [apply save_results_calm; unfold s2; now rewrite sigint_write_status|].
    reflexivity. }
  assert (EB : main_body h bodies s = (Ok 1%Z, write_results s2)).
  { unfold main_body, try_except.
    unfold bind at 1. unfold makedirs at 1. rewrite Hmk. unfold raise at 1.
    cbv beta iota. rewrite EH. reflexivity. }
  assert (Hs3 : sigint (write_results s2) = None)
    by (unfold s2; now rewrite sigint_write_results, sigint_write_status).
  destruct (finally_calm h _ s _ _ EB Hs3) as [l E]. fold (main h bodies) in E.
  rewrite E. simpl fst. simpl snd. unfold result_of.
  change (checks (with_cleanups (cleanups (write_results s2) ++ l)
                                (write_results s2)))
    with (checks (write_results s2)).
  change (status_file (with_cleanups (cleanups (write_results s2) ++ l)
                                     (write_results s2)))
    with (status_file (write_results s2)).
  change (results_file (with_cleanups (cleanups (write_results s2) ++ l)
                                      (write_results s2)))
    with (results_file (write_results s2)).
  destruct (write_results_keeps s2) as (-> & -> & _ & _).
  destruct (write_status_keeps (mkHB "error" ("Error: " ++ e)%string 0) s1)
    as (Hc & Hrf & _ & Hrw). fold s2 in Hc, Hrf, Hrw.
  rewrite Hc.
  split; [reflexivity|]. split; [exact Hg|]. split.
  - intros Hw. unfold s2. rewrite write_status_file by congruence. congruence.
  - intros Hw. rewrite write_results_file by congruence. congruence.
Qed.

Lemma main_script_error_witness :
  let h := mkHost "nd1" [] (fun _ => true) (fun _ => Some "Permission denied")
                  [] (fun _ => true) (fun _ => EmptyString) None "0 B" []
                  (fun _ => false) (FileCache.mkDirView true [])
                  (fun _ => RunRaised "not run") [] None
                  (fun _ => EmptyString) (fun _ => inr "missing")
                  4242 EmptyString 9 in
  fst (worker_main h Examples.silent_probe Examples.start) = Ok 1%Z
  /\ result_of "disk_space"
       (snd (worker_main h Examples.silent_probe Examples.start))
     = Some (mkCR "FAIL"
               ["Check did not run due to script error: Permission denied"] []).
Proof.
  intros h.
  destruct (main_script_error h (worker_bodies h Examples.silent_probe)
              Examples.start "Permission denied" eq_refl eq_refl)
    as (H1 & H2 & _).
  split; [exact H1|]. unfold worker_main. rewrite H2. reflexivity.
Defined.

(** X11: once an archive has been obtained and the two directories can be
    created, a run without an interrupt returns 0 whatever the extraction
    and the checks do: a failed extraction or a failing check is recorded
    in the results, not in the exit status. *)
Theorem main_returns_0_with_archive
        (h : Host) (p : Probe) (s s1 : St) (f : string) :
  sigint s = None -> Dict.keys (checks s) = registered ->
  makedirs_error h BASE_DIR = None -> makedirs_error h (node_dir h) = None ->
  acquire h s = (Ok (Some f), s1) -> f <> EmptyString ->
  fst (worker_main h p s) = Ok 0%Z.
Proof.
  intros Hs Hk Hmk Hnd Ha Hf. unfold worker_main.
  rewrite (main_from_acquire h _ s s1 (Some f) Hmk Ha).
  assert (Ht : truthy (Some f) = Some f) by (destruct f; [congruence|reflexivity]).
  rewrite Ht.
  pose proof (good_acquire h s) as [Gr Gs]. rewrite Ha in Gr, Gs. simpl in Gr, Gs.
  specialize (Gs Hs). pose proof (g_keys _ _ Gr Hk) as Hk1.
  set (dest := (node_dir h ++ "/" ++ basename f)%string).
  set (B := makedirs h (node_dir h) ;;
            extract_techsupport h (node_dir h) (basename f) ;;
            try_except (run_checks (worker_bodies h p dest))
                       (mark_not_run "Check did not run: ") ;;
            update_status "complete" "All operations completed" 100 ;;
            save_results ;; ret 0%Z).
  assert (Gm : good (makedirs h (node_dir h)))
    by (unfold makedirs; rewrite Hnd; apply good_ret).
  assert (Gc : good (try_except (run_checks (worker_bodies h p dest))
                                (mark_not_run "Check did not run: "))).
  { apply good_try_except;
      [apply good_run_checks, good_worker_bodies|apply good_mark_not_run]. }
  assert (GB : good B).
  { unfold B. pose proof (good_extract_techsupport h). good_tac. }
  assert (TB : total B).
  { unfold B. apply total_bind; [exact Gm| |intros _].
    { unfold makedirs. rewrite Hnd. apply total_ret. }
    apply total_bind;
      [apply good_extract_techsupport|apply total_extract_techsupport|intros _].
    apply total_bind; [exact Gc| |intros _].
    { apply total_try_except;
        [apply good_run_checks, good_worker_bodies|apply total_mark_not_run]. }
    apply total_bind;
      [apply good_update_status|apply total_update_status|intros _].
    apply total_bind; [apply good_save_results|apply total_save_results|intros _].
    apply total_ret. }
  assert (EB : ends_with (fun a _ => a = 0%Z) B).
  { unfold B. do 5 (apply ends_bind; intros _). now apply ends_ret. }
  destruct (calm_run B s1 GB TB Gs Hk1) as (a & s2 & E & Hs2 & _).
  pose proof (EB s1 a s2 E) as ->.
  assert (EQ : forall H, fst (finally (try_except B H) (cleanup_processes h) s1)
                         = Ok 0%Z).
  { intros H.
    assert (ET : try_except B H s1 = (Ok 0%Z, s2))
      by (unfold try_except; rewrite E; reflexivity).
    destruct (finally_calm h _ s1 _ _ ET Hs2) as [l El]. now rewrite El. }
  apply EQ.
Qed.

Lemma main_returns_0_with_archive_witness :
  fst (worker_main Examples.gzip_only_host Examples.silent_probe Examples.start)
  = Ok 0%Z
  /\ option_map status
       (result_of "techsupport"
          (snd (worker_main Examples.gzip_only_host Examples.silent_probe
                            Examples.start)))
     = Some "FAIL".
Proof.
  split.
  - apply (main_returns_0_with_archive Examples.gzip_only_host
             Examples.silent_probe Examples.start
             (snd (acquire Examples.gzip_only_host Examples.start))
             "/techsupport/b-nd1.tgz");
      first [reflexivity|discriminate].
  - vm_compute. reflexivity.
Defined.

(** ** The extraction [main] uses *)

Section Extraction.

Variable h : Host.

Lemma run_extraction_command_eq (c : sh) (s : St) :
  run_extraction_command h c s
  = (Ok (snd (sh_run (sh_ok h) c)), log_commands (fst (sh_run (sh_ok h) c)) s).
Proof.
  unfold run_extraction_command. now destruct (sh_run (sh_ok h) c).
Qed.


Lemma log_commands_app (l1 l2 : list string) (s : St) :
  log_commands l2 (log_commands l1 s) = log_commands (l1 ++ l2) s.
Proof. unfold log_commands. simpl. now rewrite app_assoc. Qed.

(** Two strategies tried in turn. *)
Lemma two_strategies (c1 c2 : sh) (s : St) :
  (success <- run_extraction_command h c1 ;;
   if success then ret true else run_extraction_command h c2) s
  = (Ok (snd (fallback (sh_ok h) [c1; c2])),
     log_commands (fst (fallback (sh_ok h) [c1; c2])) s).
Proof.
  unfold bind. rewrite run_extraction_command_eq. simpl fallback.
  destruct (sh_run (sh_ok h) c1) as [l1 [|]]; simpl; [reflexivity|].
  rewrite run_extraction_command_eq, log_commands_app.
  destruct (sh_run (sh_ok h) c2) as [l2 [|]]; simpl; rewrite ?app_nil_r; reflexivity.
Qed.

(** The nested archive: the outcome of its extraction is dropped. *)
Lemma nested_strategies_run (c1 c2 : sh) (s : St) :
  (ok <- run_extraction_command h c1 ;;
   if ok then ret tt else ignore (run_extraction_command h c2)) s
  = (Ok tt, log_commands (fst (fallback (sh_ok h) [c1; c2])) s).
Proof.
  unfold bind. rewrite run_extraction_command_eq. simpl fallback.
  destruct (sh_run (sh_ok h) c1) as [l1 [|]]; simpl; [reflexivity|].
  unfold ignore, bind. rewrite run_extraction_command_eq, log_commands_app.
  destruct (sh_run (sh_ok h) c2) as [l2 [|]]; simpl; rewrite ?app_nil_r; reflexivity.
Qed.


Lemma kc_bind {A B} (m : M A) (k : A -> M B) :
  keeps_commands m -> (forall a, keeps_commands (k a)) ->
  keeps_commands (bind m k).
Proof.
  intros Hm Hk s. unfold bind. specialize (Hm s).
  destruct (m s) as [[a|e|c] s1]; simpl in *; auto. now rewrite Hk.
Qed.

Lemma kc_tick : keeps_commands tick.
Proof.
  intros s. unfold tick, signal_handler, write_results, write_status.
  destruct (sigint s) as [[|n]|]; simpl; auto.
  destruct (status_writable s); simpl; destruct (results_writable s);
    reflexivity.
Qed.

Lemma kc_update_status (st op : string) (pr : Z) :
  keeps_commands (update_status st op pr).
Proof.
  unfold update_status. apply kc_bind; [apply kc_tick|intros _].
  intros s. unfold write_status. simpl. now destruct (status_writable s).
Qed.

Lemma kc_modify (name : string) (f : CheckResult -> CheckResult) :
  keeps_commands (tick ;; cr <- entry name ;; put_entry name (f cr)).
Proof.
  apply kc_bind; [apply kc_tick|intros _].
  intros s. unfold bind, entry, put_entry.
  now destruct (Dict.get name (checks s)).
Qed.

Lemma kc_techsupport_fail (d op : string) (pr : Z) :
  keeps_commands (techsupport_fail d op pr).
Proof.
  unfold techsupport_fail.
  apply kc_bind;
    [apply (kc_modify _ (fun cr => mkCR "FAIL" (details cr) (extra cr)))
    |intros _].
  apply kc_bind;
    [apply (kc_modify _ (fun cr => mkCR (status cr) (details cr ++ [d]) (extra cr)))
    |intros _].
  apply kc_update_status.
Qed.

Lemma kc_set_details (name : string) (l : list string) :
  keeps_commands (set_details name l).
Proof. apply (kc_modify name (fun cr => mkCR (status cr) l (extra cr))). Qed.

Lemma fallback_commands (ok : string -> bool) (c0 c1 c2 x : string) :
  In x (fst (fallback ok [AndThen (Cmd c0) (Cmd c1); AndThen (Cmd c0) (Cmd c2)])) ->
  x = c0 \/ x = c1 \/ x = c2.
Proof.
  simpl. destruct (ok c0); simpl; destruct (ok c1); simpl;
    try destruct (ok c2); simpl; intuition.
Qed.

Lemma two_strategies_then {B} (c1 c2 : sh) (K : bool -> M B) (s : St) :
  bind (run_extraction_command h c1)
       (fun success =>
          bind (if success then ret true else run_extraction_command h c2) K) s
  = K (snd (fallback (sh_ok h) [c1; c2]))
      (log_commands (fst (fallback (sh_ok h) [c1; c2])) s).
Proof.
  pose proof (two_strategies c1 c2 s) as E. unfold bind in *.
  destruct (run_extraction_command h c1 s) as [[[|]|e|c] s1]; simpl in *.
  - inversion E. reflexivity.
  - destruct (run_extraction_command h c2 s1) as [[b|e|c] s2];
      inversion E. reflexivity.
  - discriminate.
  - discriminate.
Qed.

Lemma try_except_via {A} (m m' : M A) (hd : string -> M A) (s s_mid : St) :
  m s = m' s_mid -> keeps_commands m' -> (forall e, keeps_commands (hd e)) ->
  commands (snd (try_except m hd s)) = commands s_mid.
Proof.
  intros E Hm Hh. unfold try_except. rewrite E. specialize (Hm s_mid).
  destruct (m' s_mid) as [[a|e|c] s3]; simpl in *; auto.
  now rewrite Hh.
Qed.

End Extraction.

(** X12: on an archive that exists, and without an interrupt, the
    extraction [main] uses runs "cd dir && tar -xzf path" and, only if
    that fails, "cd dir && tar -xf path"; if one succeeds and logs.tgz
    exists it extracts logs.tgz the same two ways; no other command is
    run (in particular no gzip pipeline). When both attempts on the
    archive fail, the techsupport entry gets status FAIL and the detail
    "Failed to extract tech support" is appended. *)
Theorem extract_techsupport_strategies
        (h : Host) (dir file : string) (s : St) (cr : CheckResult) :
  sigint s = None -> result_of "techsupport" s = Some cr ->
  path_exists h (dir ++ "/" ++ file)%string = true ->
  size_check_error h = None ->
  let path := (dir ++ "/" ++ file)%string in
  let s' := snd (extract_techsupport h dir file s) in
  let tried := fallback (sh_ok h) (main_strategies dir path) in
  let nested :=
    if snd tried && path_exists h (dir ++ "/logs.tgz")%string
    then fst (fallback (sh_ok h) (nested_strategies dir)) else [] in
  commands s' = commands s ++ fst tried ++ nested
  /\ (forall c, In c (fst tried ++ nested) ->
                In c [("cd " ++ dir)%string; ("tar -xzf " ++ path)%string;
                      ("tar -xf " ++ path)%string; "tar -xzf logs.tgz";
                      "tar -xf logs.tgz"])
  /\ (snd tried = false ->
      result_of "techsupport" s'
      = Some (mkCR "FAIL" (details cr ++ ["Failed to extract tech support"])
                   (extra cr))).
Proof.
  intros Hs Hcr He Hsz path s' tried nested. fold path in He.
  set (s1 := write_status (mkHB "running" "Extracting tech support archive" 50) s).
  set (s2 := log_commands (fst tried) s1).
  assert (Hs1 : sigint s1 = None) by (unfold s1; now rewrite sigint_write_status).
  assert (Hc1 : commands s1 = commands s)
    by (unfold s1, write_status; now destruct (status_writable s)).
  assert (Hk1 : checks s1 = checks s)
    by (unfold s1; apply (proj1 (write_status_keeps _ _))).
  assert (Hh : forall e, keeps_commands
                 (techsupport_fail
                    ("Error extracting tech support file: " ++ e)%string
                    ("Error extracting tech support file: " ++ e)%string 70))
    by (intros e; apply kc_techsupport_fail).
  assert (Hbody :
            (update_status "running" "Extracting tech support archive" 50 ;;
             if negb (path_exists h path) then
               techsupport_fail
                 ("Tech support file " ++ path ++ " not found")%string
                 "Tech support file not found for extraction" 50
             else
               match size_check_error h with
               | Some e => raise e
               | None => ret tt
               end ;;
               success <- run_extraction_command h
                            (AndThen (cd dir) (Cmd ("tar -xzf " ++ path)%string)) ;;
               success <- (if success then ret true
                           else run_extraction_command h
                                  (AndThen (cd dir)
                                           (Cmd ("tar -xf " ++ path)%string))) ;;
               if negb success then
                 techsupport_fail "Failed to extract tech support"
                                  "Failed to extract tech support" 60
               else
                 (if path_exists h (dir ++ "/logs.tgz")%string then
                    ok <- run_extraction_command h
                            (AndThen (cd dir) (Cmd "tar -xzf logs.tgz")) ;;
                    if ok then ret tt
                    else ignore (run_extraction_command h
                                   (AndThen (cd dir) (Cmd "tar -xf logs.tgz")))
                  else ret tt) ;;
                 match extracted_dirs h with
                 | [] =>
                     techsupport_fail "No directories found after extraction"
                                      "No directories found after extraction" 60
                 | _ =>
                     set_details "techsupport"
                       [if String.eqb (nth 0 (argv h) "select") "generate"
                        then "Tech support generated and extracted successfully"
                        else "Tech support extracted successfully"] ;;
                     update_status "running" "Tech support extraction complete" 90
                 end) s
            = (if negb (snd tried) then
                 techsupport_fail "Failed to extract tech support"
                                  "Failed to extract tech support" 60
               else
                 match extracted_dirs h with
                 | [] =>
                     techsupport_fail "No directories found after extraction"
                                      "No directories found after extraction" 60
                 | _ =>
                     set_details "techsupport"
                       [if String.eqb (nth 0 (argv h) "select") "generate"
                        then "Tech support generated and extracted successfully"
                        else "Tech support extracted successfully"] ;;
                     update_status "running" "Tech support extraction complete" 90
                 end)
                (log_commands (fst tried ++ nested) s1)).
  { eapply bind_step; [apply update_status_calm; exact Hs|]. fold s1.
    rewrite He. simpl negb. cbv iota.
    eapply bind_step; [rewrite Hsz; reflexivity|].
    rewrite two_strategies_then.
    change (fallback (sh_ok h)
              [AndThen (cd dir) (Cmd ("tar -xzf " ++ path)%string);
               AndThen (cd dir) (Cmd ("tar -xf " ++ path)%string)]) with tried.
    unfold nested.
    destruct (snd tried); simpl negb; cbv iota.
    - destruct (path_exists h (dir ++ "/logs.tgz")%string); simpl andb; cbv iota.
      + eapply bind_step; [apply nested_strategies_run|].
        now rewrite log_commands_app.
      + eapply bind_step; [reflexivity|]. now rewrite app_nil_r.
    - simpl andb. cbv iota. now rewrite app_nil_r. }
  split; [|split].
  - subst s'. unfold extract_techsupport. cbv zeta. fold path.
    rewrite (try_except_via _ _ _ _ _ Hbody).
    + simpl. now rewrite Hc1.
    + destruct (negb (snd tried)); [apply kc_techsupport_fail|].
      destruct (extracted_dirs h); [apply kc_techsupport_fail|].
      apply kc_bind; [apply kc_set_details|intros _; apply kc_update_status].
    + exact Hh.
  - intros c Hin. apply in_app_or in Hin. destruct Hin as [Hin|Hin].
    + apply (fallback_commands (sh_ok h)) in Hin.
      destruct Hin as [ E | [ E | E ] ]; subst c; unfold In, cd; auto 10.
    + unfold nested in Hin.
      destruct (snd tried && path_exists h (dir ++ "/logs.tgz")%string);
        [|contradiction].
      apply (fallback_commands (sh_ok h)) in Hin.
      destruct Hin as [ E | [ E | E ] ]; subst c; unfold In, cd; auto 10.
  - intros Hf. subst s'. unfold extract_techsupport, try_except. cbv zeta.
    fold path. rewrite Hbody. rewrite Hf. change (negb false) with true.
    cbv iota.
    rewrite (techsupport_fail_calm _ _ _ _ cr); [| |].
    + unfold result_of. simpl snd.
      rewrite (proj1 (write_status_keeps _ _)). simpl checks.
      apply dict_get_set_same.
    + simpl. exact Hs1.
    + simpl. rewrite Hk1. exact Hcr.
Qed.

Lemma extract_techsupport_strategies_witness :
  commands (snd (extract_techsupport Examples.gzip_only_host "/tmp/x" "a.tgz"
                                     Examples.start))
  = ["cd /tmp/x"; "tar -xzf /tmp/x/a.tgz"; "cd /tmp/x"; "tar -xf /tmp/x/a.tgz"]
  /\ result_of "techsupport"
       (snd (extract_techsupport Examples.gzip_only_host "/tmp/x" "a.tgz"
                                 Examples.start))
     = Some (mkCR "FAIL" ["Failed to extract tech support"] []).
Proof.
  destruct (extract_techsupport_strategies Examples.gzip_only_host "/tmp/x"
              "a.tgz" Examples.start fresh eq_refl eq_refl eq_refl eq_refl)
    as (H1 & _ & H3).
  split; [exact H1|]. apply H3. reflexivity.
Defined.

(** ** Ties between archives *)

Section StableSelection.

Lemma sort_head_first_newest (l : list (string * Z)) :
  l <> [] ->
  exists x rest, sort_newest_first l = x :: rest /\ first_newest x l.
Proof.
  induction l as [|a l IH]; intros Hne; [congruence|].
  destruct l as [|b l'].
  - exists a, []. split; [reflexivity|].
    exists [], []. repeat split; simpl; intros y [].
  - destruct IH as (x & rest & Es & pre & post & El & Hpre & Hpost);
      [discriminate|].
    change (sort_newest_first (a :: b :: l'))
      with (insert_desc a (sort_newest_first (b :: l'))).
    rewrite Es. simpl insert_desc.
    destruct (Z.gtb_spec (snd x) (snd a)) as [Hgt|Hle].
    + exists x, (insert_desc a rest). split; [reflexivity|].
      exists (a :: pre), post. rewrite El. split; [reflexivity|]. split.
      * intros y [<-|Hy]; [lia|now apply Hpre].
      * exact Hpost.
    + exists a, (x :: rest). split; [reflexivity|].
      exists [], (b :: l'). split; [reflexivity|]. split.
      * intros y [].
      * intros y Hy. rewrite El in Hy. apply in_app_or in Hy.
        destruct Hy as [Hy|[<-|Hy]].
        -- specialize (Hpre y Hy). lia.
        -- lia.
        -- specialize (Hpost y Hy). lia.
Qed.

End StableSelection.

(** X13: when no usable explicit path is given and the node has archives
    whose modification times can all be read, the selection returns the
    archive with the greatest modification time, and among archives with
    equal greatest times the first one in listing order; when a time
    cannot be read, the selection raises instead of marking the entry. *)
Theorem select_techsupport_first_newest
        (h : Host) (specific_file : option string) (s : St) :
  sigint s = None -> usable h specific_file = None ->
  glob_techsupport h <> [] ->
  match with_mtimes (glob_techsupport h) with
  | inl keyed =>
      exists newest t,
        fst (select_techsupport h specific_file s) = Ok (Some newest)
        /\ first_newest (newest, t) keyed
  | inr e =>
      fst (select_techsupport h specific_file s) = Exc e
      /\ checks (snd (select_techsupport h specific_file s)) = checks s
  end.
Proof.
  intros Hs Hu Hg.
  set (s1 := write_status (mkHB "running" "Selecting tech support file" 10) s).
  assert (Hs1 : sigint s1 = None) by (unfold s1; now rewrite sigint_write_status).
  assert (E : select_techsupport h specific_file s = select_newest h s1).
  { unfold select_techsupport.
    eapply bind_step; [apply update_status_calm; exact Hs|]. fold s1.
    unfold usable in Hu. destruct (truthy specific_file) as [f|]; auto.
    destruct (path_exists h f); [discriminate|reflexivity]. }
  rewrite E. unfold select_newest.
  destruct (glob_techsupport h) as [|g0 gl] eqn:Eg; [congruence|].
  destruct (with_mtimes (g0 :: gl)) as [keyed|e] eqn:Ek.
  - assert (Hk : keyed <> []).
    { eapply with_mtimes_nonempty; [|exact Ek]. discriminate. }
    destruct (sort_head_first_newest keyed Hk) as ([newest t] & rest & Es & Hf).
    rewrite Es. exists newest, t. split; [|exact Hf].
    unfold bind. now rewrite update_status_calm by exact Hs1.
  - split; [reflexivity|].
    unfold raise. simpl. unfold s1. apply (proj1 (write_status_keeps _ _)).
Qed.

Lemma select_techsupport_first_newest_witness :
  let h := Examples.host_with [] (fun _ => true)
             [("/techsupport/a-nd1.tgz", Some 9%Z);
              ("/techsupport/b-nd1.tgz", Some 9%Z);
              ("/techsupport/c-nd1.tgz", Some 5%Z)] (fun _ => true) in
  exists newest t,
    fst (select_techsupport h None Examples.start) = Ok (Some newest)
    /\ first_newest (newest, t)
         [("/techsupport/a-nd1.tgz", 9%Z); ("/techsupport/b-nd1.tgz", 9%Z);
          ("/techsupport/c-nd1.tgz", 5%Z)].
Proof.
  intros h.
  exact (select_techsupport_first_newest h None Examples.start eq_refl eq_refl
           ltac:(discriminate)).
Defined.

(** ** The shape of the results *)

Section Schema.

Lemma ks_ret {A} (a : A) : keeps_schema (ret a).
Proof. intros s H. exact H. Qed.

Lemma ks_raise {A} (msg : string) : keeps_schema (@raise A msg).
Proof. intros s H. exact H. Qed.

Lemma ks_bind {A B} (m : M A) (k : A -> M B) :
  keeps_schema m -> (forall a, keeps_schema (k a)) -> keeps_schema (bind m k).
Proof.
  intros Hm Hk s Hs. unfold bind. specialize (Hm s Hs).
  destruct (m s) as [[a|msg|c] s1]; simpl in *; auto. now apply Hk.
Qed.

Lemma ks_try_except {A} (m : M A) (h : string -> M A) :
  keeps_schema m -> (forall e, keeps_schema (h e)) ->
  keeps_schema (try_except m h).
Proof.
  intros Hm Hh s Hs. unfold try_except. specialize (Hm s Hs).
  destruct (m s) as [[a|msg|c] s1]; simpl in *; auto. now apply Hh.
Qed.

Lemma ks_ignore {A} (m : M A) : keeps_schema m -> keeps_schema (ignore m).
Proof. intros H. apply ks_bind; auto. intros a. apply ks_ret. Qed.

Lemma ks_when (b : bool) (m : M unit) : keeps_schema m -> keeps_schema (when b m).
Proof. intros H. destruct b; simpl; auto. apply ks_ret. Qed.

Lemma ks_for_each {A} (l : list A) (body : A -> M unit) :
  (forall x, keeps_schema (body x)) -> keeps_schema (for_each l body).
Proof.
  intros H. induction l as [|x l IH]; simpl.
  - apply ks_ret.
  - apply ks_bind; auto.
Qed.

Lemma ks_fold_m {A B} (l : list A) (acc : B) (body : B -> A -> M B) :
  (forall b x, keeps_schema (body b x)) -> keeps_schema (fold_m l acc body).
Proof.
  intros H. revert acc. induction l as [|x l IH]; intros acc; simpl.
  - apply ks_ret.
  - apply ks_bind; auto.
Qed.

Lemma schema_write_status (hb : Heartbeat) (s : St) :
  schema_ok s -> schema_ok (write_status hb s).
Proof.
  unfold schema_ok, write_status. destruct (status_writable s); auto.
Qed.

Lemma schema_write_results (s : St) :
  schema_ok s -> schema_ok (write_results s).
Proof.
  unfold schema_ok, write_results. intros [H1 H2].
  destruct (results_writable s); simpl; auto.
  split; auto. apply Forall_app. split; auto.
Qed.

Lemma ks_tick : keeps_schema tick.
Proof.
  intros s Hs. unfold tick, signal_handler.
  destruct (sigint s) as [[|n]|]; simpl; auto.
  apply schema_write_results, schema_write_status. exact Hs.
Qed.

Lemma ks_update_status (st op : string) (pr : Z) :
  keeps_schema (update_status st op pr).
Proof.
  unfold update_status. apply ks_bind; [apply ks_tick|intros _].
  intros s Hs. now apply schema_write_status.
Qed.

Lemma ks_save_results : keeps_schema save_results.
Proof.
  unfold save_results. apply ks_bind; [apply ks_tick|intros _].
  intros s Hs. now apply schema_write_results.
Qed.

Lemma ks_entry (name : string) : keeps_schema (entry name).
Proof.
  intros s Hs. unfold entry. now destruct (Dict.get name (checks s)).
Qed.

Lemma ks_has_entry (name : string) : keeps_schema (has_entry name).
Proof. intros s Hs. exact Hs. Qed.

Lemma get_status_known (name : string) (cr : CheckResult)
      (c : Dict.t CheckResult) :
  Forall (fun kv : string * CheckResult => In (status (snd kv)) vocabulary) c ->
  Dict.get name c = Some cr -> In (status cr) vocabulary.
Proof.
  induction c as [|[k v] c IH]; simpl; intros H E; [discriminate|].
  inversion H as [|x l Hx Hl]; subst. destruct (String.eqb name k).
  - inversion E; subst. exact Hx.
  - now apply IH.
Qed.

Lemma set_status_known (name : string) (cr : CheckResult)
      (c : Dict.t CheckResult) :
  Forall (fun kv : string * CheckResult => In (status (snd kv)) vocabulary) c ->
  In (status cr) vocabulary ->
  Forall (fun kv : string * CheckResult => In (status (snd kv)) vocabulary)
         (Dict.set name cr c).
Proof.
  intros H Hcr. induction c as [|[k v] c IH]; simpl.
  - constructor; auto.
  - inversion H as [|x l Hx Hl]; subst.
    destruct (String.eqb name k); constructor; auto.
Qed.

Lemma schema_put (name : string) (cr : CheckResult) (s : St) :
  Dict.mem name (checks s) = true \/ In name registered ->
  In (status cr) vocabulary ->
  schema_ok s -> schema_ok (with_checks (Dict.set name cr (checks s)) s).
Proof.
  intros Hn Hcr [[Hk Hv] Hf]. split; [|exact Hf]. split.
  - simpl. rewrite dict_keys_set_present; auto.
    destruct Hn as [Hn|Hn]; auto. apply keys_mem. now rewrite Hk.
  - simpl. now apply set_status_known.
Qed.

Lemma ks_modify (name : string) (f : CheckResult -> CheckResult) :
  (forall cr, In (status cr) vocabulary -> In (status (f cr)) vocabulary) ->
  keeps_schema (tick ;; cr <- entry name ;; put_entry name (f cr)).
Proof.
  intros Hf. apply ks_bind; [apply ks_tick|intros _].
  intros s Hs. unfold bind, entry, put_entry.
  destruct (Dict.get name (checks s)) as [cr|] eqn:E; simpl; auto.
  apply schema_put; auto.
  - left. unfold Dict.mem. now rewrite E.
  - apply Hf. eapply get_status_known; [apply Hs|exact E].
Qed.

Lemma ks_set_status (name v : string) :
  existsb (String.eqb v) vocabulary = true -> keeps_schema (set_status name v).
Proof.
  intros H.
  apply (ks_modify name (fun cr => mkCR v (details cr) (extra cr))).
  intros cr _. simpl status.
  apply existsb_exists in H. destruct H as [x [Hx E]].
  apply String.eqb_eq in E. now subst.
Qed.

Lemma ks_set_details (name : string) (l : list string) :
  keeps_schema (set_details name l).
Proof.
  apply (ks_modify name (fun cr => mkCR (status cr) l (extra cr))). auto.
Qed.

Lemma ks_append_detail (name d : string) : keeps_schema (append_detail name d).
Proof.
  apply (ks_modify name
           (fun cr => mkCR (status cr) (details cr ++ [d]) (extra cr))). auto.
Qed.

Lemma ks_set_extra (name key v : string) : keeps_schema (set_extra name key v).
Proof.
  apply (ks_modify name
           (fun cr => mkCR (status cr) (details cr) (Dict.set key v (extra cr)))).
  auto.
Qed.

Lemma ks_replace_entry (name : string) (cr : CheckResult) :
  existsb (String.eqb name) registered = true ->
  existsb (String.eqb (status cr)) vocabulary = true ->
  keeps_schema (replace_entry name cr).
Proof.
  intros Hn Hv. unfold replace_entry.
  apply ks_bind; [apply ks_tick|intros _].
  intros s Hs. unfold put_entry. simpl. apply schema_put; auto.
  - right. now apply registered_In.
  - apply existsb_exists in Hv. destruct Hv as [x [Hx E]].
    apply String.eqb_eq in E. now rewrite E.
Qed.

Lemma ks_get_status (name : string) : keeps_schema (get_status name).
Proof.
  unfold get_status. apply ks_bind; [apply ks_entry|intros cr]. apply ks_ret.
Qed.

Lemma ks_set_version (v : string) : keeps_schema (set_version v).
Proof.
  unfold set_version. apply ks_bind; [apply ks_tick|intros _].
  intros s Hs. exact Hs.
Qed.

Lemma ks_get_file_cache (h : Host) : keeps_schema (get_file_cache h).
Proof.
  intros s Hs. unfold get_file_cache.
  destruct (file_cache s) as [c|]; simpl; auto.
  destruct (String.eqb (FileCache.base_dir c) (node_dir h)); exact Hs.
Qed.

Lemma ks_find_and_extend (h : Host) (cache : FileCache.t)
      (pattern : string) (more : list string) :
  keeps_schema (find_and_extend h cache pattern more).
Proof.
  intros s Hs. unfold find_and_extend.
  destruct (Dict.get pattern (FileCache.file_cache cache)); exact Hs.
Qed.

Lemma ks_run_extraction_command (h : Host) (cmd : sh) :
  keeps_schema (run_extraction_command h cmd).
Proof.
  intros s Hs. unfold run_extraction_command.
  destruct (sh_run (sh_ok h) cmd) as [ran ok]. exact Hs.
Qed.

Lemma ks_run_command_unified (h : Host) (cmd : sh) :
  keeps_schema (run_command_unified h cmd).
Proof.
  unfold run_command_unified.
  apply ks_bind; [apply ks_run_extraction_command|intros ok]. apply ks_ret.
Qed.

Lemma ks_try_bare (m : M unit) : keeps_schema m -> keeps_schema (try_bare m).
Proof.
  intros H s Hs. unfold try_bare. specialize (H s Hs).
  destruct (m s) as [[a|e|c] s1]; exact H.
Qed.

Lemma ks_cleanup_run (cmd : string) : keeps_schema (cleanup_run cmd).
Proof.
  unfold cleanup_run. apply ks_bind; [apply ks_tick|intros _].
  intros s Hs. exact Hs.
Qed.

Lemma ks_cleanup (h : Host) : keeps_schema (cleanup_processes h).
Proof.
  unfold cleanup_processes, sleep.
  apply ks_try_except; [|intros _; apply ks_ret]. apply ks_bind.
  - apply ks_try_except; [|intros _; apply ks_ret].
    apply ks_bind; [apply ks_cleanup_run|].
    intros _. cbv zeta. apply ks_bind.
    + apply ks_for_each. intros pid. apply ks_try_bare, ks_cleanup_run.
    + intros _. destruct (child_pids h) as [|c cs]; [apply ks_ret|].
      apply ks_bind; [apply ks_tick|intros _].
      apply ks_for_each. intros pid. apply ks_try_bare.
      destruct (path_exists h ("/proc/" ++ pid)%string);
        [apply ks_cleanup_run|apply ks_ret].
  - intros _. apply ks_try_bare.
    apply ks_bind; [apply ks_cleanup_run|intros _].
    apply ks_cleanup_run.
Qed.

Lemma ks_finally {A} (h : Host) (m : M A) :
  keeps_schema m -> keeps_schema (finally m (cleanup_processes h)).
Proof.
  intros H s Hs. unfold finally. specialize (H s Hs).
  destruct (m s) as [r s1]. simpl in H.
  pose proof (ks_cleanup h s1 H) as H1.
  destruct (cleanup_processes h s1) as [[u|e|c] s2]; exact H1.
Qed.

End Schema.

Create HintDb ks_db.
#[global] Hint Resolve
  ks_ret ks_raise ks_tick ks_update_status ks_save_results ks_entry
  ks_has_entry ks_set_details ks_append_detail ks_set_extra ks_get_status
  ks_set_version ks_get_file_cache ks_find_and_extend
  ks_run_extraction_command ks_run_command_unified : ks_db.

Ltac ks_step :=
  first
    [ solve [auto with ks_db nocore]
    | apply ks_set_status; reflexivity
    | apply ks_replace_entry; reflexivity
    | apply ks_bind; [|intro]
    | apply ks_try_except; [|intro]
    | apply ks_ignore
    | apply ks_when
    | apply ks_for_each; intro
    | apply ks_fold_m; intros
    | apply ks_finally
    | match goal with
      | |- keeps_schema (match ?x with _ => _ end) => destruct x
      end
    | progress cbv zeta ].

Ltac ks_tac := repeat ks_step.

Section SchemaOfWorker.

Variable h : Host.
Variable p : Probe.

Lemma ks_techsupport_fail (d op : string) (pr : Z) :
  keeps_schema (techsupport_fail d op pr).
Proof. unfold techsupport_fail. ks_tac. Qed.

Lemma ks_acquire : keeps_schema (acquire h).
Proof.
  pose proof ks_techsupport_fail.
  unfold acquire, generate_techsupport, select_techsupport, select_newest.
  ks_tac.
Qed.

Lemma ks_extract_techsupport (dir file : string) :
  keeps_schema (extract_techsupport h dir file).
Proof. unfold extract_techsupport. pose proof ks_techsupport_fail. ks_tac. Qed.

Lemma ks_robust_check (name : string) (func : M bool) :
  keeps_schema func -> keeps_schema (robust_check name func).
Proof. intros H. unfold robust_check. ks_tac. Qed.

Lemma ks_worker_bodies (dest : string) (g : guarded) :
  In g (main_checks (worker_bodies h p dest)) -> keeps_schema (g_call g).
Proof.
  assert (forall b x, keeps_schema (subnet_node p b x))
    by (intros b [[n d] m]; unfold subnet_node; ks_tac).
  assert (forall b x, keeps_schema (node_row b x))
    by (intros b x; unfold node_row; ks_tac).
  assert (forall l, keeps_schema (disk_fail l))
    by (intros l; unfold disk_fail; ks_tac).
  assert (forall sc, keeps_schema (pods_final sc))
    by (intros sc; unfold pods_final; ks_tac).
  assert (keeps_schema nxos_unable) by (unfold nxos_unable; ks_tac).
  assert (forall ls found, keeps_schema (k8_app_scan ls found))
    by (induction ls as [|l ls IH]; intros found; simpl; ks_tac).
  assert (forall m ff, keeps_schema (ca_final h m ff))
    by (intros m ff; unfold ca_final; ks_tac).
  assert (forall d, keeps_schema (ca_warning d))
    by (intros d; unfold ca_warning; ks_tac).
  assert (forall m fe, keeps_schema (iso_final h p m fe))
    by (intros m fe; unfold iso_final; ks_tac).
  assert (forall e r, keeps_schema (pip_extras e r))
    by (intros e r; unfold pip_extras; ks_tac).
  assert (forall c, keeps_schema (pip_analyse p c))
    by (intros c; unfold pip_analyse; ks_tac).
  assert (forall d e r, keeps_schema (nvme_warning d e r))
    by (intros d e r; unfold nvme_warning; ks_tac).
  assert (keeps_schema vg_unable) by (unfold vg_unable; ks_tac).
  unfold main_checks. simpl. intros Hg.
  repeat (destruct Hg as [<-|Hg];
          [simpl; try apply ks_ignore; try apply ks_robust_check;
           first [ unfold check_subnet_isolation; solve [ks_tac]
                 | unfold check_ping_reachability; solve [ks_tac]
                 | unfold check_node_status; solve [ks_tac]
                 | unfold check_disk_space; solve [ks_tac]
                 | unfold check_pods, pods_live; solve [ks_tac]
                 | unfold check_system_health; solve [ks_tac]
                 | unfold check_nxos_discovery_service; solve [ks_tac]
                 | unfold check_CA_CSCwm35992; solve [ks_tac]
                 | unfold check_ISOs_CSCwn94394; solve [ks_tac]
                 | unfold check_lvm_pvs; solve [ks_tac]
                 | unfold check_persistent_ip_config; solve [ks_tac]
                 | unfold check_atom0_nvme, nvme_no_node_type, nvme_no_pvs;
                   solve [ks_tac]
                 | unfold check_atom0_vg; solve [ks_tac] ]|]).
  contradiction.
Qed.

Lemma ks_run_checks (dest : string) :
  keeps_schema (run_checks (worker_bodies h p dest)).
Proof.
  unfold run_checks.
  assert (G : forall l, (forall g, In g l -> keeps_schema (run_guarded g)) ->
                        keeps_schema (for_each l run_guarded)).
  { induction l as [|g l IH]; intros Hl; simpl.
    - apply ks_ret.
    - apply ks_bind; [apply Hl; now left|intros _].
      apply IH. intros g' Hg'. apply Hl. now right. }
  apply G. intros g Hg.
  pose proof (ks_worker_bodies dest g Hg) as Hc.
  assert (Hst : existsb (String.eqb (g_status g)) vocabulary = true).
  { unfold main_checks in Hg. simpl in Hg.
    repeat (destruct Hg as [<-|Hg]; [reflexivity|]). contradiction. }
  unfold run_guarded.
  apply ks_try_except; [exact Hc|intros e].
  apply ks_bind; [now apply ks_set_status|intros _]. apply ks_set_details.
Qed.

Lemma ks_mark_not_run (prefix msg : string) :
  keeps_schema (mark_not_run prefix msg).
Proof.
  unfold mark_not_run. apply ks_bind.
  - intros s Hs. exact Hs.
  - intros names. ks_tac.
Qed.

Lemma ks_main : keeps_schema (worker_main h p).
Proof.
  unfold worker_main, main, main_body, makedirs.
  pose proof ks_acquire as Ha. unfold acquire in Ha.
  pose proof ks_extract_techsupport. pose proof ks_mark_not_run.
  pose proof ks_run_checks.
  apply ks_finally. apply ks_try_except.
  - apply ks_bind; [ks_tac|intros _]. cbv zeta.
    apply ks_bind; [exact Ha|intros tf]. ks_tac.
  - intros e. ks_tac.
Qed.

End SchemaOfWorker.

(** X14: during a whole run, interrupted or not, the results never lose or
    gain a check name and every status is one of PASS, FAIL, WARNING and
    ERROR: this holds for the final in-memory results and for every
    content written to the results file. *)
Theorem results_schema_kept (h : Host) (p : Probe) (status_ok results_ok : bool)
        (intr : option nat) :
  let s' := snd (run h p status_ok results_ok intr) in
  well_formed (checks s') /\ Forall well_formed (results_file s').
Proof.
  apply (ks_main h p (initial_state status_ok results_ok intr)).
  split; [|constructor]. split; [reflexivity|].
  unfold initial_state, initial_checks. simpl.
  repeat constructor; simpl; auto.
Qed.

(** ** Single checks *)

Section Holding.

Variable name : string.

Lemma modify_holds (f : CheckResult -> CheckResult)
      (P P' : CheckResult -> Prop) (s : St) :
  holds name P s -> (forall cr, P cr -> P' (f cr)) ->
  exists s',
    (tick ;; cr <- entry name ;; put_entry name (f cr)) s = (Ok tt, s')
    /\ holds name P' s'.
Proof.
  intros (Hs & cr & Hg & Hp) Hf.
  exists (with_checks (Dict.set name (f cr) (checks s)) s). split.
  - unfold bind, entry, put_entry. rewrite tick_calm by exact Hs. now rewrite Hg.
  - split; [exact Hs|]. exists (f cr). split; [apply dict_get_set_same|auto].
Qed.

Lemma replace_entry_holds (cr : CheckResult) (P : CheckResult -> Prop) (s : St) :
  sigint s = None -> P cr ->
  exists s', replace_entry name cr s = (Ok tt, s') /\ holds name P s'.
Proof.
  intros Hs Hp.
  exists (with_checks (Dict.set name cr (checks s)) s). split.
  - unfold replace_entry, bind, put_entry. now rewrite tick_calm by exact Hs.
  - split; [exact Hs|]. exists cr. split; [apply dict_get_set_same|auto].
Qed.

Lemma for_each_holds {A} (l : list A) (body : A -> M unit)
      (P : CheckResult -> Prop) (s : St) :
  (forall x t, holds name P t ->
               exists t', body x t = (Ok tt, t') /\ holds name P t') ->
  holds name P s ->
  exists s', for_each l body s = (Ok tt, s') /\ holds name P s'.
Proof.
  intros Hb. revert s. induction l as [|x l IH]; intros s Hs; simpl.
  - exists s. split; [reflexivity|exact Hs].
  - destruct (Hb x s Hs) as (t & E & Ht).
    destruct (IH t Ht) as (s' & E' & Hs').
    exists s'. split; [|exact Hs']. eapply bind_step; eauto.
Qed.

End Holding.

Lemma get_file_cache_calm (h : Host) (s : St) :
  exists c s', get_file_cache h s = (Ok c, s')
               /\ sigint s' = sigint s /\ checks s' = checks s.
Proof.
  unfold get_file_cache. destruct (file_cache s) as [c|].
  - destruct (String.eqb (FileCache.base_dir c) (node_dir h)); eauto.
  - eauto.
Qed.

(** X15: without an interrupt, the LVM check always ends normally and never
    leaves FAIL: its entry is replaced, and ends either as PASS with the
    single detail "No empty Elasticsearch PVs found" and no optional key
    (the diagnostic lines collected on the way are dropped), or as
    WARNING. It returns False only when the file could not be read. *)
Theorem check_lvm_pvs_pass_or_warning (h : Host) (tech_file : string) (s : St) :
  sigint s = None ->
  exists b s' cr,
    check_lvm_pvs h tech_file s = (Ok b, s')
    /\ result_of "lvm_pvs_check" s' = Some cr
    /\ (cr = lvm_pass \/ (status cr = "WARNING" /\ b = true)).
Proof.
  intros Hs. unfold check_lvm_pvs.
  set (s1 := write_status (mkHB "running" "Optimized LVM PVs check" 95) s).
  assert (Hs1 : sigint s1 = None) by (unfold s1; now rewrite sigint_write_status).
  destruct (get_file_cache_calm h s1) as (c & s2 & Ec & Hs2 & _).
  rewrite Hs1 in Hs2.
  assert (Hstart : forall (k : FileCache.t -> M bool) r,
             k c s2 = r ->
             (update_status "running" "Optimized LVM PVs check" 95 ;;
              cache <- get_file_cache h ;; k cache) s = r).
  { intros k r E. eapply bind_step; [apply update_status_calm; exact Hs|].
    fold s1. eapply bind_step; [exact Ec|exact E]. }
  assert (Hsimple : forall b,
             exists s' cr,
               (replace_entry "lvm_pvs_check" lvm_pass ;; ret b) s2 = (Ok b, s')
               /\ result_of "lvm_pvs_check" s' = Some cr
               /\ (cr = lvm_pass \/ (status cr = "WARNING" /\ b = true))).
  { intros b.
    destruct (replace_entry_holds "lvm_pvs_check" lvm_pass (eq lvm_pass) s2 Hs2
                eq_refl) as (s3 & E3 & _ & cr & Hg & <-).
    exists s3, lvm_pass. split; [|split; [exact Hg|now left]].
    eapply bind_step; [exact E3|reflexivity]. }
  destruct (FileCache.find_files c "lvm-pvs") as [|lvm_pvs_file rest] eqn:Ef.
  - destruct (Hsimple true) as (s' & cr & E & Hr & Hc).
    exists true, s', cr. split; [|auto].
    apply (Hstart (fun cache =>
                     match FileCache.find_files cache "lvm-pvs" with
                     | [] => _
                     | x :: l => _
                     end)).
    rewrite Ef. exact E.
  - destruct (read_file h lvm_pvs_file) as [content|e] eqn:Er.
    + set (sc := fold_left lvm_line content (mkLvm false None None [])).
      set (P := fun cr : CheckResult => status cr = "PASS" /\ extra cr = []).
      destruct (replace_entry_holds "lvm_pvs_check" (mkCR "PASS" [] []) P s2 Hs2)
        as (s3 & E3 & H3); [split; reflexivity|].
      assert (Happ : forall d t, holds "lvm_pvs_check" P t ->
                       exists t', append_detail "lvm_pvs_check" d t = (Ok tt, t')
                                  /\ holds "lvm_pvs_check" P t').
      { intros d t Ht.
        apply (modify_holds "lvm_pvs_check"
                 (fun cr => mkCR (status cr) (details cr ++ [d]) (extra cr))
                 P P t Ht).
        intros cr Hcr. exact Hcr. }
      assert (E4 : exists s4,
                 match diagnostic_lines sc with
                 | [] => ret tt
                 | d :: ds =>
                     append_detail "lvm_pvs_check" "LVM Physical Volume Details:" ;;
                     for_each (d :: ds) (append_detail "lvm_pvs_check")
                 end s3 = (Ok tt, s4) /\ holds "lvm_pvs_check" P s4).
      { destruct (diagnostic_lines sc) as [|d ds] eqn:Ed.
        - exists s3. split; [reflexivity|exact H3].
        - destruct (Happ "LVM Physical Volume Details:" s3 H3) as (t & Et & Ht).
          destruct (for_each_holds "lvm_pvs_check" (d :: ds)
                      (append_detail "lvm_pvs_check") P t
                      (fun x => Happ x) Ht) as (s4 & E & H4).
          exists s4. split; [|exact H4]. eapply bind_step; eauto. }
      destruct E4 as (s4 & E4 & H4).
      assert (E5 : exists s5 cr,
                 (if shows_empty (elasticsearch_nir_line sc)
                     && shows_empty (elasticsearch_line sc) then
                    set_status "lvm_pvs_check" "WARNING" ;;
                    set_extra "lvm_pvs_check" "explanation"
                      ("Due to CSCwe91228, if NDI is deleted before upgrade, enablement of new NDI"
                       ++ nl "  post-upgrade can fail.")%string ;;
                    set_extra "lvm_pvs_check" "recommendation"
                      "Contact TAC to apply the workaround if enablement of NDI fails post-upgrade." ;;
                    set_extra "lvm_pvs_check" "reference"
                      "https://bst.cloudapps.cisco.com/bugsearch/bug/CSCwe91228"
                  else
                    set_status "lvm_pvs_check" "PASS" ;;
                    append_detail "lvm_pvs_check"
                      (match elasticsearch_nir_line sc, elasticsearch_line sc with
                       | None, None => nl "No elasticsearch volumes detected."
                       | _, _ =>
                           nl "Elasticsearch volumes exist but don't show the problematic empty state condition."
                       end) ;;
                    set_details "lvm_pvs_check"
                      ["No empty Elasticsearch PVs found"]) s4 = (Ok tt, s5)
                 /\ result_of "lvm_pvs_check" s5 = Some cr
                 /\ (cr = lvm_pass \/ status cr = "WARNING")).
      { destruct (shows_empty (elasticsearch_nir_line sc)
                  && shows_empty (elasticsearch_line sc)).
        - set (W := fun cr : CheckResult => status cr = "WARNING").
          destruct (modify_holds "lvm_pvs_check"
                      (fun cr => mkCR "WARNING" (details cr) (extra cr))
                      P W s4 H4) as (t1 & F1 & G1); [reflexivity|].
          destruct (modify_holds "lvm_pvs_check"
                      (fun cr => mkCR (status cr) (details cr)
                                      (Dict.set "explanation"
                                         ("Due to CSCwe91228, if NDI is deleted before upgrade, enablement of new NDI"
                                          ++ nl "  post-upgrade can fail.")%string
                                         (extra cr)))
                      W W t1 G1) as (t2 & F2 & G2); [auto|].
          destruct (modify_holds "lvm_pvs_check"
                      (fun cr => mkCR (status cr) (details cr)
                                      (Dict.set "recommendation"
                                         "Contact TAC to apply the workaround if enablement of NDI fails post-upgrade."
                                         (extra cr)))
                      W W t2 G2) as (t3 & F3 & G3); [auto|].
          destruct (modify_holds "lvm_pvs_check"
                      (fun cr => mkCR (status cr) (details cr)
                                      (Dict.set "reference"
                                         "https://bst.cloudapps.cisco.com/bugsearch/bug/CSCwe91228"
                                         (extra cr)))
                      W W t3 G3) as (t4 & F4 & _ & cr & Hg & Hw); [auto|].
          exists t4, cr. split; [|split; [exact Hg|now right]].
          eapply bind_step; [exact F1|]. eapply bind_step; [exact F2|].
          eapply bind_step; [exact F3|]. exact F4.
        - destruct (modify_holds "lvm_pvs_check"
                      (fun cr => mkCR "PASS" (details cr) (extra cr))
                      P P s4 H4) as (t1 & F1 & G1);
            [intros cr [_ Hx]; split; [reflexivity|exact Hx]|].
          destruct (Happ (match elasticsearch_nir_line sc, elasticsearch_line sc with
                          | None, None => nl "No elasticsearch volumes detected."
                          | _, _ =>
                              nl "Elasticsearch volumes exist but don't show the problematic empty state condition."
                          end) t1 G1) as (t2 & F2 & G2).
          destruct (modify_holds "lvm_pvs_check"
                      (fun cr => mkCR (status cr)
                                      ["No empty Elasticsearch PVs found"]
                                      (extra cr))
                      P (eq lvm_pass) t2 G2) as (t3 & F3 & _ & cr & Hg & <-).
          { intros [st dt ex] [Hst Hex]. simpl in *. subst. reflexivity. }
          exists t3, lvm_pass. split; [|split; [exact Hg|now left]].
          eapply bind_step; [exact F1|]. eapply bind_step; [exact F2|].
          exact F3. }
      destruct E5 as (s5 & cr & E5 & Hr & Hc).
      exists true, s5, cr. split; [|split; [exact Hr|]].
      * apply (Hstart (fun cache =>
                         match FileCache.find_files cache "lvm-pvs" with
                         | [] => _
                         | x :: l => _
                         end)).
        rewrite Ef, Er. fold sc.
        eapply bind_step; [exact E3|]. eapply bind_step; [exact E4|].
        eapply bind_step; [exact E5|]. reflexivity.
      * destruct Hc; auto.
    + destruct (Hsimple false) as (s' & cr & E & Hr & Hc).
      exists false, s', cr. split; [|auto].
      apply (Hstart (fun cache =>
                       match FileCache.find_files cache "lvm-pvs" with
                       | [] => _
                       | x :: l => _
                       end)).
      rewrite Ef, Er. exact E.
Qed.

Lemma check_lvm_pvs_pass_or_warning_witness :
  exists b s' cr,
    check_lvm_pvs Examples.plain_host "/tmp/a.tgz" Examples.start = (Ok b, s')
    /\ result_of "lvm_pvs_check" s' = Some cr
    /\ (cr = lvm_pass \/ (status cr = "WARNING" /\ b = true)).
Proof.
  exact (check_lvm_pvs_pass_or_warning Examples.plain_host "/tmp/a.tgz"
           Examples.start eq_refl).
Defined.

(** X16: when the archive path handed to the pod check is empty or does not
    exist, the function writes its heartbeat and then fails on the local
    variable [pod_info_extracted], which is assigned only inside the
    branch that was not taken. The decorator turns the
    [UnboundLocalError] into the result: it returns False and the
    [pod_status] entry becomes FAIL with the single detail "Check failed: "
    followed by the text of the error (which depends on the interpreter:
    Python 3.11 changed it), its optional keys kept. No other entry
    changes, the heartbeat of the check is the only one written and
    nothing is saved. *)
Theorem check_pods_missing_archive
        (h : Host) (p : Probe) (f : string) (s : St) (cr : CheckResult) :
  sigint s = None -> result_of "pod_status" s = Some cr ->
  PyStr.nonempty f && path_exists h f = false ->
  let r := robust_check "pod_status" (check_pods h p (Some f)) s in
  fst r = Ok false
  /\ checks (snd r)
     = Dict.set "pod_status"
         (mkCR "FAIL"
            [("Check failed: "
              ++ (if Nat.leb 11 (py_minor h)
                  then "cannot access local variable 'pod_info_extracted' where it is not associated with a value"
                  else "local variable 'pod_info_extracted' referenced before assignment"))%string]
            (extra cr))
         (checks s)
  /\ status_file (snd r)
     = (if status_writable s
        then status_file s
             ++ [mkHB "running" "Optimized kubernetes pod checking" 96]
        else status_file s)
  /\ results_file (snd r) = results_file s.
Proof.
  intros Hs Hcr Hf r. subst r.
  set (s1 := write_status
               (mkHB "running" "Optimized kubernetes pod checking" 96) s).
  assert (E : check_pods h p (Some f) s
              = (Exc (unbound_local h "pod_info_extracted"), s1)).
  { unfold check_pods. eapply bind_step; [apply update_status_calm; exact Hs|].
    fold s1. now rewrite Hf. }
  assert (Hs1 : sigint s1 = None) by (unfold s1; now rewrite sigint_write_status).
  assert (Hc1 : checks s1 = checks s)
    by (unfold s1; apply (proj1 (write_status_keeps _ _))).
  rewrite (robust_check_calm "pod_status" _ s s1 _ E Hs1).
  unfold result_of in Hcr. rewrite Hc1, Hcr. simpl fst. simpl snd.
  split; [reflexivity|]. split; [|split].
  - unfold check_failed, unbound_local.
    destruct (Nat.leb 11 (py_minor h)); reflexivity.
  - simpl. unfold s1, write_status. now destruct (status_writable s).
  - simpl. unfold s1, write_status. now destruct (status_writable s).
Qed.

Lemma check_pods_missing_archive_witness :
  let r := robust_check "pod_status"
             (check_pods Examples.plain_host Examples.silent_probe
                         (Some EmptyString)) Examples.start in
  fst r = Ok false
  /\ result_of "pod_status" (snd r)
     = Some (mkCR "FAIL"
               ["Check failed: local variable 'pod_info_extracted' referenced before assignment"]
               [])
  /\ List.length (status_file (snd r)) = 1.
Proof.
  intros r.
  destruct (check_pods_missing_archive Examples.plain_host Examples.silent_probe
              EmptyString Examples.start fresh eq_refl eq_refl eq_refl)
    as (H1 & H2 & H3 & _).
  split; [exact H1|]. split.
  - unfold result_of. fold r in H2. rewrite H2. reflexivity.
  - fold r in H3. rewrite H3. reflexivity.
Defined.

(** ** Unwritable files *)

Section Oblivious.

Lemma ob_ret {A} (a : A) : oblivious (ret a).
Proof. intros s1 s2 H. simpl. auto. Qed.

Lemma ob_raise {A} (msg : string) : oblivious (@raise A msg).
Proof. intros s1 s2 H. simpl. auto. Qed.

Lemma ob_bind {A B} (m : M A) (k : A -> M B) :
  oblivious m -> (forall a, oblivious (k a)) -> oblivious (bind m k).
Proof.
  intros Hm Hk s1 s2 H. unfold bind. destruct (Hm s1 s2 H) as [E Hw].
  destruct (m s1) as [[a|e|c] t1], (m s2) as [[a'|e'|c'] t2];
    simpl in *; try discriminate; inversion E; subst;
    [now apply Hk|split; auto|split; auto].
Qed.

Lemma ob_try_except {A} (m : M A) (h : string -> M A) :
  oblivious m -> (forall e, oblivious (h e)) -> oblivious (try_except m h).
Proof.
  intros Hm Hh s1 s2 H. unfold try_except. destruct (Hm s1 s2 H) as [E Hw].
  destruct (m s1) as [[a|e|c] t1], (m s2) as [[a'|e'|c'] t2];
    simpl in *; try discriminate; inversion E; subst;
    [split; auto|now apply Hh|split; auto].
Qed.

Lemma ob_ignore {A} (m : M A) : oblivious m -> oblivious (ignore m).
Proof. intros H. apply ob_bind; auto. intros a. apply ob_ret. Qed.

Lemma ob_when (b : bool) (m : M unit) : oblivious m -> oblivious (when b m).
Proof. intros H. destruct b; simpl; auto. apply ob_ret. Qed.

Lemma ob_for_each {A} (l : list A) (body : A -> M unit) :
  (forall x, oblivious (body x)) -> oblivious (for_each l body).
Proof.
  intros H. induction l as [|x l IH]; simpl.
  - apply ob_ret.
  - apply ob_bind; auto.
Qed.

Lemma ob_fold_m {A B} (l : list A) (acc : B) (body : B -> A -> M B) :
  (forall b x, oblivious (body b x)) -> oblivious (fold_m l acc body).
Proof.
  intros H. revert acc. induction l as [|x l IH]; intros acc; simpl.
  - apply ob_ret.
  - apply ob_bind; auto.
Qed.

Lemma same_work_write_status (hb1 hb2 : Heartbeat) (s1 s2 : St) :
  same_work s1 s2 -> same_work (write_status hb1 s1) (write_status hb2 s2).
Proof.
  unfold same_work, write_status.
  destruct (status_writable s1), (status_writable s2); simpl; auto.
Qed.

Lemma same_work_write_results (s1 s2 : St) :
  same_work s1 s2 -> same_work (write_results s1) (write_results s2).
Proof.
  unfold same_work, write_results.
  destruct (results_writable s1), (results_writable s2); simpl; auto.
Qed.

Lemma ob_tick : oblivious tick.
Proof.
  intros s1 s2 H. unfold tick, signal_handler.
  assert (Hi : sigint s1 = sigint s2) by apply H. rewrite Hi.
  destruct (sigint s2) as [[|n]|]; simpl.
  - split; auto. apply same_work_write_results, same_work_write_status.
    unfold same_work in *. simpl. intuition.
  - split; auto. unfold same_work in *. simpl. intuition.
  - auto.
Qed.

Lemma ob_update_status (st op : string) (pr : Z) :
  oblivious (update_status st op pr).
Proof.
  unfold update_status. apply ob_bind; [apply ob_tick|intros _].
  intros s1 s2 H. simpl. split; auto. now apply same_work_write_status.
Qed.

Lemma ob_save_results : oblivious save_results.
Proof.
  unfold save_results. apply ob_bind; [apply ob_tick|intros _].
  intros s1 s2 H. simpl. split; auto. now apply same_work_write_results.
Qed.

Lemma ob_entry (name : string) : oblivious (entry name).
Proof.
  intros s1 s2 H. unfold entry.
  assert (Hc : checks s1 = checks s2) by apply H. rewrite Hc.
  destruct (Dict.get name (checks s2)); simpl; auto.
Qed.

Lemma ob_has_entry (name : string) : oblivious (has_entry name).
Proof.
  intros s1 s2 H. unfold has_entry. simpl.
  assert (Hc : checks s1 = checks s2) by apply H. now rewrite Hc.
Qed.

Lemma ob_put_entry (name : string) (cr : CheckResult) :
  oblivious (put_entry name cr).
Proof.
  intros s1 s2 H. unfold put_entry. simpl. split; auto.
  unfold same_work in *. simpl.
  destruct H as (-> & H). intuition.
Qed.

Lemma ob_modify (name : string) (f : CheckResult -> CheckResult) :
  oblivious (tick ;; cr <- entry name ;; put_entry name (f cr)).
Proof.
  apply ob_bind; [apply ob_tick|intros _].
  apply ob_bind; [apply ob_entry|intros cr]. apply ob_put_entry.
Qed.

Lemma ob_set_status (name v : string) : oblivious (set_status name v).
Proof. apply (ob_modify name (fun cr => mkCR v (details cr) (extra cr))). Qed.

Lemma ob_set_details (name : string) (l : list string) :
  oblivious (set_details name l).
Proof. apply (ob_modify name (fun cr => mkCR (status cr) l (extra cr))). Qed.

Lemma ob_append_detail (name d : string) : oblivious (append_detail name d).
Proof.
  apply (ob_modify name
           (fun cr => mkCR (status cr) (details cr ++ [d]) (extra cr))).
Qed.

Lemma ob_set_extra (name key v : string) : oblivious (set_extra name key v).
Proof.
  apply (ob_modify name
           (fun cr => mkCR (status cr) (details cr) (Dict.set key v (extra cr)))).
Qed.

Lemma ob_replace_entry (name : string) (cr : CheckResult) :
  oblivious (replace_entry name cr).
Proof.
  unfold replace_entry. apply ob_bind; [apply ob_tick|intros _].
  apply ob_put_entry.
Qed.

Lemma ob_get_status (name : string) : oblivious (get_status name).
Proof.
  unfold get_status. apply ob_bind; [apply ob_entry|intros cr]. apply ob_ret.
Qed.

Lemma ob_set_version (v : string) : oblivious (set_version v).
Proof.
  unfold set_version. apply ob_bind; [apply ob_tick|intros _].
  intros s1 s2 H. simpl. split; auto. unfold same_work in *. simpl. intuition.
Qed.

Lemma ob_get_file_cache (h : Host) : oblivious (get_file_cache h).
Proof.
  intros s1 s2 H. unfold get_file_cache.
  assert (Hf : file_cache s1 = file_cache s2) by apply H. rewrite Hf.
  destruct (file_cache s2) as [c|]; simpl.
  - destruct (String.eqb (FileCache.base_dir c) (node_dir h)); simpl; auto.
    split; auto. unfold same_work in *. simpl. intuition.
  - split; auto. unfold same_work in *. simpl. intuition.
Qed.

Lemma ob_find_and_extend (h : Host) (cache : FileCache.t)
      (pattern : string) (more : list string) :
  oblivious (find_and_extend h cache pattern more).
Proof.
  unfold find_and_extend.
  destruct (Dict.get pattern (FileCache.file_cache cache)); [|apply ob_ret].
  intros s1 s2 H. simpl. split; auto. unfold same_work in *. simpl. intuition.
Qed.

Lemma ob_run_extraction_command (h : Host) (cmd : sh) :
  oblivious (run_extraction_command h cmd).
Proof.
  intros s1 s2 H. unfold run_extraction_command.
  destruct (sh_run (sh_ok h) cmd) as [ran ok]. simpl. split; auto.
  unfold same_work in *. simpl. destruct H as (? & ? & -> & ?). intuition.
Qed.

Lemma ob_run_command_unified (h : Host) (cmd : sh) :
  oblivious (run_command_unified h cmd).
Proof.
  unfold run_command_unified.
  apply ob_bind; [apply ob_run_extraction_command|intros ok]. apply ob_ret.
Qed.

Lemma ob_try_bare (m : M unit) : oblivious m -> oblivious (try_bare m).
Proof.
  intros Hm s1 s2 H. unfold try_bare. destruct (Hm s1 s2 H) as [E Hw].
  destruct (m s1) as [[a1|e1|c1] t1], (m s2) as [[a2|e2|c2] t2];
    simpl in *; try discriminate E; split; auto.
Qed.

Lemma ob_cleanup_run (cmd : string) : oblivious (cleanup_run cmd).
Proof.
  unfold cleanup_run. apply ob_bind; [apply ob_tick|intros _].
  intros s1 s2 H. simpl. split; auto.
  unfold same_work in *. simpl. destruct H as (? & ? & ? & ? & ? & ->).
  intuition.
Qed.

Lemma ob_cleanup (h : Host) : oblivious (cleanup_processes h).
Proof.
  unfold cleanup_processes, sleep.
  apply ob_try_except; [|intros _; apply ob_ret]. apply ob_bind.
  - apply ob_try_except; [|intros _; apply ob_ret].
    apply ob_bind; [apply ob_cleanup_run|].
    intros _. cbv zeta. apply ob_bind.
    + apply ob_for_each. intros pid. apply ob_try_bare, ob_cleanup_run.
    + intros _. destruct (child_pids h) as [|c cs]; [apply ob_ret|].
      apply ob_bind; [apply ob_tick|intros _].
      apply ob_for_each. intros pid. apply ob_try_bare.
      destruct (path_exists h ("/proc/" ++ pid)%string);
        [apply ob_cleanup_run|apply ob_ret].
  - intros _. apply ob_try_bare.
    apply ob_bind; [apply ob_cleanup_run|intros _].
    apply ob_cleanup_run.
Qed.

Lemma ob_finally {A} (h : Host) (m : M A) :
  oblivious m -> oblivious (finally m (cleanup_processes h)).
Proof.
  intros Hm s1 s2 H. unfold finally. destruct (Hm s1 s2 H) as [E Hw].
  destruct (m s1) as [r1 t1], (m s2) as [r2 t2]. simpl in *.
  destruct (ob_cleanup h t1 t2 Hw) as [E2 Hw2].
  destruct (cleanup_processes h t1) as [[a1|e1|c1] u1],
           (cleanup_processes h t2) as [[a2|e2|c2] u2];
    simpl in *; try discriminate E2; inversion E2; subst; split; auto.
Qed.

End Oblivious.

Create HintDb ob_db.
#[global] Hint Resolve
  ob_ret ob_raise ob_tick ob_update_status ob_save_results ob_entry
  ob_has_entry ob_set_status ob_set_details ob_append_detail ob_set_extra
  ob_replace_entry ob_get_status ob_set_version ob_get_file_cache
  ob_find_and_extend ob_run_extraction_command ob_run_command_unified : ob_db.

Ltac ob_step :=
  first
    [ solve [auto with ob_db nocore]
    | apply ob_bind; [|intro]
    | apply ob_try_except; [|intro]
    | apply ob_ignore
    | apply ob_when
    | apply ob_for_each; intro
    | apply ob_fold_m; intros
    | apply ob_finally
    | match goal with
      | |- oblivious (match ?x with _ => _ end) => destruct x
      end
    | progress cbv zeta ].

Ltac ob_tac := repeat ob_step.

Section ObliviousWorker.

Variable h : Host.
Variable p : Probe.

Lemma ob_techsupport_fail (d op : string) (pr : Z) :
  oblivious (techsupport_fail d op pr).
Proof. unfold techsupport_fail. ob_tac. Qed.

Lemma ob_acquire : oblivious (acquire h).
Proof.
  pose proof ob_techsupport_fail.
  unfold acquire, generate_techsupport, select_techsupport, select_newest.
  ob_tac.
Qed.

Lemma ob_extract_techsupport (dir file : string) :
  oblivious (extract_techsupport h dir file).
Proof. unfold extract_techsupport. pose proof ob_techsupport_fail. ob_tac. Qed.

Lemma ob_robust_check (name : string) (func : M bool) :
  oblivious func -> oblivious (robust_check name func).
Proof. intros H. unfold robust_check. ob_tac. Qed.

Lemma ob_worker_bodies (dest : string) (g : guarded) :
  In g (main_checks (worker_bodies h p dest)) -> oblivious (g_call g).
Proof.
  assert (forall b x, oblivious (subnet_node p b x))
    by (intros b [[n d] m]; unfold subnet_node; ob_tac).
  assert (forall b x, oblivious (node_row b x))
    by (intros b x; unfold node_row; ob_tac).
  assert (forall l, oblivious (disk_fail l))
    by (intros l; unfold disk_fail; ob_tac).
  assert (forall sc, oblivious (pods_final sc))
    by (intros sc; unfold pods_final; ob_tac).
  assert (oblivious nxos_unable) by (unfold nxos_unable; ob_tac).
  assert (forall ls found, oblivious (k8_app_scan ls found))
    by (induction ls as [|l ls IH]; intros found; simpl; ob_tac).
  assert (forall m ff, oblivious (ca_final h m ff))
    by (intros m ff; unfold ca_final; ob_tac).
  assert (forall d, oblivious (ca_warning d))
    by (intros d; unfold ca_warning; ob_tac).
  assert (forall m fe, oblivious (iso_final h p m fe))
    by (intros m fe; unfold iso_final; ob_tac).
  assert (forall e r, oblivious (pip_extras e r))
    by (intros e r; unfold pip_extras; ob_tac).
  assert (forall c, oblivious (pip_analyse p c))
    by (intros c; unfold pip_analyse; ob_tac).
  assert (forall d e r, oblivious (nvme_warning d e r))
    by (intros d e r; unfold nvme_warning; ob_tac).
  assert (oblivious vg_unable) by (unfold vg_unable; ob_tac).
  unfold main_checks. simpl. intros Hg.
  repeat (destruct Hg as [<-|Hg];
          [simpl; try apply ob_ignore; try apply ob_robust_check;
           first [ unfold check_subnet_isolation; solve [ob_tac]
                 | unfold check_ping_reachability; solve [ob_tac]
                 | unfold check_node_status; solve [ob_tac]
                 | unfold check_disk_space; solve [ob_tac]
                 | unfold check_pods, pods_live; solve [ob_tac]
                 | unfold check_system_health; solve [ob_tac]
                 | unfold check_nxos_discovery_service; solve [ob_tac]
                 | unfold check_CA_CSCwm35992; solve [ob_tac]
                 | unfold check_ISOs_CSCwn94394; solve [ob_tac]
                 | unfold check_lvm_pvs; solve [ob_tac]
                 | unfold check_persistent_ip_config; solve [ob_tac]
                 | unfold check_atom0_nvme, nvme_no_node_type, nvme_no_pvs;
                   solve [ob_tac]
                 | unfold check_atom0_vg; solve [ob_tac] ]|]).
  contradiction.
Qed.

Lemma ob_run_checks (dest : string) :
  oblivious (run_checks (worker_bodies h p dest)).
Proof.
  unfold run_checks.
  assert (G : forall l, (forall g, In g l -> oblivious (run_guarded g)) ->
                        oblivious (for_each l run_guarded)).
  { induction l as [|g l IH]; intros Hl; simpl.
    - apply ob_ret.
    - apply ob_bind; [apply Hl; now left|intros _].
      apply IH. intros g' Hg'. apply Hl. now right. }
  apply G. intros g Hg.
  pose proof (ob_worker_bodies dest g Hg) as Hc.
  unfold run_guarded. ob_tac.
Qed.

Lemma ob_mark_not_run (prefix msg : string) : oblivious (mark_not_run prefix msg).
Proof.
  unfold mark_not_run. apply ob_bind.
  - intros s1 s2 H. simpl. split; auto.
    assert (Hc : checks s1 = checks s2) by apply H. now rewrite Hc.
  - intros names. ob_tac.
Qed.

Lemma ob_main : oblivious (worker_main h p).
Proof.
  unfold worker_main, main, main_body, makedirs.
  pose proof ob_acquire as Ha. unfold acquire in Ha.
  pose proof ob_extract_techsupport. pose proof ob_mark_not_run.
  pose proof ob_run_checks.
  apply ob_finally. apply ob_try_except.
  - apply ob_bind; [ob_tac|intros _]. cbv zeta.
    apply ob_bind; [exact Ha|intros tf]. ob_tac.
  - intros e. ob_tac.
Qed.

End ObliviousWorker.

(** X17: whether the status file and the results file can be written never
    changes what a run does: the exit status, the final results in memory
    and the extraction commands run are the same for all four
    combinations. A failed write is only reported. *)
Theorem unwritable_files_change_nothing
        (h : Host) (p : Probe) (intr : option nat)
        (status_ok results_ok status_ok' results_ok' : bool) :
  let r := run h p status_ok results_ok intr in
  let r' := run h p status_ok' results_ok' intr in
  fst r = fst r' /\ checks (snd r) = checks (snd r')
  /\ commands (snd r) = commands (snd r').
Proof.
  destruct (ob_main h p (initial_state status_ok results_ok intr)
              (initial_state status_ok' results_ok' intr))
    as (E & Hc & _ & Hm & _).
  - repeat split.
  - unfold run. auto.
Qed.

(** ** The steps that handle the archive *)

Section TechsupportSteps.

Variable h : Host.

Lemma ow_extract_techsupport (dir file : string) :
  only_writes ["techsupport"] (extract_techsupport h dir file).
Proof.
  pose proof ow_techsupport_fail. unfold extract_techsupport. ow_tac.
Qed.

Lemma ow_extract_techsupport_optimized (f dir : string) :
  only_writes ["techsupport"] (extract_techsupport_optimized h f dir).
Proof.
  unfold extract_techsupport_optimized. apply ow_robust_check; [reflexivity|].
  unfold extract_techsupport_optimized_body. ow_tac.
Qed.

Lemma ow_process_techsupport (tf : option string) :
  only_writes ["techsupport"] (process_techsupport h tf).
Proof.
  pose proof ow_techsupport_fail. pose proof ow_extract_techsupport_optimized.
  unfold process_techsupport, extract_techsupport_direct. ow_tac.
Qed.

Lemma total_robust_check (name : string) (func : M bool) :
  In name registered -> good func -> total (robust_check name func).
Proof.
  intros Hin G. unfold robust_check. apply total_try_except; [exact G|intros e].
  apply total_bind; [apply good_has_entry| |intros present].
  - intros s _ msg. discriminate.
  - apply total_bind; [|destruct present; simpl|intros _; apply total_ret].
    + apply good_when. apply good_bind; [apply good_set_status|intros _].
      apply good_set_details.
    + apply total_bind;
        [apply good_set_status|now apply total_set_status|intros _].
      now apply total_set_details.
    + apply total_ret.
Qed.

Lemma total_generate_techsupport (v : option string) :
  total (generate_techsupport h v).
Proof.
  unfold generate_techsupport.
  apply total_bind; [apply good_update_status|apply total_update_status|intros _].
  cbv zeta. apply total_try_except.
  - pose proof good_techsupport_fail. good_tac.
  - intros e.
    apply total_bind;
      [apply good_techsupport_fail|apply total_techsupport_fail|intros _].
    apply total_ret.
Qed.

Lemma total_extract_techsupport_optimized (f dir : string) :
  total (extract_techsupport_optimized h f dir).
Proof.
  unfold extract_techsupport_optimized. apply total_robust_check.
  - apply registered_In. reflexivity.
  - unfold extract_techsupport_optimized_body. good_tac.
Qed.

Lemma total_process_techsupport (tf : option string) :
  total (process_techsupport h tf).
Proof.
  unfold process_techsupport.
  apply total_bind; [apply good_update_status|apply total_update_status|intros _].
  destruct (truthy tf) as [f|]; [|apply total_techsupport_fail].
  destruct (path_exists h f); [|apply total_techsupport_fail].
  destruct (makedirs_error h (node_dir h)); [apply total_techsupport_fail|].
  unfold ignore, extract_techsupport_direct.
  apply total_bind;
    [apply good_extract_techsupport_optimized
    |apply total_extract_techsupport_optimized|intros _].
  apply total_ret.
Qed.

End TechsupportSteps.

(** X18: selecting, generating and extracting the archive write no entry of
    the results but the techsupport one. *)
Theorem techsupport_steps_write_techsupport_only
        (h : Host) (k : string) (s : St) :
  k <> "techsupport" ->
  (forall sp, result_of k (snd (select_techsupport h sp s)) = result_of k s)
  /\ (forall v, result_of k (snd (generate_techsupport h v s)) = result_of k s)
  /\ (forall dir file,
         result_of k (snd (extract_techsupport h dir file s)) = result_of k s)
  /\ (forall f dir,
         result_of k (snd (extract_techsupport_optimized h f dir s))
         = result_of k s)
  /\ (forall tf, result_of k (snd (process_techsupport h tf s)) = result_of k s).
Proof.
  intros Hk.
  assert (Hn : ~ In k ["techsupport"]) by (simpl; intuition congruence).
  pose proof (ow_techsupport_fail) as Hf.
  repeat split; intros.
  - assert (Ho : only_writes ["techsupport"] (select_techsupport h sp))
      by (unfold select_techsupport, select_newest; ow_tac).
    now apply Ho.
  - assert (Ho : only_writes ["techsupport"] (generate_techsupport h v))
      by (unfold generate_techsupport; ow_tac).
    now apply Ho.
  - now apply ow_extract_techsupport.
  - now apply ow_extract_techsupport_optimized.
  - now apply ow_process_techsupport.
Qed.

Lemma techsupport_steps_write_techsupport_only_witness :
  result_of "iso_check"
    (snd (select_techsupport Examples.no_archive_host None Examples.start))
  = Some fresh.
Proof.
  exact (proj1 (techsupport_steps_write_techsupport_only
                  Examples.no_archive_host "iso_check" Examples.start
                  ltac:(discriminate)) None).
Defined.

(** X19: with the registered entries in place, generating an archive and
    both extraction functions never raise, whatever the host does: every
    exception inside them ends as an entry in the results. Only the
    selection can raise (when a modification time cannot be read). *)
Theorem generation_and_extraction_never_raise
        (h : Host) (s : St) (msg : string) :
  Dict.keys (checks s) = registered ->
  (forall v, fst (generate_techsupport h v s) <> Exc msg)
  /\ (forall dir file, fst (extract_techsupport h dir file s) <> Exc msg)
  /\ (forall f dir, fst (extract_techsupport_optimized h f dir s) <> Exc msg)
  /\ (forall tf, fst (process_techsupport h tf s) <> Exc msg).
Proof.
  intros Hk. repeat split; intros.
  - now apply total_generate_techsupport.
  - now apply total_extract_techsupport.
  - now apply total_extract_techsupport_optimized.
  - now apply total_process_techsupport.
Qed.

Lemma generation_and_extraction_never_raise_witness :
  fst (generate_techsupport Examples.plain_host None Examples.start)
  <> Exc "not run".
Proof.
  exact (proj1 (generation_and_extraction_never_raise Examples.plain_host
                  Examples.start "not run" eq_refl) None).
Defined.

(** ** The optimized extraction *)

Section Optimized.

Variable h : Host.

Lemma run_command_unified_eq (c : sh) (s : St) :
  run_command_unified h c s
  = (Ok (sh_stderr h (sh_show c), snd (sh_run (sh_ok h) c)),
     log_commands (fst (sh_run (sh_ok h) c)) s).
Proof.
  unfold run_command_unified, bind. now rewrite run_extraction_command_eq.
Qed.

Lemma fallback_or_else (ok : string -> bool) (a b c : sh) :
  fallback ok [a; b; c]
  = (let '(l1, r1) := sh_run ok (OrElse a b) in
     if r1 then (l1, true)
     else let '(l2, r2) := sh_run ok c in (l1 ++ l2, r2)).
Proof.
  simpl. destruct (sh_run ok a) as [la [|]]; [reflexivity|].
  destruct (sh_run ok b) as [lb [|]]; [reflexivity|].
  destruct (sh_run ok c) as [lc [|]]; simpl; rewrite ?app_nil_r, ?app_assoc;
    reflexivity.
Qed.

End Optimized.

(** X20: the optimized extraction tries "cd dir && tar -xzf f 2>/dev/null",
    then "tar -xf f", then "cd dir && gzip -dc f | tar -xf -"; when all
    three fail (no interrupt pending) it returns False and the decorator
    records FAIL with the detail "Check failed: All extraction methods
    failed: " followed by the error output of the last command. *)
Theorem extract_techsupport_optimized_all_fail
        (h : Host) (f dir : string) (s : St) (cr : CheckResult) :
  sigint s = None -> result_of "techsupport" s = Some cr ->
  path_exists h f = true -> size_check_error h = None ->
  snd (fallback (sh_ok h) (optimized_strategies dir f)) = false ->
  let r := extract_techsupport_optimized h f dir s in
  fst r = Ok false
  /\ result_of "techsupport" (snd r)
     = Some (mkCR "FAIL"
               [("Check failed: All extraction methods failed: "
                 ++ sh_stderr h (sh_show (gzip_pipe dir f)))%string]
               (extra cr))
  /\ commands (snd r)
     = commands s ++ fst (fallback (sh_ok h) (optimized_strategies dir f)).
Proof.
  intros Hs Hcr He Hsz Hall r. subst r.
  set (s1 := write_status
               (mkHB "running" "Optimized tech support extraction" 40) s).
  assert (Hs1 : sigint s1 = None) by (unfold s1; now rewrite sigint_write_status).
  assert (Hc1 : checks s1 = checks s)
    by (unfold s1; apply (proj1 (write_status_keeps _ _))).
  assert (Hm1 : commands s1 = commands s)
    by (unfold s1, write_status; now destruct (status_writable s)).
  set (c1 := OrElse (AndThen (cd dir)
                             (Cmd ("tar -xzf " ++ f ++ " 2>/dev/null")%string))
                    (Cmd ("tar -xf " ++ f)%string)).
  set (c2 := gzip_pipe dir f).
  unfold optimized_strategies in Hall |- *.
  rewrite fallback_or_else in Hall |- *. fold c1 c2 in Hall |- *.
  destruct (sh_run (sh_ok h) c1) as [l1 r1] eqn:E1.
  destruct r1; [discriminate|].
  destruct (sh_run (sh_ok h) c2) as [l2 r2] eqn:E2.
  simpl in Hall. subst r2. simpl fst.
  assert (E : extract_techsupport_optimized_body h f dir s
              = (Exc ("All extraction methods failed: "
                      ++ sh_stderr h (sh_show c2))%string,
                 log_commands (l1 ++ l2) s1)).
  { unfold extract_techsupport_optimized_body.
    eapply bind_step; [apply update_status_calm; exact Hs|]. fold s1.
    rewrite He. simpl negb. cbv iota.
    eapply bind_step; [reflexivity|]. cbv beta.
    eapply bind_step; [rewrite Hsz; reflexivity|].
    eapply bind_step; [apply run_command_unified_eq|]. fold c1. rewrite E1.
    simpl snd. simpl fst. cbv iota.
    unfold bind at 1. unfold bind at 1.
    rewrite run_command_unified_eq. fold (gzip_pipe dir f). fold c2.
    rewrite E2. simpl. now rewrite log_commands_app. }
  unfold extract_techsupport_optimized.
  rewrite (robust_check_calm "techsupport" _ s _ _ E) by exact Hs1.
  simpl checks. rewrite Hc1. unfold result_of in Hcr. rewrite Hcr.
  simpl fst. simpl snd. split; [reflexivity|]. split.
  - unfold result_of. simpl. apply dict_get_set_same.
  - simpl. now rewrite Hm1.
Qed.

Lemma extract_techsupport_optimized_all_fail_witness :
  let h := Examples.host_with [] (fun _ => true) Examples.two_archives
                              (fun c => String.prefix "cd " c) in
  let r := extract_techsupport_optimized h "/techsupport/a-nd1.tgz" "/tmp/x"
                                         Examples.start in
  fst r = Ok false
  /\ commands (snd r)
     = ["cd /tmp/x"; "tar -xzf /techsupport/a-nd1.tgz 2>/dev/null";
        "tar -xf /techsupport/a-nd1.tgz"; "cd /tmp/x";
        "gzip -dc /techsupport/a-nd1.tgz"; "tar -xf -"].
Proof.
  intros h r.
  destruct (extract_techsupport_optimized_all_fail h "/techsupport/a-nd1.tgz"
              "/tmp/x" Examples.start fresh eq_refl eq_refl eq_refl eq_refl
              eq_refl) as (H1 & _ & H3).
  split; [exact H1|exact H3].
Defined.

(** ** The heartbeats *)

Section Beats.

Lemma kb_ret {A} (a : A) : keeps_beats (ret a).
Proof. intros s H. exact H. Qed.

Lemma kb_raise {A} (msg : string) : keeps_beats (@raise A msg).
Proof. intros s H. exact H. Qed.

Lemma kb_bind {A B} (m : M A) (k : A -> M B) :
  keeps_beats m -> (forall a, keeps_beats (k a)) -> keeps_beats (bind m k).
Proof.
  intros Hm Hk s Hs. unfold bind. specialize (Hm s Hs).
  destruct (m s) as [[a|msg|c] s1]; simpl in *; auto. now apply Hk.
Qed.

Lemma kb_try_except {A} (m : M A) (h : string -> M A) :
  keeps_beats m -> (forall e, keeps_beats (h e)) -> keeps_beats (try_except m h).
Proof.
  intros Hm Hh s Hs. unfold try_except. specialize (Hm s Hs).
  destruct (m s) as [[a|msg|c] s1]; simpl in *; auto. now apply Hh.
Qed.

Lemma kb_ignore {A} (m : M A) : keeps_beats m -> keeps_beats (ignore m).
Proof. intros H. apply kb_bind; auto. intros a. apply kb_ret. Qed.

Lemma kb_when (b : bool) (m : M unit) : keeps_beats m -> keeps_beats (when b m).
Proof. intros H. destruct b; simpl; auto. apply kb_ret. Qed.

Lemma kb_for_each {A} (l : list A) (body : A -> M unit) :
  (forall x, keeps_beats (body x)) -> keeps_beats (for_each l body).
Proof.
  intros H. induction l as [|x l IH]; simpl.
  - apply kb_ret.
  - apply kb_bind; auto.
Qed.

Lemma kb_fold_m {A B} (l : list A) (acc : B) (body : B -> A -> M B) :
  (forall b x, keeps_beats (body b x)) -> keeps_beats (fold_m l acc body).
Proof.
  intros H. revert acc. induction l as [|x l IH]; intros acc; simpl.
  - apply kb_ret.
  - apply kb_bind; auto.
Qed.

Lemma beats_write_status (hb : Heartbeat) (s : St) :
  beat_ok hb -> Forall beat_ok (status_file s) ->
  Forall beat_ok (status_file (write_status hb s)).
Proof.
  intros Hb Hs. unfold write_status. destruct (status_writable s); simpl; auto.
  apply Forall_app. split; auto.
Qed.

Lemma beats_write_results (s : St) :
  status_file (write_results s) = status_file s.
Proof. unfold write_results. now destruct (results_writable s). Qed.

Lemma kb_tick : keeps_beats tick.
Proof.
  intros s Hs. unfold tick, signal_handler.
  destruct (sigint s) as [[|n]|]; simpl; auto.
  rewrite beats_write_results. apply beats_write_status; auto.
  split; simpl; [tauto|lia].
Qed.

Lemma kb_update_status (st op : string) (pr : Z) :
  existsb (String.eqb st) phases = true -> (0 <= pr <= 100)%Z ->
  keeps_beats (update_status st op pr).
Proof.
  intros Hst Hpr. unfold update_status. apply kb_bind; [apply kb_tick|intros _].
  intros s Hs. simpl. apply beats_write_status; auto. split; auto.
  apply existsb_exists in Hst. destruct Hst as [x [Hx E]].
  apply String.eqb_eq in E. simpl. now subst.
Qed.

Lemma kb_save_results : keeps_beats save_results.
Proof.
  unfold save_results. apply kb_bind; [apply kb_tick|intros _].
  intros s Hs. simpl. now rewrite beats_write_results.
Qed.

Lemma kb_entry (name : string) : keeps_beats (entry name).
Proof.
  intros s Hs. unfold entry. now destruct (Dict.get name (checks s)).
Qed.

Lemma kb_has_entry (name : string) : keeps_beats (has_entry name).
Proof. intros s Hs. exact Hs. Qed.

Lemma kb_modify (name : string) (f : CheckResult -> CheckResult) :
  keeps_beats (tick ;; cr <- entry name ;; put_entry name (f cr)).
Proof.
  apply kb_bind; [apply kb_tick|intros _].
  intros s Hs. unfold bind, entry, put_entry.
  now destruct (Dict.get name (checks s)).
Qed.

Lemma kb_set_status (name v : string) : keeps_beats (set_status name v).
Proof. apply (kb_modify name (fun cr => mkCR v (details cr) (extra cr))). Qed.

Lemma kb_set_details (name : string) (l : list string) :
  keeps_beats (set_details name l).
Proof. apply (kb_modify name (fun cr => mkCR (status cr) l (extra cr))). Qed.

Lemma kb_append_detail (name d : string) : keeps_beats (append_detail name d).
Proof.
  apply (kb_modify name
           (fun cr => mkCR (status cr) (details cr ++ [d]) (extra cr))).
Qed.

Lemma kb_set_extra (name key v : string) : keeps_beats (set_extra name key v).
Proof.
  apply (kb_modify name
           (fun cr => mkCR (status cr) (details cr) (Dict.set key v (extra cr)))).
Qed.

Lemma kb_replace_entry (name : string) (cr : CheckResult) :
  keeps_beats (replace_entry name cr).
Proof.
  unfold replace_entry. apply kb_bind; [apply kb_tick|intros _].
  intros s Hs. exact Hs.
Qed.

Lemma kb_get_status (name : string) : keeps_beats (get_status name).
Proof.
  unfold get_status. apply kb_bind; [apply kb_entry|intros cr]. apply kb_ret.
Qed.

Lemma kb_set_version (v : string) : keeps_beats (set_version v).
Proof.
  unfold set_version. apply kb_bind; [apply kb_tick|intros _].
  intros s Hs. exact Hs.
Qed.

Lemma kb_get_file_cache (h : Host) : keeps_beats (get_file_cache h).
Proof.
  intros s Hs. unfold get_file_cache.
  destruct (file_cache s) as [c|]; simpl; auto.
  destruct (String.eqb (FileCache.base_dir c) (node_dir h)); exact Hs.
Qed.

Lemma kb_find_and_extend (h : Host) (cache : FileCache.t)
      (pattern : string) (more : list string) :
  keeps_beats (find_and_extend h cache pattern more).
Proof.
  intros s Hs. unfold find_and_extend.
  destruct (Dict.get pattern (FileCache.file_cache cache)); exact Hs.
Qed.

Lemma kb_run_extraction_command (h : Host) (cmd : sh) :
  keeps_beats (run_extraction_command h cmd).
Proof.
  intros s Hs. unfold run_extraction_command.
  destruct (sh_run (sh_ok h) cmd) as [ran ok]. exact Hs.
Qed.

Lemma kb_run_command_unified (h : Host) (cmd : sh) :
  keeps_beats (run_command_unified h cmd).
Proof.
  unfold run_command_unified.
  apply kb_bind; [apply kb_run_extraction_command|intros ok]. apply kb_ret.
Qed.

Lemma kb_try_bare (m : M unit) : keeps_beats m -> keeps_beats (try_bare m).
Proof.
  intros H s Hs. unfold try_bare. specialize (H s Hs).
  destruct (m s) as [[a|e|c] s1]; exact H.
Qed.

Lemma kb_cleanup_run (cmd : string) : keeps_beats (cleanup_run cmd).
Proof.
  unfold cleanup_run. apply kb_bind; [apply kb_tick|intros _].
  intros s Hs. exact Hs.
Qed.

Lemma kb_cleanup (h : Host) : keeps_beats (cleanup_processes h).
Proof.
  unfold cleanup_processes, sleep.
  apply kb_try_except; [|intros _; apply kb_ret]. apply kb_bind.
  - apply kb_try_except; [|intros _; apply kb_ret].
    apply kb_bind; [apply kb_cleanup_run|].
    intros _. cbv zeta. apply kb_bind.
    + apply kb_for_each. intros pid. apply kb_try_bare, kb_cleanup_run.
    + intros _. destruct (child_pids h) as [|c cs]; [apply kb_ret|].
      apply kb_bind; [apply kb_tick|intros _].
      apply kb_for_each. intros pid. apply kb_try_bare.
      destruct (path_exists h ("/proc/" ++ pid)%string);
        [apply kb_cleanup_run|apply kb_ret].
  - intros _. apply kb_try_bare.
    apply kb_bind; [apply kb_cleanup_run|intros _].
    apply kb_cleanup_run.
Qed.

Lemma kb_finally {A} (h : Host) (m : M A) :
  keeps_beats m -> keeps_beats (finally m (cleanup_processes h)).
Proof.
  intros H s Hs. unfold finally. specialize (H s Hs).
  destruct (m s) as [r s1]. simpl in H.
  pose proof (kb_cleanup h s1 H) as H1.
  destruct (cleanup_processes h s1) as [[u|e|c] s2]; exact H1.
Qed.

End Beats.

Create HintDb kb_db.
#[global] Hint Resolve
  kb_ret kb_raise kb_tick kb_save_results kb_entry kb_has_entry kb_set_status
  kb_set_details kb_append_detail kb_set_extra kb_replace_entry kb_get_status
  kb_set_version kb_get_file_cache kb_find_and_extend
  kb_run_extraction_command kb_run_command_unified : kb_db.

Ltac kb_step :=
  first
    [ solve [auto with kb_db nocore]
    | apply kb_update_status; [reflexivity|lia]
    | apply kb_bind; [|intro]
    | apply kb_try_except; [|intro]
    | apply kb_ignore
    | apply kb_when
    | apply kb_for_each; intro
    | apply kb_fold_m; intros
    | apply kb_finally
    | match goal with
      | |- keeps_beats (match ?x with _ => _ end) => destruct x
      end
    | progress cbv zeta ].

Ltac kb_tac := repeat kb_step.

Section BeatsOfWorker.

Variable h : Host.
Variable p : Probe.
Hypothesis elapsed_nonneg : Forall (fun e => (0 <= e)%Z) (poll_elapsed h).

Lemma kb_techsupport_fail (d op : string) (pr : Z) :
  (0 <= pr <= 100)%Z -> keeps_beats (techsupport_fail d op pr).
Proof.
  intros Hp. unfold techsupport_fail.
  apply kb_bind; [apply kb_set_status|intros _].
  apply kb_bind; [apply kb_append_detail|intros _].
  now apply kb_update_status.
Qed.

Lemma kb_polling_list (l : list Z) :
  Forall (fun e => (0 <= e)%Z) l ->
  keeps_beats
    (for_each l
       (fun elapsed =>
          when (elapsed <? 1200)%Z
               (update_status "running" "Waiting for tech support generation"
                              (15 + Z.quot (55 * elapsed) 1200)%Z))).
Proof.
  induction 1 as [|e l He _ IH]; cbn [for_each].
  - apply kb_ret.
  - apply kb_bind; [|intros _; exact IH].
    destruct (Z.ltb_spec e 1200); cbn [when]; [|apply kb_ret].
    apply kb_update_status; [reflexivity|].
    assert (0 <= Z.quot (55 * e) 1200 <= 55)%Z.
    { split.
      - apply Z.quot_pos; lia.
      - apply Z.quot_le_upper_bound; lia. }
    lia.
Qed.

Lemma kb_polling :
  keeps_beats
    (for_each (poll_elapsed h)
       (fun elapsed =>
          when (elapsed <? 1200)%Z
               (update_status "running" "Waiting for tech support generation"
                              (15 + Z.quot (55 * elapsed) 1200)%Z))).
Proof. apply kb_polling_list. exact elapsed_nonneg. Qed.

Lemma kb_acquire : keeps_beats (acquire h).
Proof.
  pose proof kb_polling.
  assert (forall d op, keeps_beats (techsupport_fail d op 70))
    by (intros; apply kb_techsupport_fail; lia).
  assert (forall d op, keeps_beats (techsupport_fail d op 10))
    by (intros; apply kb_techsupport_fail; lia).
  unfold acquire, generate_techsupport, select_techsupport, select_newest.
  kb_tac.
Qed.

Lemma kb_extract_techsupport (dir file : string) :
  keeps_beats (extract_techsupport h dir file).
Proof.
  assert (forall d op, keeps_beats (techsupport_fail d op 50))
    by (intros; apply kb_techsupport_fail; lia).
  assert (forall d op, keeps_beats (techsupport_fail d op 60))
    by (intros; apply kb_techsupport_fail; lia).
  assert (forall d op, keeps_beats (techsupport_fail d op 70))
    by (intros; apply kb_techsupport_fail; lia).
  unfold extract_techsupport. kb_tac.
Qed.

Lemma kb_robust_check (name : string) (func : M bool) :
  keeps_beats func -> keeps_beats (robust_check name func).
Proof. intros H. unfold robust_check. kb_tac. Qed.

Lemma kb_worker_bodies (dest : string) (g : guarded) :
  In g (main_checks (worker_bodies h p dest)) -> keeps_beats (g_call g).
Proof.
  assert (forall b x, keeps_beats (subnet_node p b x))
    by (intros b [[n d] m]; unfold subnet_node; kb_tac).
  assert (forall b x, keeps_beats (node_row b x))
    by (intros b x; unfold node_row; kb_tac).
  assert (forall l, keeps_beats (disk_fail l))
    by (intros l; unfold disk_fail; kb_tac).
  assert (forall sc, keeps_beats (pods_final sc))
    by (intros sc; unfold pods_final; kb_tac).
  assert (keeps_beats nxos_unable) by (unfold nxos_unable; kb_tac).
  assert (forall ls found, keeps_beats (k8_app_scan ls found))
    by (induction ls as [|l ls IH]; intros found; simpl; kb_tac).
  assert (forall m ff, keeps_beats (ca_final h m ff))
    by (intros m ff; unfold ca_final; kb_tac).
  assert (forall d, keeps_beats (ca_warning d))
    by (intros d; unfold ca_warning; kb_tac).
  assert (forall m fe, keeps_beats (iso_final h p m fe))
    by (intros m fe; unfold iso_final; kb_tac).
  assert (forall e r, keeps_beats (pip_extras e r))
    by (intros e r; unfold pip_extras; kb_tac).
  assert (forall c, keeps_beats (pip_analyse p c))
    by (intros c; unfold pip_analyse; kb_tac).
  assert (forall d e r, keeps_beats (nvme_warning d e r))
    by (intros d e r; unfold nvme_warning; kb_tac).
  assert (keeps_beats vg_unable) by (unfold vg_unable; kb_tac).
  unfold main_checks. simpl. intros Hg.
  repeat (destruct Hg as [<-|Hg];
          [simpl; try apply kb_ignore; try apply kb_robust_check;
           first [ unfold check_subnet_isolation; solve [kb_tac]
                 | unfold check_ping_reachability; solve [kb_tac]
                 | unfold check_node_status; solve [kb_tac]
                 | unfold check_disk_space; solve [kb_tac]
                 | unfold check_pods, pods_live; solve [kb_tac]
                 | unfold check_system_health; solve [kb_tac]
                 | unfold check_nxos_discovery_service; solve [kb_tac]
                 | unfold check_CA_CSCwm35992; solve [kb_tac]
                 | unfold check_ISOs_CSCwn94394; solve [kb_tac]
                 | unfold check_lvm_pvs; solve [kb_tac]
                 | unfold check_persistent_ip_config; solve [kb_tac]
                 | unfold check_atom0_nvme, nvme_no_node_type, nvme_no_pvs;
                   solve [kb_tac]
                 | unfold check_atom0_vg; solve [kb_tac] ]|]).
  contradiction.
Qed.

Lemma kb_run_checks (dest : string) :
  keeps_beats (run_checks (worker_bodies h p dest)).
Proof.
  unfold run_checks.
  assert (G : forall l, (forall g, In g l -> keeps_beats (run_guarded g)) ->
                        keeps_beats (for_each l run_guarded)).
  { induction l as [|g l IH]; intros Hl; simpl.
    - apply kb_ret.
    - apply kb_bind; [apply Hl; now left|intros _].
      apply IH. intros g' Hg'. apply Hl. now right. }
  apply G. intros g Hg.
  pose proof (kb_worker_bodies dest g Hg) as Hc.
  unfold run_guarded. kb_tac.
Qed.

Lemma kb_mark_not_run (prefix msg : string) :
  keeps_beats (mark_not_run prefix msg).
Proof.
  unfold mark_not_run. apply kb_bind.
  - intros s Hs. exact Hs.
  - intros names. kb_tac.
Qed.

Lemma kb_main : keeps_beats (worker_main h p).
Proof.
  unfold worker_main, main, main_body, makedirs.
  pose proof kb_acquire as Ha. unfold acquire in Ha.
  pose proof kb_extract_techsupport. pose proof kb_mark_not_run.
  pose proof kb_run_checks.
  apply kb_finally. apply kb_try_except.
  - apply kb_bind; [kb_tac|intros _]. cbv zeta.
    apply kb_bind; [exact Ha|intros tf]. kb_tac.
  - intros e. kb_tac.
Qed.

End BeatsOfWorker.

(** X21: every heartbeat a run writes to the status file has one of the
    statuses running, error, warning, complete and interrupted, and a
    progress between 0 and 100 (the elapsed times of the polling loop
    being non-negative). *)
Theorem heartbeats_well_formed
        (h : Host) (p : Probe) (status_ok results_ok : bool)
        (intr : option nat) :
  Forall (fun e => (0 <= e)%Z) (poll_elapsed h) ->
  Forall beat_ok (status_file (snd (run h p status_ok results_ok intr))).
Proof.
  intros He. apply (kb_main h p He). constructor.
Qed.

Lemma heartbeats_well_formed_witness :
  Forall beat_ok
         (status_file (snd (run Examples.plain_host Examples.silent_probe
                                true true (Some 7)))).
Proof.
  apply (heartbeats_well_formed Examples.plain_host Examples.silent_probe
           true true (Some 7)).
  constructor.
Defined.

(** ** The subnet check and the shared cache *)

Section Subnet.

Variable p : Probe.

Lemma subnet_node_holds (all_pass : bool) (node : string * string * string)
      (st : string) (s : St) :
  holds "subnet_check" (fun cr => status cr = st) s ->
  exists b s',
    subnet_node p all_pass node s = (Ok b, s')
    /\ holds "subnet_check"
             (fun cr => status cr
                        = match finding p node with Some f => f | None => st end)
             s'.
Proof.
  intros H. destruct node as [[name data] mgmt]. unfold subnet_node, finding.
  assert (W : forall f d,
             exists s',
               (set_status "subnet_check" f ;;
                append_detail "subnet_check" d ;; ret false) s = (Ok false, s')
               /\ holds "subnet_check" (fun cr => status cr = f) s').
  { intros f d.
    destruct (modify_holds "subnet_check"
                (fun cr => mkCR f (details cr) (extra cr))
                (fun cr => status cr = st) (fun cr => status cr = f) s H)
      as (t1 & E1 & H1); [reflexivity|].
    destruct (modify_holds "subnet_check"
                (fun cr => mkCR (status cr) (details cr ++ [d]) (extra cr))
                (fun cr => status cr = f) (fun cr => status cr = f) t1 H1)
      as (t2 & E2 & H2); [auto|].
    exists t2. split; [|exact H2].
    eapply bind_step; [exact E1|]. eapply bind_step; [exact E2|]. reflexivity. }
  destruct (with_mask data) as [d|]; [destruct (with_mask mgmt) as [m|]|].
  - destruct (p_net_relation p d m) as [| | |e].
    + destruct (W "FAIL" ("Node " ++ name ++ " has data network " ++ d
                          ++ " and management network " ++ m
                          ++ " in the same subnet")%string) as (s' & E & Hs').
      eauto.
    + destruct (W "FAIL" ("Node " ++ name
                          ++ " has overlapping data and management networks: "
                          ++ d ++ ", " ++ m)%string) as (s' & E & Hs').
      eauto.
    + exists all_pass, s. split; [reflexivity|exact H].
    + destruct (W "WARNING" ("Error checking subnet isolation for " ++ name
                             ++ ": " ++ e)%string) as (s' & E & Hs').
      eauto.
  - destruct (W "WARNING" ("Missing network information for node " ++ name)%string)
      as (s' & E & Hs').
    eauto.
  - destruct (W "WARNING" ("Missing network information for node " ++ name)%string)
      as (s' & E & Hs').
    eauto.
Qed.

Lemma subnet_fold_holds (nodes : list (string * string * string))
      (all_pass : bool) (st : string) (s : St) :
  holds "subnet_check" (fun cr => status cr = st) s ->
  exists b s',
    fold_m nodes all_pass (subnet_node p) s = (Ok b, s')
    /\ holds "subnet_check" (fun cr => status cr = last_finding p nodes st) s'.
Proof.
  revert all_pass st s. induction nodes as [|n nodes IH]; intros all_pass st s H.
  - exists all_pass, s. split; [reflexivity|exact H].
  - destruct (subnet_node_holds all_pass n st s H) as (b1 & s1 & E1 & H1).
    destruct (IH b1 _ s1 H1) as (b & s' & E & H').
    exists b, s'. split; [|exact H'].
    cbn [fold_m]. eapply bind_step; eauto.
Qed.

End Subnet.

(** X22: when the node table parses to at least one node (and no interrupt
    is pending), the subnet check ends with the status of its entry
    decided by the last node that produced a finding: FAIL when that node
    overlaps, WARNING when its information is missing or its comparison
    raised. A WARNING of a later node therefore replaces the FAIL of an
    earlier one. Without any finding the status is left as it was. *)
Theorem subnet_status_is_last_finding
        (h : Host) (p : Probe) (s : St) (cr : CheckResult) :
  sigint s = None -> result_of "subnet_check" s = Some cr ->
  PyStr.nonempty (run_command h "acs show nodes") = true ->
  p_subnet_nodes p (run_command h "acs show nodes") <> [] ->
  exists cr',
    fst (check_subnet_isolation h p s) = Ok tt
    /\ result_of "subnet_check" (snd (check_subnet_isolation h p s)) = Some cr'
    /\ status cr'
       = last_finding p (p_subnet_nodes p (run_command h "acs show nodes"))
                      (status cr).
Proof.
  intros Hs Hcr Hout Hnodes.
  set (nodes := p_subnet_nodes p (run_command h "acs show nodes")) in *.
  set (s1 := write_status (mkHB "running" "Checking subnet isolation" 93) s).
  set (P := fun c : CheckResult => status c = last_finding p nodes (status cr)).
  assert (H1 : holds "subnet_check" (fun c => status c = status cr) s1).
  { split; [unfold s1; now rewrite sigint_write_status|].
    exists cr. split; [|reflexivity].
    unfold s1. now rewrite (proj1 (write_status_keeps _ _)). }
  destruct (subnet_fold_holds p nodes true (status cr) s1 H1)
    as (b & s2 & E2 & H2). fold P in H2.
  assert (Happ : forall d t, holds "subnet_check" P t ->
                   exists t', append_detail "subnet_check" d t = (Ok tt, t')
                              /\ holds "subnet_check" P t').
  { intros d t Ht.
    apply (modify_holds "subnet_check"
             (fun c => mkCR (status c) (details c ++ [d]) (extra c)) P P t Ht).
    auto. }
  assert (E3 : exists s3,
             (if b then
                set_details "subnet_check"
                  ["Mgmt and Data interfaces are in different subnets"]
              else
                st <- get_status "subnet_check" ;;
                when (String.eqb st "FAIL")
                  (append_detail "subnet_check"
                     (nl ("  Explanation:" ++ nl "  The Management network and Data network must be on different subnets.")%string) ;;
                   append_detail "subnet_check"
                     (nl ("  Recommendation:" ++ nl "  Change the subnet schema of the Management network or Data network so there is" ++ nl "  no overlap.")%string))) s2
             = (Ok tt, s3) /\ holds "subnet_check" P s3).
  { destruct b.
    - apply (modify_holds "subnet_check"
               (fun c => mkCR (status c)
                              ["Mgmt and Data interfaces are in different subnets"]
                              (extra c)) P P s2 H2).
      auto.
    - destruct H2 as (Hs2 & c2 & Hg2 & Hp2).
      assert (Eg : get_status "subnet_check" s2 = (Ok (status c2), s2))
        by (unfold get_status, bind, entry; now rewrite Hg2).
      assert (H2' : holds "subnet_check" P s2) by (split; eauto).
      destruct (String.eqb (status c2) "FAIL") eqn:Ef.
      + destruct (Happ (nl ("  Explanation:" ++ nl "  The Management network and Data network must be on different subnets.")%string) s2 H2')
          as (t1 & F1 & G1).
        destruct (Happ (nl ("  Recommendation:" ++ nl "  Change the subnet schema of the Management network or Data network so there is" ++ nl "  no overlap.")%string) t1 G1)
          as (t2 & F2 & G2).
        exists t2. split; [|exact G2].
        eapply bind_step; [exact Eg|]. rewrite Ef. cbn [when].
        eapply bind_step; [exact F1|exact F2].
      + exists s2. split; [|exact H2'].
        eapply bind_step; [exact Eg|]. rewrite Ef. reflexivity. }
  destruct E3 as (s3 & E3 & _ & cr' & Hg & Hp).
  assert (E : check_subnet_isolation h p s = (Ok tt, s3)).
  { unfold check_subnet_isolation.
    eapply bind_step; [apply update_status_calm; exact Hs|]. fold s1.
    cbv zeta. rewrite Hout. cbn [negb]. fold nodes.
    destruct nodes as [|n0 rest] eqn:En; [congruence|].
    eapply bind_step; [exact E2|exact E3]. }
  exists cr'. rewrite E. auto.
Qed.

Lemma subnet_status_is_last_finding_witness :
  let h := mkHost "nd1" [] (fun _ => true) (fun _ => None) [] (fun _ => true)
                  (fun _ => EmptyString) None "0 B" [] (fun _ => false)
                  (FileCache.mkDirView true []) (fun _ => RunRaised "not run")
                  [] None (fun _ => "table") (fun _ => inr "missing")
                  4242 EmptyString 9 in
  let p := mkProbe (fun _ => [("nd1", "10.0.0.1/24", "10.0.0.2/24");
                              ("nd2", "", "10.0.0.3/24")])
                   (fun _ _ => Overlaps) (fun _ => []) (fun _ => true)
                   (fun _ => None) (fun _ => []) (fun _ => []) (fun _ => [])
                   ([], 0) (fun _ => mkAcsParse None [] [] 0 0)
                   (KRan 0 0 0%Z EmptyString) (fun _ => [])
                   (fun _ => PipParsed 0 []) (fun _ => VgNotFound) in
  exists cr',
    result_of "subnet_check" (snd (check_subnet_isolation h p Examples.start))
    = Some cr'
    /\ status cr' = "WARNING".
Proof.
  intros h p.
  destruct (subnet_status_is_last_finding h p Examples.start fresh eq_refl
              eq_refl eq_refl ltac:(discriminate)) as (cr' & _ & H2 & H3).
  exists cr'. split; [exact H2|exact H3].
Defined.

Section CacheReuse.

Lemma init_base_dir_eq (base : string) (fs : FileCache.DirView) :
  FileCache.base_dir (FileCache.init base fs) = base.
Proof. unfold FileCache.init. now rewrite scan_base_dir. Qed.

Lemma get_file_cache_hit (h : Host) (s : St) (c : FileCache.t) :
  file_cache s = Some c -> FileCache.base_dir c = node_dir h ->
  get_file_cache h s = (Ok c, s).
Proof.
  intros Ec Eb. unfold get_file_cache. rewrite Ec, Eb.
  now rewrite String.eqb_refl.
Qed.

End CacheReuse.

(** X23: [get_file_cache] hands out a cache of the extracted tree of this
    node and keeps it. When no cache is kept, or the one kept is for
    another base directory, the tree is scanned afresh and the new cache
    replaces what was kept; when the cache kept is for this directory it
    is returned as it is and the state does not change. Every later call
    for the same directory hands out the cache that is kept without
    scanning again, so what appears in the tree after the first call is
    not seen. *)
Theorem get_file_cache_reuses (h : Host) (s : St) :
  exists c,
    fst (get_file_cache h s) = Ok c
    /\ FileCache.base_dir c = node_dir h
    /\ file_cache (snd (get_file_cache h s)) = Some c
    /\ (forall later, node_dir later = node_dir h ->
                      get_file_cache later (snd (get_file_cache h s))
                      = (Ok c, snd (get_file_cache h s)))
    /\ (file_cache s = None ->
        c = FileCache.init (node_dir h) (node_dir_view h))
    /\ (forall c0, file_cache s = Some c0 ->
                   FileCache.base_dir c0 <> node_dir h ->
                   c = FileCache.init (node_dir h) (node_dir_view h))
    /\ (forall c0, file_cache s = Some c0 ->
                   FileCache.base_dir c0 = node_dir h ->
                   c = c0 /\ snd (get_file_cache h s) = s).
Proof.
  assert (Hbuilt :
            forall s',
              file_cache s'
              = Some (FileCache.init (node_dir h) (node_dir_view h)) ->
              forall later, node_dir later = node_dir h ->
                get_file_cache later s'
                = (Ok (FileCache.init (node_dir h) (node_dir_view h)), s')).
  { intros s' E later Hl. apply get_file_cache_hit; [exact E|].
    now rewrite init_base_dir_eq. }
  destruct (file_cache s) as [c0|] eqn:Ec.
  - destruct (String.eqb (FileCache.base_dir c0) (node_dir h)) eqn:Eb.
    + assert (E : get_file_cache h s = (Ok c0, s))
        by (unfold get_file_cache; now rewrite Ec, Eb).
      apply String.eqb_eq in Eb.
      exists c0. rewrite E. simpl. split; [reflexivity|]. split; [exact Eb|].
      split; [exact Ec|]. split; [|split; [discriminate|split]].
      * intros later Hl. apply get_file_cache_hit; congruence.
      * intros c1 E1 Hne. inversion E1; subst c1. contradiction.
      * intros c1 E1 _. inversion E1; subst c1. split; reflexivity.
    + destruct (get_file_cache h s) as [r s'] eqn:E.
      unfold get_file_cache in E. rewrite Ec, Eb in E.
      inversion E; subst r s'. clear E.
      exists (FileCache.init (node_dir h) (node_dir_view h)). simpl.
      split; [reflexivity|]. split; [apply init_base_dir_eq|].
      split; [reflexivity|]. split; [|split; [discriminate|split]].
      * now apply Hbuilt.
      * reflexivity.
      * intros c1 E1 Hb. inversion E1; subst c1.
        apply String.eqb_neq in Eb. contradiction.
  - destruct (get_file_cache h s) as [r s'] eqn:E.
    unfold get_file_cache in E. rewrite Ec in E.
    inversion E; subst r s'. clear E.
    exists (FileCache.init (node_dir h) (node_dir_view h)). simpl.
    split; [reflexivity|]. split; [apply init_base_dir_eq|].
    split; [reflexivity|]. split; [|split; [reflexivity|split; discriminate]].
    now apply Hbuilt.
Qed.

(** * The remaining claims of the specification *)

(** ** Selecting the archive *)

Section SelectionByListing.

Lemma with_mtimes_all (l : list (string * option Z)) :
  (forall f, ~ In (f, None) l) ->
  exists keyed,
    with_mtimes l = inl keyed
    /\ forall f t, In (f, t) keyed <-> In (f, Some t) l.
Proof.
  induction l as [|[f [t|]] l IH]; intros H.
  - exists []. split; [reflexivity|]. simpl. tauto.
  - destruct IH as (keyed & E & Hk).
    { intros g Hin. apply (H g). now right. }
    exists ((f, t) :: keyed). simpl. rewrite E. split; [reflexivity|].
    intros g u. rewrite Hk. split.
    + intros [Hh|Hh]; [left; now inversion Hh|now right].
    + intros [Hh|Hh]; [left; now inversion Hh|now right].
  - exfalso. apply (H f). now left.
Qed.

End SelectionByListing.

(** C9: an explicit archive path that is given and exists is returned as
    it is. Otherwise the archives of this node are listed: when there is
    none, the selection returns no archive and marks the techsupport
    entry FAIL with the detail "No tech support files found"; when there
    are some, the one returned is listed and no listed archive has a
    later modification time. *)
Theorem select_techsupport_choice
        (h : Host) (specific_file : option string) (s : St) (cr : CheckResult) :
  sigint s = None ->
  Dict.get "techsupport" (checks s) = Some cr ->
  let r := fst (select_techsupport h specific_file s) in
  let s' := snd (select_techsupport h specific_file s) in
  (forall f, specific_file = Some f -> f <> EmptyString ->
             path_exists h f = true -> r = Ok (Some f))
  /\ (usable h specific_file = None -> glob_techsupport h = [] ->
      r = Ok None
      /\ result_of "techsupport" s'
         = Some (mkCR "FAIL" (details cr ++ ["No tech support files found"])
                      (extra cr)))
  /\ (usable h specific_file = None -> glob_techsupport h <> [] ->
      (forall f, ~ In (f, None) (glob_techsupport h)) ->
      exists newest t,
        r = Ok (Some newest)
        /\ In (newest, Some t) (glob_techsupport h)
        /\ forall f u, In (f, Some u) (glob_techsupport h) -> (u <= t)%Z).
Proof.
  intros Hs Hcr r s'.
  destruct (select_techsupport_keyed h specific_file s cr Hs Hcr) as [H1 H2].
  split; [|split].
  - intros f -> Hne He. apply H1. unfold usable.
    destruct f; [congruence|]. simpl. now rewrite He.
  - intros Hu Hg. exact (proj1 (H2 Hu) Hg).
  - intros Hu Hg Hall.
    destruct (with_mtimes_all _ Hall) as (keyed & Ek & Hk).
    destruct (proj2 (H2 Hu) keyed Hg Ek) as (newest & t & Er & Hin & Hmax).
    exists newest, t. split; [exact Er|]. split; [now apply Hk|].
    intros f u Hf. apply (Hmax f u). now apply Hk.
Qed.

Lemma select_techsupport_choice_witness :
  fst (select_techsupport Examples.plain_host None Examples.start)
  = Ok (Some "/techsupport/b-nd1.tgz")
  /\ fst (select_techsupport Examples.plain_host (Some "/x.tgz") Examples.start)
     = Ok (Some "/x.tgz")
  /\ fst (select_techsupport Examples.no_archive_host None Examples.start)
     = Ok None.
Proof.
  destruct (select_techsupport_choice Examples.plain_host None Examples.start
              fresh eq_refl eq_refl) as (_ & _ & H3).
  destruct (select_techsupport_choice Examples.plain_host (Some "/x.tgz")
              Examples.start fresh eq_refl eq_refl) as (H1 & _).
  destruct (select_techsupport_choice Examples.no_archive_host None
              Examples.start fresh eq_refl eq_refl) as (_ & H2 & _).
  split; [|split].
  - destruct (H3 eq_refl) as (newest & t & E & _).
    + discriminate.
    + intros f [Hf|[Hf|[]]]; discriminate.
    + reflexivity.
  - apply (H1 "/x.tgz" eq_refl); [discriminate|reflexivity].
  - exact (proj1 (H2 eq_refl eq_refl)).
Defined.

(** ** The heartbeats of the checks *)

Section Hushed.

Lemma hu_ret {A} (a : A) : hushed (ret a).
Proof. intros s. simpl. auto. Qed.

Lemma hu_raise {A} (msg : string) : hushed (@raise A msg).
Proof. intros s. simpl. auto. Qed.

Lemma hu_bind {A B} (m : M A) (k : A -> M B) :
  hushed m -> (forall a, hushed (k a)) -> hushed (bind m k).
Proof.
  intros Hm Hk s. unfold bind. specialize (Hm s).
  destruct (m s) as [[a|msg|c] s1]; simpl in *; auto.
  specialize (Hk a s1). destruct (k a s1) as [[b|msg|c] s2]; simpl in *; auto;
    destruct Hm, Hk; split; congruence.
Qed.

Lemma hu_try_except {A} (m : M A) (h : string -> M A) :
  hushed m -> (forall e, hushed (h e)) -> hushed (try_except m h).
Proof.
  intros Hm Hh s. unfold try_except. specialize (Hm s).
  destruct (m s) as [[a|msg|c] s1]; simpl in *; auto.
  specialize (Hh msg s1). destruct (h msg s1) as [[b|msg'|c] s2]; simpl in *;
    auto; destruct Hm, Hh; split; congruence.
Qed.

Lemma hu_ignore {A} (m : M A) : hushed m -> hushed (ignore m).
Proof. intros H. apply hu_bind; auto. intros a. apply hu_ret. Qed.

Lemma hu_when (b : bool) (m : M unit) : hushed m -> hushed (when b m).
Proof. intros H. destruct b; simpl; auto. apply hu_ret. Qed.

Lemma hu_for_each {A} (l : list A) (body : A -> M unit) :
  (forall x, hushed (body x)) -> hushed (for_each l body).
Proof.
  intros H. induction l as [|x l IH]; simpl.
  - apply hu_ret.
  - apply hu_bind; auto.
Qed.

Lemma hu_fold_m {A B} (l : list A) (acc : B) (body : B -> A -> M B) :
  (forall b x, hushed (body b x)) -> hushed (fold_m l acc body).
Proof.
  intros H. revert acc. induction l as [|x l IH]; intros acc; simpl.
  - apply hu_ret.
  - apply hu_bind; auto.
Qed.

Lemma hu_tick : hushed tick.
Proof.
  intros s. unfold tick, signal_handler.
  destruct (sigint s) as [[|n]|]; simpl; auto.
Qed.

(** A state update that leaves the status file alone, as a step. *)
Lemma hu_update {A} (a : A) (f : St -> St) :
  (forall s, status_file (f s) = status_file s) ->
  (forall s, status_writable (f s) = status_writable s) ->
  hushed (fun s => (Ok a, f s)).
Proof. intros H1 H2 s. simpl. auto. Qed.

Lemma hu_save_results : hushed save_results.
Proof.
  unfold save_results. apply hu_bind; [apply hu_tick|intros _].
  apply hu_update; intros s.
  - apply beats_write_results.
  - apply (proj2 (proj2 (write_results_keeps s))).
Qed.

Lemma hu_entry (name : string) : hushed (entry name).
Proof.
  intros s. unfold entry. destruct (Dict.get name (checks s)); simpl; auto.
Qed.

Lemma hu_has_entry (name : string) : hushed (has_entry name).
Proof. intros s. simpl. auto. Qed.

Lemma hu_modify (name : string) (f : CheckResult -> CheckResult) :
  hushed (tick ;; cr <- entry name ;; put_entry name (f cr)).
Proof.
  apply hu_bind; [apply hu_tick|intros _].
  intros s. unfold bind, entry, put_entry.
  destruct (Dict.get name (checks s)); simpl; auto.
Qed.

Lemma hu_set_status (name v : string) : hushed (set_status name v).
Proof. apply (hu_modify name (fun cr => mkCR v (details cr) (extra cr))). Qed.

Lemma hu_set_details (name : string) (l : list string) :
  hushed (set_details name l).
Proof. apply (hu_modify name (fun cr => mkCR (status cr) l (extra cr))). Qed.

Lemma hu_append_detail (name d : string) : hushed (append_detail name d).
Proof.
  apply (hu_modify name
           (fun cr => mkCR (status cr) (details cr ++ [d]) (extra cr))).
Qed.

Lemma hu_set_extra (name key v : string) : hushed (set_extra name key v).
Proof.
  apply (hu_modify name
           (fun cr => mkCR (status cr) (details cr) (Dict.set key v (extra cr)))).
Qed.

Lemma hu_replace_entry (name : string) (cr : CheckResult) :
  hushed (replace_entry name cr).
Proof.
  unfold replace_entry. apply hu_bind; [apply hu_tick|intros _].
  intros s. simpl. auto.
Qed.

Lemma hu_get_status (name : string) : hushed (get_status name).
Proof.
  unfold get_status. apply hu_bind; [apply hu_entry|intros cr]. apply hu_ret.
Qed.

Lemma hu_set_version (v : string) : hushed (set_version v).
Proof.
  unfold set_version. apply hu_bind; [apply hu_tick|intros _].
  intros s. simpl. auto.
Qed.

Lemma hu_get_file_cache (h : Host) : hushed (get_file_cache h).
Proof.
  intros s. unfold get_file_cache.
  destruct (file_cache s) as [c|]; simpl; auto.
  destruct (String.eqb (FileCache.base_dir c) (node_dir h)); simpl; auto.
Qed.

Lemma hu_find_and_extend (h : Host) (cache : FileCache.t)
      (pattern : string) (more : list string) :
  hushed (find_and_extend h cache pattern more).
Proof.
  intros s. unfold find_and_extend.
  destruct (Dict.get pattern (FileCache.file_cache cache)); simpl; auto.
Qed.

Lemma hu_run_extraction_command (h : Host) (cmd : sh) :
  hushed (run_extraction_command h cmd).
Proof.
  intros s. unfold run_extraction_command.
  destruct (sh_run (sh_ok h) cmd) as [ran ok]. simpl. auto.
Qed.

Lemma hu_run_command_unified (h : Host) (cmd : sh) :
  hushed (run_command_unified h cmd).
Proof.
  unfold run_command_unified.
  apply hu_bind; [apply hu_run_extraction_command|intros ok]. apply hu_ret.
Qed.

Lemma status_file_write_sigint (hb : Heartbeat) (i : option nat) (s : St) :
  status_file (write_status hb (with_sigint i s))
  = status_file (write_status hb s)
  /\ status_writable (write_status hb (with_sigint i s)) = status_writable s.
Proof.
  unfold write_status. simpl. destruct (status_writable s) eqn:E; simpl; auto.
Qed.

(** A check: its heartbeat first, then code that writes none. *)
Lemma beat_first {A} (st op : string) (pr : Z) (k : M A) :
  hushed k -> one_beat (mkHB st op pr) (update_status st op pr ;; k).
Proof.
  intros Hk s. unfold update_status, bind, tick, signal_handler.
  destruct (sigint s) as [[|n]|] eqn:E; simpl; auto.
  - specialize (Hk (write_status (mkHB st op pr) (with_sigint (Some n) s))).
    destruct (status_file_write_sigint (mkHB st op pr) (Some n) s) as [E1 E2].
    destruct (k _) as [[a|msg|c] s1]; simpl in *; auto;
      destruct Hk; split; congruence.
  - specialize (Hk (write_status (mkHB st op pr) s)).
    assert (E2 : status_writable (write_status (mkHB st op pr) s)
                 = status_writable s)
      by apply (proj2 (proj2 (write_status_keeps _ s))).
    destruct (k _) as [[a|msg|c] s1]; simpl in *; auto;
      destruct Hk; split; congruence.
Qed.

Lemma beat_try_except {A} (hb : Heartbeat) (m : M A) (h : string -> M A) :
  one_beat hb m -> (forall e, hushed (h e)) -> one_beat hb (try_except m h).
Proof.
  intros Hm Hh s. unfold try_except. specialize (Hm s).
  destruct (m s) as [[a|msg|c] s1]; simpl in *; auto.
  specialize (Hh msg s1). destruct (h msg s1) as [[b|msg'|c] s2]; simpl in *;
    auto; destruct Hm, Hh; split; congruence.
Qed.

Lemma beat_ignore {A} (hb : Heartbeat) (m : M A) :
  one_beat hb m -> one_beat hb (ignore m).
Proof.
  intros Hm s. unfold ignore, bind. specialize (Hm s).
  destruct (m s) as [[a|msg|c] s1]; simpl in *; auto.
Qed.

End Hushed.

Create HintDb hu_db.
#[global] Hint Resolve
  hu_ret hu_raise hu_tick hu_save_results hu_entry hu_has_entry hu_set_status
  hu_set_details hu_append_detail hu_set_extra hu_replace_entry hu_get_status
  hu_set_version hu_get_file_cache hu_find_and_extend
  hu_run_extraction_command hu_run_command_unified : hu_db.

Ltac hu_step :=
  first
    [ solve [auto with hu_db nocore]
    | apply hu_bind; [|intro]
    | apply hu_try_except; [|intro]
    | apply hu_ignore
    | apply hu_when
    | apply hu_for_each; intro
    | apply hu_fold_m; intros
    | match goal with
      | |- hushed (match ?x with _ => _ end) => destruct x
      end
    | progress cbv zeta ].

Ltac hu_tac := repeat hu_step.

Section BeatsOfChecks.

Variable h : Host.
Variable p : Probe.

Lemma beat_robust_check (hb : Heartbeat) (name : string) (func : M bool) :
  one_beat hb func -> one_beat hb (robust_check name func).
Proof.
  intros H. unfold robust_check. apply beat_try_except; [exact H|].
  intros e. hu_tac.
Qed.

(** Each block of [main] writes the heartbeat of its check. *)
Lemma beat_worker_blocks (dest : string) :
  Forall2 (fun hb g => one_beat hb (run_guarded g))
          check_beats (main_checks (worker_bodies h p dest)).
Proof.
  assert (forall b x, hushed (subnet_node p b x))
    by (intros b [[n d] m]; unfold subnet_node; hu_tac).
  assert (forall b x, hushed (node_row b x))
    by (intros b x; unfold node_row; hu_tac).
  assert (forall l, hushed (disk_fail l))
    by (intros l; unfold disk_fail; hu_tac).
  assert (forall sc, hushed (pods_final sc))
    by (intros sc; unfold pods_final; hu_tac).
  assert (hushed nxos_unable) by (unfold nxos_unable; hu_tac).
  assert (forall ls found, hushed (k8_app_scan ls found))
    by (induction ls as [|l ls IH]; intros found; simpl; hu_tac).
  assert (forall m ff, hushed (ca_final h m ff))
    by (intros m ff; unfold ca_final; hu_tac).
  assert (forall d, hushed (ca_warning d))
    by (intros d; unfold ca_warning; hu_tac).
  assert (forall m fe, hushed (iso_final h p m fe))
    by (intros m fe; unfold iso_final; hu_tac).
  assert (forall e r, hushed (pip_extras e r))
    by (intros e r; unfold pip_extras; hu_tac).
  assert (forall c, hushed (pip_analyse p c))
    by (intros c; unfold pip_analyse; hu_tac).
  assert (forall d e r, hushed (nvme_warning d e r))
    by (intros d e r; unfold nvme_warning; hu_tac).
  assert (hushed vg_unable) by (unfold vg_unable; hu_tac).
  unfold main_checks, check_beats.
  repeat (apply Forall2_cons;
          [unfold run_guarded; simpl;
           apply beat_try_except; [|intros e; solve [hu_tac]];
           try apply beat_ignore; try apply beat_robust_check;
           first [ unfold check_subnet_isolation; apply beat_first; solve [hu_tac]
                 | unfold check_ping_reachability; apply beat_first; solve [hu_tac]
                 | unfold check_node_status; apply beat_first; solve [hu_tac]
                 | unfold check_disk_space; apply beat_first; solve [hu_tac]
                 | unfold check_pods, pods_live; apply beat_first; solve [hu_tac]
                 | unfold check_system_health; apply beat_first; solve [hu_tac]
                 | unfold check_nxos_discovery_service; apply beat_first;
                   solve [hu_tac]
                 | unfold check_CA_CSCwm35992; apply beat_first; solve [hu_tac]
                 | unfold check_ISOs_CSCwn94394; apply beat_first; solve [hu_tac]
                 | unfold check_lvm_pvs; apply beat_first; solve [hu_tac]
                 | unfold check_persistent_ip_config; apply beat_first;
                   solve [hu_tac]
                 | unfold check_atom0_nvme, nvme_no_node_type, nvme_no_pvs;
                   apply beat_first; solve [hu_tac]
                 | unfold check_atom0_vg; apply beat_first; solve [hu_tac] ]|]).
  apply Forall2_nil.
Qed.

Lemma written_write_status (hb : Heartbeat) (s : St) :
  status_file (write_status hb s) = written [hb] s.
Proof. unfold write_status, written. now destruct (status_writable s). Qed.

(** A sequence of blocks that all end normally wrote their heartbeats,
    in order. *)
Lemma beats_of_blocks (beats : list Heartbeat) (blocks : list guarded) :
  Forall2 (fun hb g => one_beat hb (run_guarded g)) beats blocks ->
  forall s s', for_each blocks run_guarded s = (Ok tt, s') ->
               status_file s' = written beats s
               /\ status_writable s' = status_writable s.
Proof.
  induction 1 as [|hb g beats blocks Hg _ IH]; intros s s' E.
  - inversion E; subst. unfold written. rewrite app_nil_r.
    split; [now destruct (status_writable s')|reflexivity].
  - cbn [for_each] in E. apply bind_Ok in E. destruct E as (u & s1 & E1 & E2).
    specialize (Hg s). rewrite E1 in Hg. simpl in Hg. destruct Hg as [G1 G2].
    destruct (IH s1 s' E2) as [I1 I2]. split; [|congruence].
    rewrite I1. unfold written. rewrite G2, G1, written_write_status.
    unfold written. destruct (status_writable s); [|reflexivity].
    now rewrite <- app_assoc.
Qed.

(** The part of [main] from the first check to the end. *)
Lemma beats_of_checks (dest : string) (s s' : St) (n : Z) :
  Dict.keys (checks s) = registered ->
  (try_except (run_checks (worker_bodies h p dest))
              (mark_not_run "Check did not run: ") ;;
   update_status "complete" "All operations completed" 100 ;;
   save_results ;; ret 0%Z) s = (Ok n, s') ->
  status_file s' = written (check_beats ++ [complete_hb]) s
  /\ status_writable s' = status_writable s.
Proof.
  intros Hk E.
  apply bind_Ok in E. destruct E as (u & s1 & E1 & E).
  apply bind_Ok in E. destruct E as (u2 & s2 & E2 & E).
  apply bind_Ok in E. destruct E as (u3 & s3 & E3 & E).
  inversion E; subst. clear E.
  assert (Ec : run_checks (worker_bodies h p dest) s = (Ok tt, s1)).
  { pose proof (total_run_checks _ (good_worker_bodies h p dest) s Hk) as T.
    unfold try_except in E1.
    destruct (run_checks (worker_bodies h p dest) s) as [[[]|e|c] t] eqn:Er.
    - destruct u. exact E1.
    - exfalso. now apply (T e).
    - discriminate. }
  destruct (beats_of_blocks _ _ (beat_worker_blocks dest) s s1 Ec) as [B1 B2].
  apply update_status_Ok in E2. destruct E2 as (t1 & F1 & ->).
  apply save_results_Ok in E3. destruct E3 as (t2 & F2 & ->).
  destruct F1 as (_ & F1 & _ & F1w & _). destruct F2 as (_ & F2 & _ & F2w & _).
  destruct (write_results_keeps t2) as (_ & R1 & R2 & _).
  rewrite R1, R2, F2, F2w.
  destruct (write_status_keeps (mkHB "complete" "All operations completed" 100) t1)
    as (_ & _ & W1 & _).
  rewrite W1, F1w, B2. split; [|reflexivity].
  rewrite written_write_status. unfold written.
  rewrite F1w, F1, B2, B1. unfold written.
  destruct (status_writable s); [|reflexivity].
  now rewrite <- app_assoc.
Qed.

(** The [try] block of [main] returns 0 only after the checks and the
    closing heartbeat. *)
Lemma beats_of_main_body (s s' : St) :
  Dict.keys (checks s) = registered ->
  main_body h (worker_bodies h p) s = (Ok 0%Z, s') ->
  status_writable s' = status_writable s
  /\ exists t, status_file s' = written (check_beats ++ [complete_hb]) t
               /\ status_writable t = status_writable s.
Proof.
  intros Hk E. unfold main_body, try_except in E.
  match type of E with
  | context [match ?m s with _ => _ end] =>
      destruct (m s) as [[a|e|c] s1] eqn:Em
  end.
  - inversion E; subst a s1. clear E.
    apply bind_Ok in Em. destruct Em as (u & t0 & E0 & Em).
    assert (H0 : t0 = s).
    { unfold makedirs in E0. destruct (makedirs_error h BASE_DIR);
        inversion E0; reflexivity. }
    subst t0. cbv zeta in Em.
    apply bind_Ok in Em. destruct Em as (tf & t1 & E1 & Em).
    assert (G1 : grows s t1).
    { assert (G : good (if String.eqb (nth 0 (argv h) "select") "generate"
                        then generate_techsupport h (nth_error (argv h) 2)
                        else select_techsupport h (nth_error (argv h) 1))).
      { destruct (String.eqb (nth 0 (argv h) "select") "generate");
          [apply good_generate_techsupport|apply good_select_techsupport]. }
      pose proof (proj1 (G s)) as Gr. now rewrite E1 in Gr. }
    destruct (truthy tf) as [f|].
    + apply bind_Ok in Em. destruct Em as (u2 & t2 & E2 & Em).
      assert (H2 : t2 = t1).
      { unfold makedirs in E2. destruct (makedirs_error h (node_dir h));
          inversion E2; reflexivity. }
      subst t2.
      apply bind_Ok in Em. destruct Em as (u3 & t3 & E3 & Em).
      assert (G3 : grows t1 t3).
      { pose proof (proj1 (good_extract_techsupport h (node_dir h) (basename f) t1))
          as Gr. now rewrite E3 in Gr. }
      assert (Hk3 : Dict.keys (checks t3) = registered)
        by (apply (g_keys _ _ G3), (g_keys _ _ G1), Hk).
      destruct (beats_of_checks _ _ _ _ Hk3 Em) as [B1 B2].
      split.
      * rewrite B2, (g_status_w _ _ G3). apply (g_status_w _ _ G1).
      * exists t3. split; [exact B1|].
        rewrite (g_status_w _ _ G3). apply (g_status_w _ _ G1).
    + exfalso.
      pose proof (ends_closing_failed "error" "Failed to obtain tech support file"
                    0 1 "techsupport" "FAIL"
                    ["Failed to obtain tech support file"]) as Hc.
      assert (Hf : final_heartbeat (Ok 1%Z)
                     (mkHB "error" "Failed to obtain tech support file" 0))
        by (right; repeat split).
      destruct (Hc Hf t1 0%Z s' Em) as [H01 _]. discriminate.
  - exfalso.
    apply bind_Ok in E. destruct E as (u & t0 & E0 & E).
    assert (Hf : final_heartbeat (Ok 1%Z) (mkHB "error" ("Error: " ++ e) 0))
      by (right; repeat split).
    destruct (ends_closing "error" ("Error: " ++ e) 0 1 Hf t0 0%Z s' E)
      as [H01 _].
    discriminate.
  - discriminate.
Qed.

End BeatsOfChecks.

Lemma nondecreasing_cons (a : Z) (l : list Z) :
  nondecreasing l = false -> nondecreasing (a :: l) = false.
Proof.
  destruct l as [|z l]; [discriminate|]. intros H.
  change (nondecreasing (a :: z :: l))
    with ((a <=? z)%Z && nondecreasing (z :: l)).
  rewrite H. apply andb_false_r.
Qed.

Lemma dip_not_nondecreasing (pre rest : list Z) (x y : Z) :
  (y < x)%Z -> nondecreasing (pre ++ x :: y :: rest) = false.
Proof.
  intros Hlt. induction pre as [|a pre IH].
  - simpl. destruct (Z.leb_spec x y); [lia|reflexivity].
  - apply nondecreasing_cons. exact IH.
Qed.

(** C5, as amended: a run without interrupt that ends with exit status 0
    wrote, as its last heartbeats, the thirteen heartbeats of the checks
    in the order [main] runs them and then the complete heartbeat. So the
    progress values end with 93, 92, 92, 94, 96, 98, 98, 95, 95, 95, 97,
    97, 98, 100: the last one is 100 but the sequence is never
    non-decreasing. Every value lies between 0 and 100 when the elapsed
    times of the polling loop are not negative. *)
Theorem progress_of_complete_run (h : Host) (p : Probe) (results_ok : bool) :
  let r := run h p true results_ok None in
  fst r = Ok 0%Z ->
  (exists pre, status_file (snd r) = pre ++ check_beats ++ [complete_hb])
  /\ (exists pre,
        progress_log (snd r)
        = pre ++ [93; 92; 92; 94; 96; 98; 98; 95; 95; 95; 97; 97; 98; 100]%Z)
  /\ nondecreasing (progress_log (snd r)) = false
  /\ (Forall (fun e => (0 <= e)%Z) (poll_elapsed h) ->
      Forall (fun v => (0 <= v <= 100)%Z) (progress_log (snd r))).
Proof.
  intros r H0. subst r. unfold run, worker_main in *.
  set (s := initial_state true results_ok None) in *.
  assert (Hp : exists pre,
             status_file (snd (main h (worker_bodies h p) s))
             = pre ++ check_beats ++ [complete_hb]).
  { unfold main in *.
    pose proof (good_main_body h (worker_bodies h p) (good_worker_bodies h p) s)
      as [_ Gs].
    destruct (main_body h (worker_bodies h p) s) as [rb s1] eqn:Eb.
    simpl in Gs.
    assert (Hs1 : sigint s1 = None).
    { destruct rb as [a|e|c]; [now apply Gs|now apply Gs|].
      destruct Gs as (_ & _ & Hh). apply Hh. }
    destruct (finally_calm h _ s s1 rb Eb Hs1) as [l El].
    rewrite El in H0. rewrite El. simpl in H0. subst rb. simpl.
    destruct (beats_of_main_body h p s s1 eq_refl Eb) as (Hw & t & Ht & Htw).
    unfold written in Ht. rewrite Htw in Ht. simpl in Ht.
    exists (status_file t). exact Ht. }
  destruct Hp as [pre Hp].
  assert (Hl : progress_log (snd (main h (worker_bodies h p) s))
               = map hb_progress pre
                 ++ [93; 92; 92; 94; 96; 98; 98; 95; 95; 95; 97; 97; 98; 100]%Z).
  { unfold progress_log. rewrite Hp, map_app. reflexivity. }
  split; [now exists pre|]. split; [now exists (map hb_progress pre)|].
  split.
  - rewrite Hl. apply dip_not_nondecreasing. lia.
  - intros He. unfold progress_log. apply Forall_map.
    pose proof (kb_main h p He s (Forall_nil _)) as Hb.
    unfold worker_main in Hb.
    eapply Forall_impl; [|exact Hb]. intros hb [_ Hb']. exact Hb'.
Qed.

Lemma progress_of_complete_run_witness :
  let r := run Examples.plain_host Examples.silent_probe true true None in
  fst r = Ok 0%Z
  /\ nondecreasing (progress_log (snd r)) = false
  /\ Forall (fun v => (0 <= v <= 100)%Z) (progress_log (snd r)).
Proof.
  intros r.
  assert (H0 : fst r = Ok 0%Z) by (vm_compute; reflexivity).
  destruct (progress_of_complete_run Examples.plain_host Examples.silent_probe
              true H0) as (_ & _ & H3 & H4).
  split; [exact H0|]. split; [exact H3|]. apply H4. constructor.
Defined.

(** C5, as stated, fails: in this run, which completes without interrupt
    or error, the ping check writes progress 92 after the subnet check
    wrote 93, and the certificate check writes 95 after 98. *)
Lemma progress_not_monotone :
  let r := run Examples.plain_host Examples.silent_probe true true None in
  fst r = Ok 0%Z
  /\ progress_log (snd r)
     = [10; 20; 50; 90; 93; 92; 92; 94; 96; 98; 98; 95; 95; 95; 97; 97; 98;
        100]%Z
  /\ nondecreasing (progress_log (snd r)) = false.
Proof. vm_compute. repeat split. Qed.

(** ** The exit status *)

Section ExitCode.

Variable h : Host.








End ExitCode.




(** ** The extraction chains *)

Section ExtractionChains.

Variable h : Host.



Lemma kc_try_except {A} (m : M A) (hd : string -> M A) :
  keeps_commands m -> (forall e, keeps_commands (hd e)) ->
  keeps_commands (try_except m hd).
Proof.
  intros Hm Hh s. unfold try_except. specialize (Hm s).
  destruct (m s) as [[a|e|c] s1]; simpl in *; auto. now rewrite Hh.
Qed.







End ExtractionChains.




(** ** Faults at the boundary of a check *)

Section FaultBoundary.

Lemma ignore_raises {A} (m : M A) (s s1 : St) (msg : string) :
  ignore m s = (Exc msg, s1) -> m s = (Exc msg, s1).
Proof.
  unfold ignore, bind, ret. destruct (m s) as [[a|e|c] t]; congruence.
Qed.

Lemma for_each_app {A} (l1 l2 : list A) (body : A -> M unit) (s s1 : St) :
  for_each l1 body s = (Ok tt, s1) ->
  for_each (l1 ++ l2) body s = for_each l2 body s1.
Proof.
  revert s. induction l1 as [|x l1 IH]; intros s E; simpl in *.
  - unfold ret in E. congruence.
  - unfold bind in *. destruct (body x s) as [[u|e|c] t]; try discriminate.
    now apply IH.
Qed.

(** The [except] clause of a block of [main] on an exception of the
    call. *)
Lemma run_guarded_fault
      (name st : string) (call : M unit) (det : string -> list string)
      (s s1 : St) (msg : string) (cr : CheckResult) :
  call s = (Exc msg, s1) -> sigint s1 = None ->
  Dict.get name (checks s1) = Some cr ->
  run_guarded (mkGuarded name call st det) s
  = (Ok tt,
     with_checks (Dict.set name (mkCR st (det msg) (extra cr)) (checks s1)) s1).
Proof.
  intros E Hs Hk. unfold run_guarded, try_except. simpl. rewrite E.
  unfold bind. rewrite (set_status_calm name st s1 cr Hs Hk).
  rewrite (set_details_calm name (det msg) _ (mkCR st (details cr) (extra cr)));
    [|exact Hs|apply dict_get_set_same].
  simpl. rewrite with_checks_twice. simpl. now rewrite dict_set_set.
Qed.

(** A block whose function is decorated: the decorator has converted the
    exception before the [except] clause of the block could see it. *)
Lemma run_guarded_decorated
      (name st : string) (func : M bool) (det : string -> list string)
      (s s1 : St) (msg : string) (cr : CheckResult) :
  func s = (Exc msg, s1) -> sigint s1 = None ->
  Dict.get name (checks s1) = Some cr ->
  run_guarded (mkGuarded name (ignore (robust_check name func)) st det) s
  = (Ok tt,
     with_checks (Dict.set name (mkCR "FAIL" (check_failed msg) (extra cr))
                           (checks s1)) s1).
Proof.
  intros E Hs Hk. unfold run_guarded, try_except, ignore, bind. simpl.
  rewrite (robust_check_calm name func s s1 msg E Hs). now rewrite Hk.
Qed.

End FaultBoundary.

(** C2: whatever the thirteen check functions are, when the function of a
    block of [main] raises an exception (no interrupt pending, the entry
    of the check in place), the block ends normally: the entry of that
    check becomes FAIL with the single detail "Check failed: <message>"
    (its optional keys stay), every other entry, the two files and the
    commands run are as the function left them when it raised, and the
    sequence goes on with the next block. *)
Theorem fault_isolation
        (b : Bodies) (pre post : list guarded) (g : guarded) (m : M unit)
        (s0 s s1 : St) (msg : string) (cr : CheckResult) :
  main_checks b = pre ++ g :: post ->
  body_of b (g_name g) = Some m ->
  for_each pre run_guarded s0 = (Ok tt, s) ->
  m s = (Exc msg, s1) ->
  sigint s1 = None ->
  result_of (g_name g) s1 = Some cr ->
  exists s',
    run_guarded g s = (Ok tt, s')
    /\ result_of (g_name g) s'
       = Some (mkCR "FAIL" [("Check failed: " ++ msg)%string] (extra cr))
    /\ (forall k, k <> g_name g -> result_of k s' = result_of k s1)
    /\ status_file s' = status_file s1
    /\ results_file s' = results_file s1
    /\ commands s' = commands s1
    /\ run_checks b s0 = for_each post run_guarded s'.
Proof.
  intros Hm Hb Hpre E Hs Hk. unfold result_of in Hk.
  exists (with_checks
            (Dict.set (g_name g)
                      (mkCR "FAIL" (check_failed msg) (extra cr)) (checks s1))
            s1).
  assert (R : run_guarded g s
              = (Ok tt,
                 with_checks
                   (Dict.set (g_name g)
                             (mkCR "FAIL" (check_failed msg) (extra cr))
                             (checks s1)) s1)).
  { assert (Hin : In g (main_checks b)) by (rewrite Hm; apply in_elt).
    clear Hm Hpre. unfold main_checks in Hin. simpl in Hin.
    repeat (destruct Hin as [<-|Hin];
            [simpl in Hb, Hk |- *; injection Hb as <-;
             first [ now apply run_guarded_fault
                   | apply run_guarded_decorated;
                     [now apply ignore_raises|assumption|assumption]
                   | apply run_guarded_fault;
                     [exact E|assumption|assumption] ]|]).
    contradiction. }
  split; [exact R|]. unfold result_of.
  split; [apply dict_get_set_same|].
  split; [intros k Hne; simpl; now apply dict_get_set_other|].
  split; [reflexivity|]. split; [reflexivity|]. split; [reflexivity|].
  unfold run_checks. rewrite Hm.
  rewrite (for_each_app pre (g :: post) run_guarded s0 s Hpre).
  simpl. unfold bind. now rewrite R.
Qed.

Lemma fault_isolation_witness :
  let b := worker_bodies Examples.plain_host Examples.silent_probe EmptyString in
  exists s',
    run_guarded (mkGuarded "pod_status"
                           (ignore (robust_check "pod_status" (b_pods b)))
                           "FAIL" check_failed)
                (snd (for_each (firstn 4 (main_checks b)) run_guarded
                               Examples.start))
    = (Ok tt, s')
    /\ result_of "pod_status" s'
       = Some (mkCR "FAIL"
                 ["Check failed: local variable 'pod_info_extracted' referenced before assignment"]
                 [])
    /\ run_checks b Examples.start
       = for_each (skipn 5 (main_checks b)) run_guarded s'.
Proof.
  intros b.
  destruct (fault_isolation b (firstn 4 (main_checks b))
              (skipn 5 (main_checks b))
              (mkGuarded "pod_status"
                         (ignore (robust_check "pod_status" (b_pods b)))
                         "FAIL" check_failed)
              (ignore (b_pods b)) Examples.start
              (snd (for_each (firstn 4 (main_checks b)) run_guarded
                             Examples.start))
              (snd (ignore (b_pods b)
                      (snd (for_each (firstn 4 (main_checks b)) run_guarded
                                     Examples.start))))
              "local variable 'pod_info_extracted' referenced before assignment"
              fresh)
    as (s' & R & H1 & _ & _ & _ & _ & H2);
    try (vm_compute; reflexivity).
  exists s'. split; [exact R|]. split; [exact H1|exact H2].
Defined.
